(** * MemoriQ: retrieval-augmented memory subsystem

    A shallow embedding of the TypeScript sources under [src/lib] and
    [src/database] (vector codec, embedding generator, debounced
    schedulers, similarity retrieval, reminisce selection, query
    embedding), followed by the properties established about them.

    Conventions of the embedding:
    - a JavaScript [number] is an IEEE-754 binary64 value: Rocq's primitive
      [float]; integers that the code only counts with (ids, lengths,
      millisecond timestamps, indices) are [Z];
    - a JavaScript string is the list of its UTF-16 code units;
    - [async] functions are run to completion: a function that can reject
      or throw returns an [outcome]; a function that mutates the store
      takes and returns the store;
    - collaborators outside the sources (the SQLite handle, the llama
      contexts, SHA-256, [Date.now], [Math.random]) are fields of [Env]. *)

From Stdlib Require Import ZArith NArith List Bool Lia String Ascii.
From Stdlib Require Import Floats Uint63 Strings.Byte.
From Stdlib Require Import Sorting.Permutation Sorting.Sorted.
Import ListNotations.

#[local] Set Warnings "-inexact-float".
#[local] Open Scope Z_scope.

(* ================================================================== *)
(** * Part I. The model                                                *)
(* ================================================================== *)

(** ** Control flow: exceptions and rejected promises *)

Inductive js_error : Type :=
| RangeError (msg : string)
| TypeError (msg : string)
| Error (msg : string).

(** The result of running a (possibly asynchronous) function to
    completion: it returns / resolves, or it throws / rejects. *)
Inductive outcome (A : Type) : Type :=
| Return (a : A)
| Throw (e : js_error).
Arguments Return {A} a.
Arguments Throw {A} e.

Definition bind {A B : Type} (m : outcome A) (k : A -> outcome B) : outcome B :=
  match m with
  | Return a => k a
  | Throw e => Throw e
  end.

(** [try { body } catch (error) { handler }] *)
Definition try_catch {A : Type} (body : outcome A) (handler : js_error -> outcome A)
  : outcome A :=
  match body with
  | Return a => Return a
  | Throw e => handler e
  end.

Declare Scope js_scope.
Delimit Scope js_scope with js.
Notation "x <- m ;; k" := (bind m (fun x => k))
  (at level 61, m at next level, right associativity) : js_scope.

(** ** Strings *)

(** A string is its sequence of UTF-16 code units. *)
Definition jsstring : Type := list N.

Definition str (s : string) : jsstring :=
  map N_of_ascii (list_ascii_of_string s).

Definition jsstring_eqb (a b : jsstring) : bool :=
  if list_eq_dec N.eq_dec a b then true else false.

(** WhiteSpace and LineTerminator code points of ECMAScript, the ones
    [String.prototype.trim] strips. *)
Definition isWhiteSpace (c : N) : bool :=
  existsb (N.eqb c)
    [9; 10; 11; 12; 13; 32; 160; 5760; 8232; 8233; 8239; 8287; 12288; 65279]%N
  || ((8192 <=? c) && (c <=? 8202))%N.

Fixpoint trimStart (s : jsstring) : jsstring :=
  match s with
  | c :: s' => if isWhiteSpace c then trimStart s' else s
  | [] => []
  end.

Definition trim (s : jsstring) : jsstring :=
  rev (trimStart (rev (trimStart s))).

(** [parts.join(sep)] *)
Fixpoint join (sep : jsstring) (parts : list jsstring) : jsstring :=
  match parts with
  | [] => []
  | [p] => p
  | p :: rest => p ++ sep ++ join sep rest
  end.

(** ** Numbers *)

(** An integer-valued number below 2^53 as a binary64 value (exact). *)
Definition Z2float (z : Z) : float :=
  if z <? 0 then (- of_uint63 (Uint63.of_Z (- z)))%float
  else of_uint63 (Uint63.of_Z z).

(** [undefined] coerced by an arithmetic operator is [NaN]. *)
Definition ToNumber (v : option float) : float :=
  match v with
  | Some x => x
  | None => nan
  end.

(** ** Array buffers and typed arrays *)

(** The byte order of the platform, the one typed-array views use. *)
Inductive ByteOrder : Type := LittleEndian | BigEndian.

Definition byte_to_Z (b : byte) : Z := Z.of_N (Byte.to_N b).

Definition byte_of_Z (z : Z) : byte :=
  match Byte.of_N (Z.to_N (z mod 256)) with
  | Some b => b
  | None => x00
  end.

(** The four bytes of a 32-bit word, least significant first. *)
Definition word_to_le (w : Z) : list byte :=
  [byte_of_Z w; byte_of_Z (w / 256); byte_of_Z (w / 65536); byte_of_Z (w / 16777216)].

Definition le_to_word (bs : list byte) : Z :=
  fold_right (fun b acc => byte_to_Z b + 256 * acc) 0 bs.

Definition word_to_bytes (bo : ByteOrder) (w : Z) : list byte :=
  match bo with
  | LittleEndian => word_to_le w
  | BigEndian => rev (word_to_le w)
  end.

Definition bytes_to_word (bo : ByteOrder) (bs : list byte) : Z :=
  match bo with
  | LittleEndian => le_to_word bs
  | BigEndian => le_to_word (rev bs)
  end.

(** IEEE-754 binary32 interchange format: 1 sign bit, 8 exponent bits
    (bias 127), 23 fraction bits.  A binary32 datum is a [spec_float]
    of precision 24 and [emax] 128. *)
Definition b32_prec : Z := 24.
Definition b32_emax : Z := 128.

Definition bits_of_b32 (x : spec_float) : Z :=
  match x with
  | S754_zero s => if s then 2 ^ 31 else 0
  | S754_infinity s => (if s then 2 ^ 31 else 0) + 255 * 2 ^ 23
  | S754_nan => 255 * 2 ^ 23 + 2 ^ 22
  | S754_finite s m e =>
      (if s then 2 ^ 31 else 0) +
      (if 2 ^ 23 <=? Zpos m
       then (e + 150) * 2 ^ 23 + (Zpos m - 2 ^ 23)
       else Zpos m)
  end.

Definition b32_of_bits (w : Z) : spec_float :=
  let s := 2 ^ 31 <=? w in
  let e := (w / 2 ^ 23) mod 256 in
  let f := w mod 2 ^ 23 in
  if e =? 0 then
    if f =? 0 then S754_zero s else S754_finite s (Z.to_pos f) (-149)
  else if e =? 255 then
    if f =? 0 then S754_infinity s else S754_nan
  else S754_finite s (Z.to_pos (f + 2 ^ 23)) (e - 150).

(** Conversion of a number to the nearest binary32 datum (ties to
    even), as a typed-array store or [Math.fround] does. *)
Definition fround (x : float) : spec_float :=
  match Prim2SF x with
  | S754_finite s m e =>
      binary_normalize b32_prec b32_emax (cond_Zopp s (Zpos m)) e s
  | other => other
  end.

(** The number held by a binary32 datum (every one is a binary64 value). *)
Definition number_of_b32 (x : spec_float) : float := SF2Prim x.

(** [Uint8Array]: a view of [byteLength] bytes of [buffer] from [byteOffset]. *)
Record Uint8Array : Type := {
  u8_buffer : list byte;
  u8_byteOffset : Z;
  u8_byteLength : Z }.

(** [Float32Array]: a view of [f32_length] elements of four bytes. *)
Record Float32Array : Type := {
  f32_buffer : list byte;
  f32_byteOffset : Z;
  f32_length : Z }.

(** [a[i]]: [undefined] outside the view. *)
Definition f32_get (bo : ByteOrder) (a : Float32Array) (i : Z) : option float :=
  if (0 <=? i) && (i <? f32_length a) then
    let start := Z.to_nat (f32_byteOffset a + 4 * i) in
    Some (number_of_b32
            (b32_of_bits (bytes_to_word bo (firstn 4 (skipn start (f32_buffer a))))))
  else None.

(** The elements of a view, in index order. *)
Definition f32_elements (bo : ByteOrder) (a : Float32Array) : list float :=
  map (fun i => ToNumber (f32_get bo a (Z.of_nat i)))
      (seq 0 (Z.to_nat (f32_length a))).

(** [new Float32Array(buffer, byteOffset, length)] and, with [length]
    absent, [new Float32Array(buffer)] (ECMAScript,
    InitializeTypedArrayFromArrayBuffer).  [length] has already gone
    through ToIndex's truncation. *)
Definition new_Float32Array (buffer : list byte) (byteOffset : Z) (length : option Z)
  : outcome Float32Array :=
  let bufferByteLength := Z.of_nat (List.length buffer) in
  if byteOffset <? 0 then Throw (RangeError "Invalid typed array offset")
  else if negb (byteOffset mod 4 =? 0) then
    Throw (RangeError "start offset of Float32Array should be a multiple of 4")
  else
    match length with
    | None =>
        if negb (bufferByteLength mod 4 =? 0) then
          Throw (RangeError "byte length of Float32Array should be a multiple of 4")
        else if bufferByteLength - byteOffset <? 0 then
          Throw (RangeError "Invalid typed array offset")
        else Return {| f32_buffer := buffer; f32_byteOffset := byteOffset;
                       f32_length := (bufferByteLength - byteOffset) / 4 |}
    | Some newLength =>
        if newLength <? 0 then Throw (RangeError "Invalid typed array length")
        else if bufferByteLength <? byteOffset + newLength * 4 then
          Throw (RangeError "Invalid typed array length")
        else Return {| f32_buffer := buffer; f32_byteOffset := byteOffset;
                       f32_length := newLength |}
    end.

(** [new Float32Array(numbers)]: a fresh buffer holding each number
    rounded to binary32. *)
Definition Float32Array_from (bo : ByteOrder) (numbers : list float) : Float32Array :=
  {| f32_buffer := flat_map (fun x => word_to_bytes bo (bits_of_b32 (fround x))) numbers;
     f32_byteOffset := 0;
     f32_length := Z.of_nat (List.length numbers) |}.

(** [new Uint8Array(arrayBuffer)] *)
Definition new_Uint8Array (buffer : list byte) : Uint8Array :=
  {| u8_buffer := buffer; u8_byteOffset := 0;
     u8_byteLength := Z.of_nat (List.length buffer) |}.

(** ** createNoteEmbeddings.ts: the vector codec (encode) *)

(** [embeddingToBlob] *)
Definition embeddingToBlob (bo : ByteOrder) (embedding : list float) : Uint8Array :=
  let float32Array := Float32Array_from bo embedding in
  new_Uint8Array (f32_buffer float32Array).

(** ** retrieveRelevantNotes.ts: the vector codec (decode) *)

(** What a BLOB column can hand to [blobToEmbedding], as far as it tells
    values apart. *)
Inductive blob_value : Type :=
| BUint8Array (u : Uint8Array)
| BArrayBuffer (buffer : list byte)
| BViewObject (buffer : list byte) (byteOffset byteLength : Z)
    (* any other object with [buffer], [byteOffset], [byteLength] *)
| BOther.  (* null, a string, a number, an object without those *)

(** [x / 4] handed to a typed-array constructor: ToIndex truncates. *)
Definition quarter (byteLength : Z) : Z := Z.quot byteLength 4.

(** [blobToEmbedding] *)
Definition blobToEmbedding (blob : blob_value) : outcome Float32Array :=
  match blob with
  | BUint8Array u =>
      new_Float32Array (u8_buffer u) (u8_byteOffset u) (Some (quarter (u8_byteLength u)))
  | BArrayBuffer buffer =>
      new_Float32Array buffer 0 None
  | BViewObject buffer byteOffset byteLength =>
      new_Float32Array buffer byteOffset (Some (quarter byteLength))
  | BOther => Throw (Error "Unsupported blob type")
  end.

(** [cosineSimilarity] *)
Definition cosineSimilarity (bo : ByteOrder) (a b : Float32Array) : float :=
  let '(dotProduct, normA, normB) :=
    fold_left
      (fun '(dotProduct, normA, normB) i =>
         let ai := ToNumber (f32_get bo a (Z.of_nat i)) in
         let bi := ToNumber (f32_get bo b (Z.of_nat i)) in
         (dotProduct + ai * bi, normA + ai * ai, normB + bi * bi)%float)
      (seq 0 (Z.to_nat (f32_length a)))
      (0, 0, 0)%float in
  (dotProduct / (PrimFloat.sqrt normA * PrimFloat.sqrt normB))%float.

(** ** database/types.ts: the data model *)

Record Tag : Type := { tag_id : Z; tag_name : jsstring }.

Record Image : Type := {
  image_id : Z;
  image_noteId : Z;
  image_uri : jsstring;
  image_description : jsstring }.

Record NoteWithDetails : Type := {
  id : Z;
  title : jsstring;
  content : jsstring;
  audioUri : option jsstring;             (* string | null *)
  recallScript : option jsstring;         (* string | null *)
  lastShownInReminisce : option Z;        (* number | null *)
  createdAt : Z;
  updatedAt : Z;
  tags : list Tag;
  images : list Image }.

(** ** database/schema.ts: the embedding tables *)

(** The two values the sources write to a [status] column. *)
Inductive Status : Type := completed | failed.

Definition Status_eqb (a b : Status) : bool :=
  match a, b with
  | completed, completed | failed, failed => true
  | _, _ => false
  end.

Record NoteEmbeddingRow : Type := {
  ne_noteId : Z;                          (* UNIQUE *)
  ne_embedding : blob_value;
  ne_embeddingDimensions : Z;
  ne_textHash : jsstring;
  ne_status : Status;
  ne_createdAt : Z }.

Record ImageEmbeddingRow : Type := {
  ie_imageId : Z;                         (* UNIQUE *)
  ie_description : jsstring;
  ie_embedding : blob_value;
  ie_embeddingDimensions : Z;
  ie_descriptionHash : jsstring;
  ie_status : Status;
  ie_createdAt : Z }.

(** The tables the embedding pipeline and the retrieval engine touch,
    each a list of rows in rowid order. *)
Record Database : Type := {
  note_embeddings : list NoteEmbeddingRow;
  image_embeddings : list ImageEmbeddingRow;
  images_table : list Image }.

(** The statements the modelled functions pass to [db.execute]. *)
Inductive Sql : Type :=
| SelectCompletedNoteEmbeddings
    (* SELECT noteId, embedding FROM note_embeddings WHERE status = 'completed' *)
| SelectCompletedImageEmbeddings
    (* SELECT ... FROM image_embeddings ie JOIN images i ON ie.imageId = i.id
       WHERE ie.status = 'completed' *)
| SelectNoteEmbeddingHash (noteId : Z)
    (* SELECT id, textHash FROM note_embeddings WHERE noteId = ? *)
| UpdateNoteEmbedding (embedding : Uint8Array) (dimensions : Z) (textHash : jsstring)
    (status : Status) (createdAt : Z) (noteId : Z)
    (* UPDATE note_embeddings SET embedding = ?, embeddingDimensions = ?,
       textHash = ?, status = ?, createdAt = ? WHERE noteId = ? *)
| InsertNoteEmbedding (noteId : Z) (embedding : Uint8Array) (dimensions : Z)
    (textHash : jsstring) (status : Status) (createdAt : Z)
    (* INSERT INTO note_embeddings (...) VALUES (?, ?, ?, ?, ?, ?) *)
| UpdateNoteEmbeddingStatus (status : Status) (noteId : Z).
    (* UPDATE note_embeddings SET status = ? WHERE noteId = ? *)

Definition is_write (s : Sql) : bool :=
  match s with
  | UpdateNoteEmbedding _ _ _ _ _ _
  | InsertNoteEmbedding _ _ _ _ _ _
  | UpdateNoteEmbeddingStatus _ _ => true
  | _ => false
  end.

(** ** The collaborators *)

(** What [embeddingContext.embedding(text)] resolves to. *)
Record EmbeddingResult : Type := { embedding : option (list float) }.

Record Env : Type := {
  (** byte order of typed-array views on this platform *)
  nativeOrder : ByteOrder;
  (** whether [initializeDatabase] has run *)
  dbInitialized : bool;
  (** the statements on which [db.execute] rejects *)
  execFails : Sql -> bool;
  (** [getNoteById] and [getAllNotes] of notesOperations *)
  getNoteById : Z -> outcome (option NoteWithDetails);
  getAllNotes : outcome (list NoteWithDetails);
  (** [Crypto.digestStringAsync(SHA256, text)] *)
  digestStringAsync : jsstring -> outcome jsstring;
  (** [ModelManager.getEmbeddingContext()], with the context's [embedding] *)
  getEmbeddingContext : option (jsstring -> outcome EmbeddingResult);
  (** [ModelManager.isEmbeddingReady()], [ModelManager.isRecallReady()] *)
  isEmbeddingReady : bool;
  isRecallReady : bool;
  (** the successive readings of [Date.now()] within one call *)
  Date_now : nat -> Z;
  (** the successive draws behind [Math.random()] within one call *)
  entropy : nat -> Z }.

(** [getDatabaseInstance] (database/index.ts) *)
Definition getDatabaseInstance (env : Env) : outcome unit :=
  if dbInitialized env then Return tt
  else Throw (Error "Database not initialized. Call initializeDatabase() first.").

(** ** retrieveRelevantNotes.ts *)

Definition TOP_K : Z := 2.
Definition MIN_K : Z := 1.
Definition SIMILARITY_THRESHOLD : float := 0.5.
Definition RELATIVE_THRESHOLD : float := 0.75.
Definition TIMEOUT_MS : Z := 5000.

Inductive MatchType : Type := text | image.

Record RetrievedNote : Type := {
  r_noteId : Z;
  r_title : jsstring;
  r_content : jsstring;
  r_tags : list jsstring;
  r_images : list (jsstring * jsstring);    (* uri, description *)
  r_audioUri : option jsstring;
  similarityScore : float;
  r_matchType : MatchType }.

(** A row of either SELECT: the owning note and the stored blob. *)
Record EmbeddingRow : Type := { row_noteId : Z; row_embedding : blob_value }.

Definition completedNoteEmbeddings (db : Database) : list EmbeddingRow :=
  map (fun r => {| row_noteId := ne_noteId r; row_embedding := ne_embedding r |})
      (filter (fun r => Status_eqb (ne_status r) completed) (note_embeddings db)).

Definition completedImageEmbeddings (db : Database) : list EmbeddingRow :=
  flat_map
    (fun ie =>
       map (fun i => {| row_noteId := image_noteId i; row_embedding := ie_embedding ie |})
           (filter (fun i => image_id i =? ie_imageId ie) (images_table db)))
    (filter (fun ie => Status_eqb (ie_status ie) completed) (image_embeddings db)).

(** A read-only [db.execute]. *)
Definition execute_query {A : Type} (env : Env) (s : Sql) (rows : A) : outcome A :=
  if execFails env s then Throw (Error "db.execute rejected") else Return rows.

(** The value type of the [noteMatches] map. *)
Record Match : Type := { score : float; matchType : MatchType }.

(** [Map<number, Match>]: entries in insertion order. *)
Definition NoteMatches : Type := list (Z * Match).

Fixpoint Map_get (k : Z) (m : NoteMatches) : option Match :=
  match m with
  | [] => None
  | (k', v) :: m' => if k' =? k then Some v else Map_get k m'
  end.

(** [set] keeps the position of a key that is present and appends a new one. *)
Fixpoint Map_set (k : Z) (v : Match) (m : NoteMatches) : NoteMatches :=
  match m with
  | [] => [(k, v)]
  | (k', v') :: m' => if k' =? k then (k, v) :: m' else (k', v') :: Map_set k v m'
  end.

(** The [if (similarity >= RETRIEVAL_CONFIG.SIMILARITY_THRESHOLD) { ... }]
    of either loop. *)
Definition offer (kind : MatchType) (noteMatches : NoteMatches) (noteId : Z)
    (similarity : float) : NoteMatches :=
  if (SIMILARITY_THRESHOLD <=? similarity)%float then
    match Map_get noteId noteMatches with
    | Some existing =>
        if (score existing <? similarity)%float
        then Map_set noteId {| score := similarity; matchType := kind |} noteMatches
        else noteMatches
    | None => Map_set noteId {| score := similarity; matchType := kind |} noteMatches
    end
  else noteMatches.

(** The body of either [for (const row of ...rows)] loop. *)
Definition considerRow (bo : ByteOrder) (queryEmbedding : Float32Array) (kind : MatchType)
    (noteMatches : NoteMatches) (row : EmbeddingRow) : NoteMatches :=
  let noteId := row_noteId row in
  let embeddingBlob := row_embedding row in
  match blobToEmbedding embeddingBlob with
  | Throw _ => noteMatches                       (* catch: skip this row *)
  | Return noteEmbedding =>
      let similarity := cosineSimilarity bo queryEmbedding noteEmbedding in
      offer kind noteMatches noteId similarity
  end.

Definition collectMatches (bo : ByteOrder) (queryEmbedding : Float32Array)
    (noteRows imageRows : list EmbeddingRow) : NoteMatches :=
  let noteMatches := fold_left (considerRow bo queryEmbedding text) noteRows [] in
  fold_left (considerRow bo queryEmbedding image) imageRows noteMatches.

(** [Array.prototype.sort(compareFn)]: a stable sort; [x] goes behind [y]
    exactly when [compareFn(x, y) > 0] (a NaN result counts as 0). *)
Fixpoint sort_insert {A : Type} (compareFn : A -> A -> float) (x : A) (l : list A) : list A :=
  match l with
  | [] => [x]
  | y :: l' =>
      if (0 <? compareFn x y)%float then y :: sort_insert compareFn x l'
      else x :: y :: l'
  end.

Fixpoint Array_sort {A : Type} (compareFn : A -> A -> float) (l : list A) : list A :=
  match l with
  | [] => []
  | x :: l' => sort_insert compareFn x (Array_sort compareFn l')
  end.

(** [Array.prototype.filter((element, index) => ...)] *)
Fixpoint filter_from {A : Type} (f : A -> Z -> bool) (index : Z) (l : list A) : list A :=
  match l with
  | [] => []
  | x :: l' =>
      if f x index then x :: filter_from f (index + 1) l'
      else filter_from f (index + 1) l'
  end.

Definition Array_filter {A : Type} (f : A -> Z -> bool) (l : list A) : list A :=
  filter_from f 0 l.

(** [Array.prototype.slice(0, end)] for an integer [end]: a negative
    [end] counts from the back. *)
Definition Array_slice0 {A : Type} (l : list A) (end_ : Z) : list A :=
  let len := Z.of_nat (List.length l) in
  let final := if end_ <? 0 then Z.max (len + end_) 0 else Z.min end_ len in
  firstn (Z.to_nat final) l.

Definition byScoreDescending (a b : Z * Match) : float :=
  (score (snd b) - score (snd a))%float.

Definition sortMatches (noteMatches : NoteMatches) : list (Z * Match) :=
  Array_sort byScoreDescending noteMatches.

Definition filterMatches (sortedMatches : list (Z * Match)) : list (Z * Match) :=
  match sortedMatches with
  | [] => []
  | top :: _ =>
      Array_filter
        (fun '(_, match_) index =>
           if index =? 0 then true
           else
             let topScore := score (snd top) in
             let relativeThreshold := (topScore * RELATIVE_THRESHOLD)%float in
             (relativeThreshold <=? score match_)%float)
        sortedMatches
  end.

(** Lines 130-145: sort, relative filter, [slice(0, topK)]. *)
Definition rankMatches (noteMatches : NoteMatches) (topK : Z) : list (Z * Match) :=
  let sortedMatches := sortMatches noteMatches in
  let filteredMatches := filterMatches sortedMatches in
  Array_slice0 filteredMatches topK.

(** Lines 87-145: from the two row sets to [finalMatches]. *)
Definition finalMatches (bo : ByteOrder) (queryEmbedding : Float32Array)
    (noteRows imageRows : list EmbeddingRow) (topK : Z) : list (Z * Match) :=
  rankMatches (collectMatches bo queryEmbedding noteRows imageRows) topK.

(** [Promise.all]: rejects with the first rejection. *)
Fixpoint Promise_all {A : Type} (ps : list (outcome A)) : outcome (list A) :=
  match ps with
  | [] => Return []
  | p :: ps' =>
      match p with
      | Throw e => Throw e
      | Return a =>
          match Promise_all ps' with
          | Throw e => Throw e
          | Return l => Return (a :: l)
          end
      end
  end.

(** [x || undefined] and [x || ''] on strings *)
Definition or_undefined (s : option jsstring) : option jsstring :=
  match s with
  | Some [] => None
  | other => other
  end.

(** The callback of [finalMatches.map]: a note or [null]. *)
Definition hydrate (env : Env) (entry : Z * Match) : outcome (option RetrievedNote) :=
  let '(noteId, m) := entry in
  try_catch
    (bind (getNoteById env noteId) (fun note =>
       match note with
       | None => Return None
       | Some note =>
           let imageDescriptions :=
             map (fun img => (image_uri img, image_description img)) (images note) in
           Return (Some {| r_noteId := id note;
                           r_title := title note;
                           r_content := content note;
                           r_tags := map tag_name (tags note);
                           r_images := imageDescriptions;
                           r_audioUri := or_undefined (audioUri note);
                           similarityScore := score m;
                           r_matchType := matchType m |})
       end))
    (fun _ => Return None).

Fixpoint filter_not_null {A : Type} (l : list (option A)) : list A :=
  match l with
  | [] => []
  | Some a :: l' => a :: filter_not_null l'
  | None :: l' => filter_not_null l'
  end.

(** [retrieveRelevantNotes] *)
Definition retrieveRelevantNotes (env : Env) (db : Database)
    (queryEmbedding : Float32Array) (topK : Z) : outcome (list RetrievedNote) :=
  try_catch
    (bind (getDatabaseInstance env) (fun _ =>
     bind (Promise_all
             [execute_query env SelectCompletedNoteEmbeddings (completedNoteEmbeddings db);
              execute_query env SelectCompletedImageEmbeddings (completedImageEmbeddings db)])
       (fun results =>
     let noteRows := nth 0 results [] in
     let imageRows := nth 1 results [] in
     let final := finalMatches (nativeOrder env) queryEmbedding noteRows imageRows topK in
     bind (Promise_all (map (hydrate env) final)) (fun retrievedNotesWithNulls =>
     Return (filter_not_null retrievedNotesWithNulls)))))
    (fun _ => Return []).

(** ** selectReminisceNotes.ts *)

Definition MS_PER_DAY : Z := 1000 * 60 * 60 * 24.

(** [ageInDays]; [now] is the reading of [Date.now()] the call takes. *)
Definition ageInDays (now : Z) (note : NoteWithDetails) : Z :=
  let created := createdAt note in
  let ageMs := now - created in
  ageMs / MS_PER_DAY.

(** [!note.lastShownInReminisce]: [null] and [0] are falsy. *)
Definition neverShown (note : NoteWithDetails) : bool :=
  match lastShownInReminisce note with
  | None => true
  | Some t => t =? 0
  end.

(** [daysSinceLastShown]; [now] is read only when the note was shown. *)
Definition daysSinceLastShown (now : Z) (note : NoteWithDetails) : Z :=
  match lastShownInReminisce note with
  | None => 9999
  | Some lastShown =>
      if lastShown =? 0 then 9999
      else
        let diffMs := now - lastShown in
        diffMs / MS_PER_DAY
  end.

(** [note.recallScript ? ... : ...]: [null] and the empty string are falsy. *)
Definition hasRecallScript (note : NoteWithDetails) : bool :=
  match recallScript note with
  | None | Some [] => false
  | Some _ => true
  end.

(** [array[index] = value]; no effect here outside the array. *)
Fixpoint Array_set {A : Type} (index : nat) (value : A) (l : list A) : list A :=
  match l, index with
  | [], _ => []
  | _ :: l', O => value :: l'
  | x :: l', S n => x :: Array_set n value l'
  end.

(** [[a[i], a[j]] = [a[j], a[i]]] for indices inside the array. *)
Definition swap {A : Type} (i j : nat) (l : list A) : list A :=
  match nth_error l i, nth_error l j with
  | Some x, Some y => Array_set j x (Array_set i y l)
  | _, _ => l
  end.

(** [Math.floor(Math.random() * (i + 1))]: the [k]-th draw, in [0..i]. *)
Definition randomIndex (env : Env) (k : nat) (i : nat) : nat :=
  Z.to_nat (entropy env k mod (Z.of_nat i + 1)).

(** The loop of [shuffle]: [i] runs down to 1; [k] counts the draws. *)
Fixpoint shuffle_from {A : Type} (env : Env) (i : nat) (k : nat) (shuffled : list A)
  : list A :=
  match i with
  | O => shuffled
  | S i' =>
      let j := randomIndex env k i in
      shuffle_from env i' (S k) (swap i j shuffled)
  end.

(** [shuffle] (Fisher-Yates) *)
Definition shuffle {A : Type} (env : Env) (array : list A) : list A :=
  let shuffled := array in
  shuffle_from env (List.length shuffled - 1)%nat 0%nat shuffled.

Record ScoredNote : Type := { note : NoteWithDetails; noteScore : float }.

(** The score expression of [selectReminisceNotes]; [nowAge] and
    [nowShown] are the readings of [Date.now()] inside [ageInDays] and
    [daysSinceLastShown]. *)
Definition reminisceScore (nowAge nowShown : Z) (n : NoteWithDetails) : float :=
  ((match images n with [] => 0 | _ :: _ => 50 end)
   + Z2float (ageInDays nowAge n) * 0.5
   + Z2float (Z.of_nat (List.length (content n))) * 0.01
   + Z2float (daysSinceLastShown nowShown n) * 2
   + (if hasRecallScript n then 10 else -100))%float.

(** [allNotes.map(note => ({ note, score }))]; [k] counts the readings
    of [Date.now()] taken so far. *)
Fixpoint scoreNotes (env : Env) (k : nat) (allNotes : list NoteWithDetails)
  : list ScoredNote :=
  match allNotes with
  | [] => []
  | n :: rest =>
      let scored :=
        {| note := n;
           noteScore := reminisceScore (Date_now env k) (Date_now env (S k)) n |} in
      scored :: scoreNotes env (if neverShown n then S k else S (S k)) rest
  end.

Definition byNoteScoreDescending (a b : ScoredNote) : float :=
  (noteScore b - noteScore a)%float.

(** [selectReminisceNotes] *)
Definition selectReminisceNotes (env : Env) (count : Z)
  : outcome (list NoteWithDetails) :=
  bind (getAllNotes env) (fun allNotes =>
  if Z.of_nat (List.length allNotes) =? 0 then Return []
  else if Z.of_nat (List.length allNotes) <=? count then Return (shuffle env allNotes)
  else
    let scored := scoreNotes env 0 allNotes in
    Return (shuffle env
              (map note (Array_slice0 (Array_sort byNoteScoreDescending scored) count)))).

(** ** createNoteEmbeddings.ts: the embedding generator *)

(** What a call does to the outside world, oldest first. *)
Inductive Effect : Type :=
| Executed (s : Sql)                   (* [db.execute] was called with [s] *)
| Embedded (text : jsstring).          (* the embedding capability was invoked *)

Record World : Type := { db : Database; effects : list Effect }.

(** A computation that reads and writes the world and may throw; what
    it did before throwing stays done. *)
Definition M (A : Type) : Type := World -> outcome A * World.

Definition ret {A : Type} (a : A) : M A := fun w => (Return a, w).
Definition throw {A : Type} (e : js_error) : M A := fun w => (Throw e, w).
Definition lift {A : Type} (o : outcome A) : M A := fun w => (o, w).

Definition bindM {A B : Type} (m : M A) (k : A -> M B) : M B :=
  fun w =>
    match m w with
    | (Return a, w') => k a w'
    | (Throw e, w') => (Throw e, w')
    end.

Definition try_catchM {A : Type} (body : M A) (handler : js_error -> M A) : M A :=
  fun w =>
    match body w with
    | (Return a, w') => (Return a, w')
    | (Throw e, w') => handler e w'
    end.

Definition record (e : Effect) (w : World) : World :=
  {| db := db w; effects := effects w ++ [e] |}.

Definition set_note_embeddings (rows : list NoteEmbeddingRow) (d : Database) : Database :=
  {| note_embeddings := rows;
     image_embeddings := image_embeddings d;
     images_table := images_table d |}.

(** The effect of a statement on the tables. *)
Definition run_statement (s : Sql) (d : Database) : outcome Database :=
  match s with
  | UpdateNoteEmbedding blob dimensions textHash status createdAt noteId =>
      Return (set_note_embeddings
                (map (fun r =>
                        if ne_noteId r =? noteId
                        then {| ne_noteId := ne_noteId r;
                                ne_embedding := BUint8Array blob;
                                ne_embeddingDimensions := dimensions;
                                ne_textHash := textHash;
                                ne_status := status;
                                ne_createdAt := createdAt |}
                        else r)
                     (note_embeddings d)) d)
  | InsertNoteEmbedding noteId blob dimensions textHash status createdAt =>
      if existsb (fun r => ne_noteId r =? noteId) (note_embeddings d)
      then Throw (Error "UNIQUE constraint failed: note_embeddings.noteId")
      else Return (set_note_embeddings
                     (note_embeddings d ++
                      [{| ne_noteId := noteId;
                          ne_embedding := BUint8Array blob;
                          ne_embeddingDimensions := dimensions;
                          ne_textHash := textHash;
                          ne_status := status;
                          ne_createdAt := createdAt |}]) d)
  | UpdateNoteEmbeddingStatus status noteId =>
      Return (set_note_embeddings
                (map (fun r =>
                        if ne_noteId r =? noteId
                        then {| ne_noteId := ne_noteId r;
                                ne_embedding := ne_embedding r;
                                ne_embeddingDimensions := ne_embeddingDimensions r;
                                ne_textHash := ne_textHash r;
                                ne_status := status;
                                ne_createdAt := ne_createdAt r |}
                        else r)
                     (note_embeddings d)) d)
  | _ => Return d
  end.

(** [await db.execute(statement)] for a statement that returns no rows. *)
Definition execute (env : Env) (s : Sql) : M unit :=
  fun w =>
    let w := record (Executed s) w in
    if execFails env s then (Throw (Error "db.execute rejected"), w)
    else
      match run_statement s (db w) with
      | Return d => (Return tt, {| db := d; effects := effects w |})
      | Throw e => (Throw e, w)
      end.

(** [await db.execute('SELECT id, textHash FROM note_embeddings WHERE
    noteId = ?', [noteId])]: the [textHash] of each row found. *)
Definition selectNoteEmbeddingHash (env : Env) (noteId : Z) : M (list jsstring) :=
  fun w =>
    let w := record (Executed (SelectNoteEmbeddingHash noteId)) w in
    if execFails env (SelectNoteEmbeddingHash noteId)
    then (Throw (Error "db.execute rejected"), w)
    else (Return (map ne_textHash
                      (filter (fun r => ne_noteId r =? noteId) (note_embeddings (db w)))),
          w).

(** [await embeddingContext.embedding(text)] *)
Definition callEmbedding (embeddingContext : jsstring -> outcome EmbeddingResult)
    (text : jsstring) : M EmbeddingResult :=
  fun w => (embeddingContext text, record (Embedded text) w).

(** [hashText] *)
Definition hashText (env : Env) (text_ : jsstring) : outcome jsstring :=
  digestStringAsync env text_.

(** [combineNoteText] *)
Definition combineNoteText (title_ content_ : jsstring) (tags_ : list jsstring) : jsstring :=
  let tagString :=
    match tags_ with
    | [] => []
    | _ :: _ => str "Tags: " ++ join (str ", ") tags_ ++ [10; 10]%N
    end in
  tagString ++ title_ ++ [10; 10]%N ++ content_.

(** [generateNoteTextEmbedding] *)
Definition generateNoteTextEmbedding (env : Env) (noteId : Z) : M unit :=
  bindM (lift (getDatabaseInstance env)) (fun _ =>
  try_catchM
    (bindM (lift (getNoteById env noteId)) (fun found =>
     match found with
     | None => ret tt
     | Some n =>
         let tagNames := map tag_name (tags n) in
         let combinedText := combineNoteText (title n) (content n) tagNames in
         bindM (lift (hashText env combinedText)) (fun textHash =>
         bindM (selectNoteEmbeddingHash env noteId) (fun existing =>
         if match existing with
            | existingHash :: _ => jsstring_eqb existingHash textHash
            | [] => false
            end
         then ret tt
         else
           match getEmbeddingContext env with
           | None => throw (Error "Embedding context not available")
           | Some embeddingContext =>
               bindM (callEmbedding embeddingContext combinedText) (fun result =>
               match embedding result with
               | None | Some [] => throw (Error "Empty embedding returned")
               | Some ((_ :: _) as vector) =>
                   let embeddingBlob := embeddingToBlob (nativeOrder env) vector in
                   let now := Date_now env 0 in
                   let dimensions := Z.of_nat (List.length vector) in
                   match existing with
                   | _ :: _ =>
                       execute env (UpdateNoteEmbedding embeddingBlob dimensions textHash
                                      completed now noteId)
                   | [] =>
                       execute env (InsertNoteEmbedding noteId embeddingBlob dimensions
                                      textHash completed now)
                   end
               end)
           end))
     end))
    (fun _ =>
       try_catchM (execute env (UpdateNoteEmbeddingStatus failed noteId))
                  (fun _ => ret tt))).

(** ** createQueryEmbedding.ts *)

Record QueryEmbedding : Type := {
  q_embedding : Float32Array;
  processedText : jsstring }.

(** [generateQueryEmbedding]; [None] is [null]. *)
Definition generateQueryEmbedding (env : Env) (text_ : jsstring)
  : outcome (option QueryEmbedding) :=
  try_catch
    (match getEmbeddingContext env with
     | None => Return None
     | Some embeddingContext =>
         let processed := trim text_ in
         bind (embeddingContext processed) (fun embeddingResult =>
         match embedding embeddingResult with
         | None | Some [] => Return None
         | Some ((_ :: _) as vector) =>
             Return (Some {| q_embedding := Float32Array_from (nativeOrder env) vector;
                             processedText := processed |})
         end)
     end)
    (fun _ => Return None).

(** ** The debounced schedulers
       ([updateNoteEmbeddings] in createNoteEmbeddings.ts,
        [updateRecallScript] in recallScriptGenerator.ts) *)

Definition DEBOUNCE_MS : Z := 300.

(** The module-level state of one scheduler: [pendingNotes] and
    [updateTimer] (resp. [pendingScriptNotes] and [scriptUpdateTimer]).
    The set keeps insertion order; an armed timer is known by the time
    it is due. *)
Record Debounce : Type := { pending : list Z; timer : option Z }.

Definition idle : Debounce := {| pending := []; timer := None |}.

(** [Set.prototype.add] *)
Definition Set_add (x : Z) (s : list Z) : list Z :=
  if existsb (Z.eqb x) s then s else s ++ [x].

(** The body of [updateNoteEmbeddings] / [updateRecallScript], called at
    time [now]: add the id, and arm a timer unless one is armed. *)
Definition schedule (now : Z) (noteId : Z) (q : Debounce) : Debounce :=
  let pending' := Set_add noteId (pending q) in
  match timer q with
  | Some due => {| pending := pending'; timer := Some due |}
  | None => {| pending := pending'; timer := Some (now + DEBOUNCE_MS) |}
  end.

(** The synchronous head of the timer callback: [Array.from(pending)],
    [pending.clear()], [timer = null]. *)
Definition drain (q : Debounce) : list Z * Debounce :=
  (pending q, {| pending := []; timer := None |}).

(** ** The event loop around the two pipelines
       ([createNote], [updateNote] in notesOperations;
        [processNoteEmbeddings], [processRecallScript]) *)

Inductive Pipeline : Type := Embeddings | RecallScript.

Definition Pipeline_eqb (p q : Pipeline) : bool :=
  match p, q with
  | Embeddings, Embeddings | RecallScript, RecallScript => true
  | _, _ => false
  end.

(** Where an asynchronous task stands: a timer callback awaiting
    [getNoteById] before it calls the pipeline's entry point, or the
    entry point ([processNoteEmbeddings] / [processRecallScript])
    awaiting its work. *)
Inductive Phase : Type := Loading | Running.

Record Job : Type := {
  job_pipeline : Pipeline;
  job_noteId : Z;
  job_phase : Phase;
  (** [createNote]'s [.then(() => processRecallScript(noteId))] *)
  job_then_script : bool }.

(** What can be observed of a run, oldest first. *)
Inductive Occurrence : Type :=
| Armed (p : Pipeline) (due : Z)             (* [setTimeout(..., 300)] *)
| Fired (p : Pipeline) (ids : list Z)        (* the timer callback ran and drained [ids] *)
| Started (p : Pipeline) (noteId : Z)        (* the pipeline's entry point was called *)
| Settled (p : Pipeline) (noteId : Z).       (* the promise it returned settled *)

Record Runtime : Type := {
  clock : Z;
  embeddingsQueue : Debounce;
  scriptsQueue : Debounce;
  jobs : list Job;
  history : list Occurrence }.

Definition boot : Runtime :=
  {| clock := 0; embeddingsQueue := idle; scriptsQueue := idle;
     jobs := []; history := [] |}.

Definition queue (p : Pipeline) (rt : Runtime) : Debounce :=
  match p with
  | Embeddings => embeddingsQueue rt
  | RecallScript => scriptsQueue rt
  end.

Definition set_queue (p : Pipeline) (q : Debounce) (rt : Runtime) : Runtime :=
  match p with
  | Embeddings =>
      {| clock := clock rt; embeddingsQueue := q; scriptsQueue := scriptsQueue rt;
         jobs := jobs rt; history := history rt |}
  | RecallScript =>
      {| clock := clock rt; embeddingsQueue := embeddingsQueue rt; scriptsQueue := q;
         jobs := jobs rt; history := history rt |}
  end.

Definition observe (o : list Occurrence) (rt : Runtime) : Runtime :=
  {| clock := clock rt; embeddingsQueue := embeddingsQueue rt;
     scriptsQueue := scriptsQueue rt; jobs := jobs rt;
     history := history rt ++ o |}.

Definition set_jobs (js : list Job) (rt : Runtime) : Runtime :=
  {| clock := clock rt; embeddingsQueue := embeddingsQueue rt;
     scriptsQueue := scriptsQueue rt; jobs := js; history := history rt |}.

(** [ensureModelsReady] / [ensureRecallModelReady] *)
Definition ensureReady (env : Env) (p : Pipeline) : bool :=
  match p with
  | Embeddings => isEmbeddingReady env
  | RecallScript => isRecallReady env
  end.

(** [const note = await getNoteById(id); if (!note) return] *)
Definition noteFound (env : Env) (noteId : Z) : bool :=
  match getNoteById env noteId with
  | Return (Some _) => true
  | _ => false
  end.

(** A call of [processNoteEmbeddings(noteId)] / [processRecallScript(noteId)]:
    with the model not ready it returns at once; otherwise its work is
    in flight until the loop completes it. *)
Definition invoke (env : Env) (p : Pipeline) (noteId : Z) (then_script : bool)
    (rt : Runtime) : Runtime :=
  let rt := observe [Started p noteId] rt in
  if ensureReady env p then
    set_jobs (jobs rt ++ [{| job_pipeline := p; job_noteId := noteId;
                             job_phase := Running; job_then_script := then_script |}]) rt
  else observe [Settled p noteId] rt.

(** A call of [updateNoteEmbeddings(noteId)] / [updateRecallScript(noteId)]. *)
Definition callUpdate (p : Pipeline) (noteId : Z) (rt : Runtime) : Runtime :=
  let q := queue p rt in
  let q' := schedule (clock rt) noteId q in
  let rt := set_queue p q' rt in
  match timer q with
  | Some _ => rt
  | None => observe [Armed p (clock rt + DEBOUNCE_MS)] rt
  end.

(** The timer callback of pipeline [p]. *)
Definition fire (env : Env) (p : Pipeline) (rt : Runtime) : Runtime :=
  let '(ids, q') := drain (queue p rt) in
  let rt := observe [Fired p ids] (set_queue p q' rt) in
  if ensureReady env p then
    set_jobs (jobs rt ++
              map (fun noteId => {| job_pipeline := p; job_noteId := noteId;
                                    job_phase := Loading; job_then_script := false |}) ids)
             rt
  else rt.

Definition isDue (rt : Runtime) (p : Pipeline) : bool :=
  match timer (queue p rt) with
  | Some due => due <=? clock rt
  | None => false
  end.

(** Timers that are due run in the order they were armed; two armed at
    the same instant are those of [updateNote], embeddings first. *)
Definition runTimers (env : Env) (rt : Runtime) : Runtime :=
  match timer (embeddingsQueue rt), timer (scriptsQueue rt) with
  | Some de, Some ds =>
      if isDue rt Embeddings && isDue rt RecallScript then
        if ds <? de then fire env Embeddings (fire env RecallScript rt)
        else fire env RecallScript (fire env Embeddings rt)
      else if isDue rt Embeddings then fire env Embeddings rt
      else if isDue rt RecallScript then fire env RecallScript rt
      else rt
  | Some _, None => if isDue rt Embeddings then fire env Embeddings rt else rt
  | None, Some _ => if isDue rt RecallScript then fire env RecallScript rt else rt
  | None, None => rt
  end.

(** The oldest job of pipeline [p] for [noteId] takes its next step. *)
Fixpoint advance (env : Env) (p : Pipeline) (noteId : Z) (js : list Job)
  : list Job * list Occurrence * bool :=
  match js with
  | [] => ([], [], false)
  | j :: js' =>
      if Pipeline_eqb (job_pipeline j) p && (job_noteId j =? noteId) then
        match job_phase j with
        | Loading =>
            if noteFound env noteId then
              if ensureReady env p then
                ({| job_pipeline := p; job_noteId := noteId; job_phase := Running;
                    job_then_script := job_then_script j |} :: js',
                 [Started p noteId], false)
              else (js', [Started p noteId; Settled p noteId], false)
            else (js', [], false)
        | Running => (js', [Settled p noteId], job_then_script j)
        end
      else
        let '(js'', o, chained) := advance env p noteId js' in
        (j :: js'', o, chained)
  end.

Inductive Action : Type :=
| CreateNote (noteId : Z)              (* [createNote], once its transaction committed *)
| UpdateNote (noteId : Z)              (* [updateNote], once its transaction committed *)
| UpdateNoteEmbeddings (noteId : Z)
| UpdateRecallScript (noteId : Z)
| Elapse (ms : Z)                      (* time passes; a timer that comes due runs on time *)
| Complete (p : Pipeline) (noteId : Z).  (* the awaited work of a job completes *)

Definition step (env : Env) (rt : Runtime) (a : Action) : Runtime :=
  match a with
  | CreateNote noteId =>
      (* processNoteEmbeddings(noteId).then(() => { processRecallScript(noteId) }):
         the callback runs once the first promise has settled *)
      let rt := invoke env Embeddings noteId true rt in
      if ensureReady env Embeddings then rt
      else invoke env RecallScript noteId false rt
  | UpdateNote noteId =>
      (* updateNoteEmbeddings(input.id).then(() => { updateRecallScript(input.id) }):
         the first call returns a promise that is already resolved *)
      callUpdate RecallScript noteId (callUpdate Embeddings noteId rt)
  | UpdateNoteEmbeddings noteId => callUpdate Embeddings noteId rt
  | UpdateRecallScript noteId => callUpdate RecallScript noteId rt
  | Elapse ms =>
      runTimers env
        {| clock := clock rt + Z.max ms 0; embeddingsQueue := embeddingsQueue rt;
           scriptsQueue := scriptsQueue rt; jobs := jobs rt; history := history rt |}
  | Complete p noteId =>
      let '(js, o, chained) := advance env p noteId (jobs rt) in
      let rt := observe o (set_jobs js rt) in
      if chained then invoke env RecallScript noteId false rt else rt
  end.

Definition run (env : Env) (rt : Runtime) (actions : list Action) : Runtime :=
  fold_left (step env) actions rt.

(** ** Vocabulary of the properties *)

(** A total order on the binary floating-point data other than NaN, as
    a lexicographic key: class and sign, exponent, mantissa. *)
Definition SFkey (x : spec_float) : Z * Z * Z :=
  match x with
  | S754_infinity true => (-2, 0, 0)
  | S754_finite true m e => (-1, - e, Zneg m)
  | S754_zero _ => (0, 0, 0)
  | S754_nan => (0, 0, 0)
  | S754_finite false m e => (1, e, Zpos m)
  | S754_infinity false => (2, 0, 0)
  end.

Definition lex_compare (k k' : Z * Z * Z) : comparison :=
  let '(a, b, c) := k in
  let '(a', b', c') := k' in
  match a ?= a' with
  | Eq => match b ?= b' with Eq => c ?= c' | r => r end
  | r => r
  end.

Definition lex_le (k k' : Z * Z * Z) : Prop :=
  let '(a, b, c) := k in
  let '(a', b', c') := k' in
  a < a' \/ (a = a' /\ (b < b' \/ (b = b' /\ c <= c'))).

Definition lex_lt (k k' : Z * Z * Z) : Prop :=
  let '(a, b, c) := k in
  let '(a', b', c') := k' in
  a < a' \/ (a = a' /\ (b < b' \/ (b = b' /\ c < c'))).

Definition SFis_nan (x : spec_float) : bool :=
  match x with S754_nan => true | _ => false end.

Definition SFis_finite (x : spec_float) : bool :=
  match x with S754_zero _ | S754_finite _ _ _ => true | _ => false end.

Definition SFpositive (x : spec_float) : bool :=
  match x with
  | S754_finite false _ _ | S754_infinity false => true
  | _ => false
  end.

Definition SFnegative (x : spec_float) : bool :=
  match x with
  | S754_finite true _ _ | S754_infinity true => true
  | _ => false
  end.

(** [x] is a finite binary32 value: rounding it to binary32 gives a
    well-formed finite datum that holds [x] itself
    ([Number.isFinite(x) && Math.fround(x) === x]). *)
Definition is_finite_float32 (x : float) : Prop :=
  SpecFloat.valid_binary b32_prec b32_emax (fround x) = true /\
  SFis_finite (fround x) = true /\
  number_of_b32 (fround x) = x.

(** A [Uint8Array] as the engine makes them: the view lies inside its
    buffer. *)
Definition Uint8Array_wf (u : Uint8Array) : Prop :=
  0 <= u8_byteOffset u /\ 0 <= u8_byteLength u /\
  u8_byteOffset u + u8_byteLength u <= Z.of_nat (List.length (u8_buffer u)).

(** The byte length of a blob, where it has one. *)
Definition blob_byteLength (blob : blob_value) : option Z :=
  match blob with
  | BUint8Array u => Some (u8_byteLength u)
  | BArrayBuffer buffer => Some (Z.of_nat (List.length buffer))
  | BViewObject _ _ byteLength => Some byteLength
  | BOther => None
  end.

(** The match each decodable row of one SELECT offers: its note, its
    cosine similarity to the query, its kind. *)
Definition candidatesOf (bo : ByteOrder) (queryEmbedding : Float32Array)
    (kind : MatchType) (rows : list EmbeddingRow) : list (Z * Match) :=
  flat_map
    (fun row =>
       match blobToEmbedding (row_embedding row) with
       | Return e =>
           [(row_noteId row,
             {| score := cosineSimilarity bo queryEmbedding e; matchType := kind |})]
       | Throw _ => []
       end)
    rows.

(** All matches on offer, text rows first. *)
Definition candidates (bo : ByteOrder) (queryEmbedding : Float32Array)
    (noteRows imageRows : list EmbeddingRow) : list (Z * Match) :=
  candidatesOf bo queryEmbedding text noteRows ++
  candidatesOf bo queryEmbedding image imageRows.

(** The map built from a sequence of matches on offer. *)
Definition collect (cands : list (Z * Match)) (start : NoteMatches) : NoteMatches :=
  fold_left (fun m c => offer (matchType (snd c)) m (fst c) (score (snd c))) cands start.

(** [b] does not score above [a]. *)
Definition scoresBelow {A : Type} (rank : A -> float) (a b : A) : Prop :=
  (rank b <=? rank a)%float = true.

(** [m] holds, for each note with a match at or above the floor among
    [seen], exactly one entry: a match of that note that no other match
    of the note exceeds. *)
Definition best_per_note (seen : list (Z * Match)) (m : NoteMatches) : Prop :=
  NoDup (map fst m) /\
  (forall n c, In (n, c) m ->
     In (n, c) seen /\
     (SIMILARITY_THRESHOLD <=? score c)%float = true /\
     forall c', In (n, c') seen -> is_nan (score c') = false ->
                (score c' <=? score c)%float = true) /\
  (forall n c, In (n, c) seen -> (SIMILARITY_THRESHOLD <=? score c)%float = true ->
     In n (map fst m)).

(** What [UPDATE note_embeddings SET status = 'failed' WHERE noteId = ?]
    does to one row. *)
Definition mark_failed (noteId : Z) (r : NoteEmbeddingRow) : NoteEmbeddingRow :=
  if ne_noteId r =? noteId
  then {| ne_noteId := ne_noteId r;
          ne_embedding := ne_embedding r;
          ne_embeddingDimensions := ne_embeddingDimensions r;
          ne_textHash := ne_textHash r;
          ne_status := failed;
          ne_createdAt := ne_createdAt r |}
  else r.

(** The text [generateNoteTextEmbedding] fingerprints and embeds. *)
Definition composedText (n : NoteWithDetails) : jsstring :=
  combineNoteText (title n) (content n) (map tag_name (tags n)).

(** The embedding capability gave nothing usable: it threw, or its
    result has no vector or an empty one. *)
Definition embedding_failed (r : outcome EmbeddingResult) : Prop :=
  match r with
  | Throw _ => True
  | Return res =>
      match embedding res with
      | None | Some [] => True
      | Some (_ :: _) => False
      end
  end.

(** [note.images.length > 0] *)
Definition hasImages (n : NoteWithDetails) : bool :=
  match images n with
  | [] => false
  | _ :: _ => true
  end.

(** The score as the specification writes it. *)
Definition scoreFormula (hasImages_ : bool) (ageInDays_ contentLength daysSinceLastShown_ : Z)
    (hasRecallScript_ : bool) : float :=
  ((if hasImages_ then 50 else 0)
   + 0.5 * Z2float ageInDays_
   + 0.01 * Z2float contentLength
   + 2 * Z2float daysSinceLastShown_
   + (if hasRecallScript_ then 10 else -100))%float.

(** The call that schedules [noteId] on pipeline [p]. *)
Definition callOf (p : Pipeline) (noteId : Z) : Action :=
  match p with
  | Embeddings => UpdateNoteEmbeddings noteId
  | RecallScript => UpdateRecallScript noteId
  end.

(** Further calls for [noteId], each after a pause. *)
Definition burst (p : Pipeline) (noteId : Z) (pauses : list Z) : list Action :=
  flat_map (fun ms => [Elapse ms; callOf p noteId]) pauses.

Definition total (pauses : list Z) : Z := fold_right Z.add 0 pauses.

(** The batches drained by the timer callbacks of [p], oldest first. *)
Definition firedOf (p : Pipeline) (h : list Occurrence) : list (list Z) :=
  flat_map (fun o => match o with
                     | Fired p' ids => if Pipeline_eqb p p' then [ids] else []
                     | _ => []
                     end) h.

(** The due times of the timers armed for [p], oldest first. *)
Definition armedOf (p : Pipeline) (h : list Occurrence) : list Z :=
  flat_map (fun o => match o with
                     | Armed p' due => if Pipeline_eqb p p' then [due] else []
                     | _ => []
                     end) h.

(** The jobs of pipeline [p]. *)
Definition jobsOf (p : Pipeline) (js : list Job) : list Job :=
  filter (fun j => Pipeline_eqb p (job_pipeline j)) js.

(** What concerns pipeline [p] in a runtime. *)
Definition view (p : Pipeline) (rt : Runtime)
  : Debounce * list (list Z) * list Z * list Job :=
  (queue p rt, firedOf p (history rt), armedOf p (history rt), jobsOf p (jobs rt)).

(** The timer callback of [p], if its timer is due. *)
Definition fireIfDue (env : Env) (p : Pipeline) (rt : Runtime) : Runtime :=
  if isDue rt p then fire env p rt else rt.

(** The jobs a timer callback of [p] starts for the ids it drained. *)
Definition loadingJobs (env : Env) (p : Pipeline) (ids : list Z) : list Job :=
  if ensureReady env p
  then map (fun noteId => {| job_pipeline := p; job_noteId := noteId;
                             job_phase := Loading; job_then_script := false |}) ids
  else [].

(** The runtime in which only the timer of [p] is armed, due at [due],
    for [noteId] alone. *)
Definition armedFor (p : Pipeline) (noteId due now : Z) : Runtime :=
  set_queue p {| pending := [noteId]; timer := Some due |}
    {| clock := now; embeddingsQueue := idle; scriptsQueue := idle;
       jobs := []; history := [Armed p due] |}.

(** What [hydrate] makes of a note that was found. *)
Definition retrievedNote (n : NoteWithDetails) (m : Match) : RetrievedNote :=
  {| r_noteId := id n;
     r_title := title n;
     r_content := content n;
     r_tags := map tag_name (tags n);
     r_images := map (fun img => (image_uri img, image_description img)) (images n);
     r_audioUri := or_undefined (audioUri n);
     similarityScore := score m;
     r_matchType := matchType m |}.

(** The notes that survive hydration, in order: one per final match
    whose note is found. *)
Definition hydrated (env : Env) (final : list (Z * Match)) : list RetrievedNote :=
  flat_map
    (fun entry =>
       match getNoteById env (fst entry) with
       | Return (Some n) => [retrievedNote n (snd entry)]
       | _ => []
       end)
    final.

(** A finite datum whose leading bit lies below [2^B] and whose exponent
    is at most [E]. *)
Definition SFsmall (B E : Z) (x : spec_float) : Prop :=
  match x with
  | S754_zero _ => True
  | S754_finite _ m e => Zpos (digits2_pos m) + e <= B /\ e <= E
  | _ => False
  end.

(** ** The stages of an [updateNote] *)

Definition job (noteId : Z) (p : Pipeline) (ph : Phase) (then_script : bool) : Job :=
  {| job_pipeline := p; job_noteId := noteId; job_phase := ph;
     job_then_script := then_script |}.

(** Both timers have been armed. *)
Definition bothArmed (noteId : Z) : Runtime :=
  {| clock := 0;
     embeddingsQueue := {| pending := [noteId]; timer := Some DEBOUNCE_MS |};
     scriptsQueue := {| pending := [noteId]; timer := Some DEBOUNCE_MS |};
     jobs := [];
     history := [Armed Embeddings DEBOUNCE_MS; Armed RecallScript DEBOUNCE_MS] |}.

(** Both timer callbacks have run. *)
Definition bothFired (noteId : Z) : Runtime :=
  {| clock := DEBOUNCE_MS; embeddingsQueue := idle; scriptsQueue := idle;
     jobs := [job noteId Embeddings Loading false;
              job noteId RecallScript Loading false];
     history := history (bothArmed noteId) ++
                [Fired Embeddings [noteId]; Fired RecallScript [noteId]] |}.

(** The embedding pipeline has been entered. *)
Definition embeddingsRunning (noteId : Z) : Runtime :=
  {| clock := DEBOUNCE_MS; embeddingsQueue := idle; scriptsQueue := idle;
     jobs := [job noteId Embeddings Running false;
              job noteId RecallScript Loading false];
     history := history (bothFired noteId) ++ [Started Embeddings noteId] |}.

(** The recall-script pipeline has been entered as well. *)
Definition bothRunning (noteId : Z) : Runtime :=
  {| clock := DEBOUNCE_MS; embeddingsQueue := idle; scriptsQueue := idle;
     jobs := [job noteId Embeddings Running false;
              job noteId RecallScript Running false];
     history := history (embeddingsRunning noteId) ++ [Started RecallScript noteId] |}.

(** A sample note and a sample environment, for concrete runs. *)
Definition sampleNote (i : Z) : NoteWithDetails :=
  {| id := i;
     title := str "Beach day";
     content := str "We walked along the shore.";
     audioUri := None;
     recallScript := None;
     lastShownInReminisce := None;
     createdAt := 0;
     updatedAt := 0;
     tags := [{| tag_id := 1; tag_name := str "family" |}];
     images := [] |}.

Definition sampleEnv : Env :=
  {| nativeOrder := LittleEndian;
     dbInitialized := true;
     execFails := fun _ => false;
     getNoteById := fun i => Return (Some (sampleNote i));
     getAllNotes := Return [sampleNote 1; sampleNote 2];
     digestStringAsync := fun t => Return (str "sha256:" ++ t);
     getEmbeddingContext := Some (fun _ => Return {| embedding := Some [1; 0]%float |});
     isEmbeddingReady := true;
     isRecallReady := true;
     Date_now := fun _ => 1700000000000;
     entropy := fun k => Z.of_nat k |}.

(** The same with an embedding model that returns nothing. *)
Definition brokenModelEnv : Env :=
  {| nativeOrder := LittleEndian;
     dbInitialized := true;
     execFails := fun _ => false;
     getNoteById := fun i => Return (Some (sampleNote i));
     getAllNotes := Return [sampleNote 1; sampleNote 2];
     digestStringAsync := fun t => Return (str "sha256:" ++ t);
     getEmbeddingContext := Some (fun _ => Return {| embedding := Some [] |});
     isEmbeddingReady := true;
     isRecallReady := true;
     Date_now := fun _ => 1700000000000;
     entropy := fun k => Z.of_nat k |}.

(** A stored text embedding for note [noteId]. *)
Definition sampleRow (noteId : Z) (vector : list float) : NoteEmbeddingRow :=
  {| ne_noteId := noteId;
     ne_embedding := BUint8Array (embeddingToBlob LittleEndian vector);
     ne_embeddingDimensions := Z.of_nat (List.length vector);
     ne_textHash := str "sha256:0";
     ne_status := completed;
     ne_createdAt := 0 |}.

(** A stored row whose blob has three bytes. *)
Definition truncatedRow (noteId : Z) : NoteEmbeddingRow :=
  {| ne_noteId := noteId;
     ne_embedding := BArrayBuffer [x00; x00; x80];
     ne_embeddingDimensions := 2;
     ne_textHash := str "sha256:0";
     ne_status := completed;
     ne_createdAt := 0 |}.

Definition sampleQuery : Float32Array := Float32Array_from LittleEndian [1; 0]%float.

(** The two notes of the specification's scoring example, at the time
    [sampleEnv] reads: A has an image, is ten days old, has 200
    characters, was never shown and has a script; B has no image, is one
    day old, has 50 characters, was shown just now and has no script. *)
Definition noteA : NoteWithDetails :=
  {| id := 1;
     title := str "A";
     content := repeat 97%N 200;
     audioUri := None;
     recallScript := Some (str "You spent the day at the beach.");
     lastShownInReminisce := None;
     createdAt := 1700000000000 - 10 * MS_PER_DAY;
     updatedAt := 1700000000000 - 10 * MS_PER_DAY;
     tags := [];
     images := [{| image_id := 1; image_noteId := 1; image_uri := str "file:a.jpg";
                   image_description := str "the shore" |}] |}.

Definition noteB : NoteWithDetails :=
  {| id := 2;
     title := str "B";
     content := repeat 98%N 50;
     audioUri := None;
     recallScript := None;
     lastShownInReminisce := Some 1700000000000;
     createdAt := 1700000000000 - 1 * MS_PER_DAY;
     updatedAt := 1700000000000 - 1 * MS_PER_DAY;
     tags := [];
     images := [] |}.

Definition reminisceEnv : Env :=
  {| nativeOrder := LittleEndian;
     dbInitialized := true;
     execFails := fun _ => false;
     getNoteById := fun i => Return (Some (sampleNote i));
     getAllNotes := Return [noteB; noteA];
     digestStringAsync := fun t => Return (str "sha256:" ++ t);
     getEmbeddingContext := Some (fun _ => Return {| embedding := Some [1; 0]%float |});
     isEmbeddingReady := true;
     isRecallReady := true;
     Date_now := fun _ => 1700000000000;
     entropy := fun k => Z.of_nat k |}.

Definition emptyDatabase : Database :=
  {| note_embeddings := []; image_embeddings := []; images_table := [] |}.

(** ** Further sample data *)

(** Three stored text embeddings: of the query's direction, at an angle
    to it, and across it. *)
Definition sampleDatabase : Database :=
  {| note_embeddings := [sampleRow 1 [1; 0]%float; sampleRow 2 [3; 1]%float;
                         sampleRow 3 [0; 1]%float];
     image_embeddings := [];
     images_table := [] |}.

(** The body of the loop of [cosineSimilarity], on the running
    [dotProduct], [normA] and [normB]. *)
Definition accumulate (bo : ByteOrder) (a b : Float32Array)
  : float * float * float -> nat -> float * float * float :=
  fun '(dotProduct, normA, normB) i =>
  let ai := ToNumber (f32_get bo a (Z.of_nat i)) in
  let bi := ToNumber (f32_get bo b (Z.of_nat i)) in
  (dotProduct + ai * bi, normA + ai * ai, normB + bi * bi)%float.

(** The numbers [a[0]], ..., [a[n-1]] ([undefined] counts as NaN). *)
Definition reads (bo : ByteOrder) (a : Float32Array) (n : nat) : list float :=
  map (fun i => ToNumber (f32_get bo a (Z.of_nat i))) (seq 0 n).

(** The dot product of two sequences, summed from 0 in index order. *)
Definition dot (xs ys : list float) : float :=
  fold_left (fun sum xy => (sum + fst xy * snd xy)%float) (combine xs ys) 0%float.

(** The cosine similarity of the specification, over the dimensions of
    the query [a]: the dot product over the product of the norms. *)
Definition cosineOf (bo : ByteOrder) (a b : Float32Array) : float :=
  let n := Z.to_nat (f32_length a) in
  let xs := reads bo a n in
  let ys := reads bo b n in
  (dot xs ys / (PrimFloat.sqrt (dot xs xs) * PrimFloat.sqrt (dot ys ys)))%float.

(** The match a returned note stands for. *)
Definition matchOf (r : RetrievedNote) : Z * Match :=
  (r_noteId r, {| score := similarityScore r; matchType := r_matchType r |}).

(** The rows of either SELECT a match of kind [kind] comes from. *)
Definition rowsOfKind (kind : MatchType) (noteRows imageRows : list EmbeddingRow)
  : list EmbeddingRow :=
  match kind with
  | text => noteRows
  | image => imageRows
  end.

(** The example of the specification: a query and three stored text
    embeddings whose similarities to it are 0.82, 0.55 and 0.20. *)
Definition rankingQuery : Float32Array :=
  Float32Array_from LittleEndian [1; 0; 0; 0; 0]%float.

Definition rankingDatabase : Database :=
  {| note_embeddings := [sampleRow 1 [41; 27; 9; 3; 0]%float;
                         sampleRow 2 [11; 15; 7; 2; 1]%float;
                         sampleRow 3 [1; 2; 4; 2; 0]%float];
     image_embeddings := [];
     images_table := [] |}.

(** The environment with other draws behind [Math.random()]. *)
Definition withEntropy (env : Env) (draws : nat -> Z) : Env :=
  {| nativeOrder := nativeOrder env;
     dbInitialized := dbInitialized env;
     execFails := execFails env;
     getNoteById := getNoteById env;
     getAllNotes := getAllNotes env;
     digestStringAsync := digestStringAsync env;
     getEmbeddingContext := getEmbeddingContext env;
     isEmbeddingReady := isEmbeddingReady env;
     isRecallReady := isRecallReady env;
     Date_now := Date_now env;
     entropy := draws |}.

(** A database without one row of a table. *)
Definition withNoteEmbeddings (rows : list NoteEmbeddingRow) (d : Database) : Database :=
  {| note_embeddings := rows;
     image_embeddings := image_embeddings d;
     images_table := images_table d |}.

Definition withImageEmbeddings (rows : list ImageEmbeddingRow) (d : Database) : Database :=
  {| note_embeddings := note_embeddings d;
     image_embeddings := rows;
     images_table := images_table d |}.

(** A query of three dimensions. *)
Definition longQuery : Float32Array := Float32Array_from LittleEndian [1; 0; 0]%float.

(** A stored text embedding of two dimensions among others of three. *)
Definition mixedDatabase : Database :=
  {| note_embeddings := [sampleRow 1 [1; 0; 0]%float; sampleRow 2 [1; 0]%float];
     image_embeddings := [];
     images_table := [] |}.

(** The row [generateNoteTextEmbedding] stores for a vector. *)
Definition freshRow (env : Env) (noteId : Z) (vector : list float) (textHash : jsstring)
  : NoteEmbeddingRow :=
  {| ne_noteId := noteId;
     ne_embedding := BUint8Array (embeddingToBlob (nativeOrder env) vector);
     ne_embeddingDimensions := Z.of_nat (List.length vector);
     ne_textHash := textHash;
     ne_status := completed;
     ne_createdAt := Date_now env 0 |}.

(** What its UPDATE does to one row. *)
Definition refresh (env : Env) (noteId : Z) (vector : list float) (textHash : jsstring)
    (r : NoteEmbeddingRow) : NoteEmbeddingRow :=
  if ne_noteId r =? noteId then freshRow env noteId vector textHash else r.

(** The statement a successful run stores its vector with. *)
Definition storingStatement (env : Env) (noteId : Z) (vector : list float)
    (textHash : jsstring) (existing : list NoteEmbeddingRow) : Sql :=
  match existing with
  | _ :: _ =>
      UpdateNoteEmbedding (embeddingToBlob (nativeOrder env) vector)
        (Z.of_nat (List.length vector)) textHash completed (Date_now env 0) noteId
  | [] =>
      InsertNoteEmbedding noteId (embeddingToBlob (nativeOrder env) vector)
        (Z.of_nat (List.length vector)) textHash completed (Date_now env 0)
  end.

(** The rows of a note. *)
Definition rowsOf (noteId : Z) (rows : list NoteEmbeddingRow) : list NoteEmbeddingRow :=
  filter (fun r => ne_noteId r =? noteId) rows.

(** The stored fingerprint the generator compares with, if any, is not [h]. *)
Definition fingerprintChanged (noteId : Z) (h : jsstring) (rows : list NoteEmbeddingRow)
  : Prop :=
  forall r, hd_error (rowsOf noteId rows) = Some r -> ne_textHash r <> h.

(** A world with an empty store and nothing done yet. *)
Definition emptyWorld : World := {| db := emptyDatabase; effects := [] |}.

(** A world where note 1 has a stale record that failed. *)
Definition staleWorld : World :=
  {| db := {| note_embeddings := [mark_failed 1 (sampleRow 1 [0; 1]%float);
                                  sampleRow 2 [0; 1]%float];
              image_embeddings := []; images_table := [] |};
     effects := [] |}.

(** An environment whose database was never initialised. *)
Definition noDatabaseEnv : Env :=
  {| nativeOrder := LittleEndian;
     dbInitialized := false;
     execFails := fun _ => false;
     getNoteById := fun _ => Throw (Error "Database not initialized. Call initializeDatabase() first.");
     getAllNotes := Throw (Error "Database not initialized. Call initializeDatabase() first.");
     digestStringAsync := fun t => Return (str "sha256:" ++ t);
     getEmbeddingContext := Some (fun _ => Return {| embedding := Some [1; 0]%float |});
     isEmbeddingReady := true;
     isRecallReady := true;
     Date_now := fun _ => 1700000000000;
     entropy := fun k => Z.of_nat k |}.

(** A store where the only record of note 1 has failed, and an image of
    note 1 has a completed embedding. *)
Definition failedTextDatabase : Database :=
  {| note_embeddings := [mark_failed 1 (sampleRow 1 [1; 0]%float)];
     image_embeddings :=
       [{| ie_imageId := 5; ie_description := str "the shore";
           ie_embedding := BUint8Array (embeddingToBlob LittleEndian [1; 0]%float);
           ie_embeddingDimensions := 2; ie_descriptionHash := str "sha256:1";
           ie_status := completed; ie_createdAt := 0 |}];
     images_table := [{| image_id := 5; image_noteId := 1; image_uri := str "file:a.jpg";
                         image_description := str "the shore" |}] |}.

(** ** The schedulers, for any ids *)

(** The pending set after calls for [ids], from the set [s]. *)
Definition addAll (ids : list Z) (s : list Z) : list Z :=
  fold_left (fun s noteId => Set_add noteId s) ids s.

(** Further calls, each for its own id, each after a pause. *)
Definition calls (p : Pipeline) (steps : list (Z * Z)) : list Action :=
  flat_map (fun step => [Elapse (fst step); callOf p (snd step)]) steps.

(** What can happen when callbacks may run late: [setTimeout] promises
    a minimum delay only. *)
Inductive Event : Type :=
| Does (a : Action)          (* a step of the loop, as in [step] *)
| Lags (ms : Z)              (* time passes and no callback runs yet *)
| Fires (p : Pipeline).      (* the timer callback of [p] runs, if its timer is due *)

Definition occur (env : Env) (rt : Runtime) (e : Event) : Runtime :=
  match e with
  | Does a => step env rt a
  | Lags ms =>
      {| clock := clock rt + Z.max ms 0; embeddingsQueue := embeddingsQueue rt;
         scriptsQueue := scriptsQueue rt; jobs := jobs rt; history := history rt |}
  | Fires p => fireIfDue env p rt
  end.

Definition happen (env : Env) (rt : Runtime) (events : list Event) : Runtime :=
  fold_left (occur env) events rt.

(** The state of scheduler [p] is consistent: no id is pending twice, a
    timer is armed exactly when some id is pending, and an armed timer
    is due at most 300 ms from now. *)
Definition scheduler_consistent (rt : Runtime) (p : Pipeline) : Prop :=
  NoDup (pending (queue p rt)) /\
  match timer (queue p rt) with
  | None => pending (queue p rt) = []
  | Some due => pending (queue p rt) <> [] /\ due <= clock rt + DEBOUNCE_MS
  end.

(** ** The order of the pipelines after [createNote] *)

(** Every start of the recall-script pipeline for a note comes after an
    embedding pipeline of that note has settled. *)
Definition chained (h : list Occurrence) : Prop :=
  forall before noteId after,
    h = before ++ Started RecallScript noteId :: after ->
    In (Settled Embeddings noteId) before.

(** Notes are created, time passes, work completes; no note is edited. *)
Definition noEdit (a : Action) : Prop :=
  match a with
  | CreateNote _ | Elapse _ | Complete _ _ => True
  | UpdateNote _ | UpdateNoteEmbeddings _ | UpdateRecallScript _ => False
  end.

(** What holds of the jobs while no note is edited: each is a pipeline
    entry at work, and only an embedding job has the script chained to it. *)
Definition createdJob (j : Job) : Prop :=
  job_phase j = Running /\ (job_then_script j = true -> job_pipeline j = Embeddings).

(* ================================================================== *)
(** ** database/notesOperations.ts: the notes store                    *)
(* ================================================================== *)

Module NotesOperations.

(** A row of [notes] (the [Note] interface). *)
Record NoteRow : Type := {
  note_id : Z;
  note_title : jsstring;
  note_content : jsstring;
  note_audioUri : option jsstring;
  note_recallScript : option jsstring;
  note_lastShownInReminisce : option Z;
  note_createdAt : Z;
  note_updatedAt : Z }.

(** A row of [note_tags]. *)
Record NoteTagRow : Type := { nt_noteId : Z; nt_tagId : Z }.

Record CreateNoteInput : Type := {
  in_title : jsstring;
  in_content : jsstring;
  in_tags : list jsstring;
  in_images : list (jsstring * jsstring);      (* uri, description *)
  in_audioUri : option jsstring }.

Record UpdateNoteInput : Type := {
  up_id : Z;
  up_title : jsstring;
  up_content : jsstring;
  up_tags : list jsstring;
  up_images : list (jsstring * jsstring);
  up_audioUri : option jsstring }.

(** The statements of notesOperations.ts, of [markNoteAsShown], of
    [generateRecallScript] and of [generateImageEmbedding]. *)
Inductive NotesSql : Type :=
| InsertNote (title content : jsstring) (audioUri : option jsstring) (createdAt updatedAt : Z)
| SelectTagByName (name : jsstring)
| InsertTag (name : jsstring)
| InsertNoteTag (noteId tagId : Z)
| InsertImage (noteId : Z) (uri description : jsstring)
| SelectAllNotes
| SelectNoteById (id : Z)
| SelectTagsForNote (noteId : Z)
| SelectImagesForNote (noteId : Z)
| UpdateNoteFields (title content : jsstring) (audioUri : option jsstring) (updatedAt id : Z)
| DeleteNoteTags (noteId : Z)
| DeleteImages (noteId : Z)
| DeleteNote (id : Z)
| UpdateLastShown (now id : Z)
| UpdateNoteRecallScript (script : jsstring) (id : Z)
| SelectImageEmbeddingHash (imageId : Z)
| UpdateImageEmbedding (description : jsstring) (embedding : Uint8Array) (dimensions : Z)
    (descriptionHash : jsstring) (status : Status) (createdAt : Z) (imageId : Z)
| InsertImageEmbedding (imageId : Z) (description : jsstring) (embedding : Uint8Array)
    (dimensions : Z) (descriptionHash : jsstring) (status : Status) (createdAt : Z)
| UpdateImageEmbeddingStatus (status : Status) (imageId : Z).

(** What the code does not decide: the environment of the other
    modules, whether the connection enforces foreign keys
    ([PRAGMA foreign_keys], which no source file sets), and the
    statements the engine rejects for reasons of its own. *)
Record Host : Type := {
  base : Env;
  foreignKeys : bool;
  rejects : NotesSql -> bool }.

(** The tables, each in rowid order, the AUTOINCREMENT counters of
    [sqlite_sequence], and the background pipelines triggered so far. *)
Record Store : Type := {
  notes_rows : list NoteRow;
  tags_rows : list Tag;
  note_tags_rows : list NoteTagRow;
  embeddings : Database;                (* images, note_embeddings, image_embeddings *)
  seq_notes : Z;
  seq_tags : Z;
  seq_images : Z;
  triggered : list Action }.

Definition T (A : Type) : Type := Store -> outcome A * Store.

Definition retT {A : Type} (a : A) : T A := fun s => (Return a, s).
Definition throwT {A : Type} (e : js_error) : T A := fun s => (Throw e, s).

Definition bindT {A B : Type} (m : T A) (k : A -> T B) : T B :=
  fun s =>
    match m s with
    | (Return a, s') => k a s'
    | (Throw e, s') => (Throw e, s')
    end.

(** [try { body } catch (e) { handler }] *)
Definition try_catchT {A : Type} (body : T A) (handler : js_error -> T A) : T A :=
  fun s =>
    match body s with
    | (Return a, s') => (Return a, s')
    | (Throw e, s') => handler e s'
    end.

(** [for (const x of l) { await f(x) }] *)
Fixpoint forEach {A : Type} (f : A -> T unit) (l : list A) : T unit :=
  match l with
  | [] => retT tt
  | x :: l' => bindT (f x) (fun _ => forEach f l')
  end.

(** [db.transaction(body)]: committed when [body] resolves, rolled back
    when it rejects. *)
Definition transaction {A : Type} (body : T A) : T A :=
  fun s =>
    match body s with
    | (Return a, s') => (Return a, s')
    | (Throw e, _) => (Throw e, s)
    end.

Definition getDatabase (host : Host) : T unit :=
  fun s => (getDatabaseInstance (base host), s).

(** A statement the engine rejects, else [run]. *)
Definition executing {A : Type} (host : Host) (statement : NotesSql) (run : T A) : T A :=
  fun s =>
    if rejects host statement then (Throw (Error "db.execute rejected"), s)
    else run s.

(** *** Updates of one table *)

Definition with_notes (rows : list NoteRow) (seq : Z) (s : Store) : Store :=
  {| notes_rows := rows; tags_rows := tags_rows s; note_tags_rows := note_tags_rows s;
     embeddings := embeddings s; seq_notes := seq; seq_tags := seq_tags s;
     seq_images := seq_images s; triggered := triggered s |}.

Definition with_tags (rows : list Tag) (seq : Z) (s : Store) : Store :=
  {| notes_rows := notes_rows s; tags_rows := rows; note_tags_rows := note_tags_rows s;
     embeddings := embeddings s; seq_notes := seq_notes s; seq_tags := seq;
     seq_images := seq_images s; triggered := triggered s |}.

Definition with_note_tags (rows : list NoteTagRow) (s : Store) : Store :=
  {| notes_rows := notes_rows s; tags_rows := tags_rows s; note_tags_rows := rows;
     embeddings := embeddings s; seq_notes := seq_notes s; seq_tags := seq_tags s;
     seq_images := seq_images s; triggered := triggered s |}.

Definition with_embeddings (d : Database) (seq : Z) (s : Store) : Store :=
  {| notes_rows := notes_rows s; tags_rows := tags_rows s;
     note_tags_rows := note_tags_rows s;
     embeddings := d; seq_notes := seq_notes s; seq_tags := seq_tags s;
     seq_images := seq; triggered := triggered s |}.

Definition with_triggered (a : list Action) (s : Store) : Store :=
  {| notes_rows := notes_rows s; tags_rows := tags_rows s;
     note_tags_rows := note_tags_rows s;
     embeddings := embeddings s; seq_notes := seq_notes s; seq_tags := seq_tags s;
     seq_images := seq_images s; triggered := a |}.

Definition with_images (rows : list Image) (d : Database) : Database :=
  {| note_embeddings := note_embeddings d;
     image_embeddings := image_embeddings d;
     images_table := rows |}.

(** *** The statements *)

(** [INTEGER PRIMARY KEY AUTOINCREMENT]: one more than the largest id
    the table ever held. *)
Definition nextId (seq : Z) (ids : list Z) : Z :=
  Z.max seq (fold_right Z.max 0 ids) + 1.

Definition hasId (ids : list Z) (i : Z) : bool := existsb (Z.eqb i) ids.

Definition foreignKeyFailed {A : Type} : T A :=
  throwT (Error "FOREIGN KEY constraint failed").

(** INSERT INTO notes (title, content, audioUri, createdAt, updatedAt):
    the [insertId]. *)
Definition insertNote (host : Host) (title_ content_ : jsstring)
    (audioUri_ : option jsstring) (now : Z) : T Z :=
  executing host (InsertNote title_ content_ audioUri_ now now) (fun s =>
    let newId := nextId (seq_notes s) (map note_id (notes_rows s)) in
    (Return newId,
     with_notes (notes_rows s ++
                 [{| note_id := newId; note_title := title_; note_content := content_;
                     note_audioUri := audioUri_; note_recallScript := None;
                     note_lastShownInReminisce := None;
                     note_createdAt := now; note_updatedAt := now |}])
                newId s)).

(** SELECT id FROM tags WHERE name = ? *)
Definition selectTagByName (host : Host) (name : jsstring) : T (list Tag) :=
  executing host (SelectTagByName name) (fun s =>
    (Return (filter (fun t => jsstring_eqb (tag_name t) name) (tags_rows s)), s)).

(** INSERT INTO tags (name): [name] is UNIQUE. *)
Definition insertTag (host : Host) (name : jsstring) : T Z :=
  executing host (InsertTag name) (fun s =>
    if existsb (fun t => jsstring_eqb (tag_name t) name) (tags_rows s)
    then (Throw (Error "UNIQUE constraint failed: tags.name"), s)
    else
      let newId := nextId (seq_tags s) (map tag_id (tags_rows s)) in
      (Return newId,
       with_tags (tags_rows s ++ [{| tag_id := newId; tag_name := name |}]) newId s)).

(** INSERT INTO note_tags (noteId, tagId): the pair is the primary key;
    both columns are foreign keys. *)
Definition insertNoteTag (host : Host) (noteId tagId : Z) : T unit :=
  executing host (InsertNoteTag noteId tagId) (fun s =>
    if existsb (fun nt => (nt_noteId nt =? noteId) && (nt_tagId nt =? tagId))
               (note_tags_rows s)
    then (Throw (Error "UNIQUE constraint failed: note_tags.noteId, note_tags.tagId"), s)
    else if foreignKeys host &&
            negb (hasId (map note_id (notes_rows s)) noteId &&
                  hasId (map tag_id (tags_rows s)) tagId)
    then foreignKeyFailed s
    else (Return tt,
          with_note_tags (note_tags_rows s ++ [{| nt_noteId := noteId; nt_tagId := tagId |}])
                         s)).

(** INSERT INTO images (noteId, uri, description) *)
Definition insertImage (host : Host) (noteId : Z) (uri description : jsstring) : T unit :=
  executing host (InsertImage noteId uri description) (fun s =>
    if foreignKeys host && negb (hasId (map note_id (notes_rows s)) noteId)
    then foreignKeyFailed s
    else
      let rows := images_table (embeddings s) in
      let newId := nextId (seq_images s) (map image_id rows) in
      (Return tt,
       with_embeddings
         (with_images (rows ++ [{| image_id := newId; image_noteId := noteId;
                                   image_uri := uri; image_description := description |}])
                      (embeddings s))
         newId s)).

(** The rows of [image_embeddings] that ON DELETE CASCADE removes with
    the images [gone]. *)
Definition cascadeImages (host : Host) (gone : list Image) (d : Database) : Database :=
  if foreignKeys host
  then {| note_embeddings := note_embeddings d;
          image_embeddings :=
            filter (fun ie => negb (hasId (map image_id gone) (ie_imageId ie)))
                   (image_embeddings d);
          images_table := images_table d |}
  else d.

(** DELETE FROM images WHERE noteId = ? *)
Definition deleteImages (host : Host) (noteId : Z) : T unit :=
  executing host (DeleteImages noteId) (fun s =>
    let rows := images_table (embeddings s) in
    let gone := filter (fun i => image_noteId i =? noteId) rows in
    let kept := filter (fun i => negb (image_noteId i =? noteId)) rows in
    (Return tt,
     with_embeddings (cascadeImages host gone (with_images kept (embeddings s)))
                     (seq_images s) s)).

(** DELETE FROM note_tags WHERE noteId = ? *)
Definition deleteNoteTags (host : Host) (noteId : Z) : T unit :=
  executing host (DeleteNoteTags noteId) (fun s =>
    (Return tt,
     with_note_tags (filter (fun nt => negb (nt_noteId nt =? noteId)) (note_tags_rows s)) s)).

(** UPDATE notes SET title = ?, content = ?, audioUri = ?, updatedAt = ?
    WHERE id = ? *)
Definition updateNoteFields (host : Host) (title_ content_ : jsstring)
    (audioUri_ : option jsstring) (now id_ : Z) : T unit :=
  executing host (UpdateNoteFields title_ content_ audioUri_ now id_) (fun s =>
    (Return tt,
     with_notes
       (map (fun n =>
               if note_id n =? id_
               then {| note_id := note_id n; note_title := title_;
                       note_content := content_; note_audioUri := audioUri_;
                       note_recallScript := note_recallScript n;
                       note_lastShownInReminisce := note_lastShownInReminisce n;
                       note_createdAt := note_createdAt n; note_updatedAt := now |}
               else n)
            (notes_rows s))
       (seq_notes s) s)).

(** DELETE FROM notes WHERE id = ?, with what ON DELETE CASCADE removes
    when foreign keys are enforced: the note's rows of [note_tags],
    [images] (and their embeddings) and [note_embeddings]. *)
Definition deleteNoteRow (host : Host) (id_ : Z) : T unit :=
  executing host (DeleteNote id_) (fun s =>
    let s1 := with_notes (filter (fun n => negb (note_id n =? id_)) (notes_rows s))
                         (seq_notes s) s in
    if foreignKeys host
    then
      let d := embeddings s in
      let gone := filter (fun i => image_noteId i =? id_) (images_table d) in
      let d' :=
        {| note_embeddings :=
             filter (fun ne => negb (ne_noteId ne =? id_)) (note_embeddings d);
           image_embeddings :=
             filter (fun ie => negb (hasId (map image_id gone) (ie_imageId ie)))
                    (image_embeddings d);
           images_table :=
             filter (fun i => negb (image_noteId i =? id_)) (images_table d) |} in
      (Return tt,
       with_embeddings d' (seq_images s)
         (with_note_tags
            (filter (fun nt => negb (nt_noteId nt =? id_)) (note_tags_rows s)) s1))
    else (Return tt, s1)).

(** SELECT ... FROM notes WHERE id = ? *)
Definition selectNoteById (host : Host) (id_ : Z) : T (list NoteRow) :=
  executing host (SelectNoteById id_) (fun s =>
    (Return (filter (fun n => note_id n =? id_) (notes_rows s)), s)).

(** ORDER BY createdAt DESC, rows of equal date in rowid order. *)
Fixpoint insertByDate (n : NoteRow) (sorted : list NoteRow) : list NoteRow :=
  match sorted with
  | [] => [n]
  | m :: sorted' =>
      if note_createdAt m <? note_createdAt n then n :: m :: sorted'
      else m :: insertByDate n sorted'
  end.

Definition newestFirst (rows : list NoteRow) : list NoteRow :=
  fold_left (fun sorted n => insertByDate n sorted) rows [].

(** SELECT ... FROM notes ORDER BY createdAt DESC *)
Definition selectAllNotes (host : Host) : T (list NoteRow) :=
  executing host SelectAllNotes (fun s => (Return (newestFirst (notes_rows s)), s)).

(** The rows of [note_tags] of a note in the order the join of
    [getTagsForNote], which has no ORDER BY, reads them: through the
    index of the primary key (noteId, tagId), that is by tag id. *)
Fixpoint insertByTagId (nt : NoteTagRow) (sorted : list NoteTagRow) : list NoteTagRow :=
  match sorted with
  | [] => [nt]
  | m :: sorted' =>
      if nt_tagId nt <? nt_tagId m then nt :: m :: sorted'
      else m :: insertByTagId nt sorted'
  end.

Definition byTagId (links : list NoteTagRow) : list NoteTagRow :=
  fold_left (fun sorted nt => insertByTagId nt sorted) links [].

Definition linksOf (s : Store) (noteId : Z) : list NoteTagRow :=
  byTagId (filter (fun nt => nt_noteId nt =? noteId) (note_tags_rows s)).

(** The tags a note is linked to, link by link. *)
Definition tagsOf (s : Store) (noteId : Z) : list Tag :=
  flat_map (fun nt => filter (fun t => tag_id t =? nt_tagId nt) (tags_rows s))
           (linksOf s noteId).

Definition imagesOf (s : Store) (noteId : Z) : list Image :=
  filter (fun i => image_noteId i =? noteId) (images_table (embeddings s)).

(** [getTagsForNote] *)
Definition getTagsForNote (host : Host) (noteId : Z) : T (list Tag) :=
  executing host (SelectTagsForNote noteId) (fun s => (Return (tagsOf s noteId), s)).

(** [getImagesForNote] *)
Definition getImagesForNote (host : Host) (noteId : Z) : T (list Image) :=
  executing host (SelectImagesForNote noteId) (fun s => (Return (imagesOf s noteId), s)).

(** [{...note, tags, images}] *)
Definition withDetails (n : NoteRow) (tags_ : list Tag) (images_ : list Image)
  : NoteWithDetails :=
  {| id := note_id n; title := note_title n; content := note_content n;
     audioUri := note_audioUri n; recallScript := note_recallScript n;
     lastShownInReminisce := note_lastShownInReminisce n;
     createdAt := note_createdAt n; updatedAt := note_updatedAt n;
     tags := tags_; images := images_ |}.

(** [buildNoteWithDetails] *)
Definition buildNoteWithDetails (host : Host) (n : NoteRow) : T NoteWithDetails :=
  bindT (getTagsForNote host (note_id n)) (fun tags_ =>
  bindT (getImagesForNote host (note_id n)) (fun images_ =>
  retT (withDetails n tags_ images_))).

(** [getOrCreateTag]; [createNote] and [updateNote] repeat its body. *)
Definition getOrCreateTag (host : Host) (name : jsstring) : T Z :=
  bindT (selectTagByName host name) (fun rows =>
  match rows with
  | existingTag :: _ => retT (tag_id existingTag)
  | [] => insertTag host name
  end).

(** The two loops of [createNote] and of [updateNote]. *)
Definition processTags (host : Host) (noteId : Z) (tagNames : list jsstring) : T unit :=
  match tagNames with
  | [] => retT tt
  | _ :: _ =>
      forEach (fun tagName =>
                 bindT (getOrCreateTag host tagName) (fun tagId =>
                 insertNoteTag host noteId tagId))
              tagNames
  end.

Definition processImages (host : Host) (noteId : Z) (images_ : list (jsstring * jsstring))
  : T unit :=
  match images_ with
  | [] => retT tt
  | _ :: _ => forEach (fun image => insertImage host noteId (fst image) (snd image)) images_
  end.

(** A background pipeline is started; its promise is not awaited. *)
Definition trigger (a : Action) : T unit :=
  fun s => (Return tt, with_triggered (triggered s ++ [a]) s).

(** [createNote] *)
Definition createNote (host : Host) (input : CreateNoteInput) : T Z :=
  bindT (getDatabase host) (fun _ =>
  bindT (transaction
           (let now := Date_now (base host) 0 in
            bindT (insertNote host (in_title input) (in_content input)
                     (in_audioUri input) now) (fun noteId =>
            bindT (processTags host noteId (in_tags input)) (fun _ =>
            bindT (processImages host noteId (in_images input)) (fun _ =>
            retT noteId))))) (fun noteId =>
  bindT (trigger (CreateNote noteId)) (fun _ =>
  retT noteId))).

(** [getAllNotes] *)
Fixpoint buildAll (host : Host) (rows : list NoteRow) : T (list NoteWithDetails) :=
  match rows with
  | [] => retT []
  | n :: rows' =>
      bindT (buildNoteWithDetails host n) (fun noteWithDetails =>
      bindT (buildAll host rows') (fun rest =>
      retT (noteWithDetails :: rest)))
  end.

Definition getAllNotes (host : Host) : T (list NoteWithDetails) :=
  bindT (getDatabase host) (fun _ =>
  bindT (selectAllNotes host) (fun rows =>
  buildAll host rows)).

(** [getNoteById] *)
Definition getNoteById (host : Host) (id_ : Z) : T (option NoteWithDetails) :=
  bindT (getDatabase host) (fun _ =>
  bindT (selectNoteById host id_) (fun rows =>
  match rows with
  | [] => retT None
  | n :: _ => bindT (buildNoteWithDetails host n) (fun d => retT (Some d))
  end)).

(** [updateNote] *)
Definition updateNote (host : Host) (input : UpdateNoteInput) : T unit :=
  bindT (getDatabase host) (fun _ =>
  bindT (transaction
           (let now := Date_now (base host) 0 in
            bindT (updateNoteFields host (up_title input) (up_content input)
                     (up_audioUri input) now (up_id input)) (fun _ =>
            bindT (deleteNoteTags host (up_id input)) (fun _ =>
            bindT (deleteImages host (up_id input)) (fun _ =>
            bindT (processTags host (up_id input) (up_tags input)) (fun _ =>
            processImages host (up_id input) (up_images input))))))) (fun _ =>
  trigger (UpdateNote (up_id input)))).

(** [deleteNote] *)
Definition deleteNote (host : Host) (id_ : Z) : T unit :=
  bindT (getDatabase host) (fun _ => deleteNoteRow host id_).

(** ** selectReminisceNotes.ts: marking notes as shown *)

(** UPDATE notes SET lastShownInReminisce = ? WHERE id = ? *)
Definition updateLastShown (host : Host) (now noteId : Z) : T unit :=
  executing host (UpdateLastShown now noteId) (fun s =>
    (Return tt,
     with_notes
       (map (fun n =>
               if note_id n =? noteId
               then {| note_id := note_id n; note_title := note_title n;
                       note_content := note_content n; note_audioUri := note_audioUri n;
                       note_recallScript := note_recallScript n;
                       note_lastShownInReminisce := Some now;
                       note_createdAt := note_createdAt n;
                       note_updatedAt := note_updatedAt n |}
               else n)
            (notes_rows s))
       (seq_notes s) s)).

(** [markNoteAsShown]; [k] counts the readings of [Date.now()]. *)
Definition markNoteAsShown (host : Host) (k : nat) (noteId : Z) : T unit :=
  bindT (getDatabase host) (fun _ =>
  let now := Date_now (base host) k in
  try_catchT (updateLastShown host now noteId) (fun _ => retT tt)).

(** [markNotesAsShown] *)
Fixpoint markNotesAsShown_from (host : Host) (k : nat) (noteIds : list Z) : T unit :=
  match noteIds with
  | [] => retT tt
  | noteId :: rest =>
      bindT (markNoteAsShown host k noteId) (fun _ => markNotesAsShown_from host (S k) rest)
  end.

Definition markNotesAsShown (host : Host) (noteIds : list Z) : T unit :=
  markNotesAsShown_from host 0 noteIds.

(** *** Reading the store without running a statement *)

(** The note stored under [id_], with its details. *)
Definition lookup (s : Store) (id_ : Z) : option NoteWithDetails :=
  match filter (fun n => note_id n =? id_) (notes_rows s) with
  | [] => None
  | n :: _ => Some (withDetails n (tagsOf s (note_id n)) (imagesOf s (note_id n)))
  end.

(** What the store is expected to satisfy: ids are unique in [notes] and
    [tags], and no row refers to a note or a tag that has not existed
    yet. *)
Definition bound (seq : Z) (ids : list Z) : Z := Z.max seq (fold_right Z.max 0 ids).

Record sound (s : Store) : Prop := {
  sound_notes : NoDup (map note_id (notes_rows s));
  sound_tags : NoDup (map tag_id (tags_rows s));
  sound_links : forall nt, In nt (note_tags_rows s) ->
                  nt_noteId nt <= bound (seq_notes s) (map note_id (notes_rows s)) /\
                  nt_tagId nt <= bound (seq_tags s) (map tag_id (tags_rows s));
  sound_images : forall i, In i (images_table (embeddings s)) ->
                   image_noteId i <= bound (seq_notes s) (map note_id (notes_rows s)) }.

(** No statement is rejected and the database is initialised. *)
Definition healthy (host : Host) : Prop :=
  dbInitialized (base host) = true /\ forall statement, rejects host statement = false.

(** An empty store and a host for concrete runs. *)
Definition emptyStore : Store :=
  {| notes_rows := []; tags_rows := []; note_tags_rows := [];
     embeddings := emptyDatabase; seq_notes := 0; seq_tags := 0; seq_images := 0;
     triggered := [] |}.

Definition sampleHost : Host :=
  {| base := sampleEnv; foreignKeys := false; rejects := fun _ => false |}.

Definition beachInput : CreateNoteInput :=
  {| in_title := str "Beach day";
     in_content := str "We walked along the shore.";
     in_tags := [str "family"; str "summer"];
     in_images := [(str "file:a.jpg", str "the shore")];
     in_audioUri := None |}.

End NotesOperations.

(** The environment the other modules see when notesOperations serves a
    store on which no statement is rejected. *)
Definition serving (env : Env) (s : NotesOperations.Store) : Env :=
  {| nativeOrder := nativeOrder env;
     dbInitialized := dbInitialized env;
     execFails := execFails env;
     getNoteById :=
       fun i => if dbInitialized env then Return (NotesOperations.lookup s i)
                else Throw (Error "Database not initialized. Call initializeDatabase() first.");
     getAllNotes :=
       if dbInitialized env
       then Return (map (fun n => NotesOperations.withDetails n (NotesOperations.tagsOf s (NotesOperations.note_id n))
                                    (NotesOperations.imagesOf s (NotesOperations.note_id n)))
                        (NotesOperations.newestFirst (NotesOperations.notes_rows s)))
       else Throw (Error "Database not initialized. Call initializeDatabase() first.");
     digestStringAsync := digestStringAsync env;
     getEmbeddingContext := getEmbeddingContext env;
     isEmbeddingReady := isEmbeddingReady env;
     isRecallReady := isRecallReady env;
     Date_now := Date_now env;
     entropy := entropy env |}.


Module NO := NotesOperations.

(** A store holding two notes, the first with a tag and an image. *)
Definition twoNotesStore : NO.Store :=
  {| NO.notes_rows :=
       [{| NO.note_id := 1; NO.note_title := str "Beach day";
           NO.note_content := str "We walked along the shore.";
           NO.note_audioUri := None; NO.note_recallScript := None;
           NO.note_lastShownInReminisce := None;
           NO.note_createdAt := 1000; NO.note_updatedAt := 1000 |};
        {| NO.note_id := 2; NO.note_title := str "Garden";
           NO.note_content := str "The roses bloomed.";
           NO.note_audioUri := None; NO.note_recallScript := None;
           NO.note_lastShownInReminisce := None;
           NO.note_createdAt := 2000; NO.note_updatedAt := 2000 |}];
     NO.tags_rows := [{| tag_id := 1; tag_name := str "family" |}];
     NO.note_tags_rows := [{| NO.nt_noteId := 1; NO.nt_tagId := 1 |}];
     NO.embeddings :=
       {| note_embeddings := [sampleRow 1 [1; 0]%float; sampleRow 2 [3; 1]%float];
          image_embeddings := [];
          images_table := [{| image_id := 1; image_noteId := 1;
                              image_uri := str "file:a.jpg";
                              image_description := str "the shore" |}] |};
     NO.seq_notes := 2; NO.seq_tags := 1; NO.seq_images := 1;
     NO.triggered := [] |}.

(** Tag [name] is already linked to note [noteId]: the first tag of
    that name has a row in [note_tags] with the note. *)
Definition linked (s : NO.Store) (noteId : Z) (name : jsstring) : Prop :=
  exists t rest,
    filter (fun t => jsstring_eqb (tag_name t) name) (NO.tags_rows s) = t :: rest /\
    existsb (fun nt => (NO.nt_noteId nt =? noteId) && (NO.nt_tagId nt =? tag_id t))
            (NO.note_tags_rows s) = true.

(** The body of the loop over tag names. *)
Definition linkTag (host : NO.Host) (noteId : Z) (tagName : jsstring) : NO.T unit :=
  NO.bindT (NO.getOrCreateTag host tagName) (fun tagId =>
  NO.insertNoteTag host noteId tagId).

Definition duplicateTagInput : NO.CreateNoteInput :=
  {| NO.in_title := str "Beach day";
     NO.in_content := str "We walked along the shore.";
     NO.in_tags := [str "family"; str "summer"; str "family"];
     NO.in_images := [];
     NO.in_audioUri := None |}.

(** The link rows of a new note, name by name: each refers to the note
    and to a tag of that name. *)
Definition linksFor (tags_ : list Tag) (noteId : Z) (names : list jsstring)
    (links : list NO.NoteTagRow) : Prop :=
  Forall2 (fun name nt =>
             NO.nt_noteId nt = noteId /\
             In {| tag_id := NO.nt_tagId nt; tag_name := name |} tags_)
          names links.

(** The image rows of a new note, input by input. *)
Definition imagesFor (noteId : Z) (inputs : list (jsstring * jsstring))
    (rows : list Image) : Prop :=
  Forall2 (fun input i =>
             image_noteId i = noteId /\ image_uri i = fst input /\
             image_description i = snd input)
          inputs rows.

(** What the tag loop leaves of a store [s] when nothing fails: tags
    are only added, with fresh ids; the links of the note are added, name
    by name; nothing else changes. *)
Definition afterTags (s s' : NO.Store) (noteId : Z) (names : list jsstring) : Prop :=
  exists extra links,
    NO.notes_rows s' = NO.notes_rows s /\ NO.embeddings s' = NO.embeddings s /\
    NO.seq_notes s' = NO.seq_notes s /\ NO.seq_images s' = NO.seq_images s /\
    NO.triggered s' = NO.triggered s /\
    NO.tags_rows s' = NO.tags_rows s ++ extra /\
    NO.note_tags_rows s' = NO.note_tags_rows s ++ links /\
    linksFor (NO.tags_rows s') noteId names links /\
    NoDup (map tag_id (NO.tags_rows s')) /\
    Forall (fun t => NO.bound (NO.seq_tags s) (map tag_id (NO.tags_rows s)) < tag_id t)
           extra /\
    NO.bound (NO.seq_tags s) (map tag_id (NO.tags_rows s)) <=
      NO.bound (NO.seq_tags s') (map tag_id (NO.tags_rows s')) /\
    (forall nt, In nt links ->
       NO.nt_tagId nt <= NO.bound (NO.seq_tags s') (map tag_id (NO.tags_rows s'))).

(** What the image loop leaves: the images of the note are added, input
    by input, with fresh ids; nothing else changes. *)
Definition afterImages (s s' : NO.Store) (noteId : Z) (inputs : list (jsstring * jsstring))
  : Prop :=
  exists rows,
    NO.notes_rows s' = NO.notes_rows s /\ NO.tags_rows s' = NO.tags_rows s /\
    NO.note_tags_rows s' = NO.note_tags_rows s /\
    NO.seq_notes s' = NO.seq_notes s /\ NO.seq_tags s' = NO.seq_tags s /\
    NO.triggered s' = NO.triggered s /\
    note_embeddings (NO.embeddings s') = note_embeddings (NO.embeddings s) /\
    image_embeddings (NO.embeddings s') = image_embeddings (NO.embeddings s) /\
    images_table (NO.embeddings s') = images_table (NO.embeddings s) ++ rows /\
    imagesFor noteId inputs rows /\
    Forall (fun i => NO.bound (NO.seq_images s)
                       (map image_id (images_table (NO.embeddings s))) < image_id i) rows.

(** A note with [lastShownInReminisce] set. *)
Definition shownAt (t : Z) (n : NoteWithDetails) : NoteWithDetails :=
  {| id := id n; title := title n; content := content n; audioUri := audioUri n;
     recallScript := recallScript n; lastShownInReminisce := Some t;
     createdAt := createdAt n; updatedAt := updatedAt n;
     tags := tags n; images := images n |}.

(** Newer notes come first. *)
Definition newerFirst (a b : NoteWithDetails) : Prop := createdAt b <= createdAt a.

(** A note row with its details, as [buildNoteWithDetails] reads them. *)
Definition detailed (s : NO.Store) (n : NO.NoteRow) : NoteWithDetails :=
  NO.withDetails n (NO.tagsOf s (NO.note_id n)) (NO.imagesOf s (NO.note_id n)).

Definition gardenUpdate : NO.UpdateNoteInput :=
  {| NO.up_id := 1;
     NO.up_title := str "Beach day, again";
     NO.up_content := str "We walked along the shore and swam.";
     NO.up_tags := [str "summer"];
     NO.up_images := [];
     NO.up_audioUri := None |}.

(* ================================================================== *)
(** ** recallScriptGenerator.ts: generating a script                   *)
(* ================================================================== *)

Module RecallScriptGenerator.

(** What [recallContext.completion] is called with and resolves to. *)
Record Message : Type := { role : jsstring; message_content : jsstring }.

Record CompletionParams : Type := {
  messages : list Message;
  n_predict : Z;
  temperature : float;
  top_p : float;
  top_k : Z;
  stop : list jsstring }.

Record CompletionResult : Type := { result_text : jsstring }.

(** The notes store with [ModelManager.getRecallContext()]. *)
Record Host : Type := {
  store_host : NO.Host;
  getRecallContext : option (CompletionParams -> outcome CompletionResult) }.

(** The system message and the user prompt, as the template literals
    spell them. *)
Definition systemContent : jsstring :=
  str "You are a caring companion helping someone with memory loss reconnect with their memories." ++
  [10]%N ++
  str "          Create warm scripts based only on the details provided in the note." ++
  [10]%N ++
  str "          Begin by summarizing what the memory is about, then include all important details. The first sentence(s) should clearly state what the memory is about." ++
  [10]%N ++
  str "          Never invent new events, names, or places that are not present in the note." ++
  [10]%N ++
  str "          If the note lacks enough detail, keep the script brief and gently acknowledge that." ++
  [10]%N ++
  str "          Use simple, comforting language, and speak directly to the person as " ++
  [34]%N ++ str "you" ++ [34]%N ++ str ".".

Definition userPrompt (title_ content_ : jsstring) : jsstring :=
  [10]%N ++
  str "    Write a recall script based entirely on the note below. Follow these rules:" ++
  [10]%N ++ str "    1. Output only the script " ++ [226; 8364; 8221]%N ++
  str " no intro/outro or extra commentary. Avoid any questions or framing text, the output must be just the script itself." ++
  [10]%N ++
  str "    2. Begin by summarizing what the memory is about, then include all important details. The first sentence(s) should clearly state what the memory is about." ++
  [10]%N ++
  str "    3. Include all important details from the note (events, people, locations, actions, sensory details)." ++
  [10]%N ++ str "    4. Use " ++ [34]%N ++ str "you" ++ [34]%N ++ str " and " ++ [34]%N ++
  str "your" ++ [34]%N ++ str " when describing the memory. Never use " ++ [34]%N ++ str "I" ++
  [34]%N ++ str "." ++ [10]%N ++
  str "    5. Speak gently and warmly, but do NOT ask questions or add intros/outros." ++
  [10]%N ++ str "    6. Do not invent anything that is not present in the note." ++ [10]%N ++
  str "    Memory: " ++ [34]%N ++ title_ ++ [34; 10]%N ++ str "    Details: " ++ content_ ++
  [10]%N ++ str "    Write the recall script now: ".

Definition request (title_ content_ : jsstring) : CompletionParams :=
  {| messages := [ {| role := str "system"; message_content := systemContent |};
                   {| role := str "user"; message_content := userPrompt title_ content_ |} ];
     n_predict := 260;
     temperature := 0.3;
     top_p := 0.85;
     top_k := 40;
     stop := [str "</s>"; str "<|end|>"; str "<|eot_id|>"; str "<|end_of_text|>";
              str "<|im_end|>"; [10; 10; 10]%N] |}.

(** [ensureRecallModelReady] *)
Definition ensureRecallModelReady (host : Host) : bool :=
  isRecallReady (NO.base (store_host host)).

(** The table [notes] with [recallScript] of the rows under [noteId]
    set to [script]. *)
Definition withScript (script : jsstring) (noteId : Z) (rows : list NO.NoteRow)
  : list NO.NoteRow :=
  map (fun n =>
         if NO.note_id n =? noteId
         then {| NO.note_id := NO.note_id n; NO.note_title := NO.note_title n;
                 NO.note_content := NO.note_content n;
                 NO.note_audioUri := NO.note_audioUri n;
                 NO.note_recallScript := Some script;
                 NO.note_lastShownInReminisce := NO.note_lastShownInReminisce n;
                 NO.note_createdAt := NO.note_createdAt n;
                 NO.note_updatedAt := NO.note_updatedAt n |}
         else n)
      rows.

(** UPDATE notes SET recallScript = ? WHERE id = ? *)
Definition updateNoteRecallScript (host : Host) (script : jsstring) (noteId : Z)
  : NO.T unit :=
  NO.executing (store_host host) (NO.UpdateNoteRecallScript script noteId) (fun s =>
    (Return tt, NO.with_notes (withScript script noteId (NO.notes_rows s)) (NO.seq_notes s) s)).

(** [await recallContext.completion(params)] *)
Definition complete (completion : CompletionParams -> outcome CompletionResult)
    (params : CompletionParams) : NO.T CompletionResult :=
  fun s => (completion params, s).

(** [generateRecallScript] *)
Definition generateRecallScript (host : Host) (noteId : Z) : NO.T unit :=
  NO.bindT (NO.getDatabase (store_host host)) (fun _ =>
  NO.try_catchT
    (NO.bindT (NO.getNoteById (store_host host) noteId) (fun found =>
     match found with
     | None => NO.retT tt
     | Some n =>
         match getRecallContext host with
         | None => NO.throwT (Error "Recall model context not available")
         | Some completion =>
             NO.bindT (complete completion (request (title n) (content n))) (fun result =>
             let recallScript := trim (result_text result) in
             match recallScript with
             | [] => NO.throwT (Error "Empty recall script returned")
             | _ :: _ => updateNoteRecallScript host recallScript noteId
             end)
         end
     end))
    (fun _ => NO.retT tt)).

(** [processRecallScript] *)
Definition processRecallScript (host : Host) (noteId : Z) : NO.T unit :=
  NO.try_catchT
    (if ensureRecallModelReady host
     then generateRecallScript host noteId
     else NO.retT tt)
    (fun _ => NO.retT tt).

(** The store with the script of [noteId] replaced. *)
Definition scripted (script : jsstring) (noteId : Z) (s : NO.Store) : NO.Store :=
  NO.with_notes (withScript script noteId (NO.notes_rows s)) (NO.seq_notes s) s.

(** A recall model that answers every request with the same text. *)
Definition answering (answer : jsstring) : Host :=
  {| store_host := NO.sampleHost;
     getRecallContext := Some (fun _ => Return {| result_text := answer |}) |}.

End RecallScriptGenerator.

Module RS := RecallScriptGenerator.

(** A note with its recall script replaced. *)
Definition withRecallScript (script : jsstring) (n : NoteWithDetails) : NoteWithDetails :=
  {| id := id n; title := title n; content := content n; audioUri := audioUri n;
     recallScript := Some script; lastShownInReminisce := lastShownInReminisce n;
     createdAt := createdAt n; updatedAt := updatedAt n;
     tags := tags n; images := images n |}.

(* ================================================================== *)
(** ** createNoteEmbeddings.ts: the embedding of an image description  *)
(* ================================================================== *)

Module ImageEmbeddings.

(** The rows of an image in [image_embeddings]. *)
Definition rowsOf (imageId : Z) (rows : list ImageEmbeddingRow) : list ImageEmbeddingRow :=
  filter (fun r => ie_imageId r =? imageId) rows.

Definition with_image_embeddings (rows : list ImageEmbeddingRow) (s : NO.Store) : NO.Store :=
  NO.with_embeddings (withImageEmbeddings rows (NO.embeddings s)) (NO.seq_images s) s.

(** SELECT id, descriptionHash FROM image_embeddings WHERE imageId = ?:
    the [descriptionHash] of each row found. *)
Definition selectImageEmbeddingHash (host : NO.Host) (imageId : Z) : NO.T (list jsstring) :=
  NO.executing host (NO.SelectImageEmbeddingHash imageId) (fun s =>
    (Return (map ie_descriptionHash
                 (rowsOf imageId (image_embeddings (NO.embeddings s)))), s)).

(** The row both storing statements write. *)
Definition freshRow (imageId : Z) (description : jsstring) (embeddingBlob : Uint8Array)
    (dimensions : Z) (descriptionHash : jsstring) (status : Status) (now : Z)
  : ImageEmbeddingRow :=
  {| ie_imageId := imageId;
     ie_description := description;
     ie_embedding := BUint8Array embeddingBlob;
     ie_embeddingDimensions := dimensions;
     ie_descriptionHash := descriptionHash;
     ie_status := status;
     ie_createdAt := now |}.

(** UPDATE image_embeddings SET description = ?, embedding = ?,
    embeddingDimensions = ?, descriptionHash = ?, status = ?,
    createdAt = ? WHERE imageId = ? *)
Definition updateImageEmbedding (host : NO.Host) (description : jsstring)
    (embeddingBlob : Uint8Array) (dimensions : Z) (descriptionHash : jsstring)
    (status : Status) (now : Z) (imageId : Z) : NO.T unit :=
  NO.executing host
    (NO.UpdateImageEmbedding description embeddingBlob dimensions descriptionHash status
       now imageId)
    (fun s =>
       (Return tt,
        with_image_embeddings
          (map (fun r =>
                  if ie_imageId r =? imageId
                  then freshRow imageId description embeddingBlob dimensions
                         descriptionHash status now
                  else r)
               (image_embeddings (NO.embeddings s)))
          s)).

(** INSERT INTO image_embeddings (imageId, description, embedding,
    embeddingDimensions, descriptionHash, status, createdAt); [imageId]
    is UNIQUE and references [images]. *)
Definition insertImageEmbedding (host : NO.Host) (imageId : Z) (description : jsstring)
    (embeddingBlob : Uint8Array) (dimensions : Z) (descriptionHash : jsstring)
    (status : Status) (now : Z) : NO.T unit :=
  NO.executing host
    (NO.InsertImageEmbedding imageId description embeddingBlob dimensions descriptionHash
       status now)
    (fun s =>
       if existsb (fun r => ie_imageId r =? imageId) (image_embeddings (NO.embeddings s))
       then (Throw (Error "UNIQUE constraint failed: image_embeddings.imageId"), s)
       else if NO.foreignKeys host &&
               negb (NO.hasId (map image_id (images_table (NO.embeddings s))) imageId)
       then NO.foreignKeyFailed s
       else (Return tt,
             with_image_embeddings
               (image_embeddings (NO.embeddings s) ++
                [freshRow imageId description embeddingBlob dimensions descriptionHash
                   status now])
               s)).

(** What the UPDATE of the status does to one row. *)
Definition withStatus (status : Status) (imageId : Z) (r : ImageEmbeddingRow)
  : ImageEmbeddingRow :=
  if ie_imageId r =? imageId
  then {| ie_imageId := ie_imageId r;
          ie_description := ie_description r;
          ie_embedding := ie_embedding r;
          ie_embeddingDimensions := ie_embeddingDimensions r;
          ie_descriptionHash := ie_descriptionHash r;
          ie_status := status;
          ie_createdAt := ie_createdAt r |}
  else r.

(** UPDATE image_embeddings SET status = ? WHERE imageId = ? *)
Definition updateImageEmbeddingStatus (host : NO.Host) (status : Status) (imageId : Z)
  : NO.T unit :=
  NO.executing host (NO.UpdateImageEmbeddingStatus status imageId) (fun s =>
    (Return tt,
     with_image_embeddings
       (map (withStatus status imageId) (image_embeddings (NO.embeddings s))) s)).

(** An awaited call that touches no table. *)
Definition await {A : Type} (o : outcome A) : NO.T A := fun s => (o, s).

(** [!userDescription || userDescription.trim().length === 0] *)
Definition isBlank (userDescription : jsstring) : bool :=
  match userDescription with
  | [] => true
  | _ :: _ => Z.of_nat (List.length (trim userDescription)) =? 0
  end.

(** The [try] block of [generateImageEmbedding]. *)
Definition embedDescription (host : NO.Host) (imageId : Z) (userDescription : jsstring)
  : NO.T unit :=
  let env := NO.base host in
  if isBlank userDescription then NO.retT tt
  else
    match getEmbeddingContext env with
    | None => NO.throwT (Error "Embedding context not available")
    | Some embeddingContext =>
        let description := trim userDescription in
        NO.bindT (await (hashText env description)) (fun descriptionHash =>
        NO.bindT (selectImageEmbeddingHash host imageId) (fun existing =>
        if match existing with
           | existingHash :: _ => jsstring_eqb existingHash descriptionHash
           | [] => false
           end
        then NO.retT tt
        else
          NO.bindT (await (embeddingContext description)) (fun embeddingResult =>
          match embedding embeddingResult with
          | None | Some [] => NO.throwT (Error "Empty embedding returned")
          | Some ((_ :: _) as vector) =>
              let embeddingBlob := embeddingToBlob (nativeOrder env) vector in
              let now := Date_now env 0 in
              let dimensions := Z.of_nat (List.length vector) in
              match existing with
              | _ :: _ =>
                  updateImageEmbedding host description embeddingBlob dimensions
                    descriptionHash completed now imageId
              | [] =>
                  insertImageEmbedding host imageId description embeddingBlob
                    dimensions descriptionHash completed now
              end
          end)))
    end.

(** [generateImageEmbedding] *)
Definition generateImageEmbedding (host : NO.Host) (imageId : Z)
    (userDescription : jsstring) : NO.T unit :=
  NO.bindT (NO.getDatabase host) (fun _ =>
  NO.try_catchT
    (embedDescription host imageId userDescription)
    (fun _ =>
       NO.try_catchT (updateImageEmbeddingStatus host failed imageId)
                     (fun _ => NO.retT tt))).

(** The row a successful run stores for [vector]. *)
Definition stored (host : NO.Host) (imageId : Z) (userDescription : jsstring)
    (vector : list float) (descriptionHash : jsstring) : ImageEmbeddingRow :=
  freshRow imageId (trim userDescription)
    (embeddingToBlob (nativeOrder (NO.base host)) vector)
    (Z.of_nat (List.length vector)) descriptionHash completed
    (Date_now (NO.base host) 0).

(** The rows of the other images. *)
Definition others (imageId : Z) (rows : list ImageEmbeddingRow) : list ImageEmbeddingRow :=
  filter (fun r => negb (ie_imageId r =? imageId)) rows.

(** The table after a successful run: the rows of the image replaced,
    or one row appended when it had none. *)
Definition refreshed (imageId : Z) (row : ImageEmbeddingRow)
    (rows : list ImageEmbeddingRow) : list ImageEmbeddingRow :=
  match rowsOf imageId rows with
  | _ :: _ => map (fun r => if ie_imageId r =? imageId then row else r) rows
  | [] => rows ++ [row]
  end.

(** The stored fingerprint the generator compares with, if any, is not [h]. *)
Definition descriptionChanged (imageId : Z) (h : jsstring) (rows : list ImageEmbeddingRow)
  : Prop :=
  forall r, hd_error (rowsOf imageId rows) = Some r -> ie_descriptionHash r <> h.

(** The run gets no vector: the context is missing, or the fingerprint
    is new and the model throws or returns nothing. *)
Definition noVector (host : NO.Host) (imageId : Z) (userDescription : jsstring)
    (s : NO.Store) : Prop :=
  getEmbeddingContext (NO.base host) = None \/
  exists embeddingContext h,
    getEmbeddingContext (NO.base host) = Some embeddingContext /\
    hashText (NO.base host) (trim userDescription) = Return h /\
    NO.rejects host (NO.SelectImageEmbeddingHash imageId) = false /\
    descriptionChanged imageId h (image_embeddings (NO.embeddings s)) /\
    embedding_failed (embeddingContext (trim userDescription)).

(** A host whose embedding context is missing. *)
Definition withoutContext : NO.Host :=
  {| NO.base :=
       {| nativeOrder := LittleEndian;
          dbInitialized := true;
          execFails := fun _ => false;
          getNoteById := fun i => Return (Some (sampleNote i));
          getAllNotes := Return [sampleNote 1; sampleNote 2];
          digestStringAsync := fun t => Return (str "sha256:" ++ t);
          getEmbeddingContext := None;
          isEmbeddingReady := false;
          isRecallReady := true;
          Date_now := fun _ => 1700000000000;
          entropy := fun k => Z.of_nat k |};
     NO.foreignKeys := false;
     NO.rejects := fun _ => false |}.

(** A store whose one image has a completed embedding. *)
Definition embeddedStore : NO.Store :=
  with_image_embeddings
    [stored NO.sampleHost 1 (str "the shore") [1; 0]%float (str "sha256:the shore")]
    twoNotesStore.

End ImageEmbeddings.

Module IE := ImageEmbeddings.

(* ================================================================== *)
(** ** database/index.ts and database/schema.ts                        *)
(* ================================================================== *)

Module DatabaseIndex.

(** The statements of [migrateDbIfNeeded]. *)
Inductive MigrationSql : Type :=
| PragmaUserVersion                 (* PRAGMA user_version *)
| PragmaJournalModeWal              (* PRAGMA journal_mode = WAL *)
| CreateTables                      (* the CREATE TABLE ... CREATE INDEX script *)
| SetUserVersion (version : Z).     (* PRAGMA user_version = ${DATABASE_VERSION} *)

(** The file memoriq.db, as far as the migration reads and writes it. *)
Record DbFile : Type := {
  user_version : Z;
  journal_wal : bool;
  tables_created : bool }.

(** What the code does not decide: whether [open] and [close] throw,
    and the statements on which [db.execute] rejects. *)
Record Driver : Type := {
  openFails : bool;
  closeFails : bool;
  executeFails : MigrationSql -> bool }.

(** The module: its variable [dbInstance] (a connection, numbered in
    the order of opening), the file, and what happened so far. *)
Record State : Type := {
  dbInstance : option nat;
  file : DbFile;
  opened : nat;
  closed : list nat;
  executed : list MigrationSql }.

Definition P (A : Type) : Type := State -> outcome A * State.

Definition retP {A : Type} (a : A) : P A := fun m => (Return a, m).

Definition bindP {A B : Type} (p : P A) (k : A -> P B) : P B :=
  fun m =>
    match p m with
    | (Return a, m') => k a m'
    | (Throw e, m') => (Throw e, m')
    end.

(** What a statement does to the file. *)
Definition apply (statement : MigrationSql) (f : DbFile) : DbFile :=
  match statement with
  | PragmaUserVersion => f
  | PragmaJournalModeWal =>
      {| user_version := user_version f; journal_wal := true;
         tables_created := tables_created f |}
  | CreateTables =>
      {| user_version := user_version f; journal_wal := journal_wal f;
         tables_created := true |}
  | SetUserVersion version =>
      {| user_version := version; journal_wal := journal_wal f;
         tables_created := tables_created f |}
  end.

(** [await db.execute(statement)] *)
Definition execute (driver : Driver) (statement : MigrationSql) : P unit :=
  fun m =>
    let m := {| dbInstance := dbInstance m; file := file m; opened := opened m;
                closed := closed m; executed := executed m ++ [statement] |} in
    if executeFails driver statement then (Throw (Error "db.execute rejected"), m)
    else (Return tt,
          {| dbInstance := dbInstance m; file := apply statement (file m);
             opened := opened m; closed := closed m; executed := executed m |}).

Definition DATABASE_VERSION : Z := 1.

(** [(result.rows?.[0]?.user_version as number) ?? 0] after
    [db.execute('PRAGMA user_version')], whose one row holds the
    version of the file. *)
Definition readUserVersion (driver : Driver) : P Z :=
  bindP (execute driver PragmaUserVersion) (fun _ =>
  fun m => (Return (user_version (file m)), m)).

(** [migrateDbIfNeeded] *)
Definition migrateDbIfNeeded (driver : Driver) : P unit :=
  bindP (readUserVersion driver) (fun currentDbVersion =>
  if currentDbVersion >=? DATABASE_VERSION then retP tt
  else
    bindP (if currentDbVersion =? 0
           then bindP (execute driver PragmaJournalModeWal) (fun _ =>
                execute driver CreateTables)
           else retP tt) (fun _ =>
    execute driver (SetUserVersion DATABASE_VERSION))).

(** [dbInstance = open({ name: 'memoriq.db' })] *)
Definition openDatabase (driver : Driver) : P nat :=
  fun m =>
    if openFails driver then (Throw (Error "open failed"), m)
    else (Return (opened m),
          {| dbInstance := Some (opened m); file := file m; opened := S (opened m);
             closed := closed m; executed := executed m |}).

(** [initializeDatabase] *)
Definition initializeDatabase (driver : Driver) : P nat :=
  fun m =>
    match dbInstance m with
    | Some connection => (Return connection, m)
    | None =>
        bindP (openDatabase driver) (fun connection =>
        bindP (migrateDbIfNeeded driver) (fun _ =>
        retP connection)) m
    end.

(** [getDatabaseInstance] *)
Definition getDatabaseInstance (m : State) : outcome nat :=
  match dbInstance m with
  | Some connection => Return connection
  | None => Throw (Error "Database not initialized. Call initializeDatabase() first.")
  end.

(** [closeDatabase] *)
Definition closeDatabase (driver : Driver) : P unit :=
  fun m =>
    match dbInstance m with
    | Some connection =>
        if closeFails driver then (Throw (Error "close failed"), m)
        else (Return tt,
              {| dbInstance := None; file := file m; opened := opened m;
                 closed := closed m ++ [connection]; executed := executed m |})
    | None => (Return tt, m)
    end.

(** Some statement the migration of file [f] reaches is rejected. *)
Definition migrationFails (driver : Driver) (f : DbFile) : Prop :=
  executeFails driver PragmaUserVersion = true \/
  (user_version f < DATABASE_VERSION /\
   (executeFails driver (SetUserVersion DATABASE_VERSION) = true \/
    (user_version f = 0 /\
     (executeFails driver PragmaJournalModeWal = true \/
      executeFails driver CreateTables = true)))).

(** The statements the migration of a file of version [version] runs. *)
Definition statementsFor (version : Z) : list MigrationSql :=
  if version >=? DATABASE_VERSION then [PragmaUserVersion]
  else if version =? 0
       then [PragmaUserVersion; PragmaJournalModeWal; CreateTables;
             SetUserVersion DATABASE_VERSION]
       else [PragmaUserVersion; SetUserVersion DATABASE_VERSION].

(** A driver that rejects nothing, one that rejects the CREATE script,
    and the module before the first call, on a new file. *)
Definition reliable : Driver :=
  {| openFails := false; closeFails := false; executeFails := fun _ => false |}.

Definition rejectingCreate : Driver :=
  {| openFails := false; closeFails := false;
     executeFails := fun statement =>
                       match statement with CreateTables => true | _ => false end |}.

Definition start : State :=
  {| dbInstance := None;
     file := {| user_version := 0; journal_wal := false; tables_created := false |};
     opened := 0; closed := []; executed := [] |}.

End DatabaseIndex.

Module DB := DatabaseIndex.


(* ================================================================== *)
(** * Part II. Numbers and bytes                                       *)
(* ================================================================== *)

(** ** The order of binary64 values *)

Lemma SFcompare_key x y :
  SFis_nan x = false -> SFis_nan y = false ->
  SFcompare x y = Some (lex_compare (SFkey x) (SFkey y)).
Proof.
  destruct x as [sx|sx| |sx mx ex], y as [sy|sy| |sy my ey]; simpl; try discriminate;
    intros _ _;
    try (destruct sx; reflexivity); try (destruct sy; reflexivity);
    try (destruct sx, sy; reflexivity).
  destruct sx, sy; simpl; try reflexivity.
  rewrite Z.compare_opp, (Z.compare_antisym ex ey).
  destruct (ex ?= ey); reflexivity.
Qed.

Lemma lex_compare_spec k k' :
  match lex_compare k k' with
  | Lt => lex_lt k k'
  | Eq => k = k'
  | Gt => lex_lt k' k
  end.
Proof.
  destruct k as [[a b] c], k' as [[a' b'] c']; simpl.
  destruct (Z.compare_spec a a'); [|lia|lia].
  destruct (Z.compare_spec b b'); [|lia|lia].
  destruct (Z.compare_spec c c'); [subst; reflexivity|lia|lia].
Qed.

Lemma SFleb_key x y :
  SFis_nan x = false -> SFis_nan y = false ->
  (SFleb x y = true <-> lex_le (SFkey x) (SFkey y)).
Proof.
  intros Hx Hy. unfold SFleb. rewrite (SFcompare_key x y Hx Hy).
  pose proof (lex_compare_spec (SFkey x) (SFkey y)) as H.
  destruct (SFkey x) as [[a b] c], (SFkey y) as [[a' b'] c'].
  destruct (lex_compare (a, b, c) (a', b', c')); simpl in *;
    try (inversion H; subst); split; intros; try discriminate; try reflexivity; lia.
Qed.

Lemma SFltb_key x y :
  SFis_nan x = false -> SFis_nan y = false ->
  (SFltb x y = true <-> lex_lt (SFkey x) (SFkey y)).
Proof.
  intros Hx Hy. unfold SFltb. rewrite (SFcompare_key x y Hx Hy).
  pose proof (lex_compare_spec (SFkey x) (SFkey y)) as H.
  destruct (SFkey x) as [[a b] c], (SFkey y) as [[a' b'] c'].
  destruct (lex_compare (a, b, c) (a', b', c')); simpl in *;
    try (inversion H; subst); split; intros; try discriminate; try reflexivity; lia.
Qed.

Lemma SFleb_not_nan x y :
  SFleb x y = true -> SFis_nan x = false /\ SFis_nan y = false.
Proof. destruct x, y; simpl; try discriminate; auto. Qed.

Lemma SFltb_not_nan x y :
  SFltb x y = true -> SFis_nan x = false /\ SFis_nan y = false.
Proof. destruct x, y; simpl; try discriminate; auto. Qed.

Lemma is_nan_Prim2SF (x : float) : is_nan x = SFis_nan (Prim2SF x).
Proof.
  unfold is_nan. rewrite FloatAxioms.eqb_spec. unfold SFeqb.
  destruct (Prim2SF x) as [s|s| |s m e]; simpl; try reflexivity.
  - destruct s; reflexivity.
  - destruct s; rewrite Z.compare_refl, Pos.compare_cont_refl; reflexivity.
Qed.

Section FloatOrder.
Variables x y z : float.

Lemma leb_not_nan : (x <=? y)%float = true -> is_nan x = false /\ is_nan y = false.
Proof. rewrite !is_nan_Prim2SF, FloatAxioms.leb_spec. apply SFleb_not_nan. Qed.

Lemma ltb_not_nan : (x <? y)%float = true -> is_nan x = false /\ is_nan y = false.
Proof. rewrite !is_nan_Prim2SF, FloatAxioms.ltb_spec. apply SFltb_not_nan. Qed.

Lemma leb_refl : is_nan x = false -> (x <=? x)%float = true.
Proof.
  rewrite is_nan_Prim2SF, FloatAxioms.leb_spec. intros H. apply SFleb_key; auto.
  destruct (SFkey (Prim2SF x)) as [[a b] c]; simpl. lia.
Qed.

Lemma leb_trans :
  (x <=? y)%float = true -> (y <=? z)%float = true -> (x <=? z)%float = true.
Proof.
  rewrite !FloatAxioms.leb_spec. intros H1 H2.
  destruct (SFleb_not_nan _ _ H1) as [Hx Hy], (SFleb_not_nan _ _ H2) as [_ Hz].
  rewrite SFleb_key in * by assumption.
  destruct (SFkey (Prim2SF x)) as [[a b] c], (SFkey (Prim2SF y)) as [[a' b'] c'],
    (SFkey (Prim2SF z)) as [[a'' b''] c'']; simpl in *. lia.
Qed.

Lemma ltb_leb : (x <? y)%float = true -> (x <=? y)%float = true.
Proof.
  rewrite FloatAxioms.leb_spec, FloatAxioms.ltb_spec. unfold SFltb, SFleb.
  destruct (SFcompare _ _) as [[]|]; auto.
Qed.

(** Two numbers are comparable: not [x < y] means [y <= x]. *)
Lemma not_ltb_leb :
  is_nan x = false -> is_nan y = false ->
  (x <? y)%float = false -> (y <=? x)%float = true.
Proof.
  rewrite !is_nan_Prim2SF, FloatAxioms.leb_spec, FloatAxioms.ltb_spec. intros Hx Hy H.
  apply SFleb_key; try assumption.
  assert (~ lex_lt (SFkey (Prim2SF x)) (SFkey (Prim2SF y))) as N.
  { intro L. apply SFltb_key in L; try assumption. congruence. }
  destruct (SFkey (Prim2SF x)) as [[a b] c], (SFkey (Prim2SF y)) as [[a' b'] c'];
    simpl in *. lia.
Qed.

Lemma not_leb_leb :
  is_nan x = false -> is_nan y = false ->
  (x <=? y)%float = false -> (y <=? x)%float = true.
Proof.
  rewrite !is_nan_Prim2SF, !FloatAxioms.leb_spec. intros Hx Hy H.
  apply SFleb_key; try assumption.
  assert (~ lex_le (SFkey (Prim2SF x)) (SFkey (Prim2SF y))) as N.
  { intro L. apply SFleb_key in L; try assumption. congruence. }
  destruct (SFkey (Prim2SF x)) as [[a b] c], (SFkey (Prim2SF y)) as [[a' b'] c'];
    simpl in *. lia.
Qed.

Lemma ltb_not_leb : (x <? y)%float = true -> (y <=? x)%float = false.
Proof.
  intros H. destruct (ltb_not_nan H) as [Hx Hy]. rewrite is_nan_Prim2SF in Hx, Hy.
  rewrite FloatAxioms.ltb_spec in H. rewrite FloatAxioms.leb_spec.
  apply SFltb_key in H; try assumption.
  destruct (SFleb (Prim2SF y) (Prim2SF x)) eqn:E; [|reflexivity].
  apply SFleb_key in E; try assumption.
  destruct (SFkey (Prim2SF x)) as [[a b] c], (SFkey (Prim2SF y)) as [[a' b'] c'];
    simpl in *. lia.
Qed.
End FloatOrder.

(** ** The sign of a difference

    [compareFn] of the two sorts returns [b.score - a.score]; these lemmas
    show that the sign of such a difference is the comparison of the two
    numbers, from the definition of binary64 subtraction. *)

Lemma digits2_pos_bounds (p : positive) :
  2 ^ (Zpos (digits2_pos p) - 1) <= Zpos p < 2 ^ Zpos (digits2_pos p).
Proof.
  induction p as [p IH|p IH|]; simpl digits2_pos.
  - rewrite Pos2Z.inj_succ. replace (Z.succ (Zpos (digits2_pos p)) - 1) with (Zpos (digits2_pos p)) by lia.
    rewrite Z.pow_succ_r by lia.
    replace (Zpos (digits2_pos p)) with (Zpos (digits2_pos p) - 1 + 1) at 1 by lia.
    rewrite Z.pow_add_r by lia. lia.
  - rewrite Pos2Z.inj_succ. replace (Z.succ (Zpos (digits2_pos p)) - 1) with (Zpos (digits2_pos p)) by lia.
    rewrite Z.pow_succ_r by lia.
    replace (Zpos (digits2_pos p)) with (Zpos (digits2_pos p) - 1 + 1) at 1 by lia.
    rewrite Z.pow_add_r by lia. lia.
  - simpl. lia.
Qed.

Lemma shr_1_m (mrs : shr_record) :
  0 <= shr_m mrs -> shr_m (shr_1 mrs) = shr_m mrs / 2.
Proof.
  destruct mrs as [m r s]; simpl. intros Hm.
  destruct m as [|p|p]; simpl; try lia.
  - reflexivity.
  - destruct p; simpl.
    + rewrite Pos2Z.inj_xI. apply Z.div_unique with 1; lia.
    + rewrite Pos2Z.inj_xO. apply Z.div_unique with 0; lia.
    + reflexivity.
Qed.

Lemma iter_pos_shr_1_m (n : positive) : forall mrs,
  0 <= shr_m mrs -> shr_m (iter_pos shr_1 n mrs) = shr_m mrs / 2 ^ Zpos n.
Proof.
  induction n as [n IH|n IH|]; intros mrs Hm; simpl iter_pos.
  - assert (H1 : 0 <= shr_m (shr_1 mrs)).
    { rewrite shr_1_m by assumption. apply Z.div_pos; lia. }
    assert (H2 : 0 <= shr_m (iter_pos shr_1 n (shr_1 mrs))).
    { rewrite IH by assumption. apply Z.div_pos; [assumption|]. apply Z.pow_pos_nonneg; lia. }
    rewrite IH, IH, shr_1_m by assumption.
    rewrite !Z.div_div by (try apply Z.pow_pos_nonneg; lia).
    f_equal. change 2 with (2 ^ 1) at 1.
    rewrite <- !Z.pow_add_r by lia. f_equal. lia.
  - assert (H2 : 0 <= shr_m (iter_pos shr_1 n mrs)).
    { rewrite IH by assumption. apply Z.div_pos; [assumption|]. apply Z.pow_pos_nonneg; lia. }
    rewrite IH, IH by assumption.
    rewrite !Z.div_div by (try apply Z.pow_pos_nonneg; lia).
    f_equal. rewrite <- Z.pow_add_r by lia. f_equal. lia.
  - rewrite shr_1_m by assumption. reflexivity.
Qed.

Lemma shr_record_of_loc_m m l : shr_m (shr_record_of_loc m l) = m.
Proof. destruct l as [|[]]; reflexivity. Qed.

(** Rounding a positive mantissa at an exponent not below [emin] keeps
    it positive. *)
Lemma shr_fexp_pos (m : positive) (e : Z) (l : location) :
  emin <= e ->
  exists m' r s e',
    shr_fexp prec emax (Zpos m) e l = (Build_shr_record (Zpos m') r s, e') /\ emin <= e'.
Proof.
  intros He. unfold shr_fexp, shr. simpl Zdigits2.
  pose proof (digits2_pos_bounds m) as Hd.
  set (d := Zpos (digits2_pos m)) in *.
  destruct (fexp prec emax (d + e) - e) as [|n|n] eqn:En.
  - destruct l as [|[]]; simpl; eauto 10.
  - assert (Hn : Zpos n = d - 53).
    { unfold fexp, FloatOps.prec, FloatOps.emax in En. unfold SpecFloat.emin, FloatOps.prec, FloatOps.emax in *. lia. }
    pose proof (iter_pos_shr_1_m n (shr_record_of_loc (Zpos m) l)) as Hi.
    rewrite shr_record_of_loc_m in Hi. specialize (Hi ltac:(lia)).
    destruct (iter_pos shr_1 n (shr_record_of_loc (Zpos m) l)) as [m1 r1 s1]; cbn [shr_m] in Hi.
    assert (Hpos : 0 < m1).
    { subst m1. apply Z.div_str_pos. split; [apply Z.pow_pos_nonneg; lia|].
      transitivity (2 ^ (d - 1)); [|lia]. apply Z.pow_le_mono_r; lia. }
    destruct m1 as [|p|p]; try lia.
    exists p, r1, s1, (e + Zpos n). split; [reflexivity | lia].
  - destruct l as [|[]]; simpl; eauto 10.
Qed.

Lemma round_nearest_even_pos (m : positive) l :
  exists m', round_nearest_even (Zpos m) l = Zpos m'.
Proof.
  destruct l as [|[]]; simpl; eauto.
  destruct m; simpl; eauto.
Qed.

Lemma binary_round_aux_sign (sx : bool) (m : positive) (e : Z) (l : location) :
  emin <= e ->
  (if sx then SFnegative else SFpositive) (binary_round_aux prec emax sx (Zpos m) e l) = true.
Proof.
  intros He. unfold binary_round_aux.
  destruct (shr_fexp_pos m e l He) as (m1 & r1 & s1 & e1 & E1 & He1). rewrite E1.
  simpl shr_m.
  destruct (round_nearest_even_pos m1 (loc_of_shr_record {| shr_m := Zpos m1; shr_r := r1; shr_s := s1 |})) as [m2 E2].
  rewrite E2.
  destruct (shr_fexp_pos m2 e1 loc_Exact He1) as (m3 & r3 & s3 & e3 & E3 & He3). rewrite E3.
  cbn [shr_m]. destruct (e3 <=? emax - prec), sx; reflexivity.
Qed.

Lemma binary_round_sign (sx : bool) (m : positive) (e : Z) :
  emin <= e ->
  (if sx then SFnegative else SFpositive) (binary_round prec emax sx m e) = true.
Proof.
  intros He. unfold binary_round, shl_align.
  set (f := fexp prec emax (Zpos (digits2_pos m) + e)).
  assert (Hf : emin <= f) by (unfold f, fexp; lia).
  destruct (f - e); apply binary_round_aux_sign; assumption.
Qed.

Lemma binary_normalize_sign (D e : Z) :
  emin <= e ->
  SFpositive (binary_normalize prec emax D e false) = (0 <? D) /\
  SFnegative (binary_normalize prec emax D e false) = (D <? 0).
Proof.
  intros He. destruct D as [|p|p]; simpl binary_normalize.
  - split; reflexivity.
  - pose proof (binary_round_sign false p e He) as H. simpl in H.
    destruct (binary_round prec emax false p e) as [s|s| |s m' e']; try discriminate;
      destruct s; try discriminate; split; reflexivity.
  - pose proof (binary_round_sign true p e He) as H. simpl in H.
    destruct (binary_round prec emax true p e) as [s|s| |s m' e']; try discriminate;
      destruct s; try discriminate; split; reflexivity.
Qed.

Lemma Pos_iter_xO (m d : positive) : Zpos (Pos.iter xO m d) = Zpos m * 2 ^ Zpos d.
Proof.
  induction d as [|d IH] using Pos.peano_ind.
  - simpl. lia.
  - rewrite Pos.iter_succ, Pos2Z.inj_xO, IH, Pos2Z.inj_succ, Z.pow_succ_r by lia. lia.
Qed.

Lemma shl_align_fst (m : positive) (e e' : Z) :
  e' <= e -> Zpos (fst (shl_align m e e')) = Zpos m * 2 ^ (e - e').
Proof.
  intros H. unfold shl_align. destruct (e' - e) as [|d|d] eqn:E; simpl fst.
  - replace (e - e') with 0 by lia. simpl. lia.
  - lia.
  - rewrite Pos_iter_xO. f_equal. f_equal. lia.
Qed.

Lemma bounded_facts (m : positive) (e : Z) :
  bounded prec emax m e = true ->
  emin <= e /\ Zpos m < 2 ^ 53 /\ (emin < e -> 2 ^ 52 <= Zpos m).
Proof.
  unfold bounded, canonical_mantissa, fexp. intros H.
  apply andb_true_iff in H. destruct H as [H1 H2].
  apply Z.eqb_eq in H1. apply Z.leb_le in H2.
  pose proof (digits2_pos_bounds m) as Hd.
  set (d := Zpos (digits2_pos m)) in *.
  unfold SpecFloat.emin, FloatOps.prec, FloatOps.emax in *.
  assert (Hd53 : d <= 53) by lia.
  split; [lia|]. split.
  - eapply Z.lt_le_trans; [apply Hd|]. apply Z.pow_le_mono_r; lia.
  - intros He. assert (d = 53) by lia. replace 52 with (d - 1) by lia. apply Hd.
Qed.

Lemma SFltb_zero_positive (r : spec_float) :
  SFltb (S754_zero false) r = SFpositive r.
Proof. destruct r as [s|s| |s m e]; try reflexivity; destruct s; reflexivity. Qed.

Lemma SFltb_finite_diff (sx sy : bool) (mx my : positive) (ex ey : Z) :
  bounded prec emax mx ex = true -> bounded prec emax my ey = true ->
  let ez := Z.min ey ex in
  (0 <? cond_Zopp sy (Zpos (fst (shl_align my ey ez)))
        - cond_Zopp sx (Zpos (fst (shl_align mx ex ez)))) =
  SFltb (S754_finite sx mx ex) (S754_finite sy my ey).
Proof.
  intros Bx By ez.
  destruct (bounded_facts _ _ Bx) as (Hex & Hmx & Hnx).
  destruct (bounded_facts _ _ By) as (Hey & Hmy & Hny).
  rewrite (shl_align_fst my ey ez), (shl_align_fst mx ex ez) by (unfold ez; lia).
  assert (Px : 1 <= 2 ^ (ex - ez)).
  { change 1 with (2 ^ 0). apply Z.pow_le_mono_r; unfold ez; lia. }
  assert (Py : 1 <= 2 ^ (ey - ez)).
  { change 1 with (2 ^ 0). apply Z.pow_le_mono_r; unfold ez; lia. }
  assert (Qx : ey < ex -> 2 <= 2 ^ (ex - ez)).
  { intros. change 2 with (2 ^ 1) at 1. apply Z.pow_le_mono_r; unfold ez; lia. }
  assert (Qy : ex < ey -> 2 <= 2 ^ (ey - ez)).
  { intros. change 2 with (2 ^ 1) at 1. apply Z.pow_le_mono_r; unfold ez; lia. }
  assert (Rx : ex <= ey -> 2 ^ (ex - ez) = 1).
  { intros. replace (ex - ez) with 0 by (unfold ez; lia). reflexivity. }
  assert (Ry : ey <= ex -> 2 ^ (ey - ez) = 1).
  { intros. replace (ey - ez) with 0 by (unfold ez; lia). reflexivity. }
  assert (Hc : (mx ?= my)%positive = (Zpos mx ?= Zpos my)) by reflexivity.
  unfold SFltb, SFcompare. rewrite Pos.compare_cont_spec, Hc. cbn [Pos.switch_Eq].
  clear Hc Bx By.
  assert (Ha : 0 < Zpos mx) by lia. assert (Hb : 0 < Zpos my) by lia.
  generalize dependent (2 ^ (ex - ez)). generalize dependent (2 ^ (ey - ez)).
  generalize dependent (Zpos mx). generalize dependent (Zpos my).
  intros b Hmy Hny Hb a Hmx Hnx Ha py Py Qy Ry px Px Qx Rx.
  destruct sx, sy; cbn [cond_Zopp];
    destruct (Z.compare_spec ex ey) as [E|E|E];
    try (destruct (Z.compare_spec a b) as [F|F|F]); cbn [CompOpp];
    first [apply Z.ltb_lt | apply Z.ltb_ge]; nia.
Qed.

Lemma SFsub_sign (X Y : spec_float) :
  SpecFloat.valid_binary prec emax X = true -> SpecFloat.valid_binary prec emax Y = true ->
  SFltb (S754_zero false) (SFsub prec emax Y X) = SFltb X Y.
Proof.
  intros VX VY. rewrite SFltb_zero_positive.
  destruct X as [sx|sx| |sx mx ex], Y as [sy|sy| |sy my ey];
    try reflexivity; try (destruct sx; reflexivity); try (destruct sy; reflexivity);
    try (destruct sx, sy; reflexivity).
  simpl in VX, VY. unfold SFsub.
  destruct (bounded_facts _ _ VX) as (Hex & _).
  destruct (bounded_facts _ _ VY) as (Hey & _).
  destruct (binary_normalize_sign
              (cond_Zopp sy (Zpos (fst (shl_align my ey (Z.min ey ex))))
               - cond_Zopp sx (Zpos (fst (shl_align mx ex (Z.min ey ex)))))
              (Z.min ey ex) ltac:(lia)) as [Hp _].
  rewrite Hp. apply SFltb_finite_diff; assumption.
Qed.

(** The sign of the difference of two numbers is their comparison. *)
Lemma float_sub_pos (x y : float) : (0 <? y - x)%float = (x <? y)%float.
Proof.
  rewrite !FloatAxioms.ltb_spec, FloatAxioms.sub_spec.
  change (Prim2SF 0) with (S754_zero false).
  apply SFsub_sign; apply Prim2SF_valid.
Qed.

(** ** Bytes and words *)

Lemma byte_to_of_Z (z : Z) : byte_to_Z (byte_of_Z z) = z mod 256.
Proof.
  unfold byte_to_Z, byte_of_Z.
  assert (H : 0 <= z mod 256 < 256) by (apply Z.mod_pos_bound; lia).
  destruct (Byte.of_N (Z.to_N (z mod 256))) as [b|] eqn:E.
  - apply Byte.to_of_N in E. rewrite E. lia.
  - apply Byte.of_N_None_iff in E. lia.
Qed.

Lemma word_le_roundtrip (w : Z) :
  0 <= w < 2 ^ 32 -> le_to_word (word_to_le w) = w.
Proof.
  intros H. unfold word_to_le, le_to_word. cbn [fold_right].
  rewrite !byte_to_of_Z. change (2 ^ 32) with 4294967296 in H.
  Z.div_mod_to_equations. lia.
Qed.

Lemma word_bytes_roundtrip (bo : ByteOrder) (w : Z) :
  0 <= w < 2 ^ 32 -> bytes_to_word bo (word_to_bytes bo w) = w.
Proof.
  intros H. destruct bo; unfold bytes_to_word, word_to_bytes.
  - apply word_le_roundtrip, H.
  - rewrite rev_involutive. apply word_le_roundtrip, H.
Qed.

Lemma word_to_bytes_length (bo : ByteOrder) (w : Z) :
  List.length (word_to_bytes bo w) = 4%nat.
Proof. destruct bo; reflexivity. Qed.

(** ** The binary32 interchange format *)

Lemma b32_bounded_facts (m : positive) (e : Z) :
  bounded b32_prec b32_emax m e = true ->
  -149 <= e <= 104 /\ Zpos m < 2 ^ 24 /\ (Zpos m < 2 ^ 23 -> e = -149).
Proof.
  unfold bounded, canonical_mantissa, fexp, SpecFloat.emin, b32_prec, b32_emax.
  intros H. apply andb_true_iff in H. destruct H as [H1 H2].
  apply Z.eqb_eq in H1. apply Z.leb_le in H2.
  pose proof (digits2_pos_bounds m) as Hd.
  set (d := Zpos (digits2_pos m)) in *.
  assert (Hd24 : d <= 24) by lia.
  split; [lia|]. split.
  - eapply Z.lt_le_trans; [apply Hd|]. apply Z.pow_le_mono_r; lia.
  - intros Hm. destruct (Z.eq_dec d 24) as [E|E]; [|lia].
    rewrite E in Hd. simpl in Hd. lia.
Qed.

Lemma bits_of_b32_range (f : spec_float) :
  SpecFloat.valid_binary b32_prec b32_emax f = true -> 0 <= bits_of_b32 f < 2 ^ 32.
Proof.
  unfold bits_of_b32.
  change (2 ^ 23) with 8388608. change (2 ^ 31) with 2147483648.
  change (2 ^ 32) with 4294967296. change (2 ^ 22) with 4194304.
  destruct f as [s|s| |s m e]; intros H.
  - destruct s; lia.
  - destruct s; lia.
  - lia.
  - cbn [SpecFloat.valid_binary] in H.
    destruct (b32_bounded_facts m e H) as (He & Hm & _).
    change (2 ^ 24) with 16777216 in Hm.
    destruct (8388608 <=? Zpos m) eqn:E; [apply Z.leb_le in E | apply Z.leb_gt in E];
      destruct s; lia.
Qed.

(** Decoding the bit pattern of a well-formed binary32 datum gives the
    datum back. *)
Lemma b32_bits_roundtrip (f : spec_float) :
  SpecFloat.valid_binary b32_prec b32_emax f = true -> b32_of_bits (bits_of_b32 f) = f.
Proof.
  destruct f as [s|s| |s m e]; intros H.
  - destruct s; reflexivity.
  - destruct s; reflexivity.
  - reflexivity.
  - cbn [SpecFloat.valid_binary] in H.
    destruct (b32_bounded_facts m e H) as (He & Hm & Hsub).
    unfold bits_of_b32, b32_of_bits.
    change (2 ^ 23) with 8388608 in *. change (2 ^ 31) with 2147483648.
    change (2 ^ 24) with 16777216 in Hm.
    destruct (8388608 <=? Zpos m) eqn:E; [apply Z.leb_le in E | apply Z.leb_gt in E].
    + set (w := (if s then 2147483648 else 0) + ((e + 150) * 8388608 + (Zpos m - 8388608))).
      assert (Hs : (2147483648 <=? w) = s).
      { subst w. destruct s; [apply Z.leb_le | apply Z.leb_gt]; lia. }
      assert (Hq : (w / 8388608) mod 256 = e + 150).
      { subst w. destruct s; Z.div_mod_to_equations; lia. }
      assert (Hr : w mod 8388608 = Zpos m - 8388608).
      { subst w. destruct s; Z.div_mod_to_equations; lia. }
      rewrite Hs, Hq, Hr.
      destruct (e + 150 =? 0) eqn:E0; [apply Z.eqb_eq in E0; lia|].
      destruct (e + 150 =? 255) eqn:E1; [apply Z.eqb_eq in E1; lia|].
      f_equal; [|lia]. replace (Zpos m - 8388608 + 8388608) with (Zpos m) by lia.
      reflexivity.
    + specialize (Hsub E). subst e.
      set (w := (if s then 2147483648 else 0) + Zpos m).
      assert (Hs : (2147483648 <=? w) = s).
      { subst w. destruct s; [apply Z.leb_le | apply Z.leb_gt]; lia. }
      assert (Hq : (w / 8388608) mod 256 = 0).
      { subst w. destruct s; Z.div_mod_to_equations; lia. }
      assert (Hr : w mod 8388608 = Zpos m).
      { subst w. destruct s; Z.div_mod_to_equations; lia. }
      rewrite Hs, Hq, Hr. cbn [Z.eqb].
      destruct (Zpos m =? 0) eqn:E0; [apply Z.eqb_eq in E0; lia|].
      reflexivity.
Qed.

(** ** Typed-array views over an encoded vector *)

Section Chunks.
Variables (A : Type) (enc : A -> list byte).
Hypothesis enc_length : forall x, List.length (enc x) = 4%nat.

Lemma flat_map_chunk (v : list A) : forall (i : nat) (x : A),
  nth_error v i = Some x ->
  firstn 4 (skipn (4 * i) (flat_map enc v)) = enc x.
Proof.
  induction v as [|y v IH]; intros [|i] x H; simpl in H; try discriminate.
  - inversion H; subst. change (4 * 0)%nat with 0%nat. cbn [skipn flat_map].
    rewrite firstn_app, enc_length, Nat.sub_diag, firstn_O, app_nil_r.
    apply firstn_all2. rewrite enc_length. lia.
  - replace (4 * S i)%nat with (List.length (enc y) + 4 * i)%nat by (rewrite enc_length; lia).
    simpl flat_map. rewrite skipn_app, skipn_all2 by lia.
    replace (List.length (enc y) + 4 * i - List.length (enc y))%nat with (4 * i)%nat by lia.
    simpl. apply IH, H.
Qed.

Lemma flat_map_length4 (v : list A) :
  List.length (flat_map enc v) = (4 * List.length v)%nat.
Proof.
  induction v as [|y v IH]; simpl; [reflexivity|].
  rewrite length_app, enc_length, IH. lia.
Qed.
End Chunks.

Lemma map_nth_error_seq {A B : Type} (g : A -> B) (f : nat -> B) (v : list A) :
  (forall i x, nth_error v i = Some x -> f i = g x) ->
  map f (seq 0 (List.length v)) = map g v.
Proof.
  revert f. induction v as [|x v IH]; intros f H; simpl; [reflexivity|].
  rewrite (H 0%nat x eq_refl). f_equal.
  rewrite <- seq_shift, map_map. apply IH. intros i y Hi. apply (H (S i)), Hi.
Qed.

(** The elements read back from a freshly made [Float32Array]. *)
Lemma f32_elements_from (bo : ByteOrder) (v : list float) :
  Forall (fun x => SpecFloat.valid_binary b32_prec b32_emax (fround x) = true) v ->
  f32_elements bo (Float32Array_from bo v) = map (fun x => number_of_b32 (fround x)) v.
Proof.
  intros Hv. unfold f32_elements, Float32Array_from. cbn [f32_length].
  rewrite Nat2Z.id. apply map_nth_error_seq. intros i x Hi.
  unfold f32_get. cbn [f32_length f32_byteOffset f32_buffer].
  assert (Hlt : (i < List.length v)%nat) by (apply nth_error_Some; congruence).
  replace ((0 <=? Z.of_nat i) && (Z.of_nat i <? Z.of_nat (List.length v))) with true
    by (symmetry; apply andb_true_iff; split; [apply Z.leb_le | apply Z.ltb_lt]; lia).
  cbn [ToNumber]. replace (Z.to_nat (0 + 4 * Z.of_nat i)) with (4 * i)%nat by lia.
  rewrite (flat_map_chunk _ (fun x => word_to_bytes bo (bits_of_b32 (fround x)))
             (fun x => word_to_bytes_length bo _) v i x Hi).
  assert (Hx : SpecFloat.valid_binary b32_prec b32_emax (fround x) = true).
  { rewrite Forall_forall in Hv. apply Hv. eapply nth_error_In, Hi. }
  rewrite word_bytes_roundtrip by (apply bits_of_b32_range, Hx).
  rewrite b32_bits_roundtrip by exact Hx. reflexivity.
Qed.

(* ================================================================== *)
(** * Part III. The vector codec                                       *)
(* ================================================================== *)

Lemma quarter_nonneg (n : Z) : 0 <= n -> quarter n = n / 4.
Proof. intros H. unfold quarter. apply Z.quot_div_nonneg; lia. Qed.

(** What [blobToEmbedding] does with a well-formed [Uint8Array]: only
    the alignment of the offset is checked. *)
Lemma blobToEmbedding_Uint8Array (u : Uint8Array) :
  Uint8Array_wf u ->
  blobToEmbedding (BUint8Array u) =
  if u8_byteOffset u mod 4 =? 0
  then Return {| f32_buffer := u8_buffer u; f32_byteOffset := u8_byteOffset u;
                 f32_length := u8_byteLength u / 4 |}
  else Throw (RangeError "start offset of Float32Array should be a multiple of 4").
Proof.
  intros (Ho & Hl & Hb). unfold blobToEmbedding, new_Float32Array.
  rewrite quarter_nonneg by assumption.
  replace (u8_byteOffset u <? 0) with false by (symmetry; apply Z.ltb_ge; lia).
  destruct (u8_byteOffset u mod 4 =? 0); simpl; [|reflexivity].
  replace (u8_byteLength u / 4 <? 0) with false
    by (symmetry; apply Z.ltb_ge; apply Z.div_pos; lia).
  replace (Z.of_nat (List.length (u8_buffer u)) <? u8_byteOffset u + u8_byteLength u / 4 * 4)
    with false; [reflexivity|].
  symmetry. apply Z.ltb_ge.
  pose proof (Z.mul_div_le (u8_byteLength u) 4 ltac:(lia)). lia.
Qed.

(** C3, as the spec states it, fails: a six-byte [Uint8Array] is decoded
    to one element, its two trailing bytes ignored. *)
Lemma blobToEmbedding_accepts_six_bytes :
  let blob := BUint8Array {| u8_buffer := [x00; x00; x80; x3f; x00; x00];
                            u8_byteOffset := 0; u8_byteLength := 6 |} in
  blob_byteLength blob = Some 6 /\ 6 mod 4 <> 0 /\
  exists decoded,
    blobToEmbedding blob = Return decoded /\
    f32_elements LittleEndian decoded = [1%float].
Proof.
  cbv zeta. split; [reflexivity|]. split; [discriminate|].
  eexists. split; reflexivity.
Qed.

(** C3 (amended).  [blobToEmbedding] fails on every [ArrayBuffer] whose
    byte length is not a multiple of 4 (a [RangeError] of the
    [Float32Array] constructor), and on every value that is neither a
    typed array, an [ArrayBuffer] nor a view-like object; on a
    [Uint8Array] whose offset is 4-aligned it does not fail whatever the
    byte length: it returns the first [floor(byteLength / 4)] elements. *)
Theorem blobToEmbedding_length_handling :
  (forall buffer : list byte,
      Z.of_nat (List.length buffer) mod 4 <> 0 ->
      exists msg, blobToEmbedding (BArrayBuffer buffer) = Throw (RangeError msg)) /\
  blobToEmbedding BOther = Throw (Error "Unsupported blob type") /\
  (forall u : Uint8Array,
      Uint8Array_wf u -> u8_byteOffset u mod 4 = 0 ->
      blobToEmbedding (BUint8Array u) =
      Return {| f32_buffer := u8_buffer u; f32_byteOffset := u8_byteOffset u;
                f32_length := u8_byteLength u / 4 |}).
Proof.
  split; [|split].
  - intros buffer H. unfold blobToEmbedding, new_Float32Array. simpl.
    destruct (Z.of_nat (List.length buffer) mod 4 =? 0) eqn:E.
    + apply Z.eqb_eq in E. contradiction.
    + simpl. eauto.
  - reflexivity.
  - intros u Hwf Ha. rewrite blobToEmbedding_Uint8Array by assumption.
    rewrite Ha. reflexivity.
Qed.

Lemma blobToEmbedding_length_handling_witness :
  (exists msg, blobToEmbedding (BArrayBuffer [x00; x00; x80; x3f; x00; x00])
               = Throw (RangeError msg)) /\
  blobToEmbedding (BUint8Array {| u8_buffer := [x00; x00; x80; x3f; x00; x00];
                                  u8_byteOffset := 0; u8_byteLength := 6 |}) =
  Return {| f32_buffer := [x00; x00; x80; x3f; x00; x00]; f32_byteOffset := 0;
            f32_length := 6 / 4 |}.
Proof.
  split.
  - apply (proj1 blobToEmbedding_length_handling [x00; x00; x80; x3f; x00; x00]).
    discriminate.
  - apply (proj2 (proj2 blobToEmbedding_length_handling)
             {| u8_buffer := [x00; x00; x80; x3f; x00; x00];
                u8_byteOffset := 0; u8_byteLength := 6 |}).
    + unfold Uint8Array_wf; simpl; lia.
    + reflexivity.
Defined.

Lemma map_fround_id (v : list float) :
  Forall is_finite_float32 v -> map (fun x => number_of_b32 (fround x)) v = v.
Proof.
  induction 1 as [|x v (_ & _ & Hx) _ IH]; [reflexivity|].
  cbn [map]. rewrite Hx, IH. reflexivity.
Qed.

(** C4.  Encoding a vector of finite binary32 values and decoding the
    blob gives the vector back, element for element, whatever the
    platform's byte order; the blob has four bytes per element. *)
Theorem codec_roundtrip (bo : ByteOrder) (v : list float) :
  Forall is_finite_float32 v ->
  u8_byteLength (embeddingToBlob bo v) = 4 * Z.of_nat (List.length v) /\
  exists decoded,
    blobToEmbedding (BUint8Array (embeddingToBlob bo v)) = Return decoded /\
    f32_length decoded = Z.of_nat (List.length v) /\
    f32_elements bo decoded = v.
Proof.
  intros Hv.
  assert (Hlen : List.length (f32_buffer (Float32Array_from bo v))
                 = (4 * List.length v)%nat).
  { apply flat_map_length4. intros x. apply word_to_bytes_length. }
  assert (Hbytes : u8_byteLength (embeddingToBlob bo v) = 4 * Z.of_nat (List.length v)).
  { unfold embeddingToBlob, new_Uint8Array. cbn [u8_byteLength]. rewrite Hlen. lia. }
  assert (Hwf : Uint8Array_wf (embeddingToBlob bo v)).
  { unfold Uint8Array_wf. rewrite Hbytes. unfold embeddingToBlob, new_Uint8Array.
    cbn [u8_byteOffset u8_buffer]. rewrite Hlen. lia. }
  split; [exact Hbytes|].
  exists (Float32Array_from bo v). split; [|split].
  - rewrite (blobToEmbedding_Uint8Array _ Hwf), Hbytes.
    unfold embeddingToBlob, new_Uint8Array. cbn [u8_byteOffset u8_buffer].
    change (0 mod 4 =? 0) with true. cbv iota.
    rewrite Z.mul_comm, Z.div_mul by lia. reflexivity.
  - reflexivity.
  - rewrite f32_elements_from.
    + apply map_fround_id, Hv.
    + eapply Forall_impl; [|exact Hv]. intros x (H & _). exact H.
Qed.

Lemma codec_roundtrip_witness :
  Forall is_finite_float32 [1; 0.5; -2.25; 0]%float /\
  exists decoded,
    blobToEmbedding (BUint8Array (embeddingToBlob LittleEndian [1; 0.5; -2.25; 0]%float))
    = Return decoded /\
    f32_elements LittleEndian decoded = [1; 0.5; -2.25; 0]%float.
Proof.
  assert (H : Forall is_finite_float32 [1; 0.5; -2.25; 0]%float).
  { repeat constructor; vm_compute; reflexivity. }
  split; [exact H|].
  destruct (codec_roundtrip LittleEndian _ H) as (_ & decoded & Hd & _ & He).
  exists decoded. split; assumption.
Defined.

(* ================================================================== *)
(** * Part IV. Sorting, filtering, slicing                             *)
(* ================================================================== *)

Section SortByRank.
Variables (A : Type) (rank : A -> float) (compareFn : A -> A -> float).
Hypothesis compareFn_rank : forall a b, compareFn a b = (rank b - rank a)%float.

Lemma sort_insert_perm (x : A) (l : list A) :
  Permutation (sort_insert compareFn x l) (x :: l).
Proof.
  induction l as [|y l IH]; simpl; [apply Permutation_refl|].
  destruct (0 <? compareFn x y)%float.
  - apply Permutation_trans with (y :: x :: l); [|apply perm_swap].
    apply perm_skip, IH.
  - apply Permutation_refl.
Qed.

Lemma Array_sort_perm (l : list A) : Permutation (Array_sort compareFn l) l.
Proof.
  induction l as [|x l IH]; simpl; [apply Permutation_refl|].
  apply Permutation_trans with (x :: Array_sort compareFn l).
  - apply sort_insert_perm.
  - apply perm_skip, IH.
Qed.

Lemma sort_insert_sorted (x : A) (l : list A) :
  is_nan (rank x) = false ->
  Forall (fun y => is_nan (rank y) = false) l ->
  StronglySorted (scoresBelow rank) l ->
  StronglySorted (scoresBelow rank) (sort_insert compareFn x l).
Proof.
  intros Hx Hl Hs. induction l as [|y l IH]; simpl.
  - constructor; constructor.
  - inversion Hl as [|? ? Hy Hl']; subst. inversion Hs as [|? ? Hs' Hall]; subst.
    rewrite compareFn_rank, float_sub_pos.
    destruct (rank x <? rank y)%float eqn:E.
    + constructor; [apply IH; assumption|].
      apply (Permutation_Forall (Permutation_sym (sort_insert_perm x l))).
      constructor; [|assumption]. unfold scoresBelow. apply ltb_leb, E.
    + assert (Hyx : scoresBelow rank x y) by (apply not_ltb_leb; assumption).
      constructor; [assumption|]. constructor; [assumption|].
      eapply Forall_impl; [|exact Hall]. intros z Hz. unfold scoresBelow in *.
      eapply leb_trans; eassumption.
Qed.

Lemma Array_sort_sorted (l : list A) :
  Forall (fun y => is_nan (rank y) = false) l ->
  StronglySorted (scoresBelow rank) (Array_sort compareFn l).
Proof.
  induction 1 as [|x l Hx Hl IH]; simpl; [constructor|].
  apply sort_insert_sorted; try assumption.
  apply (Permutation_Forall (Permutation_sym (Array_sort_perm l))). assumption.
Qed.
End SortByRank.

Lemma firstn_incl {A : Type} (n : nat) (l : list A) (x : A) :
  In x (firstn n l) -> In x l.
Proof.
  revert n. induction l as [|y l IH]; intros [|n] H; simpl in *; try contradiction.
  destruct H as [H|H]; [left; exact H | right; eapply IH, H].
Qed.

Lemma skipn_incl {A : Type} (n : nat) (l : list A) (x : A) :
  In x (skipn n l) -> In x l.
Proof.
  revert n. induction l as [|y l IH]; intros [|n] H; simpl in *; try contradiction.
  - exact H.
  - right. eapply IH, H.
Qed.

Lemma StronglySorted_filter {A : Type} (R : A -> A -> Prop) (f : A -> bool) (l : list A) :
  StronglySorted R l -> StronglySorted R (filter f l).
Proof.
  induction 1 as [|x l Hs IH Hall]; simpl; [constructor|].
  destruct (f x); [|assumption].
  constructor; [assumption|].
  rewrite Forall_forall in *. intros y Hy. apply Hall. apply filter_In in Hy. tauto.
Qed.

Lemma StronglySorted_firstn {A : Type} (R : A -> A -> Prop) (n : nat) (l : list A) :
  StronglySorted R l -> StronglySorted R (firstn n l).
Proof.
  intros H. revert n. induction H as [|x l Hs IH Hall]; intros [|n]; simpl; try constructor.
  - apply IH.
  - rewrite Forall_forall in *. intros y Hy. apply Hall. eapply firstn_incl, Hy.
Qed.

Lemma StronglySorted_skipn {A : Type} (R : A -> A -> Prop) (n : nat) (l : list A) :
  StronglySorted R l -> StronglySorted R (skipn n l).
Proof.
  intros H. revert n. induction H as [|x l Hs IH Hall]; intros [|n]; simpl;
    try constructor; auto.
Qed.

(** In a sorted list, what the first [n] elements leave behind does not
    score above any of them. *)
Lemma StronglySorted_split {A : Type} (R : A -> A -> Prop) (n : nat) (l : list A) :
  StronglySorted R l ->
  forall a b, In a (firstn n l) -> In b (skipn n l) -> R a b.
Proof.
  intros H. revert n. induction H as [|x l Hs IH Hall]; intros [|n] a b Ha Hb; simpl in *;
    try contradiction.
  destruct Ha as [<-|Ha].
  - rewrite Forall_forall in Hall. apply Hall. eapply skipn_incl, Hb.
  - eapply IH; eassumption.
Qed.

Lemma filter_from_positive {A : Type} (f : A -> Z -> bool) (g : A -> bool) (l : list A) :
  forall index, 0 < index ->
  (forall x j, 0 < j -> f x j = g x) ->
  filter_from f index l = filter g l.
Proof.
  induction l as [|x l IH]; intros index Hi Hfg; simpl; [reflexivity|].
  rewrite (Hfg x index Hi), (IH (index + 1)) by (lia || assumption). reflexivity.
Qed.

Lemma Array_slice0_firstn {A : Type} (l : list A) (n : Z) :
  0 <= n -> Array_slice0 l n = firstn (Z.to_nat n) l.
Proof.
  intros H. unfold Array_slice0.
  replace (n <? 0) with false by (symmetry; apply Z.ltb_ge; assumption).
  destruct (Z.le_gt_cases n (Z.of_nat (List.length l))) as [Hle|Hgt].
  - rewrite Z.min_l by assumption. reflexivity.
  - rewrite Z.min_r by lia. rewrite Nat2Z.id.
    rewrite !firstn_all2 by lia. reflexivity.
Qed.

(* ================================================================== *)
(** * Part V. The similarity retrieval engine                          *)
(* ================================================================== *)

(** ** The [noteMatches] map *)

Lemma Map_get_In (k : Z) (v : Match) (m : NoteMatches) :
  Map_get k m = Some v -> In (k, v) m.
Proof.
  induction m as [|[k' v'] m IH]; simpl; [discriminate|].
  destruct (k' =? k) eqn:E.
  - apply Z.eqb_eq in E. intros H. inversion H; subst. left. reflexivity.
  - intros H. right. apply IH, H.
Qed.

Lemma Map_get_None (k : Z) (m : NoteMatches) :
  Map_get k m = None -> ~ In k (map fst m).
Proof.
  induction m as [|[k' v'] m IH]; simpl; [tauto|].
  destruct (k' =? k) eqn:E; [discriminate|].
  apply Z.eqb_neq in E. intros H [H'|H']; [contradiction|]. apply IH; assumption.
Qed.

Lemma Map_get_NoDup (k : Z) (v : Match) (m : NoteMatches) :
  NoDup (map fst m) -> In (k, v) m -> Map_get k m = Some v.
Proof.
  induction m as [|[k' v'] m IH]; simpl; [tauto|].
  intros Hnd [H|H].
  - inversion H; subst. rewrite Z.eqb_refl. reflexivity.
  - inversion Hnd as [|? ? Hnotin Hnd']; subst.
    destruct (k' =? k) eqn:E.
    + apply Z.eqb_eq in E. subst. exfalso. apply Hnotin.
      apply (in_map fst) in H. exact H.
    + apply IH; assumption.
Qed.

Lemma Map_set_keys_present (k : Z) (v : Match) (m : NoteMatches) :
  In k (map fst m) -> map fst (Map_set k v m) = map fst m.
Proof.
  induction m as [|[k' v'] m IH]; simpl; [tauto|].
  intros H. destruct (k' =? k) eqn:E.
  - apply Z.eqb_eq in E. subst. reflexivity.
  - apply Z.eqb_neq in E. simpl. f_equal. apply IH. destruct H; [contradiction|assumption].
Qed.

Lemma Map_set_keys_absent (k : Z) (v : Match) (m : NoteMatches) :
  ~ In k (map fst m) -> map fst (Map_set k v m) = map fst m ++ [k].
Proof.
  induction m as [|[k' v'] m IH]; simpl; [reflexivity|].
  intros H. destruct (k' =? k) eqn:E.
  - apply Z.eqb_eq in E. subst. tauto.
  - simpl. f_equal. apply IH. tauto.
Qed.

Lemma Map_set_In (k : Z) (v : Match) (m : NoteMatches) (k' : Z) (v' : Match) :
  NoDup (map fst m) ->
  In (k', v') (Map_set k v m) ->
  (k' = k /\ v' = v) \/ (k' <> k /\ In (k', v') m).
Proof.
  induction m as [|[k0 v0] m IH]; simpl; intros Hnd.
  - intros [H|[]]. inversion H; subst. left; split; reflexivity.
  - inversion Hnd as [|? ? Hnotin Hnd']; subst.
    destruct (k0 =? k) eqn:E.
    + apply Z.eqb_eq in E. subst. intros [H|H].
      * inversion H; subst. left; split; reflexivity.
      * right. split; [|right; assumption].
        intros ->. apply Hnotin. apply (in_map fst) in H. exact H.
    + apply Z.eqb_neq in E. intros [H|H].
      * inversion H; subst. right. split; [assumption|]. left. reflexivity.
      * destruct (IH Hnd' H) as [?|[? ?]]; [left; assumption|]. right.
        split; [assumption|]. right. assumption.
Qed.

Lemma Map_set_In_same (k : Z) (v : Match) (m : NoteMatches) : In (k, v) (Map_set k v m).
Proof.
  induction m as [|[k0 v0] m IH]; simpl; [left; reflexivity|].
  destruct (k0 =? k); [left; reflexivity | right; exact IH].
Qed.

Lemma Map_set_In_other (k : Z) (v : Match) (m : NoteMatches) (k' : Z) (v' : Match) :
  k' <> k -> In (k', v') m -> In (k', v') (Map_set k v m).
Proof.
  intros N. induction m as [|[k0 v0] m IH]; simpl; [tauto|].
  intros [H|H].
  - inversion H; subst. destruct (k' =? k) eqn:E.
    + apply Z.eqb_eq in E. contradiction.
    + left. reflexivity.
  - destruct (k0 =? k); right; [assumption | apply IH, H].
Qed.

Lemma Map_set_NoDup (k : Z) (v : Match) (m : NoteMatches) :
  NoDup (map fst m) -> NoDup (map fst (Map_set k v m)).
Proof.
  intros H. destruct (in_dec Z.eq_dec k (map fst m)) as [Hin|Hout].
  - rewrite Map_set_keys_present; assumption.
  - rewrite Map_set_keys_absent by assumption.
    apply (Permutation_NoDup (l := k :: map fst m)).
    + apply Permutation_cons_append.
    + constructor; assumption.
Qed.

Lemma Map_set_keys_incl (k : Z) (v : Match) (m : NoteMatches) (n : Z) :
  In n (map fst m) -> In n (map fst (Map_set k v m)).
Proof.
  intros H. destruct (in_dec Z.eq_dec k (map fst m)) as [Hin|Hout].
  - rewrite Map_set_keys_present; assumption.
  - rewrite Map_set_keys_absent by assumption. apply in_or_app. left. assumption.
Qed.

Lemma Map_set_keys_same (k : Z) (v : Match) (m : NoteMatches) :
  In k (map fst (Map_set k v m)).
Proof. apply (in_map fst _ (k, v)), Map_set_In_same. Qed.

(** ** One match on offer *)

Lemma threshold_not_nan : is_nan SIMILARITY_THRESHOLD = false.
Proof. reflexivity. Qed.

Lemma Match_eta (c : Match) : {| score := score c; matchType := matchType c |} = c.
Proof. destruct c; reflexivity. Qed.

Lemma offer_best_per_note (seen : list (Z * Match)) (m : NoteMatches) (n0 : Z) (c0 : Match) :
  best_per_note seen m ->
  best_per_note (seen ++ [(n0, c0)]) (offer (matchType c0) m n0 (score c0)).
Proof.
  intros (Hnd & Hbest & Hall). unfold offer. rewrite Match_eta.
  destruct (SIMILARITY_THRESHOLD <=? score c0)%float eqn:Efloor.
  - (* at or above the floor *)
    destruct (leb_not_nan _ _ Efloor) as [_ Hnan0].
    destruct (Map_get n0 m) as [existing|] eqn:Eget.
    + (* the note already has an entry *)
      pose proof (Map_get_In _ _ _ Eget) as Hin.
      destruct (Hbest _ _ Hin) as (Hseen & Hfl & Hmax).
      destruct (leb_not_nan _ _ Hfl) as [_ Hnane].
      destruct (score existing <? score c0)%float eqn:Elt.
      * split; [apply Map_set_NoDup, Hnd|]. split.
        -- intros n c Hc. destruct (Map_set_In _ _ _ _ _ Hnd Hc) as [[-> ->]|[Hne Hold]].
           ++ split; [apply in_or_app; right; left; reflexivity|]. split; [exact Efloor|].
              intros c' Hc' Hn'. apply in_app_or in Hc'. destruct Hc' as [Hc'|[Hc'|[]]].
              ** eapply leb_trans; [apply Hmax; assumption|]. apply ltb_leb, Elt.
              ** inversion Hc'; subst. apply leb_refl, Hn'.
           ++ destruct (Hbest _ _ Hold) as (Hs1 & Hf1 & Hm1).
              split; [apply in_or_app; left; assumption|]. split; [assumption|].
              intros c' Hc' Hn'. apply in_app_or in Hc'. destruct Hc' as [Hc'|[Hc'|[]]].
              ** apply Hm1; assumption.
              ** inversion Hc'; subst. contradiction.
        -- intros n c Hc Hf. apply in_app_or in Hc. destruct Hc as [Hc|[Hc|[]]].
           ++ apply Map_set_keys_incl. eapply Hall; eassumption.
           ++ inversion Hc; subst. apply Map_set_keys_same.
      * split; [exact Hnd|]. split.
        -- intros n c Hc. destruct (Hbest _ _ Hc) as (Hs1 & Hf1 & Hm1).
           split; [apply in_or_app; left; assumption|]. split; [assumption|].
           intros c' Hc' Hn'. apply in_app_or in Hc'. destruct Hc' as [Hc'|[Hc'|[]]].
           ++ apply Hm1; assumption.
           ++ inversion Hc'; subst.
              assert (c = existing).
              { pose proof (Map_get_NoDup _ _ _ Hnd Hc) as G. congruence. }
              subst c. apply not_ltb_leb; assumption.
        -- intros n c Hc Hf. apply in_app_or in Hc. destruct Hc as [Hc|[Hc|[]]].
           ++ eapply Hall; eassumption.
           ++ inversion Hc; subst. apply (in_map fst _ _ Hin).
    + (* first entry of the note *)
      pose proof (Map_get_None _ _ Eget) as Hout.
      split; [apply Map_set_NoDup, Hnd|]. split.
      * intros n c Hc. destruct (Map_set_In _ _ _ _ _ Hnd Hc) as [[-> ->]|[Hne Hold]].
        -- split; [apply in_or_app; right; left; reflexivity|]. split; [exact Efloor|].
           intros c' Hc' Hn'. apply in_app_or in Hc'. destruct Hc' as [Hc'|[Hc'|[]]].
           ++ destruct (SIMILARITY_THRESHOLD <=? score c')%float eqn:E'.
              ** exfalso. apply Hout. eapply Hall; eassumption.
              ** eapply leb_trans; [|exact Efloor].
                 apply not_leb_leb; [apply threshold_not_nan | assumption | exact E'].
           ++ inversion Hc'; subst. apply leb_refl, Hn'.
        -- destruct (Hbest _ _ Hold) as (Hs1 & Hf1 & Hm1).
           split; [apply in_or_app; left; assumption|]. split; [assumption|].
           intros c' Hc' Hn'. apply in_app_or in Hc'. destruct Hc' as [Hc'|[Hc'|[]]].
           ++ apply Hm1; assumption.
           ++ inversion Hc'; subst. contradiction.
      * intros n c Hc Hf. apply in_app_or in Hc. destruct Hc as [Hc|[Hc|[]]].
        -- apply Map_set_keys_incl. eapply Hall; eassumption.
        -- inversion Hc; subst. apply Map_set_keys_same.
  - (* below the floor, or not a number: not recorded *)
    split; [exact Hnd|]. split.
    + intros n c Hc. destruct (Hbest _ _ Hc) as (Hs1 & Hf1 & Hm1).
      split; [apply in_or_app; left; assumption|]. split; [assumption|].
      intros c' Hc' Hn'. apply in_app_or in Hc'. destruct Hc' as [Hc'|[Hc'|[]]].
      * apply Hm1; assumption.
      * inversion Hc'; subst. eapply leb_trans; [|exact Hf1].
        apply not_leb_leb; [apply threshold_not_nan | assumption | exact Efloor].
    + intros n c Hc Hf. apply in_app_or in Hc. destruct Hc as [Hc|[Hc|[]]].
      * eapply Hall; eassumption.
      * inversion Hc; subst. congruence.
Qed.

Lemma collect_best_per_note (cands seen : list (Z * Match)) (m : NoteMatches) :
  best_per_note seen m -> best_per_note (seen ++ cands) (collect cands m).
Proof.
  revert seen m. induction cands as [|[n0 c0] cands IH]; intros seen m H.
  - rewrite app_nil_r. exact H.
  - replace (seen ++ (n0, c0) :: cands) with ((seen ++ [(n0, c0)]) ++ cands)
      by (rewrite <- app_assoc; reflexivity).
    apply IH. apply offer_best_per_note, H.
Qed.

Lemma best_per_note_nil : best_per_note [] [].
Proof.
  split; [constructor|]. split; intros n c [].
Qed.

(** ** The loops over the rows *)

Lemma fold_considerRow (bo : ByteOrder) (q : Float32Array) (kind : MatchType)
    (rows : list EmbeddingRow) (m : NoteMatches) :
  fold_left (considerRow bo q kind) rows m = collect (candidatesOf bo q kind rows) m.
Proof.
  revert m. induction rows as [|row rows IH]; intros m; [reflexivity|].
  cbn [fold_left]. rewrite IH. unfold candidatesOf. cbn [flat_map].
  unfold collect. rewrite fold_left_app. f_equal.
  unfold considerRow. destruct (blobToEmbedding (row_embedding row)); reflexivity.
Qed.

Lemma collectMatches_collect (bo : ByteOrder) (q : Float32Array)
    (noteRows imageRows : list EmbeddingRow) :
  collectMatches bo q noteRows imageRows = collect (candidates bo q noteRows imageRows) [].
Proof.
  unfold collectMatches, candidates. rewrite !fold_considerRow.
  unfold collect. rewrite fold_left_app. reflexivity.
Qed.

(** A row that cannot be decoded offers nothing. *)
Lemma candidatesOf_skip (bo : ByteOrder) (q : Float32Array) (kind : MatchType)
    (before after : list EmbeddingRow) (row : EmbeddingRow) (e : js_error) :
  blobToEmbedding (row_embedding row) = Throw e ->
  candidatesOf bo q kind (before ++ row :: after) = candidatesOf bo q kind (before ++ after).
Proof.
  intros H. unfold candidatesOf. rewrite !flat_map_app. cbn [flat_map]. rewrite H.
  reflexivity.
Qed.

(** ** Ranking *)

Lemma collect_not_nan (cands : list (Z * Match)) :
  Forall (fun e : Z * Match => is_nan (score (snd e)) = false) (collect cands []).
Proof.
  destruct (collect_best_per_note cands [] [] best_per_note_nil) as (_ & Hbest & _).
  rewrite Forall_forall. intros [n c] Hin. destruct (Hbest n c Hin) as (_ & Hf & _).
  apply (leb_not_nan _ _ Hf).
Qed.

Lemma filterMatches_cons (top : Z * Match) (rest : list (Z * Match)) :
  filterMatches (top :: rest) =
  top :: filter (fun e => (score (snd top) * RELATIVE_THRESHOLD <=? score (snd e))%float) rest.
Proof.
  unfold filterMatches, Array_filter. cbn [filter_from]. destruct top as [n m].
  cbn [Z.eqb]. f_equal. apply filter_from_positive; [lia|].
  intros [n' m'] j Hj. destruct (j =? 0) eqn:E; [apply Z.eqb_eq in E; lia|]. reflexivity.
Qed.

Lemma filterMatches_sorted (R : Z * Match -> Z * Match -> Prop) (l : list (Z * Match)) :
  StronglySorted R l -> StronglySorted R (filterMatches l).
Proof.
  intros H. destruct l as [|top rest]; [constructor|].
  rewrite filterMatches_cons. inversion H as [|? ? Hs Hall]; subst.
  constructor; [apply StronglySorted_filter, Hs|].
  rewrite Forall_forall in *. intros y Hy. apply Hall. apply filter_In in Hy. tauto.
Qed.

(** ** The whole call *)

Lemma hydrate_never_throws (env : Env) (entry : Z * Match) :
  hydrate env entry =
  Return match getNoteById env (fst entry) with
         | Return (Some n) => Some (retrievedNote n (snd entry))
         | _ => None
         end.
Proof.
  destruct entry as [noteId m]. unfold hydrate, try_catch, bind. cbn [fst snd].
  destruct (getNoteById env noteId) as [[n|]|e]; reflexivity.
Qed.

Lemma Promise_all_hydrate (env : Env) (final : list (Z * Match)) :
  exists withNulls,
    Promise_all (map (hydrate env) final) = Return withNulls /\
    filter_not_null withNulls = hydrated env final.
Proof.
  induction final as [|entry final (withNulls & IH1 & IH2)].
  - exists []. split; reflexivity.
  - cbn [map Promise_all]. rewrite hydrate_never_throws, IH1.
    eexists. split; [reflexivity|].
    unfold hydrated in *. cbn [flat_map]. rewrite <- IH2.
    destruct (getNoteById env (fst entry)) as [[n|]|e]; reflexivity.
Qed.

(** The value of a call whose two SELECTs succeed. *)
Lemma retrieveRelevantNotes_ok (env : Env) (d : Database) (q : Float32Array) (topK : Z) :
  dbInitialized env = true ->
  execFails env SelectCompletedNoteEmbeddings = false ->
  execFails env SelectCompletedImageEmbeddings = false ->
  retrieveRelevantNotes env d q topK =
  Return (hydrated env (finalMatches (nativeOrder env) q (completedNoteEmbeddings d)
                          (completedImageEmbeddings d) topK)).
Proof.
  intros Hdb Hn Hi. unfold retrieveRelevantNotes, getDatabaseInstance, execute_query.
  rewrite Hdb, Hn, Hi. cbn [bind Promise_all nth].
  destruct (Promise_all_hydrate env
              (finalMatches (nativeOrder env) q (completedNoteEmbeddings d)
                 (completedImageEmbeddings d) topK)) as (withNulls & H1 & H2).
  rewrite H1. cbn [bind try_catch]. rewrite H2. reflexivity.
Qed.

(** The value of a call that fails before ranking. *)
Lemma retrieveRelevantNotes_failed (env : Env) (d : Database) (q : Float32Array) (topK : Z) :
  dbInitialized env = false \/
  execFails env SelectCompletedNoteEmbeddings = true \/
  execFails env SelectCompletedImageEmbeddings = true ->
  retrieveRelevantNotes env d q topK = Return [].
Proof.
  unfold retrieveRelevantNotes, getDatabaseInstance, execute_query.
  intros [H|[H|H]].
  - rewrite H. reflexivity.
  - rewrite H. destruct (dbInitialized env); reflexivity.
  - rewrite H. destruct (dbInitialized env); [|reflexivity].
    destruct (execFails env SelectCompletedNoteEmbeddings); reflexivity.
Qed.

Lemma candidatesOf_app (bo : ByteOrder) (q : Float32Array) (kind : MatchType)
    (l1 l2 : list EmbeddingRow) :
  candidatesOf bo q kind (l1 ++ l2) = candidatesOf bo q kind l1 ++ candidatesOf bo q kind l2.
Proof. unfold candidatesOf. apply flat_map_app. Qed.

Lemma candidatesOf_undecodable (bo : ByteOrder) (q : Float32Array) (kind : MatchType)
    (rows : list EmbeddingRow) :
  Forall (fun row => exists e, blobToEmbedding (row_embedding row) = Throw e) rows ->
  candidatesOf bo q kind rows = [].
Proof.
  induction 1 as [|row rows (e & He) _ IH]; [reflexivity|].
  unfold candidatesOf in *. cbn [flat_map]. rewrite He, IH. reflexivity.
Qed.

Lemma finalMatches_candidates (bo : ByteOrder) (q : Float32Array)
    (noteRows imageRows noteRows' imageRows' : list EmbeddingRow) (topK : Z) :
  candidates bo q noteRows imageRows = candidates bo q noteRows' imageRows' ->
  finalMatches bo q noteRows imageRows topK = finalMatches bo q noteRows' imageRows' topK.
Proof.
  intros H. unfold finalMatches. rewrite !collectMatches_collect, H. reflexivity.
Qed.

Lemma completedNoteEmbeddings_app (ne1 ne2 : list NoteEmbeddingRow)
    (ie : list ImageEmbeddingRow) (im : list Image) :
  completedNoteEmbeddings
    {| note_embeddings := ne1 ++ ne2; image_embeddings := ie; images_table := im |} =
  completedNoteEmbeddings
    {| note_embeddings := ne1; image_embeddings := ie; images_table := im |} ++
  completedNoteEmbeddings
    {| note_embeddings := ne2; image_embeddings := ie; images_table := im |}.
Proof.
  unfold completedNoteEmbeddings. cbn [note_embeddings].
  rewrite filter_app, map_app. reflexivity.
Qed.

Lemma completedImageEmbeddings_app (ne : list NoteEmbeddingRow)
    (ie1 ie2 : list ImageEmbeddingRow) (im : list Image) :
  completedImageEmbeddings
    {| note_embeddings := ne; image_embeddings := ie1 ++ ie2; images_table := im |} =
  completedImageEmbeddings
    {| note_embeddings := ne; image_embeddings := ie1; images_table := im |} ++
  completedImageEmbeddings
    {| note_embeddings := ne; image_embeddings := ie2; images_table := im |}.
Proof.
  unfold completedImageEmbeddings. cbn [image_embeddings images_table].
  rewrite filter_app, flat_map_app. reflexivity.
Qed.

(** C8.  [retrieveRelevantNotes] never throws: it returns the hydrated
    final matches when both SELECTs succeed, and the empty list when the
    database handle is missing or a SELECT rejects.  A stored row, of
    either table, whose blob cannot be decoded changes nothing: the
    call returns what it returns with that row deleted. *)
Theorem retrieval_never_throws (env : Env) (d : Database) (q : Float32Array) (topK : Z) :
  (exists notes, retrieveRelevantNotes env d q topK = Return notes) /\
  (dbInitialized env = true ->
   execFails env SelectCompletedNoteEmbeddings = false ->
   execFails env SelectCompletedImageEmbeddings = false ->
   retrieveRelevantNotes env d q topK =
   Return (hydrated env (finalMatches (nativeOrder env) q (completedNoteEmbeddings d)
                           (completedImageEmbeddings d) topK))) /\
  (dbInitialized env = false \/
   execFails env SelectCompletedNoteEmbeddings = true \/
   execFails env SelectCompletedImageEmbeddings = true ->
   retrieveRelevantNotes env d q topK = Return []) /\
  (forall before after bad e,
     note_embeddings d = before ++ bad :: after ->
     blobToEmbedding (ne_embedding bad) = Throw e ->
     retrieveRelevantNotes env d q topK =
     retrieveRelevantNotes env
       {| note_embeddings := before ++ after;
          image_embeddings := image_embeddings d;
          images_table := images_table d |} q topK) /\
  (forall before after bad e,
     image_embeddings d = before ++ bad :: after ->
     blobToEmbedding (ie_embedding bad) = Throw e ->
     retrieveRelevantNotes env d q topK =
     retrieveRelevantNotes env
       {| note_embeddings := note_embeddings d;
          image_embeddings := before ++ after;
          images_table := images_table d |} q topK).
Proof.
  assert (Hcases : (dbInitialized env = true /\
                    execFails env SelectCompletedNoteEmbeddings = false /\
                    execFails env SelectCompletedImageEmbeddings = false) \/
                   (dbInitialized env = false \/
                    execFails env SelectCompletedNoteEmbeddings = true \/
                    execFails env SelectCompletedImageEmbeddings = true)).
  { destruct (dbInitialized env), (execFails env SelectCompletedNoteEmbeddings),
      (execFails env SelectCompletedImageEmbeddings); auto. }
  split; [|split; [|split; [|split]]].
  - destruct Hcases as [(H1 & H2 & H3)|H].
    + rewrite retrieveRelevantNotes_ok by assumption. eauto.
    + rewrite retrieveRelevantNotes_failed by assumption. eauto.
  - apply retrieveRelevantNotes_ok.
  - apply retrieveRelevantNotes_failed.
  - intros before after bad e Hrows Hbad.
    destruct Hcases as [(H1 & H2 & H3)|H].
    + rewrite !retrieveRelevantNotes_ok by assumption. do 2 f_equal.
      apply finalMatches_candidates. unfold candidates.
      destruct d as [ne ie im]. cbn [note_embeddings image_embeddings images_table] in *.
      subst ne. f_equal. change (bad :: after) with ([bad] ++ after).
      rewrite !completedNoteEmbeddings_app, !candidatesOf_app. f_equal.
      rewrite <- app_nil_l. f_equal.
      apply candidatesOf_undecodable.
      unfold completedNoteEmbeddings. cbn [note_embeddings filter].
      destruct (Status_eqb (ne_status bad) completed); cbn [map]; constructor; eauto.
    + rewrite !retrieveRelevantNotes_failed by assumption. reflexivity.
  - intros before after bad e Hrows Hbad.
    destruct Hcases as [(H1 & H2 & H3)|H].
    + rewrite !retrieveRelevantNotes_ok by assumption. do 2 f_equal.
      apply finalMatches_candidates. unfold candidates.
      destruct d as [ne ie im]. cbn [note_embeddings image_embeddings images_table] in *.
      subst ie. f_equal. change (bad :: after) with ([bad] ++ after).
      rewrite !completedImageEmbeddings_app, !candidatesOf_app. f_equal.
      rewrite <- app_nil_l. f_equal.
      apply candidatesOf_undecodable.
      unfold completedImageEmbeddings. cbn [image_embeddings images_table filter].
      destruct (Status_eqb (ie_status bad) completed); cbn [flat_map];
        [|constructor].
      rewrite app_nil_r. rewrite Forall_forall. intros row Hrow.
      apply in_map_iff in Hrow. destruct Hrow as (i & <- & _). eauto.
    + rewrite !retrieveRelevantNotes_failed by assumption. reflexivity.
Qed.

Lemma retrieval_never_throws_witness :
  let d := {| note_embeddings := [sampleRow 1 [1; 0]%float; truncatedRow 2];
              image_embeddings := []; images_table := [] |} in
  let d' := {| note_embeddings := [sampleRow 1 [1; 0]%float] ++ [];
               image_embeddings := []; images_table := [] |} in
  retrieveRelevantNotes sampleEnv d sampleQuery 2
  = retrieveRelevantNotes sampleEnv d' sampleQuery 2 /\
  retrieveRelevantNotes sampleEnv d sampleQuery 2 =
  Return [retrievedNote (sampleNote 1) {| score := 1; matchType := text |}].
Proof.
  cbv zeta. split.
  - exact (proj1 (proj2 (proj2 (proj2
             (retrieval_never_throws sampleEnv
                {| note_embeddings := [sampleRow 1 [1; 0]%float; truncatedRow 2];
                   image_embeddings := []; images_table := [] |} sampleQuery 2))))
             [sampleRow 1 [1; 0]%float] [] (truncatedRow 2)
             (RangeError "byte length of Float32Array should be a multiple of 4")
             eq_refl eq_refl).
  - vm_compute. reflexivity.
Defined.

(* ================================================================== *)
(** * Part VI. The embedding generator                                 *)
(* ================================================================== *)

Lemma jsstring_eqb_refl (a : jsstring) : jsstring_eqb a a = true.
Proof. unfold jsstring_eqb. destruct (list_eq_dec N.eq_dec a a); congruence. Qed.

Lemma jsstring_eqb_neq (a b : jsstring) : a <> b -> jsstring_eqb a b = false.
Proof. unfold jsstring_eqb. destruct (list_eq_dec N.eq_dec a b); congruence. Qed.

Lemma filter_none {A : Type} (f : A -> bool) (l : list A) :
  (forall x, In x l -> f x = false) -> filter f l = [].
Proof.
  induction l as [|x l IH]; intros H; simpl; [reflexivity|].
  rewrite (H x (or_introl eq_refl)). apply IH. intros y Hy. apply H. right. exact Hy.
Qed.

(** Under the UNIQUE constraint on [noteId], the SELECT finds the
    note's record and nothing else. *)
Lemma filter_unique_row (rows : list NoteEmbeddingRow) (r : NoteEmbeddingRow) :
  NoDup (map ne_noteId rows) -> In r rows ->
  filter (fun r' => ne_noteId r' =? ne_noteId r) rows = [r].
Proof.
  induction rows as [|r0 rows IH]; simpl; [tauto|].
  intros Hnd [->|Hin]; inversion Hnd as [|? ? Hnot Hnd']; subst.
  - rewrite Z.eqb_refl. f_equal.
    apply filter_none. intros r' Hr'.
    apply Z.eqb_neq. intros E. apply Hnot. rewrite <- E.
    apply in_map, Hr'.
  - destruct (ne_noteId r0 =? ne_noteId r) eqn:E.
    + apply Z.eqb_eq in E. exfalso. apply Hnot. rewrite E. apply in_map, Hin.
    + apply IH; assumption.
Qed.

Lemma filter_no_row (rows : list NoteEmbeddingRow) (noteId : Z) :
  (forall r, In r rows -> ne_noteId r <> noteId) ->
  filter (fun r' => ne_noteId r' =? noteId) rows = [].
Proof.
  intros H. apply filter_none. intros r Hr. apply Z.eqb_neq, H, Hr.
Qed.

Lemma map_mark_failed_absent (rows : list NoteEmbeddingRow) (noteId : Z) :
  (forall r, In r rows -> ne_noteId r <> noteId) -> map (mark_failed noteId) rows = rows.
Proof.
  intros H. rewrite <- (map_id rows) at 2. apply map_ext_in. intros r Hr.
  unfold mark_failed. destruct (ne_noteId r =? noteId) eqn:E; [|reflexivity].
  apply Z.eqb_eq in E. exfalso. eapply H; eassumption.
Qed.

(** C2.  When the record stored for the note carries the fingerprint of
    the note's composed text, [generateNoteTextEmbedding] returns
    having only run its SELECT: the embedding capability is not invoked,
    no statement that writes is executed, the store is as it was. *)
Theorem unchanged_fingerprint_no_work (env : Env) (noteId : Z) (w : World)
    (n : NoteWithDetails) (h : jsstring) (r : NoteEmbeddingRow) :
  dbInitialized env = true ->
  getNoteById env noteId = Return (Some n) ->
  hashText env (composedText n) = Return h ->
  execFails env (SelectNoteEmbeddingHash noteId) = false ->
  NoDup (map ne_noteId (note_embeddings (db w))) ->
  In r (note_embeddings (db w)) ->
  ne_noteId r = noteId ->
  ne_textHash r = h ->
  exists w',
    generateNoteTextEmbedding env noteId w = (Return tt, w') /\
    db w' = db w /\
    effects w' = effects w ++ [Executed (SelectNoteEmbeddingHash noteId)] /\
    (forall t, ~ In (Embedded t) (skipn (List.length (effects w)) (effects w'))) /\
    (forall s, In (Executed s) (skipn (List.length (effects w)) (effects w')) ->
               is_write s = false).
Proof.
  intros Hdb Hnote Hhash Hsel Hnd Hin Hid Hh.
  exists {| db := db w; effects := effects w ++ [Executed (SelectNoteEmbeddingHash noteId)] |}.
  assert (Hskip : skipn (List.length (effects w))
                    (effects w ++ [Executed (SelectNoteEmbeddingHash noteId)])
                  = [Executed (SelectNoteEmbeddingHash noteId)]).
  { rewrite skipn_app, skipn_all, Nat.sub_diag. reflexivity. }
  split; [|split; [reflexivity|split; [reflexivity|cbn [effects]; rewrite Hskip; split]]].
  - unfold generateNoteTextEmbedding, bindM, try_catchM, lift, getDatabaseInstance.
    rewrite Hdb, Hnote. fold (composedText n). rewrite Hhash.
    unfold selectNoteEmbeddingHash. cbn [record db effects]. rewrite Hsel.
    subst noteId. rewrite (filter_unique_row _ _ Hnd Hin). cbn [map].
    rewrite Hh, jsstring_eqb_refl. reflexivity.
  - intros t [H|[]]. discriminate.
  - intros s [H|[]]. inversion H. reflexivity.
Qed.

Lemma unchanged_fingerprint_no_work_witness :
  let row := {| ne_noteId := 1;
                ne_embedding := BUint8Array (embeddingToBlob LittleEndian [1; 0]%float);
                ne_embeddingDimensions := 2;
                ne_textHash := str "sha256:" ++ composedText (sampleNote 1);
                ne_status := completed;
                ne_createdAt := 0 |} in
  let w := {| db := {| note_embeddings := [row]; image_embeddings := [];
                       images_table := [] |};
              effects := [] |} in
  exists w',
    generateNoteTextEmbedding sampleEnv 1 w = (Return tt, w') /\
    db w' = db w /\
    effects w' = [Executed (SelectNoteEmbeddingHash 1)].
Proof.
  cbv zeta.
  destruct (unchanged_fingerprint_no_work sampleEnv 1
              {| db := {| note_embeddings :=
                            [{| ne_noteId := 1;
                                ne_embedding :=
                                  BUint8Array (embeddingToBlob LittleEndian [1; 0]%float);
                                ne_embeddingDimensions := 2;
                                ne_textHash := str "sha256:" ++ composedText (sampleNote 1);
                                ne_status := completed;
                                ne_createdAt := 0 |}];
                          image_embeddings := []; images_table := [] |};
                 effects := [] |}
              (sampleNote 1) (str "sha256:" ++ composedText (sampleNote 1)) _
              eq_refl eq_refl eq_refl eq_refl
              ltac:(repeat constructor; simpl; tauto)
              (or_introl eq_refl) eq_refl eq_refl)
    as (w' & H1 & H2 & H3 & _).
  exists w'. split; [exact H1|]. split; [exact H2|exact H3].
Defined.

(** C5.  In a call that reaches the embedding capability (the note is
    found, its fingerprint differs from the stored one or none is
    stored, the context is available) and gets nothing usable from it,
    [generateNoteTextEmbedding] returns normally; the only statement it
    writes with is [UPDATE ... SET status = 'failed' WHERE noteId = ?],
    so each record of the note keeps its vector, dimension, hash and
    date and gets status failed (unless that UPDATE is itself rejected,
    which is ignored), and where the note has no record the table is
    left as it was. *)
Theorem embedding_failure_absorbed (env : Env) (noteId : Z) (w : World)
    (n : NoteWithDetails) (h : jsstring)
    (embeddingContext : jsstring -> outcome EmbeddingResult) :
  dbInitialized env = true ->
  getNoteById env noteId = Return (Some n) ->
  hashText env (composedText n) = Return h ->
  execFails env (SelectNoteEmbeddingHash noteId) = false ->
  (forall r, hd_error (filter (fun r' => ne_noteId r' =? noteId) (note_embeddings (db w)))
             = Some r -> ne_textHash r <> h) ->
  getEmbeddingContext env = Some embeddingContext ->
  embedding_failed (embeddingContext (composedText n)) ->
  exists w',
    generateNoteTextEmbedding env noteId w = (Return tt, w') /\
    effects w' = effects w ++ [Executed (SelectNoteEmbeddingHash noteId);
                               Embedded (composedText n);
                               Executed (UpdateNoteEmbeddingStatus failed noteId)] /\
    image_embeddings (db w') = image_embeddings (db w) /\
    images_table (db w') = images_table (db w) /\
    note_embeddings (db w') =
      (if execFails env (UpdateNoteEmbeddingStatus failed noteId)
       then note_embeddings (db w)
       else map (mark_failed noteId) (note_embeddings (db w))) /\
    ((forall r, In r (note_embeddings (db w)) -> ne_noteId r <> noteId) ->
     db w' = db w).
Proof.
  intros Hdb Hnote Hhash Hsel Hdiff Hctx Hfail.
  set (sel := Executed (SelectNoteEmbeddingHash noteId)).
  set (emb := Embedded (composedText n)).
  set (upd := Executed (UpdateNoteEmbeddingStatus failed noteId)).
  exists {| db := if execFails env (UpdateNoteEmbeddingStatus failed noteId)
                  then db w
                  else set_note_embeddings
                         (map (mark_failed noteId) (note_embeddings (db w))) (db w);
            effects := effects w ++ [sel; emb; upd] |}.
  split; [|split; [reflexivity|]].
  - unfold generateNoteTextEmbedding, bindM, try_catchM, lift, getDatabaseInstance.
    rewrite Hdb, Hnote. fold (composedText n). rewrite Hhash.
    unfold selectNoteEmbeddingHash. cbn [record db effects]. rewrite Hsel.
    assert (Hne : match map ne_textHash
                          (filter (fun r' => ne_noteId r' =? noteId) (note_embeddings (db w)))
                  with
                  | existingHash :: _ => jsstring_eqb existingHash h
                  | [] => false
                  end = false).
    { destruct (filter _ _) as [|r0 rest]; [reflexivity|]. cbn [map].
      apply jsstring_eqb_neq. apply Hdiff. reflexivity. }
    rewrite Hne, Hctx. unfold callEmbedding. cbn [record db effects].
    assert (Hcatch :
      forall w0 : World,
        db w0 = db w -> effects w0 = effects w ++ [sel; emb] ->
        try_catchM (execute env (UpdateNoteEmbeddingStatus failed noteId))
                   (fun _ => ret tt) w0
        = (Return tt,
           {| db := if execFails env (UpdateNoteEmbeddingStatus failed noteId)
                    then db w
                    else set_note_embeddings
                           (map (mark_failed noteId) (note_embeddings (db w))) (db w);
              effects := effects w ++ [sel; emb; upd] |})).
    { intros w0 Hd He.
      unfold try_catchM, execute, record, ret. cbn [db effects]. rewrite Hd, He.
      rewrite <- app_assoc. cbn [app].
      destruct (execFails env (UpdateNoteEmbeddingStatus failed noteId)); reflexivity. }
    assert (Hw0 : (effects w ++ [sel]) ++ [emb] = effects w ++ [sel; emb])
      by (rewrite <- app_assoc; reflexivity).
    unfold embedding_failed in Hfail.
    destruct (embeddingContext (composedText n)) as [res|e].
    + destruct (embedding res) as [[|x v]|]; try contradiction;
        unfold throw; apply Hcatch; [reflexivity|exact Hw0|reflexivity|exact Hw0].
    + apply Hcatch; [reflexivity|exact Hw0].
  - cbn [db].
    destruct (execFails env (UpdateNoteEmbeddingStatus failed noteId)).
    + repeat split; reflexivity.
    + cbn [image_embeddings images_table note_embeddings set_note_embeddings].
      repeat split; try reflexivity.
      intros Habs. rewrite map_mark_failed_absent by exact Habs.
      destruct (db w); reflexivity.
Qed.

Lemma embedding_failure_absorbed_witness :
  let w := {| db := {| note_embeddings := [sampleRow 1 [1; 0]%float; sampleRow 2 [0; 1]%float];
                       image_embeddings := []; images_table := [] |};
              effects := [] |} in
  exists w',
    generateNoteTextEmbedding brokenModelEnv 1 w = (Return tt, w') /\
    note_embeddings (db w') =
      [mark_failed 1 (sampleRow 1 [1; 0]%float); sampleRow 2 [0; 1]%float].
Proof.
  cbv zeta.
  assert (Hdiff : forall r,
            hd_error (filter (fun r' => ne_noteId r' =? 1)
                        [sampleRow 1 [1; 0]%float; sampleRow 2 [0; 1]%float]) = Some r ->
            ne_textHash r <> str "sha256:" ++ composedText (sampleNote 1)).
  { intros r H. cbn in H. inversion H; subst. discriminate. }
  destruct (embedding_failure_absorbed brokenModelEnv 1
              {| db := {| note_embeddings :=
                            [sampleRow 1 [1; 0]%float; sampleRow 2 [0; 1]%float];
                          image_embeddings := []; images_table := [] |};
                 effects := [] |}
              (sampleNote 1) (str "sha256:" ++ composedText (sampleNote 1))
              (fun _ => Return {| embedding := Some [] |})
              eq_refl eq_refl eq_refl eq_refl Hdiff eq_refl I)
    as (w' & H1 & _ & _ & _ & H2 & _).
  exists w'. split; [exact H1|exact H2].
Defined.

(* ================================================================== *)
(** * Part VII. The query embedding                                    *)
(* ================================================================== *)

(** C10.  [generateQueryEmbedding] never throws.  It returns [null] when
    no embedding context is available, when the model call throws and
    when its result has no vector or an empty one; otherwise it returns
    the vector, as a [Float32Array], with the trimmed text.  The model is
    called with the trimmed text. *)
Theorem generateQueryEmbedding_total (env : Env) (text_ : jsstring) :
  (exists r, generateQueryEmbedding env text_ = Return r) /\
  (getEmbeddingContext env = None -> generateQueryEmbedding env text_ = Return None) /\
  (forall embeddingContext,
     getEmbeddingContext env = Some embeddingContext ->
     (forall e, embeddingContext (trim text_) = Throw e ->
                generateQueryEmbedding env text_ = Return None) /\
     (forall res, embeddingContext (trim text_) = Return res ->
                  embedding res = None \/ embedding res = Some [] ->
                  generateQueryEmbedding env text_ = Return None) /\
     (forall res x v, embeddingContext (trim text_) = Return res ->
                      embedding res = Some (x :: v) ->
                      generateQueryEmbedding env text_ =
                      Return (Some {| q_embedding :=
                                        Float32Array_from (nativeOrder env) (x :: v);
                                      processedText := trim text_ |}))).
Proof.
  unfold generateQueryEmbedding, try_catch, bind.
  split; [|split].
  - destruct (getEmbeddingContext env) as [ctx|]; [|eexists; reflexivity].
    destruct (ctx (trim text_)) as [res|e]; [|eexists; reflexivity].
    destruct (embedding res) as [[|x v]|]; eexists; reflexivity.
  - intros ->. reflexivity.
  - intros ctx ->. split; [|split].
    + intros e ->. reflexivity.
    + intros res -> [H|H]; rewrite H; reflexivity.
    + intros res x v -> H. rewrite H. reflexivity.
Qed.

Lemma generateQueryEmbedding_total_witness :
  generateQueryEmbedding sampleEnv (str "  what did I do at the beach? ") =
  Return (Some {| q_embedding := Float32Array_from LittleEndian [1; 0]%float;
                  processedText := str "what did I do at the beach?" |}).
Proof.
  exact (proj2 (proj2 (proj2 (proj2
           (generateQueryEmbedding_total sampleEnv (str "  what did I do at the beach? ")))
           (fun _ => Return {| embedding := Some [1; 0]%float |}) eq_refl))
           {| embedding := Some [1; 0]%float |} 1%float [0%float] eq_refl eq_refl).
Defined.

(* ================================================================== *)
(** * Part VIII. The memory selection scorer                           *)
(* ================================================================== *)

(** ** Multiplication commutes *)

Lemma SFmul_comm (x y : spec_float) : SFmul prec emax x y = SFmul prec emax y x.
Proof.
  destruct x as [sx|sx| |sx mx ex], y as [sy|sy| |sy my ey]; simpl;
    try reflexivity; try (rewrite xorb_comm; reflexivity).
  rewrite xorb_comm, Pos.mul_comm, Z.add_comm. reflexivity.
Qed.

Lemma float_mul_comm (x y : float) : (x * y)%float = (y * x)%float.
Proof.
  rewrite <- (SF2Prim_Prim2SF (x * y)), <- (SF2Prim_Prim2SF (y * x)).
  rewrite !FloatAxioms.mul_spec, SFmul_comm. reflexivity.
Qed.

(** The code's score is the specification's formula. *)
Lemma reminisceScore_formula (nowAge nowShown : Z) (n : NoteWithDetails) :
  reminisceScore nowAge nowShown n =
  scoreFormula (hasImages n) (ageInDays nowAge n) (Z.of_nat (List.length (content n)))
               (daysSinceLastShown nowShown n) (hasRecallScript n).
Proof.
  unfold reminisceScore, scoreFormula, hasImages.
  rewrite (float_mul_comm (Z2float (ageInDays nowAge n))),
          (float_mul_comm (Z2float (Z.of_nat (List.length (content n))))),
          (float_mul_comm (Z2float (daysSinceLastShown nowShown n))).
  destruct (images n); reflexivity.
Qed.

(** ** The shuffle permutes *)

Lemma Array_set_swap_head {A : Type} (l : list A) : forall (j : nat) (a y : A),
  nth_error l j = Some y -> Permutation (y :: Array_set j a l) (a :: l).
Proof.
  induction l as [|b l IH]; intros [|j] a y H; simpl in H; try discriminate.
  - inversion H; subst. simpl. apply perm_swap.
  - simpl. apply Permutation_trans with (b :: y :: Array_set j a l); [apply perm_swap|].
    apply Permutation_trans with (b :: a :: l); [|apply perm_swap].
    apply perm_skip, IH, H.
Qed.

Lemma Array_set_same {A : Type} (l : list A) : forall (i : nat) (x : A),
  nth_error l i = Some x -> Array_set i x l = l.
Proof.
  induction l as [|b l IH]; intros [|i] x H; simpl in *; try discriminate.
  - inversion H; reflexivity.
  - f_equal. apply IH, H.
Qed.

Lemma swap_perm {A : Type} (l : list A) : forall i j, Permutation (swap i j l) l.
Proof.
  unfold swap. induction l as [|a l IH]; intros i j.
  - destruct i, j; apply Permutation_refl.
  - destruct i as [|i], j as [|j]; simpl.
    + apply Permutation_refl.
    + destruct (nth_error l j) as [y|] eqn:E; [|apply Permutation_refl].
      simpl. apply Array_set_swap_head, E.
    + destruct (nth_error l i) as [x|] eqn:E; [|apply Permutation_refl].
      simpl. apply Array_set_swap_head, E.
    + specialize (IH i j).
      destruct (nth_error l i) as [x|]; [|apply Permutation_refl].
      destruct (nth_error l j) as [y|]; [|apply Permutation_refl].
      simpl. apply perm_skip, IH.
Qed.

Lemma shuffle_from_perm {A : Type} (env : Env) (i : nat) : forall (k : nat) (l : list A),
  Permutation (shuffle_from env i k l) l.
Proof.
  induction i as [|i IH]; intros k l; simpl; [apply Permutation_refl|].
  eapply Permutation_trans; [apply IH|apply swap_perm].
Qed.

Lemma shuffle_perm {A : Type} (env : Env) (l : list A) : Permutation (shuffle env l) l.
Proof. apply shuffle_from_perm. Qed.

(** ** The scored list *)

Lemma scoreNotes_notes (env : Env) (allNotes : list NoteWithDetails) : forall k,
  map note (scoreNotes env k allNotes) = allNotes.
Proof.
  induction allNotes as [|n rest IH]; intros k; simpl; [reflexivity|].
  f_equal. apply IH.
Qed.

(** ** Scores are numbers

    A sum of products of integers below 2^63 with the constants of the
    score stays far from the overflow threshold: no intermediate result
    is an infinity, so none is NaN. *)

Lemma fexp64 (x : Z) : fexp prec emax x = Z.max (x - 53) (-1074).
Proof. reflexivity. Qed.

Lemma Zdigits2_le (m k : Z) : 0 <= k -> 0 <= m < 2 ^ k -> 0 <= Zdigits2 m <= k.
Proof.
  intros Hk [H0 Hm]. destruct m as [|p|p]; simpl; try lia.
  pose proof (digits2_pos_bounds p) as [Hd _].
  assert (Zpos (digits2_pos p) - 1 < k); [|lia].
  apply (Z.pow_lt_mono_r_iff 2); lia.
Qed.

Lemma Zdigits2_lt_pow (m : Z) : 0 <= m -> m < 2 ^ Zdigits2 m.
Proof.
  intros H. destruct m as [|p|p]; simpl; try lia.
  apply digits2_pos_bounds.
Qed.

Lemma SFsmall_weaken (B E B' E' : Z) (x : spec_float) :
  B <= B' -> E <= E' -> SFsmall B E x -> SFsmall B' E' x.
Proof. destruct x; simpl; intros; lia || tauto. Qed.

Lemma SFsmall_not_nan (B E : Z) (x : spec_float) : SFsmall B E x -> SFis_nan x = false.
Proof. destruct x; simpl; tauto || reflexivity. Qed.

Lemma SFsmall_opp (B E : Z) (x : spec_float) : SFsmall B E x -> SFsmall B E (SFopp x).
Proof. destruct x; simpl; tauto. Qed.

Lemma shr_fexp_small (m e : Z) (l : location) (B E : Z) :
  0 <= m -> 0 <= B -> Zdigits2 m + e <= B -> e <= E ->
  let '(mrs, e') := shr_fexp prec emax m e l in
  0 <= shr_m mrs /\ Zdigits2 (shr_m mrs) + e' <= B /\ e' <= Z.max E (B - 53).
Proof.
  intros Hm HB Hmag He. unfold shr_fexp, shr. rewrite fexp64.
  destruct (Z.max (Zdigits2 m + e - 53) (-1074) - e) as [|n|n] eqn:En.
  - rewrite shr_record_of_loc_m. lia.
  - pose proof (iter_pos_shr_1_m n (shr_record_of_loc m l)) as Hi.
    rewrite shr_record_of_loc_m in Hi. specialize (Hi Hm).
    destruct (iter_pos shr_1 n (shr_record_of_loc m l)) as [m1 r1 s1]; cbn [shr_m] in *.
    assert (Hp : 0 < 2 ^ Zpos n) by (apply Z.pow_pos_nonneg; lia).
    assert (H1 : 0 <= m1) by (subst m1; apply Z.div_pos; lia).
    pose proof (Zdigits2_lt_pow m Hm) as Hlt.
    set (d := Zdigits2 m) in *.
    assert (Hd0 : 0 <= d).
    { unfold d. destruct m; simpl; lia. }
    set (k := Z.max (d - Zpos n) 0).
    assert (Hm1 : m1 < 2 ^ k).
    { subst m1. apply Z.div_lt_upper_bound; [lia|].
      rewrite <- Z.pow_add_r by lia.
      eapply Z.lt_le_trans; [exact Hlt|]. apply Z.pow_le_mono_r; lia. }
    pose proof (Zdigits2_le m1 k ltac:(lia) ltac:(lia)) as Hd1.
    split; [exact H1|]. lia.
  - rewrite shr_record_of_loc_m. lia.
Qed.

Lemma round_nearest_even_small (m : Z) (l : location) (k : Z) :
  0 <= m -> 0 <= k -> Zdigits2 m <= k ->
  0 <= round_nearest_even m l /\ Zdigits2 (round_nearest_even m l) <= k + 1.
Proof.
  intros Hm Hk Hd.
  assert (Hlt : m < 2 ^ k).
  { eapply Z.lt_le_trans; [apply Zdigits2_lt_pow, Hm|]. apply Z.pow_le_mono_r; lia. }
  assert (H1 : forall m', m <= m' <= m + 1 -> 0 <= m' /\ Zdigits2 m' <= k + 1).
  { intros m' Hm'. split; [lia|]. apply Zdigits2_le; [lia|].
    rewrite Z.pow_add_r by lia. lia. }
  destruct l as [|[]]; simpl; try (apply H1; lia).
  destruct (Z.even m); apply H1; lia.
Qed.

Lemma binary_round_aux_small (sx : bool) (m e : Z) (l : location) (B E : Z) :
  0 <= m -> 0 <= B -> Zdigits2 m + e <= B -> e <= E ->
  B <= 1000 -> E <= 900 ->
  SFsmall (B + 1) (Z.max E B) (binary_round_aux prec emax sx m e l).
Proof.
  intros Hm HB Hmag He HB' HE'. unfold binary_round_aux.
  pose proof (shr_fexp_small m e l B E Hm HB Hmag He) as H1.
  destruct (shr_fexp prec emax m e l) as [mrs1 e1].
  destruct H1 as (Hm1 & Hmag1 & He1).
  assert (Hd1 : 0 <= Zdigits2 (shr_m mrs1)) by (destruct (shr_m mrs1); simpl; lia).
  pose proof (round_nearest_even_small (shr_m mrs1) (loc_of_shr_record mrs1)
                (Zdigits2 (shr_m mrs1)) Hm1 Hd1 ltac:(lia)) as [Hm2 Hd2].
  pose proof (shr_fexp_small (round_nearest_even (shr_m mrs1) (loc_of_shr_record mrs1))
                e1 loc_Exact (B + 1) (Z.max E (B - 53)) Hm2 ltac:(lia) ltac:(lia) He1) as H3.
  destruct (shr_fexp prec emax _ e1 loc_Exact) as [mrs3 e3].
  destruct H3 as (Hm3 & Hmag3 & He3).
  destruct (shr_m mrs3) as [|p|p] eqn:E3.
  - exact I.
  - change (emax - prec) with 971.
    replace (e3 <=? 971) with true by (symmetry; apply Z.leb_le; lia).
    simpl in *. lia.
  - lia.
Qed.

Lemma binary_round_small (sx : bool) (m : positive) (e : Z) (B E : Z) :
  0 <= B -> Zpos (digits2_pos m) + e <= B -> e <= E ->
  B <= 1000 -> E <= 900 ->
  SFsmall (B + 1) (Z.max E B) (binary_round prec emax sx m e).
Proof.
  intros HB Hmag He HB' HE'. unfold binary_round, shl_align.
  destruct (fexp prec emax (Zpos (digits2_pos m) + e) - e) as [|n|n] eqn:En.
  - apply binary_round_aux_small; cbn [Zdigits2]; lia.
  - apply binary_round_aux_small; cbn [Zdigits2]; lia.
  - rewrite fexp64 in En |- *.
    apply binary_round_aux_small; try lia.
    assert (Hlt : Zpos (Pos.iter xO m n) < 2 ^ (Zpos (digits2_pos m) + Zpos n)).
    { rewrite Pos_iter_xO, Z.pow_add_r by lia.
      apply Z.mul_lt_mono_pos_r; [apply Z.pow_pos_nonneg; lia|].
      apply digits2_pos_bounds. }
    pose proof (Zdigits2_le (Zpos (Pos.iter xO m n)) (Zpos (digits2_pos m) + Zpos n)
                  ltac:(lia) ltac:(lia)) as Hd.
    lia.
Qed.

Lemma binary_normalize_small (D e : Z) (k B E : Z) :
  0 <= k -> - 2 ^ k < D < 2 ^ k -> 0 <= B -> k + e <= B -> e <= E ->
  B <= 1000 -> E <= 900 ->
  SFsmall (B + 1) (Z.max E B) (binary_normalize prec emax D e false).
Proof.
  intros Hk HD HB Hmag He HB' HE'.
  destruct D as [|p|p]; simpl binary_normalize; [exact I| |].
  - apply binary_round_small; try lia.
    pose proof (Zdigits2_le (Zpos p) k Hk ltac:(lia)) as Hd. simpl in Hd. lia.
  - apply binary_round_small; try lia.
    pose proof (Zdigits2_le (Zpos p) k Hk ltac:(lia)) as Hd. simpl in Hd. lia.
Qed.

Lemma SFmul_small (x y : spec_float) (B1 E1 B2 E2 : Z) :
  SFsmall B1 E1 x -> SFsmall B2 E2 y ->
  0 <= B1 + B2 -> B1 + B2 <= 1000 -> E1 + E2 <= 900 ->
  SFsmall (B1 + B2 + 1) (Z.max (E1 + E2) (B1 + B2)) (SFmul prec emax x y).
Proof.
  intros Hx Hy H0 HB HE.
  destruct x as [sx|sx| |sx mx ex], y as [sy|sy| |sy my ey]; cbn [SFsmall] in Hx, Hy;
    try contradiction; try exact I.
  unfold SFmul. destruct Hx as [Hx1 Hx2], Hy as [Hy1 Hy2].
  apply binary_round_aux_small; try lia.
  pose proof (digits2_pos_bounds mx) as [_ Hmx].
  pose proof (digits2_pos_bounds my) as [_ Hmy].
  assert (Hlt : Zpos (mx * my) < 2 ^ (Zpos (digits2_pos mx) + Zpos (digits2_pos my))).
  { rewrite Pos2Z.inj_mul, Z.pow_add_r by lia. nia. }
  assert (Hd : 0 <= Zdigits2 (Zpos (mx * my))
                <= Zpos (digits2_pos mx) + Zpos (digits2_pos my)).
  { apply Zdigits2_le; [lia|]. split; [lia|exact Hlt]. }
  cbn [Zdigits2] in *. lia.
Qed.

Lemma SFadd_small (x y : spec_float) (B E : Z) :
  SFsmall B E x -> SFsmall B E y ->
  0 <= B -> B <= 990 -> E <= 900 ->
  SFsmall (B + 2) (Z.max E (B + 1)) (SFadd prec emax x y).
Proof.
  intros Hx Hy H0 HB HE.
  destruct x as [sx|sx| |sx mx ex], y as [sy|sy| |sy my ey]; cbn [SFsmall] in Hx, Hy;
    try contradiction.
  - simpl. destruct sx, sy; exact I.
  - cbn [SFadd SFsmall]. lia.
  - cbn [SFadd SFsmall]. lia.
  - unfold SFadd. destruct Hx as [Hx1 Hx2], Hy as [Hy1 Hy2].
    set (ez := Z.min ex ey).
    pose proof (digits2_pos_bounds mx) as [_ Hmx].
    pose proof (digits2_pos_bounds my) as [_ Hmy].
    assert (Hpow : forall (m : positive) e0,
               ez <= e0 -> Zpos (digits2_pos m) + e0 <= B ->
               0 < Zpos (fst (shl_align m e0 ez)) < 2 ^ (B - ez)).
    { intros m e0 Hle Hb. rewrite shl_align_fst by exact Hle. split; [lia|].
      pose proof (digits2_pos_bounds m) as [_ Hm].
      eapply Z.lt_le_trans.
      - apply Z.mul_lt_mono_pos_r; [apply Z.pow_pos_nonneg; lia|exact Hm].
      - rewrite <- Z.pow_add_r by lia. apply Z.pow_le_mono_r; lia. }
    pose proof (Hpow mx ex ltac:(unfold ez; lia) Hx1) as Hax.
    pose proof (Hpow my ey ltac:(unfold ez; lia) Hy1) as Hay.
    assert (Hk : 0 <= B - ez) by (unfold ez; lia).
    replace (B + 2) with ((B + 1) + 1) by lia.
    eapply SFsmall_weaken;
      [| |apply (binary_normalize_small _ ez (B - ez + 1) (B + 1) E)]; try lia.
    rewrite Z.pow_add_r by lia.
    destruct sx, sy; simpl cond_Zopp; lia.
Qed.

Lemma Z2float_small (z : Z) : SFsmall 64 64 (Prim2SF (Z2float z)).
Proof.
  assert (H : forall n, SFsmall 64 64 (Prim2SF (of_uint63 n))).
  { intros n. rewrite FloatAxioms.of_uint63_spec.
    pose proof (Uint63.to_Z_bounded n) as Hn.
    change wB with (2 ^ 63) in Hn.
    replace 64 with (63 + 1) by lia.
    eapply SFsmall_weaken; [| |apply (binary_normalize_small _ 0 63 63 0)]; lia. }
  unfold Z2float. destruct (z <? 0).
  - rewrite FloatAxioms.opp_spec. apply SFsmall_opp, H.
  - apply H.
Qed.

Lemma reminisceScore_not_nan (nowAge nowShown : Z) (n : NoteWithDetails) :
  is_nan (reminisceScore nowAge nowShown n) = false.
Proof.
  rewrite is_nan_Prim2SF. apply (SFsmall_not_nan 200 200).
  assert (Hc : forall c : float,
             SFsmall 64 64 (Prim2SF c) ->
             forall z, SFsmall 129 128 (Prim2SF (Z2float z * c))).
  { intros c Hc z. rewrite FloatAxioms.mul_spec.
    replace 129 with (64 + 64 + 1) by lia.
    eapply SFsmall_weaken; [| |apply (SFmul_small _ _ 64 64 64 64)];
      try lia; [apply Z2float_small | exact Hc]. }
  assert (Hadd : forall a b B, 0 <= B -> B <= 190 ->
             SFsmall B B (Prim2SF a) -> SFsmall B B (Prim2SF b) ->
             SFsmall (B + 2) (B + 2) (Prim2SF (a + b))).
  { intros a b B H0 H1 Ha Hb. rewrite FloatAxioms.add_spec.
    eapply SFsmall_weaken; [| |apply (SFadd_small _ _ B B)]; try lia; assumption. }
  unfold reminisceScore.
  assert (H1 : SFsmall 129 129
                 (Prim2SF (match images n with [] => 0 | _ :: _ => 50 end)%float)).
  { destruct (images n); vm_compute; [exact I | split; discriminate]. }
  assert (H5 : SFsmall 135 135 (Prim2SF (if hasRecallScript n then 10 else -100)%float)).
  { destruct (hasRecallScript n); vm_compute; split; discriminate. }
  assert (H2 : SFsmall 129 129 (Prim2SF (Z2float (ageInDays nowAge n) * 0.5))).
  { eapply SFsmall_weaken; [| |apply Hc]; try lia. vm_compute. split; discriminate. }
  assert (H3 : SFsmall 131 131
                 (Prim2SF (Z2float (Z.of_nat (List.length (content n))) * 0.01))).
  { eapply SFsmall_weaken; [| |apply Hc]; try lia. vm_compute. split; discriminate. }
  assert (H4 : SFsmall 133 133 (Prim2SF (Z2float (daysSinceLastShown nowShown n) * 2))).
  { eapply SFsmall_weaken; [| |apply Hc]; try lia. vm_compute. split; discriminate. }
  eapply SFsmall_weaken; [| |apply (Hadd _ _ 135)]; try lia; [|exact H5].
  apply (Hadd _ _ 133); try lia; [|exact H4].
  apply (Hadd _ _ 131); try lia; [|exact H3].
  apply (Hadd _ _ 129); try lia; assumption.
Qed.

Lemma scoreNotes_not_nan (env : Env) (allNotes : list NoteWithDetails) : forall k,
  Forall (fun s => is_nan (noteScore s) = false) (scoreNotes env k allNotes).
Proof.
  induction allNotes as [|n rest IH]; intros k; simpl; constructor.
  - apply reminisceScore_not_nan.
  - apply IH.
Qed.

(** ** The order the shuffle gives *)

Lemma randomIndex_range (env : Env) (k i : nat) : (randomIndex env k i <= i)%nat.
Proof.
  unfold randomIndex.
  pose proof (Z.mod_pos_bound (entropy env k) (Z.of_nat i + 1)). lia.
Qed.

Lemma Array_set_length {A : Type} (l : list A) : forall (i : nat) (v : A),
  List.length (Array_set i v l) = List.length l.
Proof.
  induction l as [|b l IH]; intros [|i] v; simpl; try reflexivity. f_equal. apply IH.
Qed.

Lemma nth_error_Array_set_same {A : Type} (l : list A) : forall (i : nat) (v : A),
  (i < List.length l)%nat -> nth_error (Array_set i v l) i = Some v.
Proof.
  induction l as [|b l IH]; intros [|i] v H; simpl in *; try lia; [reflexivity|].
  apply IH. lia.
Qed.

Lemma nth_error_Array_set_other {A : Type} (l : list A) : forall (i j : nat) (v : A),
  i <> j -> nth_error (Array_set i v l) j = nth_error l j.
Proof.
  induction l as [|b l IH]; intros [|i] [|j] v H; simpl; try reflexivity; try contradiction.
  apply IH. intros E. apply H. f_equal. exact E.
Qed.

Lemma Array_set_app {A : Type} (p s : list A) : forall (i : nat) (v : A),
  (i < List.length p)%nat -> Array_set i v (p ++ s) = Array_set i v p ++ s.
Proof.
  induction p as [|b p IH]; intros [|i] v H; simpl in *; try lia; [reflexivity|].
  f_equal. apply IH. lia.
Qed.

Lemma swap_length {A : Type} (l : list A) (i j : nat) :
  List.length (swap i j l) = List.length l.
Proof.
  unfold swap. destruct (nth_error l i); [|reflexivity].
  destruct (nth_error l j); [|reflexivity]. rewrite !Array_set_length. reflexivity.
Qed.

Lemma swap_app {A : Type} (p s : list A) (i j : nat) :
  (i < List.length p)%nat -> (j < List.length p)%nat ->
  swap i j (p ++ s) = swap i j p ++ s.
Proof.
  intros Hi Hj. unfold swap. rewrite !nth_error_app1 by assumption.
  destruct (nth_error p i) as [x|]; [|reflexivity].
  destruct (nth_error p j) as [y|]; [|reflexivity].
  rewrite Array_set_app by exact Hi.
  rewrite Array_set_app by (rewrite Array_set_length; exact Hj). reflexivity.
Qed.

(** After the swap, position [i] holds what position [j] held. *)
Lemma swap_nth_error {A : Type} (l : list A) (i j : nat) (y : A) :
  (i < List.length l)%nat -> nth_error l j = Some y ->
  nth_error (swap i j l) i = Some y.
Proof.
  intros Hi Hj. unfold swap.
  destruct (nth_error l i) as [x|] eqn:Ei;
    [|apply nth_error_None in Ei; lia].
  rewrite Hj.
  assert (Hjl : (j < List.length l)%nat) by (apply nth_error_Some; congruence).
  destruct (Nat.eq_dec j i) as [->|Hne].
  - rewrite nth_error_Array_set_same by (rewrite Array_set_length; exact Hi). congruence.
  - rewrite nth_error_Array_set_other by exact Hne.
    apply nth_error_Array_set_same, Hi.
Qed.

(** The loop leaves what lies behind position [i] alone. *)
Lemma shuffle_from_app {A : Type} (env : Env) (i : nat) : forall (k : nat) (p s : list A),
  (i < List.length p)%nat ->
  shuffle_from env i k (p ++ s) = shuffle_from env i k p ++ s.
Proof.
  induction i as [|i IH]; intros k p s H; simpl; [reflexivity|].
  pose proof (randomIndex_range env k (S i)) as Hj.
  rewrite swap_app by lia. apply IH. rewrite swap_length. lia.
Qed.

(** The loop started at draw [k] reads no earlier draw. *)
Lemma shuffle_from_ext {A : Type} (e1 e2 : Env) (i : nat) : forall (k : nat) (l : list A),
  (forall n, (k <= n)%nat -> entropy e1 n = entropy e2 n) ->
  shuffle_from e1 i k l = shuffle_from e2 i k l.
Proof.
  induction i as [|i IH]; intros k l H; simpl; [reflexivity|].
  unfold randomIndex. rewrite (H k (Nat.le_refl k)). apply IH.
  intros n Hn. apply H. lia.
Qed.

Lemma last_position {A : Type} (l : list A) : forall (n : nat) (x : A),
  List.length l = S n -> nth_error l n = Some x -> l = firstn n l ++ [x].
Proof.
  induction l as [|b l IH]; intros [|n] x Hl Hx; simpl in *; try discriminate.
  - destruct l; [|discriminate]. congruence.
  - f_equal. apply IH; [lia|exact Hx].
Qed.

(** Every arrangement of the array is the outcome of some draws. *)
Lemma shuffle_from_reaches {A : Type} (env : Env) (i : nat) :
  forall (p target : list A) (k : nat),
    List.length p = S i -> Permutation target p ->
    exists draws, shuffle_from (withEntropy env draws) i k p = target.
Proof.
  induction i as [|i IH]; intros p target k Hlen Hperm.
  - exists (fun _ => 0). simpl.
    destruct p as [|x [|y p]]; try discriminate.
    apply Permutation_sym, Permutation_length_1_inv in Hperm. congruence.
  - assert (Htl : List.length target = S (S i))
      by (rewrite (Permutation_length Hperm); exact Hlen).
    destruct (exists_last (l := target)) as (t & x & ->);
      [intros ->; discriminate|].
    assert (Hx : In x p).
    { apply (Permutation_in x Hperm). apply in_or_app. right. left. reflexivity. }
    apply In_nth_error in Hx as [j Hj].
    assert (Hjl : (j < List.length p)%nat) by (apply nth_error_Some; congruence).
    pose proof (swap_nth_error p (S i) j x ltac:(lia) Hj) as Hlast.
    pose proof (last_position (swap (S i) j p) (S i) x
                  ltac:(rewrite swap_length; exact Hlen) Hlast) as Hsplit.
    set (p' := firstn (S i) (swap (S i) j p)) in *.
    assert (Hp' : Permutation t p').
    { apply (Permutation_app_inv_r [x]).
      apply Permutation_trans with p; [exact Hperm|].
      rewrite <- Hsplit. apply Permutation_sym, swap_perm. }
    assert (Hlen' : List.length p' = S i).
    { unfold p'. rewrite length_firstn, swap_length. lia. }
    destruct (IH p' t (S k) Hlen' Hp') as [draws' Hrun].
    exists (fun n => if (n =? k)%nat then Z.of_nat j else draws' n).
    simpl. unfold randomIndex at 1. cbn [entropy withEntropy]. rewrite Nat.eqb_refl.
    replace (Z.to_nat (Z.of_nat j mod (Z.of_nat (S i) + 1))) with j
      by (rewrite Z.mod_small by lia; lia).
    rewrite Hsplit, shuffle_from_app by lia. f_equal. rewrite <- Hrun.
    apply shuffle_from_ext. intros n Hn. cbn [entropy withEntropy].
    destruct (Nat.eqb_spec n k); [lia|reflexivity].
Qed.

Lemma shuffle_reaches {A : Type} (env : Env) (l order : list A) :
  Permutation order l -> exists draws, shuffle (withEntropy env draws) l = order.
Proof.
  intros H. unfold shuffle. destruct l as [|x l].
  - apply Permutation_sym, Permutation_nil in H. subst. exists (fun _ => 0). reflexivity.
  - apply shuffle_from_reaches; [|exact H]. simpl. lia.
Qed.

Lemma scoreNotes_withEntropy (env : Env) (draws : nat -> Z)
    (allNotes : list NoteWithDetails) : forall k,
  scoreNotes (withEntropy env draws) k allNotes = scoreNotes env k allNotes.
Proof.
  induction allNotes as [|n rest IH]; intros k; simpl; [reflexivity|].
  f_equal. apply IH.
Qed.

(** The score of each note, on the readings of [Date.now()] the call
    takes for it. *)
Lemma scoreNotes_readings (env : Env) (allNotes : list NoteWithDetails) : forall k,
  Forall (fun s => exists r,
            noteScore s =
            scoreFormula (hasImages (note s))
                         ((Date_now env r - createdAt (note s)) / 86400000)
                         (Z.of_nat (List.length (content (note s))))
                         (match lastShownInReminisce (note s) with
                          | None => 9999
                          | Some t => if t =? 0 then 9999
                                      else (Date_now env (S r) - t) / 86400000
                          end)
                         (hasRecallScript (note s)))
         (scoreNotes env k allNotes).
Proof.
  induction allNotes as [|n rest IH]; intros k; simpl; constructor.
  - exists k. cbn [note noteScore]. rewrite reminisceScore_formula. reflexivity.
  - apply IH.
Qed.

(** C6.  With more notes than requested, [selectReminisceNotes] scores
    every note by the specification's formula, with the age and the
    days since the note was shown counted in whole days from readings of
    [Date.now()] (9999 days for a note never shown); it ranks the notes
    by descending score, selects the first [count], so that no note
    left out scores above a selected one, and returns the selected
    notes shuffled: in the order the draws of [Math.random] decide, and
    every order of them is the outcome of some draws.  The two example
    notes score 20065 and -99, and of the two the first is selected. *)
Theorem reminisce_selection (env : Env) (count : Z) (allNotes : list NoteWithDetails) :
  getAllNotes env = Return allNotes ->
  0 <= count ->
  count < Z.of_nat (List.length allNotes) ->
  let scored := scoreNotes env 0 allNotes in
  let ranked := Array_sort byNoteScoreDescending scored in
  let selected := firstn (Z.to_nat count) ranked in
  let rest := skipn (Z.to_nat count) ranked in
  map note scored = allNotes /\
  Forall (fun s => exists r,
            noteScore s =
            scoreFormula (hasImages (note s))
                         ((Date_now env r - createdAt (note s)) / 86400000)
                         (Z.of_nat (List.length (content (note s))))
                         (match lastShownInReminisce (note s) with
                          | None => 9999
                          | Some t => if t =? 0 then 9999
                                      else (Date_now env (S r) - t) / 86400000
                          end)
                         (hasRecallScript (note s))) scored /\
  (forall now, (forall r, Date_now env r = now) ->
     Forall (fun s =>
               noteScore s =
               scoreFormula (hasImages (note s))
                            ((now - createdAt (note s)) / 86400000)
                            (Z.of_nat (List.length (content (note s))))
                            (match lastShownInReminisce (note s) with
                             | None => 9999
                             | Some t => if t =? 0 then 9999 else (now - t) / 86400000
                             end)
                            (hasRecallScript (note s))) scored) /\
  (forall n now, neverShown n = true -> daysSinceLastShown now n = 9999) /\
  Permutation ranked scored /\
  StronglySorted (scoresBelow noteScore) ranked /\
  Z.of_nat (List.length selected) = count /\
  (forall a b, In a selected -> In b rest -> (noteScore b <=? noteScore a)%float = true) /\
  (exists result,
     selectReminisceNotes env count = Return result /\
     result = shuffle env (map note selected) /\
     Permutation result (map note selected)) /\
  (forall order, Permutation order (map note selected) ->
     exists draws, selectReminisceNotes (withEntropy env draws) count = Return order) /\
  (forall nowAge nowShown n c script,
     images n <> [] -> (nowAge - createdAt n) / 86400000 = 10 ->
     List.length (content n) = 200%nat -> lastShownInReminisce n = None ->
     recallScript n = Some (c :: script) ->
     reminisceScore nowAge nowShown n = 20065%float) /\
  (forall nowAge nowShown n t,
     images n = [] -> (nowAge - createdAt n) / 86400000 = 1 ->
     List.length (content n) = 50%nat ->
     lastShownInReminisce n = Some t -> t <> 0 -> (nowShown - t) / 86400000 = 0 ->
     recallScript n = None ->
     reminisceScore nowAge nowShown n = (-99)%float) /\
  (map noteScore (scoreNotes reminisceEnv 0 [noteB; noteA]) = [-99; 20065]%float /\
   selectReminisceNotes reminisceEnv 1 = Return [noteA]) /\
  scoreFormula true 10 200 9999 true = 20065%float /\
  scoreFormula false 1 50 0 false = (-99)%float /\
  (scoreFormula false 1 50 0 false <? scoreFormula true 10 200 9999 true)%float = true.
Proof.
  intros Hall H0 Hlt. cbv zeta.
  set (scored := scoreNotes env 0 allNotes).
  set (ranked := Array_sort byNoteScoreDescending scored).
  assert (Hperm : Permutation ranked scored)
    by (apply Array_sort_perm).
  assert (Hsorted : StronglySorted (scoresBelow noteScore) ranked).
  { apply (Array_sort_sorted _ noteScore byNoteScoreDescending).
    - reflexivity.
    - apply scoreNotes_not_nan. }
  assert (Hlen : List.length ranked = List.length allNotes).
  { rewrite (Permutation_length Hperm). unfold scored.
    rewrite <- (scoreNotes_notes env allNotes 0%nat) at 2. rewrite length_map. reflexivity. }
  assert (Hcall : forall e, getAllNotes e = Return allNotes ->
            scoreNotes e 0 allNotes = scored ->
            selectReminisceNotes e count =
            Return (shuffle e (map note (firstn (Z.to_nat count) ranked)))).
  { intros e He Hs. unfold selectReminisceNotes, bind. rewrite He.
    replace (Z.of_nat (List.length allNotes) =? 0) with false
      by (symmetry; apply Z.eqb_neq; lia).
    replace (Z.of_nat (List.length allNotes) <=? count) with false
      by (symmetry; apply Z.leb_gt; lia).
    rewrite Hs, Array_slice0_firstn by exact H0. reflexivity. }
  split; [apply scoreNotes_notes|].
  split; [apply scoreNotes_readings|].
  split.
  { intros now Hnow. eapply Forall_impl; [|apply (scoreNotes_readings env allNotes 0)].
    intros s [r Hr]. rewrite Hr, !Hnow. reflexivity. }
  split.
  { intros n now Hn. unfold neverShown, daysSinceLastShown in *.
    destruct (lastShownInReminisce n) as [t|]; [|reflexivity]. rewrite Hn. reflexivity. }
  split; [exact Hperm|].
  split; [exact Hsorted|].
  split; [rewrite length_firstn; lia|].
  split; [intros a b Ha Hb; apply (StronglySorted_split _ _ _ Hsorted a b Ha Hb)|].
  split.
  { eexists. split; [apply (Hcall env Hall eq_refl)|]. split; [reflexivity|].
    apply shuffle_perm. }
  split.
  { intros order Horder.
    destruct (shuffle_reaches env _ _ Horder) as [draws Hdraws].
    exists draws. rewrite (Hcall (withEntropy env draws)).
    - rewrite Hdraws. reflexivity.
    - exact Hall.
    - apply scoreNotes_withEntropy. }
  split.
  { intros nowAge nowShown n c script Hi Hage Hc Hnever Hscript.
    rewrite reminisceScore_formula.
    unfold ageInDays, daysSinceLastShown, hasImages, hasRecallScript. cbv zeta.
    change MS_PER_DAY with 86400000. rewrite Hage, Hc, Hscript, Hnever.
    destruct (images n); [contradiction|]. vm_compute. reflexivity. }
  split.
  { intros nowAge nowShown n t Hi Hage Hc Hshown Ht Hdays Hscript.
    rewrite reminisceScore_formula.
    unfold ageInDays, daysSinceLastShown, hasImages, hasRecallScript. cbv zeta.
    change MS_PER_DAY with 86400000. rewrite Hi, Hage, Hc, Hscript, Hshown.
    destruct (Z.eqb_spec t 0); [contradiction|]. rewrite Hdays.
    vm_compute. reflexivity. }
  split; [split; vm_compute; reflexivity|].
  split; [vm_compute; reflexivity|].
  split; vm_compute; reflexivity.
Qed.

Lemma reminisce_selection_witness :
  getAllNotes reminisceEnv = Return [noteB; noteA] /\ 0 <= 1 /\ 1 < 2 /\
  selectReminisceNotes reminisceEnv 1 = Return [noteA].
Proof.
  split; [reflexivity|]. split; [lia|]. split; [lia|].
  destruct (reminisce_selection reminisceEnv 1 [noteB; noteA] eq_refl
              ltac:(lia) ltac:(simpl; lia))
    as (_ & _ & _ & _ & _ & _ & _ & _ & (result & Hres & _ & Hperm) & _).
  rewrite Hres. f_equal.
  replace (map note _) with [noteA] in Hperm by (vm_compute; reflexivity).
  apply Permutation_sym, Permutation_length_1_inv in Hperm. exact Hperm.
Defined.

(* ================================================================== *)
(** * Part IX. The debounced schedulers                                *)
(* ================================================================== *)

Lemma firedOf_app (p : Pipeline) (h1 h2 : list Occurrence) :
  firedOf p (h1 ++ h2) = firedOf p h1 ++ firedOf p h2.
Proof. apply flat_map_app. Qed.

Lemma armedOf_app (p : Pipeline) (h1 h2 : list Occurrence) :
  armedOf p (h1 ++ h2) = armedOf p h1 ++ armedOf p h2.
Proof. apply flat_map_app. Qed.

Lemma jobsOf_app (p : Pipeline) (j1 j2 : list Job) :
  jobsOf p (j1 ++ j2) = jobsOf p j1 ++ jobsOf p j2.
Proof. apply filter_app. Qed.

Lemma Pipeline_eqb_refl (p : Pipeline) : Pipeline_eqb p p = true.
Proof. destruct p; reflexivity. Qed.

Lemma jobsOf_loading_same (env : Env) (p : Pipeline) (ids : list Z) :
  jobsOf p (loadingJobs env p ids) = loadingJobs env p ids.
Proof.
  unfold loadingJobs, jobsOf. destruct (ensureReady env p); [|reflexivity].
  induction ids as [|i ids IH]; simpl; [reflexivity|].
  rewrite Pipeline_eqb_refl. f_equal. exact IH.
Qed.

Lemma jobsOf_loading_other (env : Env) (p p' : Pipeline) (ids : list Z) :
  Pipeline_eqb p p' = false -> jobsOf p (loadingJobs env p' ids) = [].
Proof.
  intros H. unfold loadingJobs, jobsOf. destruct (ensureReady env p'); [|reflexivity].
  induction ids as [|i ids IH]; simpl; [reflexivity|]. rewrite H. exact IH.
Qed.

(** ** What a timer callback does *)

Lemma fire_view_same (env : Env) (p : Pipeline) (rt : Runtime) :
  view p (fire env p rt) =
  (idle,
   firedOf p (history rt) ++ [pending (queue p rt)],
   armedOf p (history rt),
   jobsOf p (jobs rt) ++ loadingJobs env p (pending (queue p rt))).
Proof.
  pose proof (jobsOf_loading_same env p (pending (queue p rt))) as HJ.
  unfold view, fire, drain, loadingJobs in *.
  destruct p, (ensureReady env _);
    cbn [queue set_queue observe set_jobs jobs history embeddingsQueue scriptsQueue];
    rewrite ?firedOf_app, ?armedOf_app, ?jobsOf_app; cbn [firedOf armedOf flat_map
      Pipeline_eqb app]; rewrite ?app_nil_r; try reflexivity;
    cbn [queue] in HJ; rewrite ?HJ; reflexivity.
Qed.

Lemma fire_view_other (env : Env) (p p' : Pipeline) (rt : Runtime) :
  Pipeline_eqb p p' = false -> view p (fire env p' rt) = view p rt.
Proof.
  intros H.
  pose proof (jobsOf_loading_other env p p' (pending (queue p' rt)) H) as HJ.
  unfold view, fire, drain, loadingJobs in *.
  destruct p, p'; try discriminate; destruct (ensureReady env _);
    cbn [queue set_queue observe set_jobs jobs history embeddingsQueue scriptsQueue];
    rewrite ?firedOf_app, ?armedOf_app, ?jobsOf_app; cbn [firedOf armedOf flat_map
      Pipeline_eqb app]; rewrite ?app_nil_r; try reflexivity;
    cbn [queue] in HJ; rewrite ?HJ, ?app_nil_r; reflexivity.
Qed.

Lemma fire_clock (env : Env) (p : Pipeline) (rt : Runtime) :
  clock (fire env p rt) = clock rt.
Proof. unfold fire, drain. destruct p, (ensureReady env _); reflexivity. Qed.

Lemma fire_queue_other (env : Env) (p p' : Pipeline) (rt : Runtime) :
  Pipeline_eqb p p' = false -> queue p (fire env p' rt) = queue p rt.
Proof.
  intros H. pose proof (fire_view_other env p p' rt H) as V. unfold view in V.
  inversion V. reflexivity.
Qed.

Lemma isDue_fire_other (env : Env) (p p' : Pipeline) (rt : Runtime) :
  Pipeline_eqb p p' = false -> isDue (fire env p' rt) p = isDue rt p.
Proof.
  intros H. unfold isDue. rewrite fire_queue_other, fire_clock by exact H. reflexivity.
Qed.

(** The timers that are due fire one after the other. *)
Lemma runTimers_order (env : Env) (rt : Runtime) :
  runTimers env rt = fireIfDue env RecallScript (fireIfDue env Embeddings rt) \/
  runTimers env rt = fireIfDue env Embeddings (fireIfDue env RecallScript rt).
Proof.
  unfold runTimers, fireIfDue.
  destruct (isDue rt Embeddings) eqn:DE, (isDue rt RecallScript) eqn:DS;
    rewrite ?isDue_fire_other by reflexivity; rewrite ?DE, ?DS;
    unfold isDue in DE, DS; cbn [queue] in DE, DS;
    destruct (timer (embeddingsQueue rt)) as [de|], (timer (scriptsQueue rt)) as [ds|];
    try discriminate; cbn [andb]; auto.
  destruct (ds <? de); auto.
Qed.

Lemma fireIfDue_view_other (env : Env) (p p' : Pipeline) (rt : Runtime) :
  Pipeline_eqb p p' = false -> view p (fireIfDue env p' rt) = view p rt.
Proof.
  intros H. unfold fireIfDue. destruct (isDue rt p'); [|reflexivity].
  apply fire_view_other, H.
Qed.

Lemma fireIfDue_clock (env : Env) (p : Pipeline) (rt : Runtime) :
  clock (fireIfDue env p rt) = clock rt.
Proof. unfold fireIfDue. destruct (isDue rt p); [apply fire_clock|reflexivity]. Qed.

Lemma isDue_view (p : Pipeline) (rt rt' : Runtime) :
  view p rt = view p rt' -> clock rt = clock rt' -> isDue rt p = isDue rt' p.
Proof.
  intros V C. unfold view in V. inversion V as [[Q F A J]].
  unfold isDue. rewrite Q, C. reflexivity.
Qed.

Lemma fire_view_congr (env : Env) (p : Pipeline) (rt rt' : Runtime) :
  view p rt = view p rt' -> view p (fire env p rt) = view p (fire env p rt').
Proof.
  intros V. rewrite !fire_view_same. unfold view in V. inversion V as [[Q F A J]].
  reflexivity.
Qed.

(** For one pipeline, running the timers is firing its own if due. *)
Lemma runTimers_view (env : Env) (p : Pipeline) (rt : Runtime) :
  view p (runTimers env rt) = view p (fireIfDue env p rt) /\
  clock (runTimers env rt) = clock rt.
Proof.
  assert (Hother : forall p', Pipeline_eqb p p' = false ->
            view p (fireIfDue env p (fireIfDue env p' rt)) = view p (fireIfDue env p rt)).
  { intros p' H. unfold fireIfDue at 1 3.
    rewrite (isDue_view p (fireIfDue env p' rt) rt)
      by (apply fireIfDue_view_other, H || apply fireIfDue_clock).
    destruct (isDue rt p).
    - apply fire_view_congr, fireIfDue_view_other, H.
    - apply fireIfDue_view_other, H. }
  destruct (runTimers_order env rt) as [-> | ->]; rewrite !fireIfDue_clock;
    (split; [|reflexivity]); destruct p.
  - rewrite fireIfDue_view_other by reflexivity. reflexivity.
  - apply Hother. reflexivity.
  - apply Hother. reflexivity.
  - rewrite fireIfDue_view_other by reflexivity. reflexivity.
Qed.

(** ** What the actions of a burst do to one pipeline *)

Lemma callUpdate_view (p : Pipeline) (noteId : Z) (rt : Runtime) :
  clock (callUpdate p noteId rt) = clock rt /\
  view p (callUpdate p noteId rt) =
  (schedule (clock rt) noteId (queue p rt),
   firedOf p (history rt),
   armedOf p (history rt) ++
     match timer (queue p rt) with
     | Some _ => []
     | None => [clock rt + DEBOUNCE_MS]
     end,
   jobsOf p (jobs rt)).
Proof.
  unfold callUpdate, view.
  destruct p; cbn [queue]; destruct (timer _); cbn [set_queue observe clock queue history
    jobs embeddingsQueue scriptsQueue]; rewrite ?firedOf_app, ?armedOf_app;
    cbn [firedOf armedOf flat_map Pipeline_eqb app]; rewrite ?app_nil_r; auto.
Qed.

Lemma step_callOf (env : Env) (p : Pipeline) (noteId : Z) (rt : Runtime) :
  step env rt (callOf p noteId) = callUpdate p noteId rt.
Proof. destruct p; reflexivity. Qed.

Lemma step_Elapse_view (env : Env) (p : Pipeline) (ms : Z) (rt : Runtime) :
  0 <= ms ->
  clock (step env rt (Elapse ms)) = clock rt + ms /\
  view p (step env rt (Elapse ms)) =
  match timer (queue p rt) with
  | Some due =>
      if due <=? clock rt + ms
      then (idle,
            firedOf p (history rt) ++ [pending (queue p rt)],
            armedOf p (history rt),
            jobsOf p (jobs rt) ++ loadingJobs env p (pending (queue p rt)))
      else view p rt
  | None => view p rt
  end.
Proof.
  intros Hms. cbn [step]. rewrite Z.max_l by exact Hms.
  set (rt1 := {| clock := clock rt + ms; embeddingsQueue := embeddingsQueue rt;
                 scriptsQueue := scriptsQueue rt; jobs := jobs rt;
                 history := history rt |}).
  assert (V1 : view p rt1 = view p rt) by (destruct p; reflexivity).
  assert (Q1 : queue p rt1 = queue p rt) by (destruct p; reflexivity).
  destruct (runTimers_view env p rt1) as [V C]. rewrite V, C. split; [reflexivity|].
  unfold fireIfDue, isDue. rewrite Q1. cbn [clock rt1].
  destruct (timer (queue p rt)) as [due|]; [|exact V1].
  destruct (due <=? clock rt + ms); [|exact V1].
  rewrite fire_view_same, Q1. unfold view in V1. inversion V1 as [[Q F A J]].
  reflexivity.
Qed.

(** ** A burst of calls *)

Lemma run_app (env : Env) (rt : Runtime) (l1 l2 : list Action) :
  run env rt (l1 ++ l2) = run env (run env rt l1) l2.
Proof. apply fold_left_app. Qed.

Lemma Set_add_present (x : Z) : Set_add x [x] = [x].
Proof. unfold Set_add. cbn [existsb]. rewrite Z.eqb_refl. reflexivity. Qed.

Lemma view_queue (p : Pipeline) (a b : Runtime) :
  view p a = view p b -> queue p a = queue p b.
Proof. unfold view. intros V. inversion V. reflexivity. Qed.

Lemma total_nonneg (pauses : list Z) :
  Forall (fun ms => 0 <= ms) pauses -> 0 <= total pauses.
Proof.
  induction 1 as [|ms pauses Hms H IH]; cbn [total fold_right]; [lia|].
  fold (total pauses). lia.
Qed.

(** While the timer of [p] is armed for [noteId] and not yet due, pauses
    and further calls for [noteId] change nothing for [p] but the time. *)
Lemma burst_view (env : Env) (p : Pipeline) (noteId : Z) (pauses : list Z) :
  forall (rt : Runtime) (due : Z),
    Forall (fun ms => 0 <= ms) pauses ->
    queue p rt = {| pending := [noteId]; timer := Some due |} ->
    clock rt + total pauses < due ->
    clock (run env rt (burst p noteId pauses)) = clock rt + total pauses /\
    view p (run env rt (burst p noteId pauses)) = view p rt.
Proof.
  induction pauses as [|ms pauses IH]; intros rt due Hp Hq Hlt.
  - cbn [burst flat_map run fold_left total fold_right]. split; [lia|reflexivity].
  - inversion Hp as [|? ? Hms Hp']; subst.
    pose proof (total_nonneg pauses Hp') as Hnn.
    cbn [total fold_right] in Hlt |- *. fold (total pauses) in Hlt |- *.
    cbn [burst flat_map app run fold_left].
    fold (burst p noteId pauses).
    destruct (step_Elapse_view env p ms rt Hms) as [C1 V1].
    rewrite Hq in V1. cbn [timer] in V1.
    destruct (Z.leb_spec due (clock rt + ms)) as [Hle|_]; [lia|].
    rewrite step_callOf.
    set (rt1 := step env rt (Elapse ms)) in *.
    destruct (callUpdate_view p noteId rt1) as [C2 V2].
    assert (Q1 : queue p rt1 = {| pending := [noteId]; timer := Some due |})
      by (rewrite (view_queue _ _ _ V1); exact Hq).
    rewrite Q1 in V2. unfold schedule in V2. cbn [timer pending] in V2.
    rewrite Set_add_present, app_nil_r in V2.
    assert (V2' : view p (callUpdate p noteId rt1) = view p rt).
    { rewrite V2, <- V1. unfold view. rewrite Q1. reflexivity. }
    set (rt2 := callUpdate p noteId rt1) in *.
    assert (Q2 : queue p rt2 = {| pending := [noteId]; timer := Some due |})
      by (rewrite (view_queue _ _ _ V2'); exact Hq).
    fold (run env rt2 (burst p noteId pauses)).
    destruct (IH rt2 due Hp' Q2) as [C3 V3]; [lia|].
    split; [lia|]. rewrite V3. exact V2'.
Qed.

Lemma firstn_pauses (pauses : list Z) (k : nat) :
  Forall (fun ms => 0 <= ms) pauses ->
  Forall (fun ms => 0 <= ms) (firstn k pauses) /\
  0 <= total (firstn k pauses) <= total pauses.
Proof.
  intros H. revert k. induction H as [|ms l Hms H IH]; intros k.
  - rewrite firstn_nil. split; [constructor|cbn; lia].
  - destruct k as [|k].
    + cbn [firstn total fold_right]. fold (total l).
      pose proof (total_nonneg l H). split; [constructor|lia].
    + destruct (IH k) as [F T]. cbn [firstn total fold_right].
      fold (total l) (total (firstn k l)). split; [constructor; assumption|lia].
Qed.

(** From a fresh runtime the same holds of the whole state. *)
Lemma burst_armedFor (env : Env) (p : Pipeline) (noteId due : Z) (pauses : list Z) :
  forall now : Z,
    Forall (fun ms => 0 <= ms) pauses ->
    now + total pauses < due ->
    run env (armedFor p noteId due now) (burst p noteId pauses) =
    armedFor p noteId due (now + total pauses).
Proof.
  induction pauses as [|ms pauses IH]; intros now Hp Hlt.
  - cbn [burst flat_map run fold_left total fold_right]. rewrite Z.add_0_r. reflexivity.
  - inversion Hp as [|? ? Hms Hp']; subst.
    pose proof (total_nonneg pauses Hp') as Hnn.
    cbn [total fold_right] in Hlt |- *. fold (total pauses) in Hlt |- *.
    cbn [burst flat_map app run fold_left].
    fold (burst p noteId pauses).
    assert (E : step env (step env (armedFor p noteId due now) (Elapse ms))
                  (callOf p noteId) = armedFor p noteId due (now + ms)).
    { rewrite step_callOf. cbn [step]. rewrite Z.max_l by exact Hms.
      unfold armedFor, runTimers, isDue, callUpdate, schedule.
      destruct p; cbn [set_queue queue clock embeddingsQueue scriptsQueue timer
                       pending idle jobs history];
        (destruct (Z.leb_spec due (now + ms)) as [Hle|_]; [lia|]);
        cbn [set_queue queue clock embeddingsQueue scriptsQueue timer
             pending idle jobs history];
        rewrite Set_add_present; reflexivity. }
    rewrite E. fold (run env (armedFor p noteId due (now + ms)) (burst p noteId pauses)).
    rewrite IH by (assumption || lia). f_equal. lia.
Qed.

(** C7. A burst of calls of [updateNoteEmbeddings] (and likewise of
    [updateRecallScript]) for one note id, all within the 300 ms of the
    first call, is coalesced.  A call made while the timer is armed only
    adds the id to the pending set: the timer keeps its due time, nothing
    is started and nothing is recorded.  After the first call and after
    every further call of the burst the pending set is the id alone and
    the one timer armed is due 300 ms after the first call; no timer
    callback has run.  When the 300 ms have elapsed the timer callback has
    run exactly once, it drained exactly the id, once, both the set and the
    timer are cleared, and (the model being ready) one task for the id is
    under way.  From a fresh runtime, with the note present, the whole run
    shows one timer armed, one callback and one call of the pipeline's
    entry point. *)
Theorem debounce_coalesces
    (env : Env) (p : Pipeline) (noteId : Z) (pauses : list Z) (wait : Z)
    (rt : Runtime) :
  queue p rt = idle ->
  Forall (fun ms => 0 <= ms) pauses ->
  total pauses < DEBOUNCE_MS ->
  0 <= wait ->
  DEBOUNCE_MS <= total pauses + wait ->
  let due := clock rt + DEBOUNCE_MS in
  let calls := callOf p noteId :: burst p noteId pauses in
  (forall (rt' : Runtime) (ids : list Z) (due' : Z),
      queue p rt' = {| pending := ids; timer := Some due' |} ->
      queue p (step env rt' (callOf p noteId)) =
        {| pending := Set_add noteId ids; timer := Some due' |} /\
      clock (step env rt' (callOf p noteId)) = clock rt' /\
      jobs (step env rt' (callOf p noteId)) = jobs rt' /\
      history (step env rt' (callOf p noteId)) = history rt') /\
  (forall k : nat,
      view p (run env rt (callOf p noteId :: burst p noteId (firstn k pauses))) =
      ({| pending := [noteId]; timer := Some due |},
       firedOf p (history rt),
       armedOf p (history rt) ++ [due],
       jobsOf p (jobs rt))) /\
  view p (run env rt (calls ++ [Elapse wait])) =
    (idle,
     firedOf p (history rt) ++ [[noteId]],
     armedOf p (history rt) ++ [due],
     jobsOf p (jobs rt) ++ loadingJobs env p [noteId]) /\
  (ensureReady env p = true -> noteFound env noteId = true ->
   history (run env boot (calls ++ [Elapse wait; Complete p noteId])) =
     [Armed p DEBOUNCE_MS; Fired p [noteId]; Started p noteId]).
Proof.
  intros Hidle Hp Hlt Hwait Hdue due calls.
  assert (Hburst : forall l, Forall (fun ms => 0 <= ms) l -> total l < DEBOUNCE_MS ->
            clock (run env rt (callOf p noteId :: burst p noteId l)) = clock rt + total l /\
            view p (run env rt (callOf p noteId :: burst p noteId l)) =
            ({| pending := [noteId]; timer := Some due |},
             firedOf p (history rt), armedOf p (history rt) ++ [due],
             jobsOf p (jobs rt))).
  { intros l Hl Htl. cbn [run fold_left]. rewrite step_callOf.
    destruct (callUpdate_view p noteId rt) as [C0 V0].
    rewrite Hidle in V0. unfold schedule in V0. cbn [timer pending idle] in V0.
    change (Set_add noteId []) with [noteId] in V0.
    set (rt0 := callUpdate p noteId rt) in *.
    fold (run env rt0 (burst p noteId l)).
    destruct (burst_view env p noteId l rt0 due Hl) as [C V].
    - exact (f_equal (fun v => fst (fst (fst v))) V0).
    - rewrite C0. unfold due. lia.
    - rewrite C, C0, V. split; [reflexivity|exact V0]. }
  split; [|split; [|split]].
  - intros rt' ids due' Hq. rewrite step_callOf. unfold callUpdate, schedule.
    rewrite Hq. cbn [timer pending].
    destruct p; cbn [set_queue queue clock jobs history]; auto.
  - intros k. destruct (firstn_pauses pauses k Hp) as [F T].
    apply Hburst; [exact F|lia].
  - unfold calls. rewrite run_app.
    change (run env ?r [Elapse wait]) with (step env r (Elapse wait)).
    destruct (Hburst pauses Hp Hlt) as [C V].
    set (rt1 := run env rt (callOf p noteId :: burst p noteId pauses)) in *.
    destruct (step_Elapse_view env p wait rt1 Hwait) as [_ V1].
    rewrite V1. unfold view in V. inversion V as [[Q F A J]].
    rewrite Q. cbn [timer pending].
    destruct (Z.leb_spec due (clock rt1 + wait)) as [_|Hgt]; [reflexivity|].
    unfold due in Hgt. lia.
  - intros Hready Hfound. unfold calls.
    change (callOf p noteId :: burst p noteId pauses)
      with ([callOf p noteId] ++ burst p noteId pauses).
    rewrite !run_app.
    change (run env boot [callOf p noteId]) with (step env boot (callOf p noteId)).
    rewrite step_callOf.
    assert (E0 : callUpdate p noteId boot = armedFor p noteId DEBOUNCE_MS 0)
      by (destruct p; reflexivity).
    rewrite E0, burst_armedFor by (assumption || lia).
    pose proof (total_nonneg pauses Hp) as Hnn.
    cbn [run fold_left step]. rewrite Z.max_l by exact Hwait.
    unfold armedFor, runTimers, isDue, fire, drain.
    destruct p; cbn [set_queue queue clock embeddingsQueue scriptsQueue timer
                     pending idle jobs history observe];
      (destruct (Z.leb_spec DEBOUNCE_MS (0 + total pauses + wait)) as [_|Hgt]; [|lia]);
      cbn [set_queue queue clock embeddingsQueue scriptsQueue timer
           pending idle jobs history observe];
      rewrite Hready;
      cbn [set_jobs observe jobs history app map advance job_pipeline job_noteId
           job_phase job_then_script Pipeline_eqb andb];
      rewrite Z.eqb_refl, Hfound, Hready; reflexivity.
Qed.

Lemma debounce_coalesces_witness :
  history (run sampleEnv boot
             [UpdateNoteEmbeddings 7; Elapse 100; UpdateNoteEmbeddings 7;
              Elapse 100; UpdateNoteEmbeddings 7; Elapse 100;
              Complete Embeddings 7]) =
  [Armed Embeddings 300; Fired Embeddings [7]; Started Embeddings 7].
Proof.
  refine (proj2 (proj2 (proj2
    (debounce_coalesces sampleEnv Embeddings 7 [100; 100] 100 boot
       eq_refl _ _ _ _))) eq_refl eq_refl).
  - repeat constructor; discriminate.
  - reflexivity.
  - discriminate.
  - discriminate.
Defined.

(* ================================================================== *)
(** * Part X. The order of the two pipelines                           *)
(* ================================================================== *)

Section UpdateNote.
Variable env : Env.
Variable noteId : Z.
Hypothesis embeddingsReady : isEmbeddingReady env = true.
Hypothesis recallReady : isRecallReady env = true.
Hypothesis found : noteFound env noteId = true.

Lemma step_UpdateNote_boot : step env boot (UpdateNote noteId) = bothArmed noteId.
Proof. reflexivity. Qed.

Lemma step_Elapse_bothArmed : step env (bothArmed noteId) (Elapse DEBOUNCE_MS) = bothFired noteId.
Proof.
  cbn [step bothArmed clock embeddingsQueue scriptsQueue jobs history].
  unfold runTimers, isDue, fire, drain.
  cbn [queue set_queue observe clock embeddingsQueue scriptsQueue jobs history
       timer pending ensureReady].
  change (DEBOUNCE_MS <=? 0 + Z.max DEBOUNCE_MS 0) with true.
  change (DEBOUNCE_MS <? DEBOUNCE_MS) with false.
  cbn [andb queue set_queue observe clock embeddingsQueue scriptsQueue jobs history
       timer pending ensureReady].
  rewrite embeddingsReady.
  cbn [set_jobs queue set_queue observe clock embeddingsQueue scriptsQueue jobs
       history timer pending ensureReady].
  rewrite recallReady. reflexivity.
Qed.

Lemma step_Complete_bothFired :
  step env (bothFired noteId) (Complete Embeddings noteId) = embeddingsRunning noteId.
Proof.
  cbn [step bothFired jobs advance job job_pipeline job_noteId job_phase
       job_then_script Pipeline_eqb andb].
  rewrite Z.eqb_refl, found. cbn [ensureReady]. rewrite embeddingsReady.
  reflexivity.
Qed.

Lemma step_Complete_embeddingsRunning :
  step env (embeddingsRunning noteId) (Complete RecallScript noteId) = bothRunning noteId.
Proof.
  cbn [step embeddingsRunning jobs advance job job_pipeline job_noteId job_phase
       job_then_script Pipeline_eqb andb].
  rewrite Z.eqb_refl, found. cbn [ensureReady]. rewrite recallReady.
  reflexivity.
Qed.

Lemma run_updateNote :
  run env boot [UpdateNote noteId; Elapse DEBOUNCE_MS;
                Complete Embeddings noteId; Complete RecallScript noteId]
  = bothRunning noteId.
Proof.
  cbn [run fold_left].
  rewrite step_UpdateNote_boot, step_Elapse_bothArmed, step_Complete_bothFired.
  apply step_Complete_embeddingsRunning.
Qed.

Lemma run_createNote :
  history (run env boot [CreateNote noteId; Complete Embeddings noteId]) =
  [Started Embeddings noteId; Settled Embeddings noteId; Started RecallScript noteId].
Proof.
  cbn [run fold_left step]. unfold invoke. cbn [ensureReady].
  rewrite embeddingsReady.
  cbn [observe set_jobs jobs history boot app advance job_pipeline job_noteId
       job_phase job_then_script Pipeline_eqb andb clock embeddingsQueue
       scriptsQueue].
  rewrite Z.eqb_refl. cbn [observe set_jobs jobs history app ensureReady].
  rewrite recallReady. reflexivity.
Qed.

End UpdateNote.

(** C9. After [createNote] the recall-script pipeline of the note is
    started when the embedding pipeline has settled.  After [updateNote]
    it is not: [updateNoteEmbeddings] only arms its timer, so the promise
    it returns is resolved at once, [updateRecallScript] arms its own
    timer at the same instant, both callbacks run 300 ms later, and the
    recall-script pipeline of the note is started while its embedding
    pipeline is still running. *)
Theorem updateNote_pipelines_overlap (env : Env) (noteId : Z) :
  ensureReady env Embeddings = true ->
  ensureReady env RecallScript = true ->
  noteFound env noteId = true ->
  let created := run env boot [CreateNote noteId; Complete Embeddings noteId] in
  let updated := run env boot [UpdateNote noteId; Elapse DEBOUNCE_MS;
                               Complete Embeddings noteId;
                               Complete RecallScript noteId] in
  history created =
    [Started Embeddings noteId; Settled Embeddings noteId;
     Started RecallScript noteId] /\
  history updated =
    [Armed Embeddings DEBOUNCE_MS; Armed RecallScript DEBOUNCE_MS;
     Fired Embeddings [noteId]; Fired RecallScript [noteId];
     Started Embeddings noteId; Started RecallScript noteId] /\
  jobs updated =
    [{| job_pipeline := Embeddings; job_noteId := noteId;
        job_phase := Running; job_then_script := false |};
     {| job_pipeline := RecallScript; job_noteId := noteId;
        job_phase := Running; job_then_script := false |}].
Proof.
  intros HE HS HF. cbn [ensureReady] in HE, HS. cbv zeta.
  rewrite (run_updateNote env noteId HE HS HF).
  split; [|split].
  - apply run_createNote; assumption.
  - reflexivity.
  - reflexivity.
Qed.

Lemma updateNote_pipelines_overlap_witness :
  history (run sampleEnv boot [UpdateNote 7; Elapse 300; Complete Embeddings 7;
                               Complete RecallScript 7]) =
  [Armed Embeddings 300; Armed RecallScript 300;
   Fired Embeddings [7]; Fired RecallScript [7];
   Started Embeddings 7; Started RecallScript 7].
Proof.
  exact (proj1 (proj2
    (updateNote_pipelines_overlap sampleEnv 7 eq_refl eq_refl eq_refl))).
Defined.

(* ================================================================== *)
(** * Part XI. What the retrieval engine returns                       *)
(* ================================================================== *)

Lemma Array_slice0_prefix {A : Type} (l : list A) (end_ : Z) :
  exists n, Array_slice0 l end_ = firstn n l.
Proof. unfold Array_slice0. eexists. reflexivity. Qed.

Lemma filterMatches_incl (l : list (Z * Match)) (e : Z * Match) :
  In e (filterMatches l) -> In e l.
Proof.
  destruct l as [|top rest]; [intros []|].
  rewrite filterMatches_cons. intros [<-|H]; [left; reflexivity|].
  right. apply filter_In in H. apply H.
Qed.

Lemma NoDup_map_filter {A B : Type} (g : A -> B) (f : A -> bool) (l : list A) :
  NoDup (map g l) -> NoDup (map g (filter f l)).
Proof.
  induction l as [|x l IH]; cbn [map filter]; intros H; [constructor|].
  inversion H as [|? ? Hx Hl]; subst.
  destruct (f x); cbn [map]; [|apply IH, Hl].
  constructor; [|apply IH, Hl].
  intros Hin. apply Hx. apply in_map_iff in Hin as (y & <- & Hy).
  apply in_map, (proj1 (filter_In f y l) Hy).
Qed.

Lemma NoDup_map_firstn {A B : Type} (g : A -> B) (n : nat) (l : list A) :
  NoDup (map g l) -> NoDup (map g (firstn n l)).
Proof.
  revert n. induction l as [|x l IH]; intros n H.
  - rewrite firstn_nil. constructor.
  - destruct n as [|n]; [constructor|]. cbn [firstn map].
    inversion H as [|? ? Hx Hl]; subst. constructor; [|apply IH, Hl].
    intros Hin. apply Hx. apply in_map_iff in Hin as (y & <- & Hy).
    apply in_map, (firstn_incl _ _ _ Hy).
Qed.

Lemma filterMatches_NoDup (l : list (Z * Match)) :
  NoDup (map fst l) -> NoDup (map fst (filterMatches l)).
Proof.
  destruct l as [|top rest]; [intros _; constructor|].
  rewrite filterMatches_cons. cbn [map]. intros H.
  inversion H as [|? ? Hx Hl]; subst. constructor.
  - intros Hin. apply Hx. apply in_map_iff in Hin as (y & <- & Hy).
    apply in_map, (proj1 (filter_In _ y rest) Hy).
  - apply NoDup_map_filter, Hl.
Qed.

(** What holds of [finalMatches], whatever [topK]. *)
Lemma finalMatches_facts (bo : ByteOrder) (q : Float32Array)
    (noteRows imageRows : list EmbeddingRow) (topK : Z) :
  let final := finalMatches bo q noteRows imageRows topK in
  NoDup (map fst final) /\
  StronglySorted (scoresBelow (fun e : Z * Match => score (snd e))) final /\
  Forall (fun e : Z * Match => (SIMILARITY_THRESHOLD <=? score (snd e))%float = true) final /\
  (0 <= topK -> Z.of_nat (List.length final) <= topK).
Proof.
  cbv zeta. unfold finalMatches, rankMatches. rewrite collectMatches_collect.
  set (offered := candidates bo q noteRows imageRows).
  destruct (collect_best_per_note offered [] [] best_per_note_nil) as (Hnd & Hin & _).
  cbn [app] in Hin.
  pose proof (Array_sort_perm _ byScoreDescending (collect offered [])) as Hperm.
  fold (sortMatches (collect offered [])) in Hperm.
  assert (Hsorted : StronglySorted (scoresBelow (fun e : Z * Match => score (snd e)))
                      (sortMatches (collect offered []))).
  { apply (Array_sort_sorted _ (fun e : Z * Match => score (snd e)) byScoreDescending).
    - reflexivity.
    - apply collect_not_nan. }
  assert (Hlen : 0 <= topK ->
            Z.of_nat (List.length
                        (Array_slice0 (filterMatches (sortMatches (collect offered [])))
                           topK)) <= topK).
  { intros Hk. rewrite Array_slice0_firstn, length_firstn by exact Hk. lia. }
  destruct (Array_slice0_prefix (filterMatches (sortMatches (collect offered []))) topK)
    as (n & E). rewrite E in *. clear E.
  split; [|split; [|split]].
  - apply NoDup_map_firstn, filterMatches_NoDup.
    apply (Permutation_NoDup (l := map fst (collect offered []))); [|exact Hnd].
    apply Permutation_map, Permutation_sym, Hperm.
  - apply StronglySorted_firstn, filterMatches_sorted, Hsorted.
  - apply Forall_forall. intros [k c] He.
    apply firstn_incl, filterMatches_incl in He.
    apply (Permutation_in _ Hperm) in He.
    apply (Hin k c He).
  - exact Hlen.
Qed.

Lemma hydrated_cons (env : Env) (entry : Z * Match) (final : list (Z * Match)) :
  hydrated env (entry :: final) =
  match getNoteById env (fst entry) with
  | Return (Some n) => retrievedNote n (snd entry) :: hydrated env final
  | _ => hydrated env final
  end.
Proof.
  unfold hydrated. cbn [flat_map].
  destruct (getNoteById env (fst entry)) as [[n|]|e]; reflexivity.
Qed.

(** Every returned note is the hydration of a final match. *)
Lemma hydrated_In (env : Env) (final : list (Z * Match)) (r : RetrievedNote) :
  In r (hydrated env final) ->
  exists entry n, In entry final /\ getNoteById env (fst entry) = Return (Some n) /\
                  r = retrievedNote n (snd entry).
Proof.
  induction final as [|entry final IH]; [intros []|].
  rewrite hydrated_cons.
  destruct (getNoteById env (fst entry)) as [[n|]|e] eqn:E.
  - intros [<-|H].
    + exists entry, n. split; [left; reflexivity|]. split; [exact E|reflexivity].
    + destruct (IH H) as (entry' & n' & H1 & H2). exists entry', n'.
      split; [right; exact H1|exact H2].
  - intros H. destruct (IH H) as (entry' & n' & H1 & H2). exists entry', n'.
    split; [right; exact H1|exact H2].
  - intros H. destruct (IH H) as (entry' & n' & H1 & H2). exists entry', n'.
    split; [right; exact H1|exact H2].
Qed.

Lemma hydrated_length (env : Env) (final : list (Z * Match)) :
  (List.length (hydrated env final) <= List.length final)%nat.
Proof.
  induction final as [|entry final IH]; [apply Nat.le_refl|].
  rewrite hydrated_cons. cbn [List.length].
  destruct (getNoteById env (fst entry)) as [[n|]|e]; cbn [List.length]; lia.
Qed.

Lemma hydrated_sorted (env : Env) (final : list (Z * Match)) :
  StronglySorted (scoresBelow (fun e : Z * Match => score (snd e))) final ->
  StronglySorted (scoresBelow similarityScore) (hydrated env final).
Proof.
  induction 1 as [|entry final Hs IH Hall]; [constructor|].
  rewrite hydrated_cons.
  destruct (getNoteById env (fst entry)) as [[n|]|e]; try exact IH.
  constructor; [exact IH|].
  apply Forall_forall. intros r Hr.
  destruct (hydrated_In env final r Hr) as (entry' & n' & Hin & _ & ->).
  rewrite Forall_forall in Hall. exact (Hall entry' Hin).
Qed.

(** X1.  Whatever the stored rows, the query and the store's health,
    [retrieveRelevantNotes] called with a [topK] that is not negative
    returns at most [topK] notes, each with a similarity score of at
    least 0.5 (so none is NaN), in descending order of score. *)
Theorem retrieved_notes_bounded (env : Env) (d : Database) (q : Float32Array) (topK : Z) :
  0 <= topK ->
  exists notes,
    retrieveRelevantNotes env d q topK = Return notes /\
    Z.of_nat (List.length notes) <= topK /\
    Forall (fun r => (SIMILARITY_THRESHOLD <=? similarityScore r)%float = true) notes /\
    StronglySorted (scoresBelow similarityScore) notes.
Proof.
  intros Hk.
  destruct (dbInitialized env) eqn:Hdb;
    [destruct (execFails env SelectCompletedNoteEmbeddings) eqn:Hn;
     [|destruct (execFails env SelectCompletedImageEmbeddings) eqn:Hi]|].
  - exists []. rewrite retrieveRelevantNotes_failed by auto.
    repeat split; try constructor. cbn. exact Hk.
  - exists []. rewrite retrieveRelevantNotes_failed by auto.
    repeat split; try constructor. cbn. exact Hk.
  - rewrite (retrieveRelevantNotes_ok env d q topK Hdb Hn Hi).
    destruct (finalMatches_facts (nativeOrder env) q (completedNoteEmbeddings d)
                (completedImageEmbeddings d) topK) as (_ & Hs & Hf & Hl).
    eexists. split; [reflexivity|]. split; [|split].
    + pose proof (hydrated_length env
                    (finalMatches (nativeOrder env) q (completedNoteEmbeddings d)
                       (completedImageEmbeddings d) topK)).
      specialize (Hl Hk). lia.
    + apply Forall_forall. intros r Hr.
      destruct (hydrated_In env _ r Hr) as (entry & n & Hin & _ & ->).
      rewrite Forall_forall in Hf. exact (Hf entry Hin).
    + apply hydrated_sorted, Hs.
  - exists []. rewrite retrieveRelevantNotes_failed by auto.
    repeat split; try constructor. cbn. exact Hk.
Qed.

Lemma retrieved_notes_bounded_witness :
  exists notes,
    retrieveRelevantNotes sampleEnv sampleDatabase sampleQuery 2 = Return notes /\
    Z.of_nat (List.length notes) <= 2 /\
    Forall (fun r => (SIMILARITY_THRESHOLD <=? similarityScore r)%float = true) notes /\
    StronglySorted (scoresBelow similarityScore) notes.
Proof.
  apply (retrieved_notes_bounded sampleEnv sampleDatabase sampleQuery 2). lia.
Defined.

(** X2.  Where [getNoteById] answers with the note of the id it is asked
    for, [retrieveRelevantNotes] returns no note twice, and every note it
    returns is the one [getNoteById] finds under that id, with its title,
    content, tag names and images. *)
Theorem retrieved_notes_distinct (env : Env) (d : Database) (q : Float32Array) (topK : Z) :
  (forall i n, getNoteById env i = Return (Some n) -> id n = i) ->
  exists notes,
    retrieveRelevantNotes env d q topK = Return notes /\
    NoDup (map r_noteId notes) /\
    forall r, In r notes ->
      exists n, getNoteById env (r_noteId r) = Return (Some n) /\
                r_title r = title n /\ r_content r = content n /\
                r_tags r = map tag_name (tags n) /\
                r_images r = map (fun img => (image_uri img, image_description img))
                                 (images n).
Proof.
  intros Hid.
  destruct (dbInitialized env) eqn:Hdb;
    [destruct (execFails env SelectCompletedNoteEmbeddings) eqn:Hn;
     [|destruct (execFails env SelectCompletedImageEmbeddings) eqn:Hi]|].
  - exists []. rewrite retrieveRelevantNotes_failed by auto.
    split; [reflexivity|]. split; [constructor|intros r []].
  - exists []. rewrite retrieveRelevantNotes_failed by auto.
    split; [reflexivity|]. split; [constructor|intros r []].
  - rewrite (retrieveRelevantNotes_ok env d q topK Hdb Hn Hi).
    destruct (finalMatches_facts (nativeOrder env) q (completedNoteEmbeddings d)
                (completedImageEmbeddings d) topK) as (Hnd & _).
    set (final := finalMatches (nativeOrder env) q (completedNoteEmbeddings d)
                    (completedImageEmbeddings d) topK) in *.
    eexists. split; [reflexivity|]. split.
    + clearbody final. induction final as [|entry final IH]; [constructor|].
      cbn [map] in Hnd. inversion Hnd as [|? ? Hx Hl]; subst.
      rewrite hydrated_cons.
      destruct (getNoteById env (fst entry)) as [[n|]|e] eqn:E; try (apply IH, Hl).
      cbn [map]. constructor; [|apply IH, Hl].
      intros Hin. apply Hx. apply in_map_iff in Hin as (r & Hr & Hin).
      destruct (hydrated_In env final r Hin) as (entry' & n' & Hin' & E' & ->).
      cbn [retrievedNote r_noteId] in Hr.
      rewrite (Hid _ _ E), (Hid _ _ E') in Hr. rewrite <- Hr.
      apply in_map, Hin'.
    + intros r Hr.
      destruct (hydrated_In env final r Hr) as (entry & n & _ & E & ->).
      exists n. cbn [retrievedNote r_noteId r_title r_content r_tags r_images].
      rewrite (Hid _ _ E). repeat split. exact E.
  - exists []. rewrite retrieveRelevantNotes_failed by auto.
    split; [reflexivity|]. split; [constructor|intros r []].
Qed.

Lemma retrieved_notes_distinct_witness :
  exists notes,
    retrieveRelevantNotes sampleEnv sampleDatabase sampleQuery 2 = Return notes /\
    NoDup (map r_noteId notes) /\
    forall r, In r notes ->
      exists n, getNoteById sampleEnv (r_noteId r) = Return (Some n) /\
                r_title r = title n /\ r_content r = content n /\
                r_tags r = map tag_name (tags n) /\
                r_images r = map (fun img => (image_uri img, image_description img))
                                 (images n).
Proof.
  apply (retrieved_notes_distinct sampleEnv sampleDatabase sampleQuery 2).
  intros i n H. injection H as <-. reflexivity.
Defined.

(* ================================================================== *)
(** * Part XII. Cosine similarity                                      *)
(* ================================================================== *)

(** ** NaN is absorbing *)

Lemma add_nan_l (y : float) : (nan + y)%float = nan.
Proof. apply Prim2SF_inj. rewrite FloatAxioms.add_spec. reflexivity. Qed.

Lemma add_nan_r (x : float) : (x + nan)%float = nan.
Proof.
  apply Prim2SF_inj. rewrite FloatAxioms.add_spec.
  change (Prim2SF nan) with S754_nan. destruct (Prim2SF x); reflexivity.
Qed.

Lemma mul_nan_r (x : float) : (x * nan)%float = nan.
Proof.
  apply Prim2SF_inj. rewrite FloatAxioms.mul_spec.
  change (Prim2SF nan) with S754_nan. destruct (Prim2SF x); reflexivity.
Qed.

Lemma div_nan_l (y : float) : (nan / y)%float = nan.
Proof. apply Prim2SF_inj. rewrite FloatAxioms.div_spec. reflexivity. Qed.

Lemma floor_rejects_nan : (SIMILARITY_THRESHOLD <=? nan)%float = false.
Proof. reflexivity. Qed.

(** ** The loop *)

Lemma cosineSimilarity_loop (bo : ByteOrder) (a b : Float32Array) :
  cosineSimilarity bo a b =
  let '(dotProduct, normA, normB) :=
    fold_left (accumulate bo a b) (seq 0 (Z.to_nat (f32_length a))) (0, 0, 0)%float in
  (dotProduct / (PrimFloat.sqrt normA * PrimFloat.sqrt normB))%float.
Proof. reflexivity. Qed.

Lemma accumulate_nan (bo : ByteOrder) (a b : Float32Array) (l : list nat) :
  forall normA normB,
    exists normA' normB',
      fold_left (accumulate bo a b) l (nan, normA, normB) = (nan, normA', normB').
Proof.
  induction l as [|i l IH]; intros normA normB; cbn [fold_left].
  - eauto.
  - unfold accumulate at 2. rewrite add_nan_l. apply IH.
Qed.

(** An element read outside [b] is [undefined]; from there on the dot
    product is NaN. *)
Lemma accumulate_outside (bo : ByteOrder) (a b : Float32Array) (i : nat) (l : list nat)
    (sums : float * float * float) :
  f32_get bo b (Z.of_nat i) = None ->
  exists normA' normB',
    fold_left (accumulate bo a b) (i :: l) sums = (nan, normA', normB').
Proof.
  intros Hi. destruct sums as [[dotProduct normA] normB]. cbn [fold_left].
  unfold accumulate at 2. rewrite Hi. cbn [ToNumber].
  rewrite mul_nan_r, add_nan_r. apply accumulate_nan.
Qed.

(** The similarity is NaN when the query
    is empty and when the other vector is shorter than the query. *)
Lemma cosineSimilarity_undefined (bo : ByteOrder) (a b : Float32Array) :
  f32_length a <= 0 \/ f32_length b < f32_length a ->
  cosineSimilarity bo a b = nan.
Proof.
  intros H. rewrite cosineSimilarity_loop.
  destruct (Z_le_gt_dec (f32_length a) 0) as [Ha|Ha].
  - replace (Z.to_nat (f32_length a)) with 0%nat by lia. reflexivity.
  - destruct H as [H|H]; [lia|].
    set (i := Z.to_nat (f32_length b)).
    assert (Hi : (i < Z.to_nat (f32_length a))%nat) by (unfold i; lia).
    assert (Hget : f32_get bo b (Z.of_nat i) = None).
    { unfold f32_get, i.
      destruct (Z.ltb_spec (Z.of_nat (Z.to_nat (f32_length b))) (f32_length b)) as [L|_];
        [lia|]. rewrite andb_false_r. reflexivity. }
    replace (seq 0 (Z.to_nat (f32_length a)))
      with (seq 0 i ++ i :: seq (S i) (Z.to_nat (f32_length a) - S i)).
    + rewrite fold_left_app.
      destruct (accumulate_outside bo a b i (seq (S i) (Z.to_nat (f32_length a) - S i))
                  (fold_left (accumulate bo a b) (seq 0 i) (0, 0, 0)%float) Hget)
        as (normA' & normB' & ->).
      apply div_nan_l.
    + change (i :: seq (S i) (Z.to_nat (f32_length a) - S i))
        with (seq i (S (Z.to_nat (f32_length a) - S i))).
      rewrite <- seq_app. f_equal. lia.
Qed.

(** ** Matches below the floor *)

Lemma collect_app (l1 l2 : list (Z * Match)) (m : NoteMatches) :
  collect (l1 ++ l2) m = collect l2 (collect l1 m).
Proof. apply fold_left_app. Qed.

Lemma collect_below_floor (cands : list (Z * Match)) (m : NoteMatches) :
  Forall (fun c : Z * Match => (SIMILARITY_THRESHOLD <=? score (snd c))%float = false)
         cands ->
  collect cands m = m.
Proof.
  induction 1 as [|c cands Hc _ IH]; [reflexivity|].
  unfold collect in *. cbn [fold_left]. unfold offer at 2. rewrite Hc. exact IH.
Qed.

Lemma finalMatches_without (bo : ByteOrder) (q : Float32Array)
    (n1 n2 n3 i1 i2 i3 : list EmbeddingRow) (topK : Z) :
  Forall (fun c : Z * Match => (SIMILARITY_THRESHOLD <=? score (snd c))%float = false)
         (candidatesOf bo q text n2) ->
  Forall (fun c : Z * Match => (SIMILARITY_THRESHOLD <=? score (snd c))%float = false)
         (candidatesOf bo q image i2) ->
  finalMatches bo q (n1 ++ n2 ++ n3) (i1 ++ i2 ++ i3) topK =
  finalMatches bo q (n1 ++ n3) (i1 ++ i3) topK.
Proof.
  intros Hn Hi. unfold finalMatches. rewrite !collectMatches_collect. f_equal.
  unfold candidates. rewrite !candidatesOf_app, !collect_app.
  rewrite (collect_below_floor _ _ Hn), (collect_below_floor _ _ Hi). reflexivity.
Qed.

(** The rows a stored vector shorter than the query puts on offer all
    score NaN. *)
Lemma candidatesOf_shorter (bo : ByteOrder) (q : Float32Array) (kind : MatchType)
    (rows : list EmbeddingRow) :
  Forall (fun row => forall e, blobToEmbedding (row_embedding row) = Return e ->
                               f32_length q <= 0 \/ f32_length e < f32_length q) rows ->
  Forall (fun c : Z * Match => (SIMILARITY_THRESHOLD <=? score (snd c))%float = false)
         (candidatesOf bo q kind rows).
Proof.
  induction 1 as [|row rows Hrow _ IH]; [constructor|].
  unfold candidatesOf in *. cbn [flat_map].
  destruct (blobToEmbedding (row_embedding row)) as [e|err]; [|exact IH].
  constructor; [|exact IH]. cbn [snd score].
  rewrite (cosineSimilarity_undefined bo q e (Hrow e eq_refl)). apply floor_rejects_nan.
Qed.

Lemma finalMatches_nothing (bo : ByteOrder) (q : Float32Array) (topK : Z) :
  finalMatches bo q [] [] topK = [].
Proof.
  unfold finalMatches, rankMatches, collectMatches. cbn [fold_left].
  unfold sortMatches, filterMatches, Array_slice0. cbn [Array_sort].
  apply firstn_nil.
Qed.

(** X3.  With an empty query vector every similarity is NaN, nothing
    reaches the floor, and [retrieveRelevantNotes] returns the empty
    list whatever is stored. *)
Theorem empty_query_retrieves_nothing (env : Env) (d : Database) (q : Float32Array)
    (topK : Z) :
  f32_length q <= 0 ->
  (forall b, cosineSimilarity (nativeOrder env) q b = nan) /\
  retrieveRelevantNotes env d q topK = Return [].
Proof.
  intros Hq. split; [intros b; apply cosineSimilarity_undefined; auto|].
  destruct (dbInitialized env) eqn:Hdb;
    [destruct (execFails env SelectCompletedNoteEmbeddings) eqn:Hn;
     [|destruct (execFails env SelectCompletedImageEmbeddings) eqn:Hi]|];
    try (apply retrieveRelevantNotes_failed; solve [auto]).
  rewrite (retrieveRelevantNotes_ok env d q topK Hdb Hn Hi).
  pose proof (finalMatches_without (nativeOrder env) q []
                (completedNoteEmbeddings d) [] [] (completedImageEmbeddings d) [] topK)
    as E.
  cbn [app] in E. rewrite !app_nil_r in E. rewrite E.
  - rewrite finalMatches_nothing. reflexivity.
  - apply candidatesOf_shorter, Forall_forall. auto.
  - apply candidatesOf_shorter, Forall_forall. auto.
Qed.

Lemma empty_query_retrieves_nothing_witness :
  retrieveRelevantNotes sampleEnv sampleDatabase (Float32Array_from LittleEndian []) 2
  = Return [].
Proof.
  apply (empty_query_retrieves_nothing sampleEnv sampleDatabase
           (Float32Array_from LittleEndian []) 2).
  cbn. lia.
Defined.

(** X4.  A stored vector, of a note or of an image, that decodes to
    fewer elements than the query has is read past its end, its
    similarity is NaN, and the call returns what it returns with that
    row deleted. *)
Theorem shorter_embedding_never_matches (env : Env) (d : Database) (q : Float32Array)
    (topK : Z) :
  (forall e, f32_length e < f32_length q ->
             cosineSimilarity (nativeOrder env) q e = nan) /\
  (forall before after bad e,
     note_embeddings d = before ++ bad :: after ->
     blobToEmbedding (ne_embedding bad) = Return e ->
     f32_length e < f32_length q ->
     retrieveRelevantNotes env d q topK =
     retrieveRelevantNotes env (withNoteEmbeddings (before ++ after) d) q topK) /\
  (forall before after bad e,
     image_embeddings d = before ++ bad :: after ->
     blobToEmbedding (ie_embedding bad) = Return e ->
     f32_length e < f32_length q ->
     retrieveRelevantNotes env d q topK =
     retrieveRelevantNotes env (withImageEmbeddings (before ++ after) d) q topK).
Proof.
  assert (Hcases : (dbInitialized env = true /\
                    execFails env SelectCompletedNoteEmbeddings = false /\
                    execFails env SelectCompletedImageEmbeddings = false) \/
                   (dbInitialized env = false \/
                    execFails env SelectCompletedNoteEmbeddings = true \/
                    execFails env SelectCompletedImageEmbeddings = true)).
  { destruct (dbInitialized env), (execFails env SelectCompletedNoteEmbeddings),
      (execFails env SelectCompletedImageEmbeddings); auto. }
  split; [|split].
  - intros e He. apply cosineSimilarity_undefined. auto.
  - intros before after bad e Hrows Hbad Hshort.
    destruct Hcases as [(H1 & H2 & H3)|H];
      [|rewrite !retrieveRelevantNotes_failed by assumption; reflexivity].
    rewrite !retrieveRelevantNotes_ok by assumption. do 2 f_equal.
    destruct d as [ne ie im].
    unfold withNoteEmbeddings.
    cbn [note_embeddings image_embeddings images_table] in *. subst ne.
    change (bad :: after) with ([bad] ++ after).
    rewrite !completedNoteEmbeddings_app.
    change (completedImageEmbeddings
              {| note_embeddings := before ++ [bad] ++ after;
                 image_embeddings := ie; images_table := im |})
      with (completedImageEmbeddings
              {| note_embeddings := before ++ after;
                 image_embeddings := ie; images_table := im |}).
    rewrite <- (app_nil_l (completedImageEmbeddings _)).
    rewrite <- (app_nil_l ([] ++ completedImageEmbeddings _)) at 1.
    apply finalMatches_without; [|constructor].
    apply candidatesOf_shorter.
    unfold completedNoteEmbeddings. cbn [note_embeddings filter].
    destruct (Status_eqb (ne_status bad) completed); cbn [map]; constructor;
      [|constructor].
    cbn [row_embedding]. intros e' He'. rewrite Hbad in He'. injection He' as <-. auto.
  - intros before after bad e Hrows Hbad Hshort.
    destruct Hcases as [(H1 & H2 & H3)|H];
      [|rewrite !retrieveRelevantNotes_failed by assumption; reflexivity].
    rewrite !retrieveRelevantNotes_ok by assumption. do 2 f_equal.
    destruct d as [ne ie im].
    unfold withImageEmbeddings.
    cbn [note_embeddings image_embeddings images_table] in *. subst ie.
    change (bad :: after) with ([bad] ++ after).
    rewrite !completedImageEmbeddings_app.
    change (completedNoteEmbeddings
              {| note_embeddings := ne;
                 image_embeddings := before ++ [bad] ++ after; images_table := im |})
      with (completedNoteEmbeddings
              {| note_embeddings := ne;
                 image_embeddings := before ++ after; images_table := im |}).
    rewrite <- (app_nil_l (completedNoteEmbeddings _)).
    rewrite <- (app_nil_l ([] ++ completedNoteEmbeddings _)) at 1.
    apply finalMatches_without; [constructor|].
    apply candidatesOf_shorter.
    unfold completedImageEmbeddings. cbn [image_embeddings images_table filter].
    destruct (Status_eqb (ie_status bad) completed); cbn [flat_map]; [|constructor].
    rewrite app_nil_r. rewrite Forall_forall. intros row Hrow.
    apply in_map_iff in Hrow. destruct Hrow as (i & <- & _). cbn [row_embedding].
    intros e' He'. rewrite Hbad in He'. injection He' as <-. auto.
Qed.

Lemma shorter_embedding_never_matches_witness :
  retrieveRelevantNotes sampleEnv mixedDatabase longQuery 2 =
  retrieveRelevantNotes sampleEnv
    (withNoteEmbeddings ([sampleRow 1 [1; 0; 0]%float] ++ []) mixedDatabase) longQuery 2.
Proof.
  refine (proj1 (proj2 (shorter_embedding_never_matches sampleEnv mixedDatabase
                          longQuery 2))
            [sampleRow 1 [1; 0; 0]%float] [] (sampleRow 2 [1; 0]%float)
            (Float32Array_from LittleEndian [1; 0]%float) eq_refl eq_refl _).
  cbn. lia.
Defined.

(** ** Symmetry *)

Lemma accumulate_swap (bo : ByteOrder) (a b : Float32Array) (l : list nat) :
  forall dotProduct normA normB,
    fold_left (accumulate bo b a) l (dotProduct, normB, normA) =
    let '(dotProduct', normA', normB') :=
      fold_left (accumulate bo a b) l (dotProduct, normA, normB) in
    (dotProduct', normB', normA').
Proof.
  induction l as [|i l IH]; intros dotProduct normA normB; cbn [fold_left].
  - reflexivity.
  - unfold accumulate at 2 4.
    rewrite (float_mul_comm (ToNumber (f32_get bo b (Z.of_nat i)))
               (ToNumber (f32_get bo a (Z.of_nat i)))).
    apply IH.
Qed.

(** X5.  On two vectors of the same length the similarity does not
    depend on the order of its arguments, bit for bit. *)
Theorem cosineSimilarity_symmetric (bo : ByteOrder) (a b : Float32Array) :
  f32_length a = f32_length b ->
  cosineSimilarity bo a b = cosineSimilarity bo b a.
Proof.
  intros Hlen. rewrite !cosineSimilarity_loop, <- Hlen.
  rewrite (accumulate_swap bo a b).
  destruct (fold_left (accumulate bo a b) (seq 0 (Z.to_nat (f32_length a)))
              (0, 0, 0)%float) as [[dotProduct normA] normB].
  rewrite (float_mul_comm (PrimFloat.sqrt normB)). reflexivity.
Qed.

Lemma cosineSimilarity_symmetric_witness :
  cosineSimilarity LittleEndian sampleQuery (Float32Array_from LittleEndian [3; 1]%float) =
  cosineSimilarity LittleEndian (Float32Array_from LittleEndian [3; 1]%float) sampleQuery.
Proof.
  apply (cosineSimilarity_symmetric LittleEndian sampleQuery
           (Float32Array_from LittleEndian [3; 1]%float)).
  reflexivity.
Defined.

(* ================================================================== *)
(** * Part XIII. What the embedding generator stores                   *)
(* ================================================================== *)

Lemma refresh_rows (env : Env) (noteId : Z) (vector : list float) (h : jsstring)
    (rows : list NoteEmbeddingRow) :
  map (fun r =>
         if ne_noteId r =? noteId
         then {| ne_noteId := ne_noteId r;
                 ne_embedding := BUint8Array (embeddingToBlob (nativeOrder env) vector);
                 ne_embeddingDimensions := Z.of_nat (List.length vector);
                 ne_textHash := h;
                 ne_status := completed;
                 ne_createdAt := Date_now env 0 |}
         else r) rows
  = map (refresh env noteId vector h) rows.
Proof.
  apply map_ext. intros r. unfold refresh, freshRow.
  destruct (ne_noteId r =? noteId) eqn:E; [|reflexivity].
  apply Z.eqb_eq in E. rewrite E. reflexivity.
Qed.

Lemma rowsOf_none (noteId : Z) (rows : list NoteEmbeddingRow) :
  rowsOf noteId rows = [] ->
  existsb (fun r => ne_noteId r =? noteId) rows = false.
Proof.
  unfold rowsOf. induction rows as [|r rows IH]; cbn [filter existsb]; [reflexivity|].
  destruct (ne_noteId r =? noteId); [discriminate|]. exact IH.
Qed.

(** A run that reaches the model and gets a vector from it. *)
Lemma generate_stores (env : Env) (noteId : Z) (w : World) (n : NoteWithDetails)
    (h : jsstring) (embeddingContext : jsstring -> outcome EmbeddingResult)
    (res : EmbeddingResult) (x : float) (v : list float) :
  dbInitialized env = true ->
  getNoteById env noteId = Return (Some n) ->
  hashText env (composedText n) = Return h ->
  execFails env (SelectNoteEmbeddingHash noteId) = false ->
  fingerprintChanged noteId h (note_embeddings (db w)) ->
  getEmbeddingContext env = Some embeddingContext ->
  embeddingContext (composedText n) = Return res ->
  embedding res = Some (x :: v) ->
  let stmt := storingStatement env noteId (x :: v) h
                (rowsOf noteId (note_embeddings (db w))) in
  execFails env stmt = false ->
  generateNoteTextEmbedding env noteId w =
  (Return tt,
   {| db := set_note_embeddings
              (match rowsOf noteId (note_embeddings (db w)) with
               | _ :: _ => map (refresh env noteId (x :: v) h) (note_embeddings (db w))
               | [] => note_embeddings (db w) ++ [freshRow env noteId (x :: v) h]
               end) (db w);
      effects := effects w ++ [Executed (SelectNoteEmbeddingHash noteId);
                               Embedded (composedText n);
                               Executed stmt] |}).
Proof.
  intros Hdb Hnote Hhash Hsel Hdiff Hctx Hres Hvec stmt Hstmt.
  unfold generateNoteTextEmbedding, bindM, try_catchM, lift, getDatabaseInstance.
  rewrite Hdb, Hnote. fold (composedText n). rewrite Hhash.
  unfold selectNoteEmbeddingHash. cbn [record db effects]. rewrite Hsel.
  fold (rowsOf noteId (note_embeddings (db w))).
  assert (Hne : match map ne_textHash (rowsOf noteId (note_embeddings (db w))) with
                | existingHash :: _ => jsstring_eqb existingHash h
                | [] => false
                end = false).
  { unfold fingerprintChanged in Hdiff.
    destruct (rowsOf noteId (note_embeddings (db w))) as [|r0 rest]; [reflexivity|].
    cbn [map]. apply jsstring_eqb_neq. apply Hdiff. reflexivity. }
  rewrite Hne, Hctx. unfold callEmbedding. cbn [record db effects].
  rewrite Hres, Hvec.
  subst stmt. unfold storingStatement in *.
  destruct (rowsOf noteId (note_embeddings (db w))) as [|r0 rest] eqn:Hrows; cbn [map].
  - unfold execute. cbn [record db effects]. rewrite Hstmt.
    cbn [run_statement]. rewrite (rowsOf_none _ _ Hrows).
    cbn [db effects]. rewrite <- !app_assoc. reflexivity.
  - unfold execute. cbn [record db effects]. rewrite Hstmt.
    cbn [run_statement]. rewrite refresh_rows.
    cbn [db effects]. rewrite <- !app_assoc. reflexivity.
Qed.

Lemma freshRow_decodes (env : Env) (noteId : Z) (vector : list float) (h : jsstring) :
  blobToEmbedding (ne_embedding (freshRow env noteId vector h)) =
  Return (Float32Array_from (nativeOrder env) vector).
Proof.
  cbn [freshRow ne_embedding]. rewrite blobToEmbedding_Uint8Array.
  - unfold embeddingToBlob, new_Uint8Array, Float32Array_from.
    cbn [u8_byteOffset u8_byteLength u8_buffer f32_buffer].
    change (0 mod 4 =? 0) with true. cbv iota. do 2 f_equal.
    rewrite (flat_map_length4 _ _ (fun x => word_to_bytes_length (nativeOrder env) _)).
    rewrite Nat2Z.inj_mul. change (Z.of_nat 4) with 4.
    rewrite Z.mul_comm. apply Z.div_mul. discriminate.
  - unfold Uint8Array_wf, embeddingToBlob, new_Uint8Array.
    cbn [u8_byteOffset u8_byteLength u8_buffer]. lia.
Qed.

Lemma rowsOf_app (noteId : Z) (l1 l2 : list NoteEmbeddingRow) :
  rowsOf noteId (l1 ++ l2) = rowsOf noteId l1 ++ rowsOf noteId l2.
Proof. apply filter_app. Qed.

Lemma rowsOf_refresh (env : Env) (noteId : Z) (vector : list float) (h : jsstring)
    (rows : list NoteEmbeddingRow) :
  rowsOf noteId (map (refresh env noteId vector h) rows) =
  map (fun _ => freshRow env noteId vector h) (rowsOf noteId rows).
Proof.
  unfold rowsOf. induction rows as [|r rows IH]; [reflexivity|].
  cbn [map filter].
  destruct (ne_noteId r =? noteId) eqn:E.
  - replace (refresh env noteId vector h r) with (freshRow env noteId vector h)
      by (unfold refresh; rewrite E; reflexivity).
    cbn [freshRow ne_noteId]. rewrite Z.eqb_refl. cbn [map]. f_equal. exact IH.
  - replace (refresh env noteId vector h r) with r
      by (unfold refresh; rewrite E; reflexivity).
    rewrite E. exact IH.
Qed.

Lemma In_completedNoteEmbeddings (d : Database) (r : NoteEmbeddingRow) :
  In r (note_embeddings d) -> ne_status r = completed ->
  In {| row_noteId := ne_noteId r; row_embedding := ne_embedding r |}
     (completedNoteEmbeddings d).
Proof.
  intros Hin Hst. unfold completedNoteEmbeddings.
  apply (in_map (fun r => {| row_noteId := ne_noteId r; row_embedding := ne_embedding r |})).
  apply filter_In. split; [exact Hin|]. rewrite Hst. reflexivity.
Qed.

(** X6.  For a note without a record, a run that gets a vector from
    the model appends one record to [note_embeddings] and changes
    nothing else: the record is completed, carries the fingerprint of the
    composed text and the number of elements of the vector, its blob
    decodes to a [Float32Array] of that many elements, and the retrieval
    SELECT finds it.  The model was called once, with the composed text. *)
Theorem new_embedding_is_stored (env : Env) (noteId : Z) (w : World)
    (n : NoteWithDetails) (h : jsstring)
    (embeddingContext : jsstring -> outcome EmbeddingResult)
    (res : EmbeddingResult) (x : float) (v : list float) :
  dbInitialized env = true ->
  getNoteById env noteId = Return (Some n) ->
  hashText env (composedText n) = Return h ->
  execFails env (SelectNoteEmbeddingHash noteId) = false ->
  rowsOf noteId (note_embeddings (db w)) = [] ->
  getEmbeddingContext env = Some embeddingContext ->
  embeddingContext (composedText n) = Return res ->
  embedding res = Some (x :: v) ->
  execFails env (storingStatement env noteId (x :: v) h []) = false ->
  let stored := freshRow env noteId (x :: v) h in
  exists w' decoded,
    generateNoteTextEmbedding env noteId w = (Return tt, w') /\
    note_embeddings (db w') = note_embeddings (db w) ++ [stored] /\
    image_embeddings (db w') = image_embeddings (db w) /\
    images_table (db w') = images_table (db w) /\
    effects w' = effects w ++ [Executed (SelectNoteEmbeddingHash noteId);
                               Embedded (composedText n);
                               Executed (storingStatement env noteId (x :: v) h [])] /\
    blobToEmbedding (ne_embedding stored) = Return decoded /\
    f32_length decoded = ne_embeddingDimensions stored /\
    In {| row_noteId := noteId; row_embedding := ne_embedding stored |}
       (completedNoteEmbeddings (db w')).
Proof.
  intros Hdb Hnote Hhash Hsel Hnone Hctx Hres Hvec Hins stored.
  assert (Hdiff : fingerprintChanged noteId h (note_embeddings (db w))).
  { intros r Hr. rewrite Hnone in Hr. discriminate. }
  pose proof (generate_stores env noteId w n h embeddingContext res x v
                Hdb Hnote Hhash Hsel Hdiff Hctx Hres Hvec) as Hrun.
  cbv zeta in Hrun. rewrite Hnone in Hrun. specialize (Hrun Hins).
  eexists. exists (Float32Array_from (nativeOrder env) (x :: v)).
  split; [exact Hrun|]. cbn [db effects set_note_embeddings note_embeddings
                             image_embeddings images_table].
  repeat split.
  - apply freshRow_decodes.
  - apply (In_completedNoteEmbeddings
             (set_note_embeddings (note_embeddings (db w) ++ [stored]) (db w)) stored).
    + cbn [set_note_embeddings note_embeddings]. apply in_or_app. right. left. reflexivity.
    + reflexivity.
Qed.

Lemma new_embedding_is_stored_witness :
  exists w',
    generateNoteTextEmbedding sampleEnv 1 emptyWorld = (Return tt, w') /\
    note_embeddings (db w') =
      [freshRow sampleEnv 1 [1; 0]%float (str "sha256:" ++ composedText (sampleNote 1))].
Proof.
  destruct (new_embedding_is_stored sampleEnv 1 emptyWorld (sampleNote 1)
              (str "sha256:" ++ composedText (sampleNote 1))
              (fun _ => Return {| embedding := Some [1; 0]%float |})
              {| embedding := Some [1; 0]%float |} 1%float [0%float]
              eq_refl eq_refl eq_refl eq_refl eq_refl eq_refl eq_refl eq_refl eq_refl)
    as (w' & decoded & H1 & H2 & _).
  exists w'. split; [exact H1|exact H2].
Defined.

(** X7.  For a note whose record carries another fingerprint (or has
    failed before and carries another fingerprint), a run that gets a
    vector from the model rewrites the note's record in place: the number
    of records is unchanged, the records of other notes are untouched,
    and the note's record is completed with the new vector, dimension,
    fingerprint and date. *)
Theorem stale_embedding_is_refreshed (env : Env) (noteId : Z) (w : World)
    (n : NoteWithDetails) (h : jsstring)
    (embeddingContext : jsstring -> outcome EmbeddingResult)
    (res : EmbeddingResult) (x : float) (v : list float)
    (r0 : NoteEmbeddingRow) (others : list NoteEmbeddingRow) :
  dbInitialized env = true ->
  getNoteById env noteId = Return (Some n) ->
  hashText env (composedText n) = Return h ->
  execFails env (SelectNoteEmbeddingHash noteId) = false ->
  rowsOf noteId (note_embeddings (db w)) = r0 :: others ->
  ne_textHash r0 <> h ->
  getEmbeddingContext env = Some embeddingContext ->
  embeddingContext (composedText n) = Return res ->
  embedding res = Some (x :: v) ->
  execFails env (storingStatement env noteId (x :: v) h (r0 :: others)) = false ->
  exists w',
    generateNoteTextEmbedding env noteId w = (Return tt, w') /\
    List.length (note_embeddings (db w')) = List.length (note_embeddings (db w)) /\
    map ne_noteId (note_embeddings (db w')) = map ne_noteId (note_embeddings (db w)) /\
    (forall r, In r (note_embeddings (db w)) -> ne_noteId r <> noteId ->
               In r (note_embeddings (db w'))) /\
    (forall r, In r (note_embeddings (db w')) -> ne_noteId r = noteId ->
               r = freshRow env noteId (x :: v) h) /\
    image_embeddings (db w') = image_embeddings (db w) /\
    images_table (db w') = images_table (db w).
Proof.
  intros Hdb Hnote Hhash Hsel Hrows Hold Hctx Hres Hvec Hupd.
  assert (Hdiff : fingerprintChanged noteId h (note_embeddings (db w))).
  { intros r Hr. rewrite Hrows in Hr. injection Hr as <-. exact Hold. }
  pose proof (generate_stores env noteId w n h embeddingContext res x v
                Hdb Hnote Hhash Hsel Hdiff Hctx Hres Hvec) as Hrun.
  cbv zeta in Hrun. rewrite Hrows in Hrun. specialize (Hrun Hupd).
  eexists. split; [exact Hrun|].
  cbn [db set_note_embeddings note_embeddings image_embeddings images_table].
  split; [apply length_map|]. split.
  { rewrite map_map. apply map_ext. intros r. unfold refresh.
    destruct (ne_noteId r =? noteId) eqn:E; [|reflexivity].
    apply Z.eqb_eq in E. rewrite E. reflexivity. }
  split.
  { intros r Hin Hne. apply in_map_iff. exists r. split; [|exact Hin].
    unfold refresh. apply Z.eqb_neq in Hne. rewrite Hne. reflexivity. }
  split; [|split; reflexivity].
  intros r Hin Hid. apply in_map_iff in Hin as (r' & <- & _).
  unfold refresh in *. destruct (ne_noteId r' =? noteId) eqn:E; [reflexivity|].
  apply Z.eqb_neq in E. contradiction.
Qed.

Lemma stale_embedding_is_refreshed_witness :
  exists w',
    generateNoteTextEmbedding sampleEnv 1 staleWorld = (Return tt, w') /\
    note_embeddings (db w') =
      [freshRow sampleEnv 1 [1; 0]%float (str "sha256:" ++ composedText (sampleNote 1));
       sampleRow 2 [0; 1]%float].
Proof.
  destruct (stale_embedding_is_refreshed sampleEnv 1 staleWorld (sampleNote 1)
              (str "sha256:" ++ composedText (sampleNote 1))
              (fun _ => Return {| embedding := Some [1; 0]%float |})
              {| embedding := Some [1; 0]%float |} 1%float [0%float]
              (mark_failed 1 (sampleRow 1 [0; 1]%float)) []
              eq_refl eq_refl eq_refl eq_refl eq_refl ltac:(discriminate)
              eq_refl eq_refl eq_refl eq_refl)
    as (w' & H1 & _).
  exists w'. split; [exact H1|].
  assert (E : generateNoteTextEmbedding sampleEnv 1 staleWorld =
              (Return tt,
               {| db := {| note_embeddings :=
                             [freshRow sampleEnv 1 [1; 0]%float
                                (str "sha256:" ++ composedText (sampleNote 1));
                              sampleRow 2 [0; 1]%float];
                           image_embeddings := []; images_table := [] |};
                  effects := effects w' |})).
  { rewrite H1. vm_compute in H1. injection H1 as <-. vm_compute. reflexivity. }
  rewrite H1 in E. injection E as ->. reflexivity.
Defined.

(** X8.  A run that stored a vector makes the next run for the same
    note idle: run again on the world it left, with the note unchanged,
    [generateNoteTextEmbedding] only runs its SELECT, finds the
    fingerprint it stored, and neither calls the model nor writes. *)
Theorem second_run_is_idle (env : Env) (noteId : Z) (w : World)
    (n : NoteWithDetails) (h : jsstring)
    (embeddingContext : jsstring -> outcome EmbeddingResult)
    (res : EmbeddingResult) (x : float) (v : list float) :
  dbInitialized env = true ->
  getNoteById env noteId = Return (Some n) ->
  hashText env (composedText n) = Return h ->
  execFails env (SelectNoteEmbeddingHash noteId) = false ->
  fingerprintChanged noteId h (note_embeddings (db w)) ->
  getEmbeddingContext env = Some embeddingContext ->
  embeddingContext (composedText n) = Return res ->
  embedding res = Some (x :: v) ->
  execFails env (storingStatement env noteId (x :: v) h
                   (rowsOf noteId (note_embeddings (db w)))) = false ->
  exists w',
    generateNoteTextEmbedding env noteId w = (Return tt, w') /\
    In (Embedded (composedText n)) (effects w') /\
    generateNoteTextEmbedding env noteId w' =
    (Return tt, {| db := db w';
                   effects := effects w' ++ [Executed (SelectNoteEmbeddingHash noteId)] |}).
Proof.
  intros Hdb Hnote Hhash Hsel Hdiff Hctx Hres Hvec Hst.
  pose proof (generate_stores env noteId w n h embeddingContext res x v
                Hdb Hnote Hhash Hsel Hdiff Hctx Hres Hvec Hst) as Hrun.
  eexists. split; [exact Hrun|]. cbn [db effects]. split.
  { apply in_or_app. right. right. left. reflexivity. }
  unfold generateNoteTextEmbedding, bindM, try_catchM, lift, getDatabaseInstance.
  rewrite Hdb, Hnote. fold (composedText n). rewrite Hhash.
  unfold selectNoteEmbeddingHash. cbn [record db effects]. rewrite Hsel.
  cbn [set_note_embeddings note_embeddings].
  match goal with
  | |- context [filter (fun r => ne_noteId r =? noteId) ?rows] =>
      fold (rowsOf noteId rows)
  end.
  assert (Hfirst : exists rest,
            rowsOf noteId
              (match rowsOf noteId (note_embeddings (db w)) with
               | _ :: _ => map (refresh env noteId (x :: v) h) (note_embeddings (db w))
               | [] => note_embeddings (db w) ++ [freshRow env noteId (x :: v) h]
               end) = freshRow env noteId (x :: v) h :: rest).
  { destruct (rowsOf noteId (note_embeddings (db w))) as [|r0 rest] eqn:Hrows.
    - rewrite rowsOf_app, Hrows. unfold rowsOf. cbn [filter freshRow ne_noteId app].
      rewrite Z.eqb_refl. eauto.
    - rewrite rowsOf_refresh, Hrows. cbn [map]. eauto. }
  destruct Hfirst as (rest & ->). cbn [map freshRow ne_textHash].
  rewrite jsstring_eqb_refl. reflexivity.
Qed.

Lemma second_run_is_idle_witness :
  exists w',
    generateNoteTextEmbedding sampleEnv 1 staleWorld = (Return tt, w') /\
    In (Embedded (composedText (sampleNote 1))) (effects w') /\
    generateNoteTextEmbedding sampleEnv 1 w' =
    (Return tt, {| db := db w';
                   effects := effects w' ++ [Executed (SelectNoteEmbeddingHash 1)] |}).
Proof.
  apply (second_run_is_idle sampleEnv 1 staleWorld (sampleNote 1)
           (str "sha256:" ++ composedText (sampleNote 1))
           (fun _ => Return {| embedding := Some [1; 0]%float |})
           {| embedding := Some [1; 0]%float |} 1%float [0%float]);
    try reflexivity.
  intros r Hr. cbn in Hr. injection Hr as <-. discriminate.
Defined.

(** X9.  [generateNoteTextEmbedding] takes the database handle before
    its [try]: without an initialised database it throws, having done
    nothing.  With one it always returns normally, whatever fails
    inside; and for a note that is not found it does nothing at all. *)
Theorem generator_throws_only_without_database (env : Env) (noteId : Z) (w : World) :
  (dbInitialized env = false ->
   generateNoteTextEmbedding env noteId w =
   (Throw (Error "Database not initialized. Call initializeDatabase() first."), w)) /\
  (dbInitialized env = true ->
   exists w', generateNoteTextEmbedding env noteId w = (Return tt, w')) /\
  (dbInitialized env = true -> getNoteById env noteId = Return None ->
   generateNoteTextEmbedding env noteId w = (Return tt, w)).
Proof.
  unfold generateNoteTextEmbedding, getDatabaseInstance.
  split; [|split].
  - intros ->. reflexivity.
  - intros ->. unfold bindM at 1. unfold lift at 1.
    unfold try_catchM at 1.
    match goal with
    | |- context [match ?body w with _ => _ end] => destruct (body w) as [[[]|e] w1]
    end.
    + eauto.
    + unfold try_catchM, ret.
      destruct (execute env (UpdateNoteEmbeddingStatus failed noteId) w1) as [[[]|e'] w2];
        eauto.
  - intros -> ->. reflexivity.
Qed.

Lemma generator_throws_only_without_database_witness :
  generateNoteTextEmbedding noDatabaseEnv 1 emptyWorld =
  (Throw (Error "Database not initialized. Call initializeDatabase() first."), emptyWorld).
Proof.
  apply (generator_throws_only_without_database noDatabaseEnv 1 emptyWorld).
  reflexivity.
Defined.

(* ================================================================== *)
(** * Part XIV. Records that are not completed                         *)
(* ================================================================== *)

Lemma candidatesOf_In (bo : ByteOrder) (q : Float32Array) (kind : MatchType)
    (rows : list EmbeddingRow) (n : Z) (c : Match) :
  In (n, c) (candidatesOf bo q kind rows) ->
  matchType c = kind /\ exists row, In row rows /\ row_noteId row = n.
Proof.
  unfold candidatesOf. intros H. apply in_flat_map in H as (row & Hrow & H).
  destruct (blobToEmbedding (row_embedding row)) as [e|err]; [|destruct H].
  destruct H as [H|[]]. injection H as <- <-. split; [reflexivity|]. eauto.
Qed.

(** Where a final match comes from. *)
Lemma finalMatches_origin (bo : ByteOrder) (q : Float32Array)
    (noteRows imageRows : list EmbeddingRow) (topK : Z) (n : Z) (c : Match) :
  In (n, c) (finalMatches bo q noteRows imageRows topK) ->
  exists row, row_noteId row = n /\
    match matchType c with
    | text => In row noteRows
    | image => In row imageRows
    end.
Proof.
  unfold finalMatches, rankMatches. rewrite collectMatches_collect.
  set (offered := candidates bo q noteRows imageRows).
  destruct (collect_best_per_note offered [] [] best_per_note_nil) as (_ & Hin & _).
  cbn [app] in Hin.
  pose proof (Array_sort_perm _ byScoreDescending (collect offered [])) as Hperm.
  fold (sortMatches (collect offered [])) in Hperm.
  destruct (Array_slice0_prefix (filterMatches (sortMatches (collect offered []))) topK)
    as (k & ->).
  intros He. apply firstn_incl, filterMatches_incl in He.
  apply (Permutation_in _ Hperm) in He.
  destruct (Hin n c He) as (Hoff & _).
  unfold offered, candidates in Hoff. apply in_app_or in Hoff as [H|H];
    apply candidatesOf_In in H as (-> & row & Hrow & Hid); exists row; auto.
Qed.

Lemma completedNoteEmbeddings_In (d : Database) (row : EmbeddingRow) :
  In row (completedNoteEmbeddings d) ->
  exists r, In r (note_embeddings d) /\ ne_status r = completed /\
            ne_noteId r = row_noteId row /\ ne_embedding r = row_embedding row.
Proof.
  unfold completedNoteEmbeddings. intros H.
  apply in_map_iff in H as (r & <- & Hr). apply filter_In in Hr as (Hin & Hst).
  exists r. split; [exact Hin|]. split; [|split; reflexivity].
  destruct (ne_status r); [reflexivity|discriminate].
Qed.

(** X10.  [retrieveRelevantNotes] reads only records whose status is
    completed.  So when every text record of a note has failed (which is
    what the generator's failure path leaves: it marks each record of
    the note), the note is never returned as a text match, whatever
    vector its record still holds; it can only come back through one of
    its images. *)
Theorem failed_record_is_not_retrieved (env : Env) (d : Database) (q : Float32Array)
    (topK : Z) (noteId : Z) :
  (forall i n, getNoteById env i = Return (Some n) -> id n = i) ->
  (forall r, In r (note_embeddings d) -> ne_noteId r = noteId -> ne_status r = failed) ->
  (forall rows r, In r (map (mark_failed noteId) rows) -> ne_noteId r = noteId ->
                  ne_status r = failed) /\
  forall notes, retrieveRelevantNotes env d q topK = Return notes ->
    forall r, In r notes -> r_noteId r = noteId -> r_matchType r = image.
Proof.
  intros Hid Hfailed. split.
  { intros rows r Hin Hr. apply in_map_iff in Hin as (r' & <- & _).
    unfold mark_failed in *. destruct (ne_noteId r' =? noteId) eqn:E; [reflexivity|].
    apply Z.eqb_neq in E. contradiction. }
  intros notes Hret r Hin Hr.
  destruct (dbInitialized env) eqn:Hdb;
    [destruct (execFails env SelectCompletedNoteEmbeddings) eqn:Hn;
     [|destruct (execFails env SelectCompletedImageEmbeddings) eqn:Hi]|];
    try (rewrite retrieveRelevantNotes_failed in Hret by auto;
         injection Hret as <-; destruct Hin).
  rewrite (retrieveRelevantNotes_ok env d q topK Hdb Hn Hi) in Hret.
  injection Hret as <-.
  destruct (hydrated_In env _ r Hin) as ([k c] & n & Hfinal & Hget & ->).
  cbn [fst snd retrievedNote r_noteId r_matchType] in *.
  destruct (matchType c) eqn:Hkind; [|reflexivity]. exfalso.
  destruct (finalMatches_origin _ _ _ _ _ _ _ Hfinal) as (row & Hrow & Hfrom).
  rewrite Hkind in Hfrom.
  destruct (completedNoteEmbeddings_In d row Hfrom) as (r0 & Hr0 & Hst & Hk & _).
  rewrite (Hid _ _ Hget) in Hr.
  assert (ne_status r0 = failed) by (apply Hfailed; [exact Hr0|congruence]).
  congruence.
Qed.

Lemma failed_record_is_not_retrieved_witness :
  let found := retrievedNote (sampleNote 1) {| score := 1; matchType := image |} in
  retrieveRelevantNotes sampleEnv failedTextDatabase sampleQuery 2 = Return [found] /\
  r_matchType found = image.
Proof.
  cbv zeta.
  assert (E : retrieveRelevantNotes sampleEnv failedTextDatabase sampleQuery 2 =
              Return [retrievedNote (sampleNote 1) {| score := 1; matchType := image |}])
    by (vm_compute; reflexivity).
  split; [exact E|].
  refine (proj2 (failed_record_is_not_retrieved sampleEnv failedTextDatabase sampleQuery
                   2 1 _ _) _ E _ (or_introl eq_refl) eq_refl).
  - intros i n H. injection H as <-. reflexivity.
  - intros r [<-|[]] _. reflexivity.
Defined.

(* ================================================================== *)
(** * Part XIV-b. The ranking the call returns                         *)
(* ================================================================== *)

Lemma accumulate_folds (bo : ByteOrder) (a b : Float32Array) (l : list nat) :
  forall dotProduct normA normB,
    let ra := fun i => ToNumber (f32_get bo a (Z.of_nat i)) in
    let rb := fun i => ToNumber (f32_get bo b (Z.of_nat i)) in
    let add := fun (sum : float) (xy : float * float) => (sum + fst xy * snd xy)%float in
    fold_left (accumulate bo a b) l (dotProduct, normA, normB) =
    (fold_left add (combine (map ra l) (map rb l)) dotProduct,
     fold_left add (combine (map ra l) (map ra l)) normA,
     fold_left add (combine (map rb l) (map rb l)) normB).
Proof.
  induction l as [|i l IH]; intros dotProduct normA normB; cbv zeta; [reflexivity|].
  cbn [fold_left map combine]. unfold accumulate at 2. cbv zeta.
  rewrite IH. reflexivity.
Qed.

(** The loop of [cosineSimilarity] computes the cosine similarity of
    the specification. *)
Lemma cosineSimilarity_cosineOf (bo : ByteOrder) (a b : Float32Array) :
  cosineSimilarity bo a b = cosineOf bo a b.
Proof.
  rewrite cosineSimilarity_loop, accumulate_folds. reflexivity.
Qed.

Lemma candidatesOf_iff (bo : ByteOrder) (q : Float32Array) (kind : MatchType)
    (rows : list EmbeddingRow) (n : Z) (c : Match) :
  In (n, c) (candidatesOf bo q kind rows) <->
  matchType c = kind /\
  exists row e, In row rows /\ row_noteId row = n /\
                blobToEmbedding (row_embedding row) = Return e /\
                score c = cosineOf bo q e.
Proof.
  unfold candidatesOf. rewrite in_flat_map. split.
  - intros (row & Hrow & H).
    destruct (blobToEmbedding (row_embedding row)) as [e|err] eqn:E; [|destruct H].
    destruct H as [H|[]]. injection H as <- <-. split; [reflexivity|].
    exists row, e. repeat split; try assumption. apply cosineSimilarity_cosineOf.
  - intros (Hk & row & e & Hrow & Hn & He & Hs). exists row. split; [exact Hrow|].
    rewrite He. left. rewrite Hn, cosineSimilarity_cosineOf, <- Hs, <- Hk.
    destruct c; reflexivity.
Qed.

Lemma candidates_iff (bo : ByteOrder) (q : Float32Array)
    (noteRows imageRows : list EmbeddingRow) (n : Z) (c : Match) :
  In (n, c) (candidates bo q noteRows imageRows) <->
  exists row e, In row (rowsOfKind (matchType c) noteRows imageRows) /\
                row_noteId row = n /\
                blobToEmbedding (row_embedding row) = Return e /\
                score c = cosineOf bo q e.
Proof.
  unfold candidates. rewrite in_app_iff, !candidatesOf_iff. split.
  - intros [(Hk & H)|(Hk & H)]; rewrite Hk; exact H.
  - intros H. destruct (matchType c); [left|right]; (split; [reflexivity|exact H]).
Qed.

(** When the note of every final match is found under its id, one note
    is returned per final match, in order. *)
Lemma hydrated_all (env : Env) (final : list (Z * Match)) :
  (forall entry, In entry final ->
     exists n, getNoteById env (fst entry) = Return (Some n) /\ id n = fst entry) ->
  map matchOf (hydrated env final) = final /\
  Forall2 (fun r entry => exists n, getNoteById env (fst entry) = Return (Some n) /\
                                    r = retrievedNote n (snd entry))
          (hydrated env final) final.
Proof.
  induction final as [|entry final IH]; intros H; [split; constructor|].
  rewrite hydrated_cons.
  destruct (H entry (or_introl eq_refl)) as (n & Hn & Hid). rewrite Hn.
  destruct IH as [IH1 IH2]; [intros e He; apply H; right; exact He|].
  split.
  - cbn [map]. rewrite IH1. f_equal. unfold matchOf, retrievedNote.
    cbn [r_noteId similarityScore r_matchType]. rewrite Hid.
    destruct entry as [i [sc k]]. reflexivity.
  - constructor; [|exact IH2]. exists n. split; [exact Hn|reflexivity].
Qed.

(** C1.  With the database there and both SELECTs answered,
    [retrieveRelevantNotes] offers one match per decodable completed
    row, text or image, scored by the cosine similarity of the query
    and the row's vector; it keeps per note a single best match and
    only if it reaches the floor 0.5, orders the notes by descending
    score, keeps the first, keeps each later one exactly when its score
    is at least 0.75 times the top score, cuts the list at [topK], and
    returns the notes of what is left, in that order: one note per
    match that is left when the note of every completed embedding is
    found.  For stored vectors whose similarities are 0.82, 0.55 and
    0.20 it returns the first note only. *)
Theorem retrieval_ranking (env : Env) (d : Database) (queryEmbedding : Float32Array)
    (topK : Z) :
  dbInitialized env = true ->
  execFails env SelectCompletedNoteEmbeddings = false ->
  execFails env SelectCompletedImageEmbeddings = false ->
  0 <= topK ->
  let bo := nativeOrder env in
  let noteRows := completedNoteEmbeddings d in
  let imageRows := completedImageEmbeddings d in
  let offered := candidates bo queryEmbedding noteRows imageRows in
  let noteMatches := collectMatches bo queryEmbedding noteRows imageRows in
  let sortedMatches := sortMatches noteMatches in
  let filteredMatches := filterMatches sortedMatches in
  let final := firstn (Z.to_nat topK) filteredMatches in
  let byScore := scoresBelow (fun e : Z * Match => score (snd e)) in
  (forall e, cosineSimilarity bo queryEmbedding e = cosineOf bo queryEmbedding e) /\
  (forall n c, In (n, c) offered <->
     exists row e, In row (rowsOfKind (matchType c) noteRows imageRows) /\
                   row_noteId row = n /\
                   blobToEmbedding (row_embedding row) = Return e /\
                   score c = cosineOf bo queryEmbedding e) /\
  best_per_note offered noteMatches /\
  Forall (fun e : Z * Match => (0.5 <=? score (snd e))%float = true) noteMatches /\
  Permutation sortedMatches noteMatches /\
  StronglySorted byScore sortedMatches /\
  (forall top rest, sortedMatches = top :: rest ->
     filteredMatches =
     top :: filter (fun e => (score (snd top) * 0.75 <=? score (snd e))%float) rest) /\
  (sortedMatches = [] -> filteredMatches = []) /\
  (exists notes,
     retrieveRelevantNotes env d queryEmbedding topK = Return notes /\
     notes = hydrated env final /\
     StronglySorted (scoresBelow similarityScore) notes /\
     NoDup (map fst final) /\
     Forall (fun r => (0.5 <=? similarityScore r)%float = true) notes /\
     Z.of_nat (List.length notes) <= topK /\
     ((forall row, In row (noteRows ++ imageRows) ->
         exists n, getNoteById env (row_noteId row) = Return (Some n) /\
                   id n = row_noteId row) ->
      map matchOf notes = final /\
      NoDup (map r_noteId notes) /\
      Forall2 (fun r entry => exists n, getNoteById env (fst entry) = Return (Some n) /\
                                        r = retrievedNote n (snd entry))
              notes final)) /\
  (map (fun r => cosineSimilarity LittleEndian rankingQuery
                   (Float32Array_from LittleEndian r))
       [[41; 27; 9; 3; 0]; [11; 15; 7; 2; 1]; [1; 2; 4; 2; 0]]%float
   = [0.82; 0.55; 0.2]%float /\
   retrieveRelevantNotes sampleEnv rankingDatabase rankingQuery TOP_K =
   Return [retrievedNote (sampleNote 1) {| score := 0.82; matchType := text |}]) /\
  (forall kindA kindB kindC k, 1 <= k ->
     rankMatches (collect [(1, {| score := 0.82; matchType := kindA |});
                           (2, {| score := 0.55; matchType := kindB |});
                           (3, {| score := 0.20; matchType := kindC |})] []) k
     = [(1, {| score := 0.82; matchType := kindA |})]).
Proof.
  intros Hdb Hnotes Himages HK. cbv zeta.
  set (bo := nativeOrder env).
  set (noteRows := completedNoteEmbeddings d).
  set (imageRows := completedImageEmbeddings d).
  rewrite collectMatches_collect.
  set (offered := candidates bo queryEmbedding noteRows imageRows).
  pose proof (collect_best_per_note offered [] [] best_per_note_nil) as Hbest.
  assert (Hsorted : StronglySorted (scoresBelow (fun e : Z * Match => score (snd e)))
                      (sortMatches (collect offered []))).
  { apply (Array_sort_sorted _ (fun e : Z * Match => score (snd e)) byScoreDescending).
    - reflexivity.
    - apply collect_not_nan. }
  assert (Hfinal : finalMatches bo queryEmbedding noteRows imageRows topK =
                   firstn (Z.to_nat topK) (filterMatches (sortMatches (collect offered [])))).
  { unfold finalMatches, rankMatches. rewrite collectMatches_collect.
    apply Array_slice0_firstn, HK. }
  split; [intros e; apply cosineSimilarity_cosineOf|].
  split; [intros n c; apply candidates_iff|].
  split; [exact Hbest|].
  split.
  { apply Forall_forall. intros [n c] Hin. destruct Hbest as (_ & Hb & _).
    apply (Hb n c Hin). }
  split; [apply Array_sort_perm|].
  split; [exact Hsorted|].
  split; [intros top rest ->; apply filterMatches_cons|].
  split; [intros ->; reflexivity|].
  split.
  { exists (hydrated env (finalMatches bo queryEmbedding noteRows imageRows topK)).
    split; [apply retrieveRelevantNotes_ok; assumption|].
    destruct (finalMatches_facts bo queryEmbedding noteRows imageRows topK)
      as (Hnd & Hs & Hfloor & Hlen).
    rewrite <- Hfinal.
    split; [reflexivity|].
    split; [apply hydrated_sorted, Hs|].
    split; [exact Hnd|].
    split.
    { apply Forall_forall. intros r Hr.
      destruct (hydrated_In env _ r Hr) as (entry & n & Hin & _ & ->).
      rewrite Forall_forall in Hfloor. apply (Hfloor _ Hin). }
    split.
    { pose proof (hydrated_length env
                    (finalMatches bo queryEmbedding noteRows imageRows topK)).
      specialize (Hlen HK). lia. }
    intros Hfound.
    destruct (hydrated_all env (finalMatches bo queryEmbedding noteRows imageRows topK))
      as [Hmap Hall].
    { intros [n c] Hin. cbn [fst].
      destruct (finalMatches_origin bo queryEmbedding noteRows imageRows topK n c Hin)
        as (row & <- & Hrow).
      apply Hfound. apply in_or_app. destruct (matchType c); [left|right]; exact Hrow. }
    split; [exact Hmap|]. split; [|exact Hall].
    replace (map r_noteId (hydrated env (finalMatches bo queryEmbedding noteRows
                                           imageRows topK)))
      with (map fst (finalMatches bo queryEmbedding noteRows imageRows topK));
      [exact Hnd|].
    rewrite <- Hmap at 1. rewrite map_map. reflexivity. }
  split.
  { split; vm_compute; reflexivity. }
  intros kindA kindB kindC k Hk. unfold rankMatches.
  rewrite Array_slice0_firstn by lia.
  replace (filterMatches _) with [(1, {| score := 0.82%float; matchType := kindA |})]
    by (destruct kindA, kindB, kindC; vm_compute; reflexivity).
  destruct (Z.to_nat k) eqn:E; [lia|]. cbn [firstn]. rewrite firstn_nil. reflexivity.
Qed.

Lemma retrieval_ranking_witness :
  exists notes,
    retrieveRelevantNotes sampleEnv rankingDatabase rankingQuery 2 = Return notes /\
    map matchOf notes = [(1, {| score := 0.82; matchType := text |})].
Proof.
  destruct (retrieval_ranking sampleEnv rankingDatabase rankingQuery 2)
    as (_ & _ & _ & _ & _ & _ & _ & _ & (notes & Hrun & _ & _ & _ & _ & _ & Hmap) & _).
  - reflexivity.
  - reflexivity.
  - reflexivity.
  - lia.
  - exists notes. split; [exact Hrun|].
    destruct Hmap as (Hmap & _).
    + intros row _. exists (sampleNote (row_noteId row)). split; reflexivity.
    + rewrite Hmap. vm_compute. reflexivity.
Defined.

(* ================================================================== *)
(** * Part XV. The schedulers, for any ids and any run                 *)
(* ================================================================== *)

Lemma Set_add_In (x y : Z) (s : list Z) : In y (Set_add x s) <-> y = x \/ In y s.
Proof.
  unfold Set_add. destruct (existsb (Z.eqb x) s) eqn:E.
  - split; [auto|]. intros [->|H]; [|exact H].
    apply existsb_exists in E as (z & Hz & Hxz). apply Z.eqb_eq in Hxz. subst z. exact Hz.
  - rewrite in_app_iff. cbn [In]. intuition.
Qed.

Lemma Set_add_NoDup (x : Z) (s : list Z) : NoDup s -> NoDup (Set_add x s).
Proof.
  intros H. unfold Set_add. destruct (existsb (Z.eqb x) s) eqn:E; [exact H|].
  apply NoDup_app; [exact H|repeat constructor; intros []|].
  intros y Hy [<-|[]].
  assert (existsb (Z.eqb x) s = true); [|congruence].
  apply existsb_exists. exists x. split; [exact Hy|apply Z.eqb_refl].
Qed.

Lemma Set_add_nonempty (x : Z) (s : list Z) : Set_add x s <> [].
Proof.
  unfold Set_add. destruct (existsb (Z.eqb x) s) eqn:E.
  - destruct s; [discriminate|discriminate].
  - destruct s; discriminate.
Qed.

Lemma addAll_In (ids : list Z) : forall s y, In y (addAll ids s) <-> In y ids \/ In y s.
Proof.
  unfold addAll. induction ids as [|x ids IH]; intros s y; cbn [fold_left In].
  - tauto.
  - rewrite IH, Set_add_In. intuition.
Qed.

Lemma addAll_NoDup (ids : list Z) : forall s, NoDup s -> NoDup (addAll ids s).
Proof.
  unfold addAll. induction ids as [|x ids IH]; intros s H; cbn [fold_left]; [exact H|].
  apply IH, Set_add_NoDup, H.
Qed.

Lemma view_queue_is (p : Pipeline) (rt : Runtime) (q : Debounce)
    (f : list (list Z)) (a : list Z) (j : list Job) :
  view p rt = (q, f, a, j) -> queue p rt = q.
Proof. unfold view. intros V. injection V as -> _ _ _. reflexivity. Qed.

(** ** Actions that leave a scheduler alone *)

Lemma callUpdate_other (p p' : Pipeline) (noteId : Z) (rt : Runtime) :
  Pipeline_eqb p p' = false ->
  queue p (callUpdate p' noteId rt) = queue p rt /\
  clock (callUpdate p' noteId rt) = clock rt.
Proof.
  intros H. unfold callUpdate.
  destruct p, p'; try discriminate; cbn [queue]; destruct (timer _); auto.
Qed.

Lemma invoke_queue (env : Env) (p p' : Pipeline) (noteId : Z) (b : bool) (rt : Runtime) :
  queue p (invoke env p' noteId b rt) = queue p rt /\
  clock (invoke env p' noteId b rt) = clock rt.
Proof. unfold invoke. destruct p, (ensureReady env p'); auto. Qed.

Lemma step_Complete_queue (env : Env) (p p' : Pipeline) (noteId : Z) (rt : Runtime) :
  queue p (step env rt (Complete p' noteId)) = queue p rt /\
  clock (step env rt (Complete p' noteId)) = clock rt.
Proof.
  cbn [step]. destruct (advance env p' noteId (jobs rt)) as [[js o] chained].
  destruct chained.
  - destruct (invoke_queue env p RecallScript noteId false (observe o (set_jobs js rt)))
      as [-> ->]. destruct p; auto.
  - destruct p; auto.
Qed.

Lemma step_Elapse_negative (env : Env) (ms : Z) (rt : Runtime) :
  ms <= 0 -> step env rt (Elapse ms) = step env rt (Elapse 0).
Proof. intros H. cbn [step]. rewrite Z.max_r by exact H. reflexivity. Qed.

Lemma scheduler_consistent_queue (rt rt' : Runtime) (p : Pipeline) :
  queue p rt' = queue p rt -> clock rt <= clock rt' ->
  scheduler_consistent rt p -> scheduler_consistent rt' p.
Proof.
  unfold scheduler_consistent. intros -> Hc [Hnd Htimer]. split; [exact Hnd|].
  destruct (timer (queue p rt)); [|exact Htimer]. split; [apply Htimer|]. lia.
Qed.

Lemma scheduler_consistent_callUpdate (p p' : Pipeline) (noteId : Z) (rt : Runtime) :
  scheduler_consistent rt p -> scheduler_consistent (callUpdate p' noteId rt) p.
Proof.
  intros Hok. destruct (Pipeline_eqb p p') eqn:E.
  - assert (p' = p) by (destruct p, p'; congruence || discriminate). subst p'.
    destruct (callUpdate_view p noteId rt) as [C V].
    pose proof (view_queue_is _ _ _ _ _ _ V) as Q.
    unfold scheduler_consistent in *. rewrite Q, C. destruct Hok as [Hnd Htimer].
    unfold schedule. destruct (timer (queue p rt)) as [due|]; cbn [pending timer].
    + split; [apply Set_add_NoDup, Hnd|].
      split; [apply Set_add_nonempty|apply Htimer].
    + split; [apply Set_add_NoDup, Hnd|].
      split; [apply Set_add_nonempty|]. lia.
  - destruct (callUpdate_other p p' noteId rt E) as [Q C].
    eapply scheduler_consistent_queue; [exact Q|lia|exact Hok].
Qed.

Lemma scheduler_consistent_Elapse (env : Env) (p : Pipeline) (ms : Z) (rt : Runtime) :
  0 <= ms -> scheduler_consistent rt p ->
  scheduler_consistent (step env rt (Elapse ms)) p.
Proof.
  intros Hms Hok. destruct (step_Elapse_view env p ms rt Hms) as [C V].
  unfold scheduler_consistent in *. destruct Hok as [Hnd Htimer]. rewrite C.
  destruct (timer (queue p rt)) as [due|] eqn:T.
  - destruct (Z.leb_spec due (clock rt + ms)) as [Hle|Hgt].
    + pose proof (view_queue_is _ _ _ _ _ _ V) as Q.
      rewrite Q. cbn [idle pending timer]. split; [constructor|reflexivity].
    + pose proof (view_queue _ _ _ V) as Q. rewrite Q, T.
      split; [exact Hnd|]. split; [apply Htimer|]. lia.
  - pose proof (view_queue _ _ _ V) as Q. rewrite Q, T. split; assumption.
Qed.

Lemma scheduler_consistent_step (env : Env) (p : Pipeline) (a : Action) (rt : Runtime) :
  scheduler_consistent rt p -> scheduler_consistent (step env rt a) p.
Proof.
  intros Hok. destruct a as [noteId|noteId|noteId|noteId|ms|p' noteId].
  - cbn [step].
    destruct (invoke_queue env p Embeddings noteId true rt) as [Q1 C1].
    destruct (ensureReady env Embeddings).
    + eapply scheduler_consistent_queue; [exact Q1|lia|exact Hok].
    + destruct (invoke_queue env p RecallScript noteId false
                  (invoke env Embeddings noteId true rt)) as [Q2 C2].
      eapply scheduler_consistent_queue; [rewrite Q2; exact Q1|lia|exact Hok].
  - cbn [step].
    apply scheduler_consistent_callUpdate, scheduler_consistent_callUpdate, Hok.
  - cbn [step]. apply scheduler_consistent_callUpdate, Hok.
  - cbn [step]. apply scheduler_consistent_callUpdate, Hok.
  - destruct (Z_le_gt_dec 0 ms) as [H|H].
    + apply scheduler_consistent_Elapse; assumption.
    + rewrite step_Elapse_negative by lia.
      apply scheduler_consistent_Elapse; [lia|assumption].
  - destruct (step_Complete_queue env p p' noteId rt) as [Q C].
    eapply scheduler_consistent_queue; [exact Q|lia|exact Hok].
Qed.

(** A timer callback, on time or late, leaves its scheduler idle and
    the other one alone. *)
Lemma scheduler_consistent_fireIfDue (env : Env) (p p' : Pipeline) (rt : Runtime) :
  scheduler_consistent rt p -> scheduler_consistent (fireIfDue env p' rt) p.
Proof.
  intros Hok. unfold fireIfDue. destruct (isDue rt p'); [|exact Hok].
  destruct (Pipeline_eqb p p') eqn:E.
  - assert (p' = p) by (destruct p, p'; congruence || discriminate). subst p'.
    pose proof (view_queue_is _ _ _ _ _ _ (fire_view_same env p rt)) as Q.
    unfold scheduler_consistent. rewrite Q. cbn [idle pending timer].
    split; [constructor|reflexivity].
  - eapply scheduler_consistent_queue;
      [apply (fire_queue_other env p p' rt E)|rewrite fire_clock; lia|exact Hok].
Qed.

Lemma scheduler_consistent_occur (env : Env) (p : Pipeline) (e : Event) (rt : Runtime) :
  scheduler_consistent rt p -> scheduler_consistent (occur env rt e) p.
Proof.
  intros Hok. destruct e as [a|ms|p']; cbn [occur].
  - apply scheduler_consistent_step, Hok.
  - apply (scheduler_consistent_queue rt); [destruct p; reflexivity|cbn [clock]; lia|exact Hok].
  - apply scheduler_consistent_fireIfDue, Hok.
Qed.

(** X11.  In every run from start-up of calls, completions and passing
    time, with timer callbacks that run on time or late, each of the
    two schedulers keeps its state consistent: no note id is pending
    twice, a timer is armed exactly when some id is pending, and an
    armed timer is due at most 300 ms from now. *)
Theorem schedulers_stay_sound (env : Env) (events : list Event) (p : Pipeline) :
  scheduler_consistent (happen env boot events) p.
Proof.
  assert (H : forall rt, scheduler_consistent rt p ->
                         scheduler_consistent (happen env rt events) p).
  { induction events as [|e events IH]; intros rt Hok; cbn [happen fold_left].
    - exact Hok.
    - apply IH, scheduler_consistent_occur, Hok. }
  apply H. unfold scheduler_consistent. destruct p; cbn; split; constructor.
Qed.

(** ** Calls for several notes *)

Lemma calls_view (env : Env) (p : Pipeline) (steps : list (Z * Z)) :
  forall (rt : Runtime) (due : Z) (s : list Z),
    Forall (fun step => 0 <= fst step) steps ->
    queue p rt = {| pending := s; timer := Some due |} ->
    clock rt + total (map fst steps) < due ->
    clock (run env rt (calls p steps)) = clock rt + total (map fst steps) /\
    view p (run env rt (calls p steps)) =
    ({| pending := addAll (map snd steps) s; timer := Some due |},
     firedOf p (history rt), armedOf p (history rt), jobsOf p (jobs rt)).
Proof.
  induction steps as [|[ms noteId] steps IH]; intros rt due s Hp Hq Hlt.
  - cbn [calls flat_map run fold_left total fold_right map addAll].
    split; [lia|]. unfold view. rewrite Hq. reflexivity.
  - inversion Hp as [|? ? Hms Hp']; subst. cbn [fst] in Hms.
    assert (Hnn : 0 <= total (map fst steps)).
    { apply total_nonneg. apply Forall_map. exact Hp'. }
    cbn [map fst snd total fold_right] in Hlt |- *.
    fold (total (map fst steps)) in Hlt |- *.
    cbn [calls flat_map app run fold_left fst snd]. fold (calls p steps).
    destruct (step_Elapse_view env p ms rt Hms) as [C1 V1].
    rewrite Hq in V1. cbn [timer] in V1.
    destruct (Z.leb_spec due (clock rt + ms)) as [Hle|_]; [lia|].
    rewrite step_callOf.
    set (rt1 := step env rt (Elapse ms)) in *.
    destruct (callUpdate_view p noteId rt1) as [C2 V2].
    assert (Q1 : queue p rt1 = {| pending := s; timer := Some due |})
      by (rewrite (view_queue _ _ _ V1); exact Hq).
    rewrite Q1 in V2. unfold schedule in V2. cbn [timer pending] in V2.
    rewrite app_nil_r in V2.
    set (rt2 := callUpdate p noteId rt1) in *.
    fold (run env rt2 (calls p steps)).
    destruct (IH rt2 due (Set_add noteId s) Hp' (view_queue_is _ _ _ _ _ _ V2))
      as [C3 V3]; [lia|].
    split; [lia|]. rewrite V3.
    unfold view in V1, V2. injection V1 as _ F1 A1 J1. injection V2 as _ F2 A2 J2.
    unfold addAll. cbn [fold_left]. congruence.
Qed.

(** X12.  Calls of [updateNoteEmbeddings] (and likewise of
    [updateRecallScript]) for any note ids, all within the 300 ms of the
    first, arm one timer and lead to one pass: when the 300 ms have
    elapsed the timer callback has run once with one batch, the batch
    holds exactly the ids that were passed, each once, and one task per
    id of the batch is under way (the model being ready). *)
Theorem calls_for_many_notes_one_pass
    (env : Env) (p : Pipeline) (first : Z) (steps : list (Z * Z)) (wait : Z)
    (rt : Runtime) :
  queue p rt = idle ->
  Forall (fun step => 0 <= fst step) steps ->
  total (map fst steps) < DEBOUNCE_MS ->
  0 <= wait ->
  DEBOUNCE_MS <= total (map fst steps) + wait ->
  let batch := addAll (first :: map snd steps) [] in
  let final := run env rt ((callOf p first :: calls p steps) ++ [Elapse wait]) in
  NoDup batch /\
  (forall noteId, In noteId batch <-> In noteId (first :: map snd steps)) /\
  view p final =
    (idle,
     firedOf p (history rt) ++ [batch],
     armedOf p (history rt) ++ [clock rt + DEBOUNCE_MS],
     jobsOf p (jobs rt) ++ loadingJobs env p batch).
Proof.
  intros Hidle Hp Hlt Hwait Hdue batch final.
  split; [apply addAll_NoDup; constructor|]. split.
  { intros noteId. unfold batch. rewrite addAll_In. cbn [In]. tauto. }
  unfold final. rewrite run_app.
  change (run env ?r [Elapse wait]) with (step env r (Elapse wait)).
  cbn [run fold_left]. rewrite step_callOf.
  destruct (callUpdate_view p first rt) as [C0 V0].
  rewrite Hidle in V0. unfold schedule in V0. cbn [timer pending idle] in V0.
  set (rt0 := callUpdate p first rt) in *.
  fold (run env rt0 (calls p steps)).
  destruct (calls_view env p steps rt0 (clock rt + DEBOUNCE_MS) (Set_add first [])
              Hp (view_queue_is _ _ _ _ _ _ V0)) as [C V]; [lia|].
  set (rt1 := run env rt0 (calls p steps)) in *.
  destruct (step_Elapse_view env p wait rt1 Hwait) as [_ V1].
  rewrite V1, (view_queue_is _ _ _ _ _ _ V). cbn [timer pending].
  destruct (Z.leb_spec (clock rt + DEBOUNCE_MS) (clock rt1 + wait)) as [_|Hgt]; [|lia].
  unfold view in V, V0. injection V as _ F A J. injection V0 as _ F0 A0 J0.
  unfold batch, addAll. cbn [fold_left]. congruence.
Qed.

Lemma calls_for_many_notes_one_pass_witness :
  view Embeddings
    (run sampleEnv boot
       [UpdateNoteEmbeddings 7; Elapse 100; UpdateNoteEmbeddings 8;
        Elapse 100; UpdateNoteEmbeddings 7; Elapse 100]) =
  (idle, [[7; 8]], [300],
   [{| job_pipeline := Embeddings; job_noteId := 7; job_phase := Loading;
       job_then_script := false |};
    {| job_pipeline := Embeddings; job_noteId := 8; job_phase := Loading;
       job_then_script := false |}]).
Proof.
  refine (proj2 (proj2
    (calls_for_many_notes_one_pass sampleEnv Embeddings 7 [(100, 8); (100, 7)] 100 boot
       eq_refl _ _ _ _))).
  - repeat constructor; discriminate.
  - reflexivity.
  - discriminate.
  - discriminate.
Defined.

(* ================================================================== *)
(** * Part XVI. The pipelines of created notes                         *)
(* ================================================================== *)

Lemma chained_nil : chained [].
Proof. intros before noteId after H. destruct before; discriminate. Qed.

Lemma chained_snoc (h : list Occurrence) (o : Occurrence) :
  chained h ->
  (forall noteId, o = Started RecallScript noteId -> In (Settled Embeddings noteId) h) ->
  chained (h ++ [o]).
Proof.
  intros Hh Ho before noteId after E.
  destruct (exists_last (l := Started RecallScript noteId :: after)) as (l & x & El);
    [discriminate|].
  rewrite El, app_assoc in E. apply app_inj_tail in E as [Eh Eo]. subst x.
  destruct l as [|y l].
  - cbn in El. injection El as Eo Ea. rewrite app_nil_r in Eh. subst h.
    apply Ho. symmetry. exact Eo.
  - cbn in El. injection El as <- _. subst h. apply (Hh before noteId l). reflexivity.
Qed.

(** Appending occurrences one by one. *)
Lemma chained_app (h o : list Occurrence) :
  chained h ->
  (fix extends (h : list Occurrence) (o : list Occurrence) : Prop :=
     match o with
     | [] => True
     | x :: o' =>
         (forall noteId, x = Started RecallScript noteId ->
                         In (Settled Embeddings noteId) h) /\
         extends (h ++ [x]) o'
     end) h o ->
  chained (h ++ o).
Proof.
  revert h. induction o as [|x o IH]; intros h Hh Ho.
  - rewrite app_nil_r. exact Hh.
  - destruct Ho as [Hx Ho]. change (x :: o) with ([x] ++ o). rewrite app_assoc.
    apply IH; [apply chained_snoc; assumption|exact Ho].
Qed.

Ltac chain :=
  cbn; repeat split;
  try (intros ? Hstarted; first [discriminate Hstarted
                                |injection Hstarted as <-;
                                 repeat (apply in_or_app; right); cbn; auto]).

(** What [invoke] adds to the history, and what it leaves alone. *)
Lemma invoke_history (env : Env) (p : Pipeline) (noteId : Z) (b : bool) (rt : Runtime) :
  history (invoke env p noteId b rt) =
    history rt ++ Started p noteId ::
                  (if ensureReady env p then [] else [Settled p noteId]) /\
  embeddingsQueue (invoke env p noteId b rt) = embeddingsQueue rt /\
  scriptsQueue (invoke env p noteId b rt) = scriptsQueue rt /\
  (Forall createdJob (jobs rt) -> (b = true -> p = Embeddings) ->
   Forall createdJob (jobs (invoke env p noteId b rt))).
Proof.
  unfold invoke. destruct (ensureReady env p);
    cbn [observe set_jobs history jobs embeddingsQueue scriptsQueue].
  - repeat split; auto. intros Hj Hb. apply Forall_app. split; [exact Hj|].
    constructor; [|constructor]. split; [reflexivity|exact Hb].
  - rewrite <- app_assoc. repeat split; auto.
Qed.

(** What [advance] does to jobs that are all at work. *)
Lemma advance_created (env : Env) (p : Pipeline) (noteId : Z) (js : list Job) :
  Forall createdJob js ->
  Forall createdJob (fst (fst (advance env p noteId js))) /\
  ((snd (fst (advance env p noteId js)) = [] /\ snd (advance env p noteId js) = false) \/
   (snd (fst (advance env p noteId js)) = [Settled p noteId] /\
    (snd (advance env p noteId js) = true -> p = Embeddings))).
Proof.
  induction 1 as [|j js [Hph Hth] Hjs IH]; cbn [advance].
  - split; [constructor|]. left. split; reflexivity.
  - destruct (Pipeline_eqb (job_pipeline j) p && (job_noteId j =? noteId)) eqn:E.
    + rewrite Hph. cbn [fst snd]. split; [exact Hjs|]. right. split; [reflexivity|].
      intros Hc. apply andb_prop in E as [E _].
      rewrite <- (Hth Hc). destruct (job_pipeline j), p; congruence || discriminate.
    + destruct (advance env p noteId js) as [[js'' o] chainedTo]. cbn [fst snd] in *.
      split; [constructor; [split; assumption|apply IH]|apply IH].
Qed.

(** X13.  While notes are only created (no note is edited), whatever the
    order in which the work of the pipelines completes, every start of
    the recall-script pipeline for a note comes after an embedding
    pipeline of that note has settled; no debounce timer is ever armed. *)
Theorem created_notes_are_chained (env : Env) (actions : list Action) :
  Forall noEdit actions ->
  chained (history (run env boot actions)) /\
  embeddingsQueue (run env boot actions) = idle /\
  scriptsQueue (run env boot actions) = idle.
Proof.
  intros Hno.
  assert (H : forall rt,
             chained (history rt) /\ embeddingsQueue rt = idle /\ scriptsQueue rt = idle /\
             Forall createdJob (jobs rt) ->
             chained (history (run env rt actions)) /\
             embeddingsQueue (run env rt actions) = idle /\
             scriptsQueue (run env rt actions) = idle /\
             Forall createdJob (jobs (run env rt actions))).
  { induction Hno as [|a actions Ha _ IH]; intros rt Hrt; cbn [run fold_left];
      [exact Hrt|].
    apply IH. clear IH. destruct Hrt as (Hch & He & Hs & Hj).
    destruct a as [noteId|noteId|noteId|noteId|ms|p noteId]; try destruct Ha.
    - (* createNote *)
      cbn [step].
      destruct (invoke_history env Embeddings noteId true rt) as (Hh & He1 & Hs1 & Hj1).
      destruct (invoke_history env RecallScript noteId false
                  (invoke env Embeddings noteId true rt)) as (Hh2 & He2 & Hs2 & Hj2).
      destruct (ensureReady env Embeddings) eqn:Hready.
      + rewrite Hh, He1, Hs1. split; [|split; [|split]]; auto.
        apply chained_app; [exact Hch|]. chain.
      + rewrite Hh2, He2, Hs2, Hh, He1, Hs1. split; [|split; [|split]]; auto.
        * rewrite <- app_assoc. cbn [app]. apply chained_app; [exact Hch|].
          destruct (ensureReady env RecallScript); chain.
        * apply Hj2; [apply Hj1; auto|discriminate].
    - (* time passes: no timer is armed *)
      cbn [step]. unfold runTimers.
      cbn [embeddingsQueue scriptsQueue]. rewrite He, Hs. cbn [idle timer].
      cbn [history embeddingsQueue scriptsQueue jobs]. auto.
    - (* the work of a job completes *)
      cbn [step].
      destruct (advance_created env p noteId (jobs rt) Hj) as (Hj' & Ho).
      destruct (advance env p noteId (jobs rt)) as [[js o] chainedTo].
      cbn [fst snd] in Hj', Ho.
      destruct Ho as [[-> ->]|[-> Hc]].
      + cbn [observe set_jobs history jobs embeddingsQueue scriptsQueue].
        rewrite app_nil_r. auto.
      + destruct chainedTo.
        * specialize (Hc eq_refl). subst p.
          destruct (invoke_history env RecallScript noteId false
                      (observe [Settled Embeddings noteId] (set_jobs js rt)))
            as (Hh & He1 & Hs1 & Hj1).
          rewrite Hh, He1, Hs1.
          cbn [observe set_jobs history jobs embeddingsQueue scriptsQueue] in *.
          split; [|split; [|split]]; auto; [|apply Hj1; [exact Hj'|discriminate]].
          rewrite <- app_assoc. cbn [app]. apply chained_app; [exact Hch|].
          destruct (ensureReady env RecallScript); chain.
        * cbn [observe set_jobs history jobs embeddingsQueue scriptsQueue].
          split; [|split; [|split]]; auto.
          apply chained_snoc; [exact Hch|]. intros n Hn.
          destruct p; discriminate. }
  destruct (H boot) as (H1 & H2 & H3 & _).
  - split; [apply chained_nil|]. repeat split. constructor.
  - auto.
Qed.

Lemma created_notes_are_chained_witness :
  chained (history (run sampleEnv boot
                      [CreateNote 7; CreateNote 8; Elapse 500; Complete Embeddings 8;
                       Complete RecallScript 8; Complete Embeddings 7])).
Proof.
  apply (created_notes_are_chained sampleEnv
           [CreateNote 7; CreateNote 8; Elapse 500; Complete Embeddings 8;
            Complete RecallScript 8; Complete Embeddings 7]).
  repeat constructor.
Defined.

(* ================================================================== *)
(** * Part XVII. The reminisce selection, for any count                *)
(* ================================================================== *)

(** X14.  [shuffle] returns a rearrangement of its argument, whatever
    [Math.random] draws: the same elements with the same multiplicities,
    hence the same length; each index it swaps with lies inside the
    array; a list of at most one element is returned as it is. *)
Theorem shuffle_rearranges {A : Type} (env : Env) (array : list A) :
  Permutation (shuffle env array) array /\
  List.length (shuffle env array) = List.length array /\
  (forall k i, (randomIndex env k i <= i)%nat) /\
  ((List.length array <= 1)%nat -> shuffle env array = array).
Proof.
  split; [apply shuffle_perm|].
  split; [apply Permutation_length, shuffle_perm|].
  split; [intros k i; apply randomIndex_range|].
  intros H. unfold shuffle.
  replace (List.length array - 1)%nat with 0%nat by lia. reflexivity.
Qed.

Lemma shuffle_rearranges_witness : shuffle sampleEnv [noteA] = [noteA].
Proof.
  apply (proj2 (proj2 (proj2 (shuffle_rearranges sampleEnv [noteA])))).
  apply Nat.le_refl.
Defined.

(** The ranked notes, best first. *)
Lemma ranked_notes (env : Env) (allNotes : list NoteWithDetails) :
  Permutation
    (map note (Array_sort byNoteScoreDescending (scoreNotes env 0 allNotes))) allNotes.
Proof.
  rewrite <- (scoreNotes_notes env allNotes 0) at 2.
  apply Permutation_map, Array_sort_perm.
Qed.

(** X15.  Whatever [count] is, [selectReminisceNotes] returns a
    selection without repetition from the notes [getAllNotes] gives:
    the notes split into the returned ones and the others.  With at
    most [count] notes it returns all of them, shuffled.  With more, it
    returns, shuffled, the first [count] notes of the ranking by
    descending score, or, for a negative [count], all but the last
    [-count] of that ranking, and the others are the rest of the
    ranking.  When [getAllNotes] rejects, the call rejects with the same
    error. *)
Theorem reminisce_selection_size (env : Env) (count : Z) :
  (forall e, getAllNotes env = Throw e -> selectReminisceNotes env count = Throw e) /\
  (forall allNotes, getAllNotes env = Return allNotes ->
     let n := Z.of_nat (List.length allNotes) in
     let ranked := Array_sort byNoteScoreDescending (scoreNotes env 0 allNotes) in
     let kept := Z.to_nat (if count <? 0 then Z.max (n + count) 0 else Z.min count n) in
     Permutation (map note ranked) allNotes /\
     StronglySorted (scoresBelow noteScore) ranked /\
     exists result others,
       selectReminisceNotes env count = Return result /\
       Permutation allNotes (result ++ others) /\
       Z.of_nat (List.length result) =
         (if count <? 0 then Z.max (n + count) 0 else Z.min count n) /\
       (n <= count -> others = [] /\ result = shuffle env allNotes) /\
       (count < n ->
        result = shuffle env (map note (firstn kept ranked)) /\
        Permutation result (map note (firstn kept ranked)) /\
        others = map note (skipn kept ranked) /\
        forall a b, In a (firstn kept ranked) -> In b (skipn kept ranked) ->
                    (noteScore b <=? noteScore a)%float = true)).
Proof.
  split; [intros e He; unfold selectReminisceNotes; rewrite He; reflexivity|].
  intros allNotes Hall n ranked kept.
  assert (Hsorted : StronglySorted (scoresBelow noteScore) ranked).
  { apply (Array_sort_sorted _ noteScore byNoteScoreDescending).
    - reflexivity.
    - apply scoreNotes_not_nan. }
  split; [apply ranked_notes|]. split; [exact Hsorted|].
  unfold selectReminisceNotes. rewrite Hall. cbn [bind].
  fold n.
  destruct (Z.eqb_spec n 0) as [H0|H0].
  - exists [], []. assert (allNotes = []) by (destruct allNotes; [reflexivity|cbn in *; lia]).
    subst allNotes. split; [reflexivity|]. split; [constructor|].
    split; [|split].
    + cbn [List.length]. change n with 0.
      destruct (count <? 0) eqn:E; [apply Z.ltb_lt in E|apply Z.ltb_ge in E]; lia.
    + intros _. split; reflexivity.
    + intros _. unfold ranked. cbn [scoreNotes Array_sort]. rewrite firstn_nil, skipn_nil.
      split; [reflexivity|]. split; [constructor|]. split; [reflexivity|].
      intros a b [].
  - destruct (Z.leb_spec n count) as [Hle|Hgt].
    + exists (shuffle env allNotes), []. split; [reflexivity|].
      rewrite app_nil_r. split; [apply Permutation_sym, shuffle_perm|].
      split; [|split].
      * rewrite (Permutation_length (shuffle_perm env allNotes)). fold n.
        destruct (count <? 0) eqn:E; [apply Z.ltb_lt in E|apply Z.ltb_ge in E]; lia.
      * intros _. split; reflexivity.
      * intros Hlt. lia.
    + fold ranked.
      assert (Hlen : Z.of_nat (List.length ranked) = n).
      { unfold ranked, n.
        rewrite (Permutation_length (Array_sort_perm _ _ _)).
        rewrite <- (scoreNotes_notes env allNotes 0) at 2. rewrite length_map.
        reflexivity. }
      unfold Array_slice0. rewrite Hlen. fold kept.
      exists (shuffle env (map note (firstn kept ranked))), (map note (skipn kept ranked)).
      split; [reflexivity|]. split; [|split; [|split; [lia|]]].
      * apply Permutation_trans
          with (map note (firstn kept ranked) ++ map note (skipn kept ranked)).
        -- rewrite <- map_app, firstn_skipn. apply Permutation_sym, ranked_notes.
        -- apply Permutation_app_tail, Permutation_sym, shuffle_perm.
      * rewrite (Permutation_length (shuffle_perm env _)), length_map, length_firstn.
        unfold kept. destruct (count <? 0) eqn:E;
          [apply Z.ltb_lt in E|apply Z.ltb_ge in E]; lia.
      * intros _. split; [reflexivity|]. split; [apply shuffle_perm|].
        split; [reflexivity|].
        intros a b Ha Hb. apply (StronglySorted_split _ _ _ Hsorted a b Ha Hb).
Qed.

Lemma reminisce_selection_size_witness :
  exists result others,
    selectReminisceNotes reminisceEnv (-1) = Return result /\
    Permutation [noteB; noteA] (result ++ others) /\
    result = [noteA] /\ others = [noteB].
Proof.
  destruct (proj2 (reminisce_selection_size reminisceEnv (-1)) [noteB; noteA] eq_refl)
    as (_ & _ & result & others & H1 & H2 & _ & _ & H3).
  destruct (H3 ltac:(simpl; lia)) as (Hr & _ & Ho & _).
  exists result, others. split; [exact H1|]. split; [exact H2|].
  split; [rewrite Hr|rewrite Ho]; vm_compute; reflexivity.
Defined.

(* ================================================================== *)
(** * Part XVIII. The notes store                                      *)
(* ================================================================== *)

Lemma insertByTagId_perm (nt : NO.NoteTagRow) (sorted : list NO.NoteTagRow) :
  Permutation (NO.insertByTagId nt sorted) (nt :: sorted).
Proof.
  induction sorted as [|m sorted IH]; cbn [NO.insertByTagId]; [apply Permutation_refl|].
  destruct (NO.nt_tagId nt <? NO.nt_tagId m); [apply Permutation_refl|].
  apply Permutation_trans with (m :: nt :: sorted); [apply perm_skip, IH|apply perm_swap].
Qed.

Lemma byTagId_perm (links : list NO.NoteTagRow) : Permutation (NO.byTagId links) links.
Proof.
  unfold NO.byTagId.
  assert (H : forall acc,
            Permutation (fold_left (fun sorted nt => NO.insertByTagId nt sorted) links acc)
                        (links ++ acc)).
  { induction links as [|nt links IH]; intros acc; cbn [fold_left app];
      [apply Permutation_refl|].
    eapply Permutation_trans; [apply IH|].
    eapply Permutation_trans; [apply Permutation_app_head, insertByTagId_perm|].
    apply Permutation_sym, Permutation_middle. }
  rewrite <- (app_nil_r links) at 2. apply H.
Qed.

(** The tags of a note are those of its links, whatever the order. *)
Lemma tagsOf_perm (s : NO.Store) (i : Z) :
  Permutation (NO.tagsOf s i)
    (flat_map (fun nt => filter (fun t => tag_id t =? NO.nt_tagId nt) (NO.tags_rows s))
              (filter (fun nt => NO.nt_noteId nt =? i) (NO.note_tags_rows s))).
Proof. unfold NO.tagsOf, NO.linksOf. apply Permutation_flat_map, byTagId_perm. Qed.

Lemma executing_healthy {A : Type} (host : NO.Host) (statement : NO.NotesSql)
    (run : NO.T A) (s : NO.Store) :
  NO.healthy host -> NO.executing host statement run s = run s.
Proof. intros [_ H]. unfold NO.executing. rewrite H. reflexivity. Qed.

Lemma getDatabase_healthy (host : NO.Host) (s : NO.Store) :
  NO.healthy host -> NO.getDatabase host s = (Return tt, s).
Proof.
  intros [H _]. unfold NO.getDatabase, getDatabaseInstance. rewrite H. reflexivity.
Qed.

Lemma buildNoteWithDetails_healthy (host : NO.Host) (n : NO.NoteRow) (s : NO.Store) :
  NO.healthy host ->
  NO.buildNoteWithDetails host n s =
  (Return (NO.withDetails n (NO.tagsOf s (NO.note_id n)) (NO.imagesOf s (NO.note_id n))), s).
Proof.
  intros H. unfold NO.buildNoteWithDetails, NO.bindT, NO.getTagsForNote,
    NO.getImagesForNote, NO.retT.
  rewrite !executing_healthy by exact H. reflexivity.
Qed.

(** With nothing rejected, [getNoteById] reads the note stored under
    the id. *)
Lemma getNoteById_healthy (host : NO.Host) (i : Z) (s : NO.Store) :
  NO.healthy host -> NO.getNoteById host i s = (Return (NO.lookup s i), s).
Proof.
  intros H. unfold NO.getNoteById, NO.bindT, NO.selectNoteById, NO.lookup.
  rewrite getDatabase_healthy, executing_healthy by exact H.
  destruct (filter _ (NO.notes_rows s)) as [|n rest]; [reflexivity|].
  rewrite buildNoteWithDetails_healthy by exact H. reflexivity.
Qed.

Lemma lookup_id (s : NO.Store) (i : Z) (n : NoteWithDetails) :
  NO.lookup s i = Some n -> id n = i.
Proof.
  unfold NO.lookup. destruct (filter _ (NO.notes_rows s)) as [|r rest] eqn:E;
    [discriminate|].
  intros H. injection H as <-. cbn [NO.withDetails id].
  assert (Hin : In r (filter (fun n => NO.note_id n =? i) (NO.notes_rows s)))
    by (rewrite E; left; reflexivity).
  apply filter_In in Hin as [_ Hin]. apply Z.eqb_eq, Hin.
Qed.

Lemma filter_filter_neq {A : Type} (key : A -> Z) (i j : Z) (l : list A) :
  j <> i ->
  filter (fun x => key x =? j) (filter (fun x => negb (key x =? i)) l) =
  filter (fun x => key x =? j) l.
Proof.
  intros Hne. induction l as [|x l IH]; [reflexivity|]. cbn [filter].
  destruct (key x =? i) eqn:Ei; cbn [negb filter].
  - apply Z.eqb_eq in Ei. destruct (Z.eqb_spec (key x) j) as [Ej|_]; [congruence|].
    exact IH.
  - destruct (key x =? j); [f_equal|]; exact IH.
Qed.

Lemma filter_filter_same {A : Type} (key : A -> Z) (i : Z) (l : list A) :
  filter (fun x => key x =? i) (filter (fun x => negb (key x =? i)) l) = [].
Proof.
  induction l as [|x l IH]; [reflexivity|]. cbn [filter].
  destruct (key x =? i) eqn:Ei; cbn [negb filter]; [exact IH|].
  rewrite Ei. exact IH.
Qed.

(** What [deleteNote] leaves. *)
Lemma deleteNote_healthy (host : NO.Host) (i : Z) (s : NO.Store) :
  NO.healthy host ->
  exists s',
    NO.deleteNote host i s = (Return tt, s') /\
    NO.notes_rows s' = filter (fun n => negb (NO.note_id n =? i)) (NO.notes_rows s) /\
    NO.tags_rows s' = NO.tags_rows s /\
    NO.triggered s' = NO.triggered s /\
    (forall j, j <> i -> NO.tagsOf s' j = NO.tagsOf s j) /\
    (forall j, j <> i -> NO.imagesOf s' j = NO.imagesOf s j).
Proof.
  intros H. unfold NO.deleteNote, NO.bindT, NO.deleteNoteRow.
  rewrite getDatabase_healthy, executing_healthy by exact H.
  destruct (NO.foreignKeys host); eexists; (split; [reflexivity|]);
    cbn [NO.notes_rows NO.tags_rows NO.triggered NO.with_notes NO.with_note_tags
         NO.with_embeddings];
    repeat split; try reflexivity; intros j Hj.
  - unfold NO.tagsOf, NO.linksOf.
    cbn [NO.note_tags_rows NO.tags_rows NO.with_notes NO.with_note_tags
         NO.with_embeddings].
    rewrite (filter_filter_neq NO.nt_noteId i j _ Hj). reflexivity.
  - unfold NO.imagesOf.
    cbn [NO.embeddings NO.with_notes NO.with_note_tags NO.with_embeddings images_table].
    apply (filter_filter_neq image_noteId i j _ Hj).
Qed.

(** X16.  With nothing rejected, [deleteNote] removes the note: after
    it [getNoteById] answers [null] for that id and answers as before
    for every other id, with the same tags and images, whether or not
    the connection enforces foreign keys; no tag is deleted and no
    pipeline is triggered; and [retrieveRelevantNotes], served by the
    store it left, never returns the deleted note, whatever embeddings
    of it remain. *)
Theorem deleteNote_removes_the_note (host : NO.Host) (i : Z) (s : NO.Store) :
  NO.healthy host ->
  exists s',
    NO.deleteNote host i s = (Return tt, s') /\
    NO.getNoteById host i s' = (Return None, s') /\
    (forall j, j <> i -> NO.lookup s' j = NO.lookup s j) /\
    NO.tags_rows s' = NO.tags_rows s /\
    NO.triggered s' = NO.triggered s /\
    (forall env d q topK notes,
       retrieveRelevantNotes (serving env s') d q topK = Return notes ->
       forall r, In r notes -> r_noteId r <> i).
Proof.
  intros H. destruct (deleteNote_healthy host i s H) as (s' & Hrun & Hn & Ht & Htr & Htags & Himg).
  assert (Hgone : NO.lookup s' i = None).
  { unfold NO.lookup. rewrite Hn, (filter_filter_same NO.note_id). reflexivity. }
  exists s'. split; [exact Hrun|]. split; [|split; [|split; [|split]]]; auto.
  - rewrite getNoteById_healthy by exact H. rewrite Hgone. reflexivity.
  - intros j Hj. unfold NO.lookup. rewrite Hn, (filter_filter_neq NO.note_id i j _ Hj).
    destruct (filter (fun x => NO.note_id x =? j) (NO.notes_rows s)) as [|n rest] eqn:E;
      [reflexivity|].
    assert (Hid : NO.note_id n = j).
    { assert (Hin : In n (filter (fun n => NO.note_id n =? j) (NO.notes_rows s)))
        by (rewrite E; left; reflexivity).
      apply filter_In in Hin as [_ Hin]. apply Z.eqb_eq, Hin. }
    rewrite Hid, Htags, Himg by exact Hj. reflexivity.
  - intros env d q topK notes Hret r Hr Hid.
    destruct (dbInitialized (serving env s')) eqn:Hdb;
      [destruct (execFails (serving env s') SelectCompletedNoteEmbeddings) eqn:Hf1;
       [|destruct (execFails (serving env s') SelectCompletedImageEmbeddings) eqn:Hf2]|];
      try (rewrite retrieveRelevantNotes_failed in Hret by auto;
           injection Hret as <-; destruct Hr).
    rewrite (retrieveRelevantNotes_ok _ d q topK Hdb Hf1 Hf2) in Hret.
    injection Hret as <-.
    destruct (hydrated_In _ _ r Hr) as ([k c] & n & _ & Hget & ->).
    cbn [fst snd retrievedNote r_noteId] in *.
    cbn [serving getNoteById dbInitialized] in Hget, Hdb. rewrite Hdb in Hget.
    injection Hget as Hget. rewrite (lookup_id _ _ _ Hget) in Hid. subst k.
    congruence.
Qed.

Lemma deleteNote_removes_the_note_witness :
  exists s',
    NO.deleteNote NO.sampleHost 1 twoNotesStore = (Return tt, s') /\
    NO.getNoteById NO.sampleHost 1 s' = (Return None, s') /\
    NO.lookup s' 2 = NO.lookup twoNotesStore 2.
Proof.
  destruct (deleteNote_removes_the_note NO.sampleHost 1 twoNotesStore)
    as (s' & H1 & H2 & H3 & _).
  - split; reflexivity.
  - exists s'. split; [exact H1|]. split; [exact H2|]. apply H3. discriminate.
Defined.

(** ** A tag named twice *)

Lemma processTags_loop (host : NO.Host) (noteId : Z) (names : list jsstring) :
  NO.processTags host noteId names = NO.forEach (linkTag host noteId) names.
Proof. destruct names; reflexivity. Qed.

Ltac rejected := let E := fresh "E" in intros E; cbn in E; discriminate E.

(** What one turn of the loop does when it succeeds. *)
Lemma linkTag_success (host : NO.Host) (noteId : Z) (name : jsstring) (s s' : NO.Store) :
  linkTag host noteId name s = (Return tt, s') ->
  ~ linked s noteId name /\
  linked s' noteId name /\
  (forall other, linked s noteId other -> linked s' noteId other).
Proof.
  assert (Hkeep : forall (extra : list Tag) (links : list NO.NoteTagRow) other t rest,
            filter (fun t => jsstring_eqb (tag_name t) other) (NO.tags_rows s) = t :: rest ->
            existsb (fun nt => (NO.nt_noteId nt =? noteId) && (NO.nt_tagId nt =? tag_id t))
                    (NO.note_tags_rows s ++ links) = true ->
            exists t' rest',
              filter (fun t => jsstring_eqb (tag_name t) other) (NO.tags_rows s ++ extra)
                = t' :: rest' /\
              existsb (fun nt => (NO.nt_noteId nt =? noteId) && (NO.nt_tagId nt =? tag_id t'))
                      (NO.note_tags_rows s ++ links) = true).
  { intros extra links other t rest Hf He. exists t. eexists.
    rewrite filter_app, Hf. split; [reflexivity|exact He]. }
  unfold linkTag, NO.getOrCreateTag, NO.selectTagByName, NO.insertTag, NO.insertNoteTag,
    NO.foreignKeyFailed, NO.throwT, NO.retT, NO.executing, NO.bindT.
  destruct (NO.rejects host (NO.SelectTagByName name)); [rejected|].
  destruct (filter (fun t => jsstring_eqb (tag_name t) name) (NO.tags_rows s))
    as [|t rest] eqn:Hfound.
  - (* a new tag *)
    destruct (NO.rejects host (NO.InsertTag name)); [rejected|].
    destruct (existsb _ (NO.tags_rows s)); [rejected|].
    destruct (NO.rejects host (NO.InsertNoteTag _ _)); [rejected|].
    cbn [NO.note_tags_rows NO.tags_rows NO.notes_rows NO.with_tags].
    destruct (existsb _ (NO.note_tags_rows s)) eqn:Hpair; [rejected|].
    destruct (NO.foreignKeys host && _); [rejected|].
    intros E. injection E as <-. unfold linked.
    cbn [NO.note_tags_rows NO.tags_rows NO.with_tags NO.with_note_tags].
    split; [|split].
    + intros (t & rest & Hf & _). rewrite Hfound in Hf. discriminate Hf.
    + eexists. exists []. rewrite filter_app, Hfound. cbn [filter app tag_name].
      rewrite jsstring_eqb_refl. split; [reflexivity|].
      rewrite existsb_app. cbn [existsb NO.nt_noteId NO.nt_tagId tag_id].
      rewrite !Z.eqb_refl. apply orb_true_r.
    + intros other (t & rest & Hf & He). eapply Hkeep; [exact Hf|].
      rewrite existsb_app, He. reflexivity.
  - (* a tag that exists *)
    destruct (NO.rejects host (NO.InsertNoteTag _ _)); [rejected|].
    destruct (existsb _ (NO.note_tags_rows s)) eqn:Hpair; [rejected|].
    destruct (NO.foreignKeys host && _); [rejected|].
    intros E. injection E as <-. unfold linked.
    cbn [NO.note_tags_rows NO.tags_rows NO.with_note_tags].
    split; [|split].
    + intros (t' & rest' & Hf & He). rewrite Hfound in Hf. injection Hf as <- _.
      congruence.
    + exists t, rest. split; [exact Hfound|].
      rewrite existsb_app. cbn [existsb NO.nt_noteId NO.nt_tagId].
      rewrite !Z.eqb_refl. apply orb_true_r.
    + intros other (t' & rest' & Hf & He).
      destruct (Hkeep [] [{| NO.nt_noteId := noteId; NO.nt_tagId := tag_id t |}]
                  other t' rest' Hf) as (t'' & rest'' & Hf'' & He'').
      * rewrite existsb_app, He. reflexivity.
      * rewrite app_nil_r in Hf''. exists t'', rest''. split; assumption.
Qed.

Lemma forEach_throws (host : NO.Host) (noteId : Z) (names : list jsstring) :
  forall s,
    ~ NoDup names \/ (exists name, In name names /\ linked s noteId name) ->
    exists e s', NO.forEach (linkTag host noteId) names s = (Throw e, s').
Proof.
  induction names as [|name names IH]; intros s H.
  - destruct H as [H|(name & [] & _)]. exfalso. apply H. constructor.
  - cbn [NO.forEach]. unfold NO.bindT at 1.
    destruct (linkTag host noteId name s) as [[[]|e] s1] eqn:E; [|eauto].
    destruct (linkTag_success host noteId name s s1 E) as (Hnot & Hnow & Hkeep).
    apply IH.
    destruct H as [H|(other & [<-|Hin] & Hl)].
    + destruct (in_dec (list_eq_dec N.eq_dec) name names) as [Hin|Hnin].
      * right. exists name. split; assumption.
      * left. intros Hnd. apply H. constructor; assumption.
    + contradiction.
    + right. exists other. split; [exact Hin|apply Hkeep, Hl].
Qed.

(** X17.  A tag name given twice makes [createNote] (and [updateNote])
    fail: the second link violates the primary key of [note_tags], the
    transaction is rolled back, the call rejects, the store is exactly as
    it was (no note, no tag, no image is left behind) and no pipeline is
    triggered.  This holds whatever else goes wrong. *)
Theorem duplicate_tag_rolls_back (host : NO.Host) (s : NO.Store) :
  (forall input, ~ NoDup (NO.in_tags input) ->
     exists e, NO.createNote host input s = (Throw e, s)) /\
  (forall input, ~ NoDup (NO.up_tags input) ->
     exists e, NO.updateNote host input s = (Throw e, s)).
Proof.
  split; intros input Hdup.
  - unfold NO.createNote. unfold NO.bindT at 1.
    destruct (NO.getDatabase host s) as [[[]|e] s0] eqn:Hdb;
      unfold NO.getDatabase in Hdb; injection Hdb as Hdb <-; [|eauto].
    unfold NO.bindT at 1. unfold NO.transaction.
    unfold NO.bindT at 1.
    destruct (NO.insertNote host _ _ _ _ s) as [[noteId|e] s1]; [|eauto].
    unfold NO.bindT at 1. rewrite processTags_loop.
    destruct (forEach_throws host noteId (NO.in_tags input) s1 (or_introl Hdup))
      as (e & s2 & ->). eauto.
  - unfold NO.updateNote. unfold NO.bindT at 1.
    destruct (NO.getDatabase host s) as [[[]|e] s0] eqn:Hdb;
      unfold NO.getDatabase in Hdb; injection Hdb as Hdb <-; [|eauto].
    unfold NO.bindT at 1. unfold NO.transaction.
    unfold NO.bindT at 1.
    destruct (NO.updateNoteFields host _ _ _ _ _ s) as [[[]|e] s1]; [|eauto].
    unfold NO.bindT at 1.
    destruct (NO.deleteNoteTags host _ s1) as [[[]|e] s2]; [|eauto].
    unfold NO.bindT at 1.
    destruct (NO.deleteImages host _ s2) as [[[]|e] s3]; [|eauto].
    unfold NO.bindT at 1. rewrite processTags_loop.
    destruct (forEach_throws host (NO.up_id input) (NO.up_tags input) s3
                (or_introl Hdup)) as (e & s4 & ->). eauto.
Qed.

Lemma duplicate_tag_rolls_back_witness :
  exists e, NO.createNote NO.sampleHost duplicateTagInput NO.emptyStore
            = (Throw e, NO.emptyStore).
Proof.
  apply (proj1 (duplicate_tag_rolls_back NO.sampleHost NO.emptyStore) duplicateTagInput).
  intros H. inversion H as [|? ? Hnot _]. apply Hnot. right. left. reflexivity.
Defined.

(** ** Creating a note *)

Lemma jsstring_eqb_eq (a b : jsstring) : jsstring_eqb a b = true -> a = b.
Proof.
  unfold jsstring_eqb. destruct (list_eq_dec N.eq_dec a b); [auto|discriminate].
Qed.

Lemma fold_max_le (ids : list Z) (i : Z) : In i ids -> i <= fold_right Z.max 0 ids.
Proof.
  induction ids as [|x ids IH]; cbn [In fold_right]; [tauto|].
  intros [->|H]; [lia|]. specialize (IH H). lia.
Qed.

Lemma bound_le (seq : Z) (ids : list Z) (i : Z) : In i ids -> i <= NO.bound seq ids.
Proof. intros H. unfold NO.bound. pose proof (fold_max_le ids i H). lia. Qed.

Lemma nextId_bound (seq : Z) (ids : list Z) : NO.nextId seq ids = NO.bound seq ids + 1.
Proof. reflexivity. Qed.

Lemma fold_max_snoc (ids : list Z) (x : Z) :
  fold_right Z.max 0 (ids ++ [x]) = Z.max (fold_right Z.max 0 ids) (Z.max x 0).
Proof.
  induction ids as [|y ids IH]; cbn [app fold_right]; [lia|]. rewrite IH. lia.
Qed.

Lemma bound_snoc (seq : Z) (ids : list Z) :
  NO.bound (NO.nextId seq ids) (ids ++ [NO.nextId seq ids]) = NO.nextId seq ids.
Proof.
  unfold NO.bound, NO.nextId. rewrite fold_max_snoc.
  assert (0 <= fold_right Z.max 0 ids)
    by (induction ids as [|y ids IH]; cbn [fold_right]; lia).
  lia.
Qed.

Lemma hasId_In (ids : list Z) (i : Z) : NO.hasId ids i = true <-> In i ids.
Proof.
  unfold NO.hasId. rewrite existsb_exists. split.
  - intros (x & Hx & E). apply Z.eqb_eq in E. subst. exact Hx.
  - intros H. exists i. split; [exact H|apply Z.eqb_refl].
Qed.

Lemma filter_by_key {A : Type} (key : A -> Z) (l : list A) (x : A) :
  NoDup (map key l) -> In x l -> filter (fun y => key y =? key x) l = [x].
Proof.
  induction l as [|y l IH]; cbn [map In filter]; [tauto|].
  intros Hnd Hin. inversion Hnd as [|? ? Hnot Hnd']; subst.
  destruct Hin as [->|Hin].
  - rewrite Z.eqb_refl. f_equal. apply filter_none. intros z Hz.
    apply Z.eqb_neq. intros E. apply Hnot. rewrite <- E. apply in_map, Hz.
  - destruct (Z.eqb_spec (key y) (key x)) as [E|_]; [|apply IH; assumption].
    exfalso. apply Hnot. rewrite E. apply in_map, Hin.
Qed.

Lemma same_key_same_row {A : Type} (key : A -> Z) (l : list A) (x y : A) :
  NoDup (map key l) -> In x l -> In y l -> key x = key y -> x = y.
Proof.
  intros Hnd Hx Hy E.
  pose proof (filter_by_key key l x Hnd Hx) as Fx.
  assert (Hin : In y (filter (fun z => key z =? key x) l)).
  { apply filter_In. split; [exact Hy|]. apply Z.eqb_eq. symmetry. exact E. }
  rewrite Fx in Hin. destruct Hin as [<-|[]]. reflexivity.
Qed.

Lemma Tag_eta (t : Tag) : {| tag_id := tag_id t; tag_name := tag_name t |} = t.
Proof. destruct t; reflexivity. Qed.

Lemma existsb_false {A : Type} (f : A -> bool) (l : list A) :
  (forall x, In x l -> f x = false) -> existsb f l = false.
Proof.
  induction l as [|x l IH]; intros H; cbn [existsb]; [reflexivity|].
  rewrite (H x (or_introl eq_refl)). apply IH. intros y Hy. apply H. right. exact Hy.
Qed.

Lemma NoDup_snoc_fresh (ids : list Z) (i : Z) :
  NoDup ids -> (forall j, In j ids -> j < i) -> NoDup (ids ++ [i]).
Proof.
  intros Hnd Hlt. apply NoDup_app; [exact Hnd|repeat constructor; intros []|].
  intros j Hj [<-|[]]. specialize (Hlt _ Hj). lia.
Qed.

(** One turn of the tag loop, nothing being rejected. *)
Lemma linkTag_healthy (host : NO.Host) (noteId : Z) (name : jsstring) (s : NO.Store) :
  NO.healthy host ->
  NoDup (map tag_id (NO.tags_rows s)) ->
  In noteId (map NO.note_id (NO.notes_rows s)) ->
  (forall nt, In nt (NO.note_tags_rows s) -> NO.nt_noteId nt = noteId ->
     exists name', name' <> name /\
       In {| tag_id := NO.nt_tagId nt; tag_name := name' |} (NO.tags_rows s)) ->
  (forall nt, In nt (NO.note_tags_rows s) ->
     NO.nt_tagId nt <= NO.bound (NO.seq_tags s) (map tag_id (NO.tags_rows s))) ->
  exists s' tagId extra,
    linkTag host noteId name s = (Return tt, s') /\
    NO.notes_rows s' = NO.notes_rows s /\ NO.embeddings s' = NO.embeddings s /\
    NO.seq_notes s' = NO.seq_notes s /\ NO.seq_images s' = NO.seq_images s /\
    NO.triggered s' = NO.triggered s /\
    NO.tags_rows s' = NO.tags_rows s ++ extra /\
    NO.note_tags_rows s' =
      NO.note_tags_rows s ++ [{| NO.nt_noteId := noteId; NO.nt_tagId := tagId |}] /\
    In {| tag_id := tagId; tag_name := name |} (NO.tags_rows s') /\
    NoDup (map tag_id (NO.tags_rows s')) /\
    Forall (fun t => NO.bound (NO.seq_tags s) (map tag_id (NO.tags_rows s)) < tag_id t)
           extra /\
    NO.bound (NO.seq_tags s) (map tag_id (NO.tags_rows s)) <=
      NO.bound (NO.seq_tags s') (map tag_id (NO.tags_rows s')) /\
    tagId <= NO.bound (NO.seq_tags s') (map tag_id (NO.tags_rows s')).
Proof.
  intros [Hdb Hrej] Hnd Hnote Hother Hbound.
  unfold linkTag, NO.getOrCreateTag, NO.selectTagByName, NO.insertTag, NO.insertNoteTag,
    NO.foreignKeyFailed, NO.throwT, NO.retT, NO.executing, NO.bindT.
  rewrite !Hrej.
  destruct (filter (fun t => jsstring_eqb (tag_name t) name) (NO.tags_rows s))
    as [|t rest] eqn:Hfound.
  - (* a new tag *)
    set (newId := NO.nextId (NO.seq_tags s) (map tag_id (NO.tags_rows s))).
    assert (Hnone : existsb (fun t => jsstring_eqb (tag_name t) name) (NO.tags_rows s)
                    = false).
    { apply existsb_false. intros t Ht.
      destruct (jsstring_eqb (tag_name t) name) eqn:E; [|reflexivity].
      assert (Hin : In t (filter (fun t => jsstring_eqb (tag_name t) name)
                            (NO.tags_rows s))) by (apply filter_In; auto).
      rewrite Hfound in Hin. destruct Hin. }
    rewrite Hnone, Hrej.
    cbn [NO.note_tags_rows NO.tags_rows NO.notes_rows NO.with_tags].
    assert (Hpair : existsb (fun nt => (NO.nt_noteId nt =? noteId) &&
                                       (NO.nt_tagId nt =? newId))
                            (NO.note_tags_rows s) = false).
    { apply existsb_false. intros nt Hnt. apply andb_false_iff. right.
      apply Z.eqb_neq. specialize (Hbound nt Hnt). unfold newId.
      rewrite nextId_bound. lia. }
    rewrite Hpair.
    assert (Hfk : NO.foreignKeys host &&
                  negb (NO.hasId (map NO.note_id (NO.notes_rows s)) noteId &&
                        NO.hasId (map tag_id
                                    (NO.tags_rows s ++
                                     [{| tag_id := newId; tag_name := name |}])) newId)
                  = false).
    { rewrite (proj2 (hasId_In _ _) Hnote).
      rewrite (proj2 (hasId_In _ newId)); [apply andb_false_r|].
      rewrite map_app. apply in_or_app. right. left. reflexivity. }
    rewrite Hfk.
    eexists. exists newId, [{| tag_id := newId; tag_name := name |}].
    split; [reflexivity|].
    cbn [NO.notes_rows NO.embeddings NO.seq_notes NO.seq_images NO.triggered NO.tags_rows
         NO.note_tags_rows NO.seq_tags NO.with_tags NO.with_note_tags].
    repeat split; try reflexivity.
    + apply in_or_app. right. left. reflexivity.
    + rewrite map_app. cbn [map tag_id]. apply NoDup_snoc_fresh; [exact Hnd|].
      intros j Hj. pose proof (bound_le (NO.seq_tags s) _ j Hj).
      unfold newId. rewrite nextId_bound. lia.
    + constructor; [|constructor]. cbn [tag_id]. unfold newId.
      rewrite nextId_bound. lia.
    + rewrite map_app. cbn [map tag_id]. unfold newId. rewrite bound_snoc, nextId_bound.
      lia.
    + rewrite map_app. cbn [map tag_id]. unfold newId. rewrite bound_snoc. lia.
  - (* a tag that exists *)
    assert (Ht : In t (NO.tags_rows s) /\ tag_name t = name).
    { assert (Hin : In t (filter (fun t => jsstring_eqb (tag_name t) name)
                            (NO.tags_rows s))) by (rewrite Hfound; left; reflexivity).
      apply filter_In in Hin as [Hin E]. split; [exact Hin|apply jsstring_eqb_eq, E]. }
    destruct Ht as [Ht Hname].
    assert (Hpair : existsb (fun nt => (NO.nt_noteId nt =? noteId) &&
                                       (NO.nt_tagId nt =? tag_id t))
                            (NO.note_tags_rows s) = false).
    { apply existsb_false. intros nt Hnt.
      destruct ((NO.nt_noteId nt =? noteId) && (NO.nt_tagId nt =? tag_id t)) eqn:E;
        [|reflexivity].
      apply andb_prop in E as [E1 E2]. apply Z.eqb_eq in E1, E2.
      destruct (Hother nt Hnt E1) as (name' & Hne & Hin).
      pose proof (same_key_same_row tag_id _ _ _ Hnd Hin Ht E2) as Heq.
      rewrite <- Heq in Hname. cbn [tag_name] in Hname. contradiction. }
    rewrite ?Hrej, Hpair.
    assert (Hfk : NO.foreignKeys host &&
                  negb (NO.hasId (map NO.note_id (NO.notes_rows s)) noteId &&
                        NO.hasId (map tag_id (NO.tags_rows s)) (tag_id t)) = false).
    { rewrite (proj2 (hasId_In _ _) Hnote).
      rewrite (proj2 (hasId_In _ (tag_id t))); [apply andb_false_r|].
      apply in_map, Ht. }
    rewrite Hfk.
    eexists. exists (tag_id t), [].
    split; [reflexivity|].
    cbn [NO.notes_rows NO.embeddings NO.seq_notes NO.seq_images NO.triggered NO.tags_rows
         NO.note_tags_rows NO.seq_tags NO.with_tags NO.with_note_tags].
    rewrite app_nil_r. repeat split; try reflexivity; try assumption.
    all: try (rewrite <- Hname, Tag_eta; exact Ht).
    all: try (apply bound_le, in_map, Ht).
    all: try apply Z.le_refl.
    all: try apply Forall_nil.
Qed.

(** The tag loop, nothing being rejected. *)
Lemma processTags_healthy (host : NO.Host) (noteId : Z) (names : list jsstring) :
  NO.healthy host ->
  forall s,
    NoDup names ->
    NoDup (map tag_id (NO.tags_rows s)) ->
    In noteId (map NO.note_id (NO.notes_rows s)) ->
    (forall nt, In nt (NO.note_tags_rows s) -> NO.nt_noteId nt = noteId ->
       exists name', ~ In name' names /\
         In {| tag_id := NO.nt_tagId nt; tag_name := name' |} (NO.tags_rows s)) ->
    (forall nt, In nt (NO.note_tags_rows s) ->
       NO.nt_tagId nt <= NO.bound (NO.seq_tags s) (map tag_id (NO.tags_rows s))) ->
    exists s',
      NO.processTags host noteId names s = (Return tt, s') /\
      afterTags s s' noteId names.
Proof.
  intros Hh. rewrite processTags_loop.
  induction names as [|x rest IH]; intros s Hnames Hnd Hnote Hother Hbound.
  - exists s. split; [reflexivity|]. exists [], [].
    rewrite !app_nil_r. repeat split; try reflexivity; try assumption.
    all: try apply Z.le_refl.
    all: try (intros nt []).
    all: constructor.
  - inversion Hnames as [|? ? Hx Hrest]; subst.
    destruct (linkTag_healthy host noteId x s Hh Hnd Hnote) as
      (s1 & tagId & extra1 & Hrun & Hn1 & He1 & Hsn1 & Hsi1 & Htr1 & Ht1 & Hl1 & Hin1
          & Hnd1 & Hfresh1 & Hmono1 & Htag1).
    { intros nt Hnt Hid. destruct (Hother nt Hnt Hid) as (name' & Hnot & Hrow).
      exists name'. split; [|exact Hrow]. intros ->. apply Hnot. left. reflexivity. }
    { exact Hbound. }
    destruct (IH s1 Hrest Hnd1) as (s' & Hloop & extra2 & links2 & Hn2 & He2 & Hsn2 & Hsi2
                                       & Htr2 & Ht2 & Hl2 & Hfor2 & Hnd2 & Hfresh2
                                       & Hmono2 & Htag2).
    { rewrite Hn1. exact Hnote. }
    { intros nt Hnt Hid. rewrite Hl1 in Hnt. apply in_app_or in Hnt as [Hnt|[<-|[]]].
      - destruct (Hother nt Hnt Hid) as (name' & Hnot & Hrow).
        exists name'. split; [intros Hr; apply Hnot; right; exact Hr|].
        rewrite Ht1. apply in_or_app. left. exact Hrow.
      - exists x. split; [exact Hx|exact Hin1]. }
    { intros nt Hnt. rewrite Hl1 in Hnt. apply in_app_or in Hnt as [Hnt|[<-|[]]].
      - specialize (Hbound nt Hnt). lia.
      - exact Htag1. }
    exists s'. split.
    { cbn [NO.forEach]. unfold NO.bindT at 1. rewrite Hrun. exact Hloop. }
    exists (extra1 ++ extra2),
      ({| NO.nt_noteId := noteId; NO.nt_tagId := tagId |} :: links2).
    do 5 (split; [congruence|]).
    split; [rewrite Ht2, Ht1, app_assoc; reflexivity|].
    split; [rewrite Hl2, Hl1, <- app_assoc; reflexivity|].
    split.
    { constructor; [|exact Hfor2]. split; [reflexivity|].
      rewrite Ht2. apply in_or_app. left. exact Hin1. }
    split; [exact Hnd2|].
    split.
    { apply Forall_app. split; [exact Hfresh1|].
      eapply Forall_impl; [|exact Hfresh2]. intros t Ht. cbv beta in Ht. lia. }
    split; [lia|].
    intros nt [<-|Hnt]; [cbn [NO.nt_tagId]; lia|apply Htag2, Hnt].
Qed.

(** One turn of the image loop, and the loop. *)
Lemma processImages_loop (host : NO.Host) (noteId : Z) (inputs : list (jsstring * jsstring)) :
  NO.processImages host noteId inputs =
  NO.forEach (fun image => NO.insertImage host noteId (fst image) (snd image)) inputs.
Proof. destruct inputs; reflexivity. Qed.

Lemma processImages_healthy (host : NO.Host) (noteId : Z)
    (inputs : list (jsstring * jsstring)) :
  NO.healthy host ->
  forall s,
    In noteId (map NO.note_id (NO.notes_rows s)) ->
    exists s',
      NO.processImages host noteId inputs s = (Return tt, s') /\
      afterImages s s' noteId inputs.
Proof.
  intros [Hdb Hrej]. rewrite processImages_loop.
  induction inputs as [|input rest IH]; intros s Hnote.
  - exists s. split; [reflexivity|]. exists [].
    rewrite app_nil_r. do 9 (split; [reflexivity|]). split; constructor.
  - set (newId := NO.nextId (NO.seq_images s)
                    (map image_id (images_table (NO.embeddings s)))).
    set (row := {| image_id := newId; image_noteId := noteId;
                   image_uri := fst input; image_description := snd input |}).
    set (s1 := NO.with_embeddings
                 (NO.with_images (images_table (NO.embeddings s) ++ [row])
                    (NO.embeddings s)) newId s).
    assert (Hrun : NO.insertImage host noteId (fst input) (snd input) s = (Return tt, s1)).
    { unfold NO.insertImage, NO.executing. rewrite Hrej.
      rewrite (proj2 (hasId_In _ _) Hnote). rewrite andb_false_r. reflexivity. }
    destruct (IH s1) as (s' & Hloop & rows & Hn & Ht & Hl & Hsn & Hst & Htr & Hne & Hie
                            & Him & Hfor & Hfresh).
    { exact Hnote. }
    exists s'. split.
    { cbn [NO.forEach]. unfold NO.bindT at 1. rewrite Hrun. exact Hloop. }
    exists (row :: rows).
    do 8 (split; [assumption|]).
    split.
    { rewrite Him. unfold s1.
      cbn [NO.embeddings NO.with_embeddings NO.with_images images_table].
      rewrite <- app_assoc. reflexivity. }
    split.
    { constructor; [|exact Hfor]. repeat split. }
    constructor.
    + cbn [row image_id]. unfold newId. rewrite nextId_bound. lia.
    + eapply Forall_impl; [|exact Hfresh]. intros i Hi. cbv beta in Hi.
      unfold s1 in Hi.
      cbn [NO.embeddings NO.seq_images NO.with_embeddings NO.with_images images_table]
        in Hi.
      rewrite map_app in Hi. cbn [map row image_id] in Hi.
      unfold newId in Hi. rewrite bound_snoc, nextId_bound in Hi. lia.
Qed.

Lemma filter_all {A : Type} (f : A -> bool) (l : list A) :
  (forall x, In x l -> f x = true) -> filter f l = l.
Proof.
  induction l as [|x l IH]; intros H; cbn [filter]; [reflexivity|].
  rewrite (H x (or_introl eq_refl)). f_equal. apply IH. intros y Hy. apply H. right.
  exact Hy.
Qed.

Lemma linksFor_note (tags_ : list Tag) (noteId : Z) (names : list jsstring)
    (links : list NO.NoteTagRow) :
  linksFor tags_ noteId names links ->
  forall nt, In nt links -> NO.nt_noteId nt = noteId.
Proof.
  induction 1 as [|name nt names links [Hid _] _ IH]; intros nt' Hin.
  - destruct Hin.
  - destruct Hin as [<-|Hin]; auto.
Qed.

Lemma linksFor_tags (tags_ : list Tag) (noteId : Z) (names : list jsstring)
    (links : list NO.NoteTagRow) :
  NoDup (map tag_id tags_) ->
  linksFor tags_ noteId names links ->
  map tag_name
      (flat_map (fun nt => filter (fun t => tag_id t =? NO.nt_tagId nt) tags_) links)
  = names.
Proof.
  intros Hnd. induction 1 as [|name nt names links [_ Hin] _ IH]; [reflexivity|].
  cbn [flat_map].
  pose proof (filter_by_key tag_id tags_ {| tag_id := NO.nt_tagId nt; tag_name := name |}
                Hnd Hin) as E.
  cbn [tag_id] in E. rewrite E.
  cbn [app map tag_name]. f_equal. exact IH.
Qed.

Lemma imagesFor_rows (noteId : Z) (inputs : list (jsstring * jsstring))
    (rows : list Image) :
  imagesFor noteId inputs rows ->
  (forall i, In i rows -> image_noteId i = noteId) /\
  map (fun i => (image_uri i, image_description i)) rows = inputs.
Proof.
  induction 1 as [|input i inputs rows (Hid & Hu & Hd) _ [IH1 IH2]].
  - split; [intros i []|reflexivity].
  - split.
    + intros i' [<-|H]; auto.
    + cbn [map]. rewrite Hu, Hd, IH2. destruct input; reflexivity.
Qed.

Lemma flat_map_ext_In {A B : Type} (f g : A -> list B) (l : list A) :
  (forall x, In x l -> f x = g x) -> flat_map f l = flat_map g l.
Proof.
  induction l as [|x l IH]; intros H; cbn [flat_map]; [reflexivity|].
  rewrite (H x (or_introl eq_refl)). f_equal. apply IH. intros y Hy. apply H. right.
  exact Hy.
Qed.

(** The details of a note after rows of other notes and fresh tags were added. *)
Lemma details_after (s s' : NO.Store) (i : Z) (extra : list Tag)
    (links : list NO.NoteTagRow) (rows : list Image) :
  NO.tags_rows s' = NO.tags_rows s ++ extra ->
  NO.note_tags_rows s' = NO.note_tags_rows s ++ links ->
  images_table (NO.embeddings s') = images_table (NO.embeddings s) ++ rows ->
  (forall nt, In nt (NO.note_tags_rows s) ->
     NO.nt_tagId nt <= NO.bound (NO.seq_tags s) (map tag_id (NO.tags_rows s))) ->
  Forall (fun t => NO.bound (NO.seq_tags s) (map tag_id (NO.tags_rows s)) < tag_id t)
         extra ->
  (forall nt, In nt links -> NO.nt_noteId nt <> i) ->
  (forall r, In r rows -> image_noteId r <> i) ->
  NO.tagsOf s' i = NO.tagsOf s i /\ NO.imagesOf s' i = NO.imagesOf s i.
Proof.
  intros Ht Hl Him Hbound Hfresh Hlinks Hrows. split.
  - unfold NO.tagsOf, NO.linksOf. rewrite Ht, Hl, filter_app.
    rewrite (filter_none _ links), app_nil_r
      by (intros nt Hnt; apply Z.eqb_neq, Hlinks, Hnt).
    apply flat_map_ext_In. intros nt Hnt.
    apply (Permutation_in nt (byTagId_perm _)) in Hnt.
    apply filter_In in Hnt as [Hnt _].
    rewrite filter_app, (filter_none _ extra), app_nil_r; [reflexivity|].
    intros t Hin. apply Z.eqb_neq. rewrite Forall_forall in Hfresh.
    specialize (Hfresh t Hin). specialize (Hbound nt Hnt). lia.
  - unfold NO.imagesOf. rewrite Him, filter_app.
    rewrite (filter_none _ rows), app_nil_r; [reflexivity|].
    intros r Hr. apply Z.eqb_neq, Hrows, Hr.
Qed.

(** X18.  With nothing rejected, on a sound store and for tag names
    that are all different, [createNote] returns an id that no note has
    had; [getNoteById] of that id then gives the note as it was put in:
    title, content and audio, no recall script, never shown, created and
    updated at the time of the call, with the given tags and the given
    images; every other note reads as before; the store is sound again;
    and the embedding pipeline of the new note has been triggered. *)
Theorem createNote_then_getNoteById (host : NO.Host) (input : NO.CreateNoteInput)
    (s : NO.Store) :
  NO.healthy host ->
  NO.sound s ->
  NoDup (NO.in_tags input) ->
  exists noteId s' found,
    NO.createNote host input s = (Return noteId, s') /\
    (forall n, In n (NO.notes_rows s) -> NO.note_id n < noteId) /\
    NO.triggered s' = NO.triggered s ++ [CreateNote noteId] /\
    NO.getNoteById host noteId s' = (Return (Some found), s') /\
    id found = noteId /\
    title found = NO.in_title input /\
    content found = NO.in_content input /\
    audioUri found = NO.in_audioUri input /\
    recallScript found = None /\
    lastShownInReminisce found = None /\
    createdAt found = Date_now (NO.base host) 0 /\
    updatedAt found = Date_now (NO.base host) 0 /\
    Permutation (map tag_name (tags found)) (NO.in_tags input) /\
    Permutation (map (fun i => (image_uri i, image_description i)) (images found))
                (NO.in_images input) /\
    (forall other, other <> noteId -> NO.lookup s' other = NO.lookup s other) /\
    NO.sound s'.
Proof.
  intros Hh [Hsn Hst Hsl Hsi] Hnames. pose proof Hh as [Hdb Hrej].
  set (now := Date_now (NO.base host) 0).
  set (newId := NO.nextId (NO.seq_notes s) (map NO.note_id (NO.notes_rows s))).
  set (row := {| NO.note_id := newId; NO.note_title := NO.in_title input;
                 NO.note_content := NO.in_content input;
                 NO.note_audioUri := NO.in_audioUri input;
                 NO.note_recallScript := None;
                 NO.note_lastShownInReminisce := None;
                 NO.note_createdAt := now; NO.note_updatedAt := now |}).
  set (s1 := NO.with_notes (NO.notes_rows s ++ [row]) newId s).
  assert (Hins : NO.insertNote host (NO.in_title input) (NO.in_content input)
                   (NO.in_audioUri input) now s = (Return newId, s1)).
  { unfold NO.insertNote, NO.executing. rewrite Hrej. reflexivity. }
  assert (HnewId : newId = NO.bound (NO.seq_notes s) (map NO.note_id (NO.notes_rows s)) + 1)
    by reflexivity.
  assert (Hold : forall n, In n (NO.notes_rows s) -> NO.note_id n < newId).
  { intros n Hn. pose proof (bound_le (NO.seq_notes s) _ _ (in_map NO.note_id _ _ Hn)).
    lia. }
  assert (Hnote1 : In newId (map NO.note_id (NO.notes_rows s1))).
  { unfold s1. cbn [NO.notes_rows NO.with_notes]. rewrite map_app.
    apply in_or_app. right. left. reflexivity. }
  destruct (processTags_healthy host newId (NO.in_tags input) Hh s1 Hnames Hst Hnote1)
    as (s2 & Hrun2 & extra & links & Hn2 & He2 & Hsn2 & Hsi2 & Htr2 & Ht2 & Hl2 & Hfor
           & Hnd2 & Hfresh & Hmono & Htagb).
  { intros nt Hnt Hid. exfalso. destruct (Hsl nt Hnt) as [Hb _]. lia. }
  { intros nt Hnt. apply (Hsl nt Hnt). }
  destruct (processImages_healthy host newId (NO.in_images input) Hh s2)
    as (s3 & Hrun3 & rows & Hn3 & Ht3 & Hl3 & Hsn3 & Hst3 & Htr3 & Hne3 & Hie3 & Him3
           & Hifor & Hifresh).
  { rewrite Hn2. exact Hnote1. }
  set (s' := NO.with_triggered (NO.triggered s3 ++ [CreateNote newId]) s3).
  assert (Hrun : NO.createNote host input s = (Return newId, s')).
  { unfold NO.createNote. unfold NO.bindT at 1. rewrite getDatabase_healthy by exact Hh.
    unfold NO.bindT at 1. unfold NO.transaction. cbv zeta. fold now.
    unfold NO.bindT at 1. rewrite Hins.
    unfold NO.bindT at 1. rewrite Hrun2.
    unfold NO.bindT at 1. rewrite Hrun3. reflexivity. }
  (* the tables of the store that is left *)
  assert (Hnotes : NO.notes_rows s' = NO.notes_rows s ++ [row])
    by (unfold s'; cbn [NO.notes_rows NO.with_triggered]; rewrite Hn3, Hn2; reflexivity).
  assert (Htags : NO.tags_rows s' = NO.tags_rows s ++ extra)
    by (unfold s'; cbn [NO.tags_rows NO.with_triggered]; rewrite Ht3, Ht2; reflexivity).
  assert (Hlinks : NO.note_tags_rows s' = NO.note_tags_rows s ++ links)
    by (unfold s'; cbn [NO.note_tags_rows NO.with_triggered]; rewrite Hl3, Hl2;
        reflexivity).
  assert (Himages : images_table (NO.embeddings s') =
                    images_table (NO.embeddings s) ++ rows)
    by (unfold s'; cbn [NO.embeddings NO.with_triggered]; rewrite Him3, He2; reflexivity).
  assert (Hseq : NO.seq_notes s' = newId)
    by (unfold s'; cbn [NO.seq_notes NO.with_triggered]; rewrite Hsn3, Hsn2; reflexivity).
  assert (Hseqt : NO.bound (NO.seq_tags s) (map tag_id (NO.tags_rows s)) <=
                  NO.bound (NO.seq_tags s') (map tag_id (NO.tags_rows s'))).
  { unfold s'. cbn [NO.seq_tags NO.tags_rows NO.with_triggered]. rewrite Hst3, Ht3.
    exact Hmono. }
  assert (Hlinknote : forall nt, In nt links -> NO.nt_noteId nt = newId).
  { apply (linksFor_note _ _ _ _ Hfor). }
  destruct (imagesFor_rows _ _ _ Hifor) as [Hrownote Hrowinput].
  assert (Hbound' : NO.bound (NO.seq_notes s') (map NO.note_id (NO.notes_rows s')) = newId).
  { rewrite Hseq, Hnotes, map_app. cbn [map row NO.note_id]. apply bound_snoc. }
  exists newId, s',
    (NO.withDetails row (NO.tagsOf s' newId) (NO.imagesOf s' newId)).
  split; [exact Hrun|]. split; [exact Hold|].
  split; [unfold s'; cbn [NO.triggered NO.with_triggered]; rewrite Htr3, Htr2;
          reflexivity|].
  assert (Hlookup : NO.lookup s' newId =
                    Some (NO.withDetails row (NO.tagsOf s' newId) (NO.imagesOf s' newId))).
  { unfold NO.lookup. rewrite Hnotes, filter_app.
    rewrite (filter_none _ (NO.notes_rows s))
      by (intros n Hn; apply Z.eqb_neq; specialize (Hold n Hn); lia).
    cbn [app filter row NO.note_id]. rewrite Z.eqb_refl. reflexivity. }
  split; [rewrite getNoteById_healthy by exact Hh; rewrite Hlookup; reflexivity|].
  do 8 (split; [reflexivity|]).
  split.
  { cbn [NO.withDetails tags].
    eapply Permutation_trans; [apply Permutation_map, tagsOf_perm|].
    rewrite Hlinks, filter_app.
    rewrite (filter_none _ (NO.note_tags_rows s))
      by (intros nt Hnt; apply Z.eqb_neq; destruct (Hsl nt Hnt) as [Hb _]; lia).
    rewrite (filter_all _ links)
      by (intros nt Hnt; apply Z.eqb_eq, Hlinknote, Hnt).
    cbn [app].
    replace (NO.tags_rows s') with (NO.tags_rows s2)
      by (unfold s'; cbn [NO.tags_rows NO.with_triggered]; congruence).
    rewrite (linksFor_tags _ _ _ _ Hnd2 Hfor). apply Permutation_refl. }
  split.
  { cbn [NO.withDetails images]. unfold NO.imagesOf. rewrite Himages, filter_app.
    rewrite (filter_none _ (images_table (NO.embeddings s)))
      by (intros i Hi; apply Z.eqb_neq; specialize (Hsi i Hi); lia).
    rewrite (filter_all _ rows)
      by (intros i Hi; apply Z.eqb_eq, Hrownote, Hi).
    cbn [app]. rewrite Hrowinput. apply Permutation_refl. }
  split.
  { intros other Hother. unfold NO.lookup. rewrite Hnotes, filter_app.
    assert (Hrowother : filter (fun n => NO.note_id n =? other) [row] = []).
    { cbn [filter row NO.note_id]. destruct (Z.eqb_spec newId other); [congruence|].
      reflexivity. }
    rewrite Hrowother, app_nil_r.
    destruct (filter (fun n => NO.note_id n =? other) (NO.notes_rows s)) as [|n rest] eqn:E;
      [reflexivity|].
    assert (Hid : NO.note_id n = other).
    { assert (Hin : In n (filter (fun n => NO.note_id n =? other) (NO.notes_rows s)))
        by (rewrite E; left; reflexivity).
      apply filter_In in Hin as [_ Hin]. apply Z.eqb_eq, Hin. }
    rewrite Hid.
    destruct (details_after s s' other extra links rows Htags Hlinks Himages) as [-> ->].
    - intros nt Hnt. apply (Hsl nt Hnt).
    - exact Hfresh.
    - intros nt Hnt. rewrite (Hlinknote nt Hnt). congruence.
    - intros r Hr. rewrite (Hrownote r Hr). congruence.
    - reflexivity. }
  constructor.
  - rewrite Hnotes, map_app. cbn [map row NO.note_id].
    apply NoDup_snoc_fresh; [exact Hsn|].
    intros j Hj. apply in_map_iff in Hj as (n & <- & Hn). apply Hold, Hn.
  - replace (NO.tags_rows s') with (NO.tags_rows s2)
      by (unfold s'; cbn [NO.tags_rows NO.with_triggered]; congruence).
    exact Hnd2.
  - intros nt Hnt. rewrite Hbound'. rewrite Hlinks in Hnt.
    apply in_app_or in Hnt as [Hnt|Hnt].
    + destruct (Hsl nt Hnt). split; lia.
    + split; [rewrite (Hlinknote nt Hnt); lia|].
      specialize (Htagb nt Hnt).
      replace (NO.seq_tags s') with (NO.seq_tags s2)
        by (unfold s'; cbn [NO.seq_tags NO.with_triggered]; congruence).
      replace (NO.tags_rows s') with (NO.tags_rows s2)
        by (unfold s'; cbn [NO.tags_rows NO.with_triggered]; congruence).
      exact Htagb.
  - intros i Hi. rewrite Hbound'. rewrite Himages in Hi.
    apply in_app_or in Hi as [Hi|Hi].
    + specialize (Hsi i Hi). lia.
    + rewrite (Hrownote i Hi). lia.
Qed.

Lemma createNote_then_getNoteById_witness :
  exists noteId s' found,
    NO.createNote NO.sampleHost NO.beachInput NO.emptyStore = (Return noteId, s') /\
    NO.getNoteById NO.sampleHost noteId s' = (Return (Some found), s') /\
    title found = str "Beach day" /\
    Permutation (map tag_name (tags found)) [str "family"; str "summer"].
Proof.
  destruct (createNote_then_getNoteById NO.sampleHost NO.beachInput NO.emptyStore)
    as (noteId & s' & found & H1 & _ & _ & H2 & _ & H3 & _ & _ & _ & _ & _ & _ & H4 & _).
  - split; reflexivity.
  - constructor; cbn; [constructor|constructor|intros x []|intros x []].
  - repeat constructor; cbn; intuition discriminate.
  - exists noteId, s', found. repeat split; assumption.
Defined.

(* ================================================================== *)
(** * Part XIX. Marking notes as shown                                 *)
(* ================================================================== *)

Lemma shownAt_shownAt (t1 t2 : Z) (n : NoteWithDetails) :
  shownAt t2 (shownAt t1 n) = shownAt t2 n.
Proof. reflexivity. Qed.

Lemma filter_map_same {A : Type} (f : A -> A) (p : A -> bool) (l : list A) :
  (forall x, p (f x) = p x) -> filter p (map f l) = map f (filter p l).
Proof.
  intros H. induction l as [|x l IH]; [reflexivity|]. cbn [map filter].
  rewrite H. destruct (p x); cbn [map]; [f_equal|]; exact IH.
Qed.

(** One marking, nothing being rejected. *)
Lemma markNoteAsShown_healthy (host : NO.Host) (k : nat) (noteId : Z) (s : NO.Store) :
  NO.healthy host ->
  exists s',
    NO.markNoteAsShown host k noteId s = (Return tt, s') /\
    NO.tags_rows s' = NO.tags_rows s /\ NO.note_tags_rows s' = NO.note_tags_rows s /\
    NO.embeddings s' = NO.embeddings s /\ NO.triggered s' = NO.triggered s /\
    forall i,
      NO.lookup s' i =
      if i =? noteId then option_map (shownAt (Date_now (NO.base host) k)) (NO.lookup s i)
      else NO.lookup s i.
Proof.
  intros Hh. unfold NO.markNoteAsShown, NO.bindT, NO.try_catchT, NO.updateLastShown.
  rewrite getDatabase_healthy, executing_healthy by exact Hh.
  eexists. split; [reflexivity|].
  cbn [NO.tags_rows NO.note_tags_rows NO.embeddings NO.triggered NO.with_notes].
  do 4 (split; [reflexivity|]).
  intros i. unfold NO.lookup, NO.tagsOf, NO.linksOf, NO.imagesOf.
  cbn [NO.notes_rows NO.tags_rows NO.note_tags_rows NO.embeddings NO.with_notes].
  rewrite filter_map_same
    by (intros n; destruct (NO.note_id n =? noteId); reflexivity).
  destruct (filter (fun n => NO.note_id n =? i) (NO.notes_rows s)) as [|n rest] eqn:E.
  - cbn [map option_map]. destruct (i =? noteId); reflexivity.
  - assert (Hid : NO.note_id n = i).
    { assert (Hin : In n (filter (fun n => NO.note_id n =? i) (NO.notes_rows s)))
        by (rewrite E; left; reflexivity).
      apply filter_In in Hin as [_ Hin]. apply Z.eqb_eq, Hin. }
    cbn [map]. clear E. subst i. destruct (NO.note_id n =? noteId); reflexivity.
Qed.

(** X19.  [markNotesAsShown] stamps [lastShownInReminisce]: with nothing
    rejected, each listed note that exists reads afterwards as before
    but for that field, which holds a reading of [Date.now()] taken
    for one of its positions in the list; notes not listed, tags and
    images are untouched.  A rejected UPDATE is swallowed, so with a
    database the call never throws.  Without one it throws for a list
    that is not empty, and silently accepts the empty list.  A stamp 0
    counts as never shown. *)
Theorem markNotesAsShown_stamps (host : NO.Host) (noteIds : list Z) (s : NO.Store) :
  (NO.healthy host ->
   exists s',
     NO.markNotesAsShown host noteIds s = (Return tt, s') /\
     NO.tags_rows s' = NO.tags_rows s /\ NO.embeddings s' = NO.embeddings s /\
     (forall i, ~ In i noteIds -> NO.lookup s' i = NO.lookup s i) /\
     (forall i n, In i noteIds -> NO.lookup s i = Some n ->
        exists k, nth_error noteIds k = Some i /\
                  NO.lookup s' i = Some (shownAt (Date_now (NO.base host) k) n))) /\
  (dbInitialized (NO.base host) = true ->
   exists s', NO.markNotesAsShown host noteIds s = (Return tt, s')) /\
  (dbInitialized (NO.base host) = false ->
   NO.markNotesAsShown host noteIds s =
   match noteIds with
   | [] => (Return tt, s)
   | _ :: _ =>
       (Throw (Error "Database not initialized. Call initializeDatabase() first."), s)
   end) /\
  (forall t now n,
     neverShown (shownAt t n) = (t =? 0) /\
     (t <> 0 -> daysSinceLastShown now (shownAt t n) = (now - t) / MS_PER_DAY)).
Proof.
  split; [|split; [|split]].
  - intros Hh. unfold NO.markNotesAsShown.
    assert (H : forall k s,
              exists s',
                NO.markNotesAsShown_from host k noteIds s = (Return tt, s') /\
                NO.tags_rows s' = NO.tags_rows s /\ NO.embeddings s' = NO.embeddings s /\
                (forall i, ~ In i noteIds -> NO.lookup s' i = NO.lookup s i) /\
                (forall i n, In i noteIds -> NO.lookup s i = Some n ->
                   exists k', nth_error noteIds k' = Some i /\
                     NO.lookup s' i =
                     Some (shownAt (Date_now (NO.base host) (k + k')) n))).
    { clear s. induction noteIds as [|x rest IH]; intros k s.
      - exists s. split; [reflexivity|]. repeat split; try reflexivity.
        intros i n [].
      - destruct (markNoteAsShown_healthy host k x s Hh)
          as (s1 & Hrun & Ht1 & _ & He1 & _ & Hlook1).
        destruct (IH (S k) s1) as (s' & Hloop & Ht & He & Hout & Hin).
        exists s'. split.
        { cbn [NO.markNotesAsShown_from]. unfold NO.bindT. rewrite Hrun. exact Hloop. }
        split; [congruence|]. split; [congruence|]. split.
        + intros i Hi. rewrite Hout by (intros Hr; apply Hi; right; exact Hr).
          rewrite Hlook1. destruct (Z.eqb_spec i x) as [->|_]; [|reflexivity].
          exfalso. apply Hi. left. reflexivity.
        + intros i n Hi Hn.
          destruct (in_dec Z.eq_dec i rest) as [Hr|Hr].
          * assert (Hn1 : exists n1, NO.lookup s1 i = Some n1 /\
                            forall t, shownAt t n1 = shownAt t n).
            { rewrite Hlook1, Hn. destruct (i =? x); cbn [option_map]; eauto. }
            destruct Hn1 as (n1 & Hn1 & Hsame).
            destruct (Hin i n1 Hr Hn1) as (k' & Hk' & Hl).
            exists (S k'). split; [exact Hk'|].
            rewrite Hl, Hsame. do 3 f_equal. lia.
          * destruct Hi as [<-|Hi]; [|contradiction].
            exists 0%nat. split; [reflexivity|].
            rewrite (Hout _ Hr), Hlook1, Z.eqb_refl, Hn. cbn [option_map].
            do 3 f_equal. lia. }
    destruct (H 0%nat s) as (s' & H1 & H2 & H3 & H4 & H5).
    exists s'. repeat split; assumption.
  - intros Hdb. unfold NO.markNotesAsShown. generalize 0%nat. revert s.
    induction noteIds as [|x rest IH]; intros s k; [eexists; reflexivity|].
    cbn [NO.markNotesAsShown_from]. unfold NO.bindT at 1.
    assert (Hstep : exists s1, NO.markNoteAsShown host k x s = (Return tt, s1)).
    { unfold NO.markNoteAsShown, NO.bindT, NO.getDatabase, getDatabaseInstance,
        NO.try_catchT, NO.retT.
      rewrite Hdb.
      destruct (NO.updateLastShown host (Date_now (NO.base host) k) x s)
        as [[[]|e] s1]; eauto. }
    destruct Hstep as (s1 & ->). apply IH.
  - intros Hdb. unfold NO.markNotesAsShown. destruct noteIds as [|x rest]; [reflexivity|].
    cbn [NO.markNotesAsShown_from]. unfold NO.bindT at 1.
    unfold NO.markNoteAsShown, NO.bindT, NO.getDatabase, getDatabaseInstance.
    rewrite Hdb. reflexivity.
  - intros t now n. split; [reflexivity|]. intros Ht.
    unfold daysSinceLastShown. cbn [shownAt lastShownInReminisce].
    destruct (Z.eqb_spec t 0); [contradiction|reflexivity].
Qed.

Lemma markNotesAsShown_stamps_witness :
  exists s',
    NO.markNotesAsShown NO.sampleHost [2; 1] twoNotesStore = (Return tt, s') /\
    NO.lookup s' 1 = option_map (shownAt 1700000000000) (NO.lookup twoNotesStore 1).
Proof.
  destruct (proj1 (markNotesAsShown_stamps NO.sampleHost [2; 1] twoNotesStore))
    as (s' & H1 & _ & _ & _ & H2).
  - split; reflexivity.
  - exists s'. split; [exact H1|].
    destruct (H2 1 _ (or_intror (or_introl eq_refl)) eq_refl) as (k & _ & ->).
    reflexivity.
Defined.

(* ================================================================== *)
(** * Part XX. Reading the notes                                       *)
(* ================================================================== *)

Lemma insertByDate_perm (n : NO.NoteRow) (sorted : list NO.NoteRow) :
  Permutation (NO.insertByDate n sorted) (n :: sorted).
Proof.
  induction sorted as [|m sorted IH]; cbn [NO.insertByDate]; [apply Permutation_refl|].
  destruct (NO.note_createdAt m <? NO.note_createdAt n); [apply Permutation_refl|].
  apply Permutation_trans with (m :: n :: sorted); [apply perm_skip, IH|apply perm_swap].
Qed.

Lemma insertByDate_sorted (n : NO.NoteRow) (sorted : list NO.NoteRow) :
  StronglySorted (fun a b => NO.note_createdAt b <= NO.note_createdAt a) sorted ->
  StronglySorted (fun a b => NO.note_createdAt b <= NO.note_createdAt a)
                 (NO.insertByDate n sorted).
Proof.
  induction 1 as [|m sorted Hs IH Hall]; cbn [NO.insertByDate].
  - constructor; constructor.
  - destruct (Z.ltb_spec (NO.note_createdAt m) (NO.note_createdAt n)) as [Hlt|Hge].
    + constructor; [constructor; assumption|].
      constructor; [lia|]. eapply Forall_impl; [|exact Hall].
      intros a Ha. cbv beta in Ha. lia.
    + constructor; [exact IH|].
      apply (Permutation_Forall (Permutation_sym (insertByDate_perm n sorted))).
      constructor; [exact Hge|exact Hall].
Qed.

Lemma newestFirst_facts (rows : list NO.NoteRow) :
  Permutation (NO.newestFirst rows) rows /\
  StronglySorted (fun a b => NO.note_createdAt b <= NO.note_createdAt a)
                 (NO.newestFirst rows).
Proof.
  unfold NO.newestFirst.
  assert (H : forall acc,
            StronglySorted (fun a b => NO.note_createdAt b <= NO.note_createdAt a) acc ->
            Permutation (fold_left (fun sorted n => NO.insertByDate n sorted) rows acc)
                        (acc ++ rows) /\
            StronglySorted (fun a b => NO.note_createdAt b <= NO.note_createdAt a)
              (fold_left (fun sorted n => NO.insertByDate n sorted) rows acc)).
  { induction rows as [|n rows IH]; intros acc Hacc; cbn [fold_left].
    - rewrite app_nil_r. split; [apply Permutation_refl|exact Hacc].
    - destruct (IH (NO.insertByDate n acc) (insertByDate_sorted n acc Hacc)) as [Hp Hs].
      split; [|exact Hs].
      eapply Permutation_trans; [exact Hp|].
      apply Permutation_trans with ((n :: acc) ++ rows).
      + apply Permutation_app_tail, insertByDate_perm.
      + cbn [app]. apply Permutation_middle. }
  destruct (H [] (SSorted_nil _)) as [Hp Hs]. split; assumption.
Qed.

Lemma buildAll_healthy (host : NO.Host) (rows : list NO.NoteRow) (s : NO.Store) :
  NO.healthy host -> NO.buildAll host rows s = (Return (map (detailed s) rows), s).
Proof.
  intros Hh. induction rows as [|n rows IH]; [reflexivity|].
  cbn [NO.buildAll map]. unfold NO.bindT at 1.
  rewrite buildNoteWithDetails_healthy by exact Hh.
  unfold NO.bindT at 1. rewrite IH. reflexivity.
Qed.

(** A statement that only reads leaves the store as it is. *)
Lemma buildNoteWithDetails_reads (host : NO.Host) (n : NO.NoteRow) (s : NO.Store) :
  snd (NO.buildNoteWithDetails host n s) = s.
Proof.
  unfold NO.buildNoteWithDetails, NO.bindT, NO.getTagsForNote, NO.getImagesForNote,
    NO.executing, NO.retT.
  destruct (NO.rejects host (NO.SelectTagsForNote _)); [reflexivity|].
  destruct (NO.rejects host (NO.SelectImagesForNote _)); reflexivity.
Qed.

Lemma buildAll_reads (host : NO.Host) (rows : list NO.NoteRow) (s : NO.Store) :
  snd (NO.buildAll host rows s) = s.
Proof.
  induction rows as [|n rows IH]; [reflexivity|].
  cbn [NO.buildAll]. unfold NO.bindT at 1.
  pose proof (buildNoteWithDetails_reads host n s) as H1.
  destruct (NO.buildNoteWithDetails host n s) as [[d|e] s1]; cbn [snd] in H1; subst s1;
    [|reflexivity].
  unfold NO.bindT at 1.
  destruct (NO.buildAll host rows s) as [[l|e] s2]; cbn [snd] in IH; subst s2; reflexivity.
Qed.

(** X20.  With nothing rejected, [getAllNotes] returns every stored
    note once, newest first by [createdAt], each with the tags and
    images [getNoteById] gives for it.  Healthy or not, [getAllNotes]
    and [getNoteById] leave the store exactly as it was. *)
Theorem getAllNotes_newest_first (host : NO.Host) (s : NO.Store) :
  (NO.healthy host ->
   exists notes,
     NO.getAllNotes host s = (Return notes, s) /\
     Permutation (map id notes) (map NO.note_id (NO.notes_rows s)) /\
     StronglySorted newerFirst notes /\
     (NoDup (map NO.note_id (NO.notes_rows s)) ->
      forall n, In n notes -> NO.getNoteById host (id n) s = (Return (Some n), s))) /\
  snd (NO.getAllNotes host s) = s /\
  (forall i, snd (NO.getNoteById host i s) = s).
Proof.
  split; [|split].
  - intros Hh. destruct (newestFirst_facts (NO.notes_rows s)) as [Hp Hs].
    exists (map (detailed s) (NO.newestFirst (NO.notes_rows s))).
    split; [|split; [|split]].
    + unfold NO.getAllNotes, NO.bindT, NO.selectAllNotes.
      rewrite getDatabase_healthy, executing_healthy by exact Hh.
      apply buildAll_healthy, Hh.
    + rewrite map_map. cbn [detailed NO.withDetails id].
      apply Permutation_map, Hp.
    + clear Hp. induction Hs as [|r rows Hs IH Hall]; cbn [map]; constructor.
      * exact IH.
      * apply Forall_forall. intros d Hd. apply in_map_iff in Hd as (r' & <- & Hr').
        rewrite Forall_forall in Hall. exact (Hall r' Hr').
    + intros Hnd n Hn. apply in_map_iff in Hn as (r & <- & Hr).
      rewrite getNoteById_healthy by exact Hh. f_equal. f_equal.
      unfold NO.lookup. cbn [detailed NO.withDetails id].
      rewrite (filter_by_key NO.note_id (NO.notes_rows s) r Hnd
                 (Permutation_in _ Hp Hr)).
      reflexivity.
  - unfold NO.getAllNotes, NO.bindT, NO.getDatabase, NO.selectAllNotes, NO.executing.
    destruct (getDatabaseInstance (NO.base host)) as [[]|e]; [|reflexivity].
    destruct (NO.rejects host NO.SelectAllNotes); [reflexivity|].
    apply buildAll_reads.
  - intros i.
    unfold NO.getNoteById, NO.bindT, NO.getDatabase, NO.selectNoteById, NO.executing.
    destruct (getDatabaseInstance (NO.base host)) as [[]|e]; [|reflexivity].
    destruct (NO.rejects host (NO.SelectNoteById i)); [reflexivity|].
    destruct (filter _ (NO.notes_rows s)) as [|n rest]; [reflexivity|].
    pose proof (buildNoteWithDetails_reads host n s) as H1.
    destruct (NO.buildNoteWithDetails host n s) as [[d|e] s1]; cbn [snd] in H1; subst s1;
      reflexivity.
Qed.

Lemma getAllNotes_newest_first_witness :
  exists notes,
    NO.getAllNotes NO.sampleHost twoNotesStore = (Return notes, twoNotesStore) /\
    map id notes = [2; 1].
Proof.
  destruct (proj1 (getAllNotes_newest_first NO.sampleHost twoNotesStore))
    as (notes & H1 & _).
  - split; reflexivity.
  - exists notes. split; [exact H1|].
    vm_compute in H1. injection H1 as <-. reflexivity.
Defined.

(* ================================================================== *)
(** * Part XXI. Updating a note                                        *)
(* ================================================================== *)

Lemma images_table_cascade (host : NO.Host) (gone : list Image) (d : Database) :
  images_table (NO.cascadeImages host gone d) = images_table d.
Proof. unfold NO.cascadeImages. destruct (NO.foreignKeys host); reflexivity. Qed.

Lemma lookup_row (s : NO.Store) (i : Z) (n : NoteWithDetails) :
  NO.lookup s i = Some n ->
  exists r rest,
    filter (fun x => NO.note_id x =? i) (NO.notes_rows s) = r :: rest /\
    NO.note_id r = i /\ n = detailed s r.
Proof.
  unfold NO.lookup.
  destruct (filter (fun x => NO.note_id x =? i) (NO.notes_rows s)) as [|r rest] eqn:E;
    [discriminate|].
  intros H. injection H as <-. exists r, rest. split; [reflexivity|].
  split; [|reflexivity].
  assert (Hin : In r (filter (fun x => NO.note_id x =? i) (NO.notes_rows s)))
    by (rewrite E; left; reflexivity).
  apply filter_In in Hin as [_ Hin]. apply Z.eqb_eq, Hin.
Qed.

(** X21.  With nothing rejected, on a sound store, for a note that
    exists and tag names that are all different, [updateNote] rewrites
    title, content, audio and [updatedAt], replaces the note's tags and
    images by the given ones, and keeps [createdAt], the recall script
    and [lastShownInReminisce]; every other note reads as before; the
    debounced pipelines of the note have been triggered. *)
Theorem updateNote_replaces_details (host : NO.Host) (input : NO.UpdateNoteInput)
    (s : NO.Store) (old : NoteWithDetails) :
  NO.healthy host ->
  NO.sound s ->
  NoDup (NO.up_tags input) ->
  NO.lookup s (NO.up_id input) = Some old ->
  exists s' found,
    NO.updateNote host input s = (Return tt, s') /\
    NO.triggered s' = NO.triggered s ++ [UpdateNote (NO.up_id input)] /\
    NO.getNoteById host (NO.up_id input) s' = (Return (Some found), s') /\
    id found = NO.up_id input /\
    title found = NO.up_title input /\
    content found = NO.up_content input /\
    audioUri found = NO.up_audioUri input /\
    updatedAt found = Date_now (NO.base host) 0 /\
    createdAt found = createdAt old /\
    recallScript found = recallScript old /\
    lastShownInReminisce found = lastShownInReminisce old /\
    Permutation (map tag_name (tags found)) (NO.up_tags input) /\
    Permutation (map (fun i => (image_uri i, image_description i)) (images found))
                (NO.up_images input) /\
    (forall other, other <> NO.up_id input -> NO.lookup s' other = NO.lookup s other).
Proof.
  intros Hh [Hsn Hst Hsl Hsi] Hnames Hold. pose proof Hh as [Hdb Hrej].
  set (i := NO.up_id input) in *.
  set (now := Date_now (NO.base host) 0).
  destruct (lookup_row s i old Hold) as (r & rest & Hfilter & Hrid & ->).
  set (upd := fun n =>
                if NO.note_id n =? i
                then {| NO.note_id := NO.note_id n; NO.note_title := NO.up_title input;
                        NO.note_content := NO.up_content input;
                        NO.note_audioUri := NO.up_audioUri input;
                        NO.note_recallScript := NO.note_recallScript n;
                        NO.note_lastShownInReminisce := NO.note_lastShownInReminisce n;
                        NO.note_createdAt := NO.note_createdAt n;
                        NO.note_updatedAt := now |}
                else n).
  assert (Hupd_id : forall n, NO.note_id (upd n) = NO.note_id n).
  { intros n. unfold upd. destruct (NO.note_id n =? i); reflexivity. }
  set (s1 := NO.with_notes (map upd (NO.notes_rows s)) (NO.seq_notes s) s).
  set (s2 := NO.with_note_tags
               (filter (fun nt => negb (NO.nt_noteId nt =? i)) (NO.note_tags_rows s1)) s1).
  set (gone := filter (fun x => image_noteId x =? i) (images_table (NO.embeddings s2))).
  set (kept := filter (fun x => negb (image_noteId x =? i))
                      (images_table (NO.embeddings s2))).
  set (s3 := NO.with_embeddings
               (NO.cascadeImages host gone (NO.with_images kept (NO.embeddings s2)))
               (NO.seq_images s2) s2).
  assert (H1 : NO.updateNoteFields host (NO.up_title input) (NO.up_content input)
                 (NO.up_audioUri input) now i s = (Return tt, s1)).
  { unfold NO.updateNoteFields, NO.executing. rewrite Hrej. reflexivity. }
  assert (H2 : NO.deleteNoteTags host i s1 = (Return tt, s2)).
  { unfold NO.deleteNoteTags, NO.executing. rewrite Hrej. reflexivity. }
  assert (H3 : NO.deleteImages host i s2 = (Return tt, s3)).
  { unfold NO.deleteImages, NO.executing. rewrite Hrej. reflexivity. }
  assert (Hnotes3 : NO.notes_rows s3 = map upd (NO.notes_rows s)) by reflexivity.
  assert (Htags3 : NO.tags_rows s3 = NO.tags_rows s) by reflexivity.
  assert (Hlinks3 : NO.note_tags_rows s3 =
                    filter (fun nt => negb (NO.nt_noteId nt =? i)) (NO.note_tags_rows s))
    by reflexivity.
  assert (Himages3 : images_table (NO.embeddings s3) =
                     filter (fun x => negb (image_noteId x =? i))
                            (images_table (NO.embeddings s))).
  { unfold s3. cbn [NO.embeddings NO.with_embeddings]. rewrite images_table_cascade.
    reflexivity. }
  assert (Hseqt3 : NO.seq_tags s3 = NO.seq_tags s) by reflexivity.
  assert (Htr3 : NO.triggered s3 = NO.triggered s) by reflexivity.
  assert (Hrin : In r (NO.notes_rows s)).
  { assert (Hin : In r (filter (fun x => NO.note_id x =? i) (NO.notes_rows s)))
      by (rewrite Hfilter; left; reflexivity).
    apply filter_In in Hin. apply Hin. }
  assert (Hnote3 : In i (map NO.note_id (NO.notes_rows s3))).
  { rewrite Hnotes3, map_map. rewrite (map_ext _ NO.note_id Hupd_id), <- Hrid.
    apply in_map, Hrin. }
  clearbody s3.
  destruct (processTags_healthy host i (NO.up_tags input) Hh s3 Hnames)
    as (s4 & Hrun4 & extra & links & Hn4 & He4 & Hsn4 & Hsi4 & Htr4 & Ht4 & Hl4 & Hfor
           & Hnd4 & Hfresh & Hmono & Htagb).
  { rewrite Htags3. exact Hst. }
  { exact Hnote3. }
  { intros nt Hnt Hid. exfalso. rewrite Hlinks3 in Hnt. apply filter_In in Hnt as [_ Hnt].
    rewrite Hid, Z.eqb_refl in Hnt. discriminate. }
  { intros nt Hnt. rewrite Hlinks3 in Hnt. apply filter_In in Hnt as [Hnt _].
    rewrite Hseqt3, Htags3. apply (Hsl nt Hnt). }
  destruct (processImages_healthy host i (NO.up_images input) Hh s4)
    as (s5 & Hrun5 & rows & Hn5 & Ht5 & Hl5 & Hsn5 & Hst5 & Htr5 & Hne5 & Hie5 & Him5
           & Hifor & Hifresh).
  { rewrite Hn4. exact Hnote3. }
  set (s' := NO.with_triggered (NO.triggered s5 ++ [UpdateNote i]) s5).
  assert (Hrun : NO.updateNote host input s = (Return tt, s')).
  { unfold NO.updateNote. unfold NO.bindT at 1. rewrite getDatabase_healthy by exact Hh.
    unfold NO.bindT at 1. unfold NO.transaction. cbv zeta. fold now. fold i.
    unfold NO.bindT at 1. rewrite H1.
    unfold NO.bindT at 1. rewrite H2.
    unfold NO.bindT at 1. rewrite H3.
    unfold NO.bindT at 1. rewrite Hrun4. rewrite Hrun5. reflexivity. }
  assert (Hnotes : NO.notes_rows s' = map upd (NO.notes_rows s))
    by (unfold s'; cbn [NO.notes_rows NO.with_triggered]; congruence).
  assert (Htags : NO.tags_rows s' = NO.tags_rows s3 ++ extra)
    by (unfold s'; cbn [NO.tags_rows NO.with_triggered]; congruence).
  assert (Hlinks : NO.note_tags_rows s' = NO.note_tags_rows s3 ++ links)
    by (unfold s'; cbn [NO.note_tags_rows NO.with_triggered]; congruence).
  assert (Himages : images_table (NO.embeddings s') =
                    images_table (NO.embeddings s3) ++ rows)
    by (unfold s'; cbn [NO.embeddings NO.with_triggered]; rewrite Him5, He4; reflexivity).
  assert (Hlinknote : forall nt, In nt links -> NO.nt_noteId nt = i)
    by (apply (linksFor_note _ _ _ _ Hfor)).
  destruct (imagesFor_rows _ _ _ Hifor) as [Hrownote Hrowinput].
  assert (Hfilter' : filter (fun x => NO.note_id x =? i) (NO.notes_rows s') =
                     upd r :: map upd rest).
  { rewrite Hnotes, filter_map_same, Hfilter by (intros n; rewrite Hupd_id; reflexivity).
    reflexivity. }
  assert (Hlookup : NO.lookup s' i = Some (detailed s' (upd r))).
  { unfold NO.lookup. rewrite Hfilter'. reflexivity. }
  assert (Hupd_r : upd r =
                   {| NO.note_id := NO.note_id r; NO.note_title := NO.up_title input;
                      NO.note_content := NO.up_content input;
                      NO.note_audioUri := NO.up_audioUri input;
                      NO.note_recallScript := NO.note_recallScript r;
                      NO.note_lastShownInReminisce := NO.note_lastShownInReminisce r;
                      NO.note_createdAt := NO.note_createdAt r;
                      NO.note_updatedAt := now |}).
  { unfold upd. rewrite Hrid, Z.eqb_refl. reflexivity. }
  exists s', (detailed s' (upd r)).
  split; [exact Hrun|].
  split; [unfold s'; cbn [NO.triggered NO.with_triggered]; congruence|].
  split; [rewrite getNoteById_healthy by exact Hh; rewrite Hlookup; reflexivity|].
  rewrite Hupd_r. cbn [detailed NO.withDetails id title content audioUri updatedAt
                       createdAt recallScript lastShownInReminisce tags images NO.note_id
                       NO.note_title NO.note_content NO.note_audioUri NO.note_updatedAt
                       NO.note_createdAt NO.note_recallScript
                       NO.note_lastShownInReminisce].
  split; [exact Hrid|]. do 7 (split; [reflexivity|]).
  rewrite Hrid.
  split.
  { eapply Permutation_trans; [apply Permutation_map, tagsOf_perm|].
    rewrite Hlinks, filter_app, Hlinks3.
    rewrite (filter_filter_same NO.nt_noteId).
    rewrite (filter_all _ links) by (intros nt Hnt; apply Z.eqb_eq, Hlinknote, Hnt).
    cbn [app].
    replace (NO.tags_rows s') with (NO.tags_rows s4)
      by (unfold s'; cbn [NO.tags_rows NO.with_triggered]; congruence).
    rewrite (linksFor_tags _ _ _ _ Hnd4 Hfor). apply Permutation_refl. }
  split.
  { unfold NO.imagesOf. rewrite Himages, filter_app, Himages3.
    rewrite (filter_filter_same image_noteId).
    rewrite (filter_all _ rows) by (intros x Hx; apply Z.eqb_eq, Hrownote, Hx).
    cbn [app]. rewrite Hrowinput. apply Permutation_refl. }
  intros other Hother. unfold NO.lookup.
  assert (Hfo : filter (fun x => NO.note_id x =? other) (NO.notes_rows s') =
                filter (fun x => NO.note_id x =? other) (NO.notes_rows s)).
  { rewrite Hnotes, filter_map_same by (intros n; rewrite Hupd_id; reflexivity).
    rewrite <- (map_id (filter _ (NO.notes_rows s))) at 2.
    apply map_ext_in. intros n Hn. apply filter_In in Hn as [_ Hn].
    apply Z.eqb_eq in Hn. unfold upd.
    destruct (Z.eqb_spec (NO.note_id n) i); [congruence|reflexivity]. }
  rewrite Hfo.
  destruct (filter (fun x => NO.note_id x =? other) (NO.notes_rows s)) as [|n rest'] eqn:E;
    [reflexivity|].
  assert (Hid : NO.note_id n = other).
  { assert (Hin : In n (filter (fun x => NO.note_id x =? other) (NO.notes_rows s)))
      by (rewrite E; left; reflexivity).
    apply filter_In in Hin as [_ Hin]. apply Z.eqb_eq, Hin. }
  rewrite Hid.
  destruct (details_after s3 s' other extra links rows Htags Hlinks Himages) as [-> ->].
  - intros nt Hnt. rewrite Hlinks3 in Hnt. apply filter_In in Hnt as [Hnt _].
    rewrite Hseqt3, Htags3. apply (Hsl nt Hnt).
  - exact Hfresh.
  - intros nt Hnt. rewrite (Hlinknote nt Hnt). congruence.
  - intros x Hx. rewrite (Hrownote x Hx). congruence.
  - unfold NO.tagsOf, NO.linksOf, NO.imagesOf. rewrite Hlinks3, Htags3, Himages3.
    rewrite (filter_filter_neq NO.nt_noteId i other _ Hother).
    rewrite (filter_filter_neq image_noteId i other _ Hother). reflexivity.
Qed.

Lemma updateNote_replaces_details_witness :
  exists s' found,
    NO.updateNote NO.sampleHost gardenUpdate twoNotesStore = (Return tt, s') /\
    NO.getNoteById NO.sampleHost 1 s' = (Return (Some found), s') /\
    title found = str "Beach day, again" /\
    createdAt found = 1000.
Proof.
  destruct (updateNote_replaces_details NO.sampleHost gardenUpdate twoNotesStore
              (detailed twoNotesStore
                 {| NO.note_id := 1; NO.note_title := str "Beach day";
                    NO.note_content := str "We walked along the shore.";
                    NO.note_audioUri := None; NO.note_recallScript := None;
                    NO.note_lastShownInReminisce := None;
                    NO.note_createdAt := 1000; NO.note_updatedAt := 1000 |}))
    as (s' & found & H1 & _ & H2 & _ & H3 & _ & _ & _ & H4 & _).
  - split; reflexivity.
  - constructor; cbn.
    + repeat constructor; cbn; intuition discriminate.
    + repeat constructor; cbn; intuition discriminate.
    + intros nt [<-|[]]. cbn. split; discriminate.
    + intros x [<-|[]]. cbn. discriminate.
  - repeat constructor; cbn; intuition discriminate.
  - reflexivity.
  - exists s', found. repeat split; assumption.
Defined.

(* ================================================================== *)
(** * Part XXII. Generating recall scripts                             *)
(* ================================================================== *)

(** [getNoteById] reads: whatever is rejected, the store is left as it
    was, and a note that is returned is the stored one. *)
Lemma getNoteById_reads (host : NO.Host) (i : Z) (s : NO.Store) :
  exists o,
    NO.getNoteById host i s = (o, s) /\
    forall found, o = Return found -> found = NO.lookup s i.
Proof.
  unfold NO.getNoteById, NO.bindT, NO.getDatabase, NO.selectNoteById, NO.executing,
    NO.lookup.
  destruct (getDatabaseInstance (NO.base host)) as [[]|e];
    [|eexists; split; [reflexivity|discriminate]].
  destruct (NO.rejects host (NO.SelectNoteById i));
    [eexists; split; [reflexivity|discriminate]|].
  destruct (filter (fun n => NO.note_id n =? i) (NO.notes_rows s)) as [|n rest].
  - eexists. split; [reflexivity|]. intros found H. injection H as <-. reflexivity.
  - unfold NO.buildNoteWithDetails, NO.bindT, NO.getTagsForNote, NO.getImagesForNote,
      NO.executing, NO.retT.
    destruct (NO.rejects host (NO.SelectTagsForNote _));
      [eexists; split; [reflexivity|discriminate]|].
    destruct (NO.rejects host (NO.SelectImagesForNote _));
      [eexists; split; [reflexivity|discriminate]|].
    eexists. split; [reflexivity|]. intros found H. injection H as <-. reflexivity.
Qed.

Lemma withScript_id (script : jsstring) (noteId : Z) (rows : list NO.NoteRow) :
  map NO.note_id (RS.withScript script noteId rows) = map NO.note_id rows.
Proof.
  unfold RS.withScript. rewrite map_map. apply map_ext. intros n.
  destruct (NO.note_id n =? noteId); reflexivity.
Qed.

(** What a replaced script changes for a reader of the store. *)
Lemma lookup_scripted (script : jsstring) (noteId i : Z) (s : NO.Store) :
  NO.lookup (RS.scripted script noteId s) i =
  if i =? noteId then option_map (withRecallScript script) (NO.lookup s i)
  else NO.lookup s i.
Proof.
  unfold NO.lookup, RS.scripted.
  cbn [NO.notes_rows NO.with_notes].
  unfold RS.withScript at 1.
  rewrite filter_map_same
    by (intros n; destruct (NO.note_id n =? noteId); reflexivity).
  destruct (filter (fun n => NO.note_id n =? i) (NO.notes_rows s)) as [|n rest] eqn:E.
  - cbn [map]. destruct (i =? noteId); reflexivity.
  - assert (Hid : NO.note_id n = i).
    { assert (Hin : In n (filter (fun n => NO.note_id n =? i) (NO.notes_rows s)))
        by (rewrite E; left; reflexivity).
      apply filter_In in Hin as [_ Hin]. apply Z.eqb_eq, Hin. }
    cbn [map]. subst i. destruct (NO.note_id n =? noteId); reflexivity.
Qed.

(** X22.  [processRecallScript] never throws, whatever the database, the
    model or the engine do.  It either leaves the store as it was or
    replaces the recall script of the one note, and then by the trimmed
    text the model completed for that note's title and content, which
    is not empty; a missing note, a missing model, a failed completion
    and a blank completion all leave the old script in place. *)
Theorem processRecallScript_changes_one_script (host : RS.Host) (noteId : Z)
    (s : NO.Store) :
  exists s',
    RS.processRecallScript host noteId s = (Return tt, s') /\
    (s' = s \/
     exists n completion result,
       NO.lookup s noteId = Some n /\
       RS.getRecallContext host = Some completion /\
       completion (RS.request (title n) (content n)) = Return result /\
       trim (RS.result_text result) <> [] /\
       s' = RS.scripted (trim (RS.result_text result)) noteId s).
Proof.
  unfold RS.processRecallScript, NO.try_catchT.
  destruct (RS.ensureRecallModelReady host);
    [|exists s; split; [reflexivity|left; reflexivity]].
  unfold RS.generateRecallScript, NO.bindT at 1, NO.getDatabase.
  destruct (getDatabaseInstance (NO.base (RS.store_host host))) as [[]|e];
    [|exists s; split; [reflexivity|left; reflexivity]].
  unfold NO.try_catchT, NO.bindT at 1.
  destruct (getNoteById_reads (RS.store_host host) noteId s) as (o & -> & Hfound).
  destruct o as [[n|]|e];
    try (exists s; split; [reflexivity|left; reflexivity]).
  pose proof (Hfound (Some n) eq_refl) as Hn. symmetry in Hn.
  destruct (RS.getRecallContext host) as [completion|] eqn:Hc;
    [|exists s; split; [reflexivity|left; reflexivity]].
  unfold NO.bindT, RS.complete.
  destruct (completion (RS.request (title n) (content n))) as [result|e] eqn:Hr;
    [|exists s; split; [reflexivity|left; reflexivity]].
  cbv zeta.
  destruct (trim (RS.result_text result)) as [|c script] eqn:Ht;
    [exists s; split; [reflexivity|left; reflexivity]|].
  unfold RS.updateNoteRecallScript, NO.executing.
  destruct (NO.rejects (RS.store_host host) _);
    [exists s; split; [reflexivity|left; reflexivity]|].
  eexists. split; [reflexivity|]. right. exists n, completion, result.
  rewrite Ht. repeat split; try assumption. discriminate.
Qed.

(** X23.  With nothing rejected, the recall model loaded and a
    completion for the note that is not blank, [processRecallScript]
    stores the trimmed completion: the note reads afterwards as before
    but for its recall script, it counts as having one, and every other
    note, the tags and the images read as before. *)
Theorem recall_script_is_stored (host : RS.Host) (noteId : Z) (s : NO.Store)
    (n : NoteWithDetails) (completion : RS.CompletionParams -> outcome RS.CompletionResult)
    (result : RS.CompletionResult) :
  NO.healthy (RS.store_host host) ->
  isRecallReady (NO.base (RS.store_host host)) = true ->
  RS.getRecallContext host = Some completion ->
  NO.lookup s noteId = Some n ->
  completion (RS.request (title n) (content n)) = Return result ->
  trim (RS.result_text result) <> [] ->
  exists s' stored,
    RS.processRecallScript host noteId s = (Return tt, s') /\
    NO.getNoteById (RS.store_host host) noteId s' = (Return (Some stored), s') /\
    stored = withRecallScript (trim (RS.result_text result)) n /\
    hasRecallScript stored = true /\
    (forall other, other <> noteId -> NO.lookup s' other = NO.lookup s other) /\
    NO.tags_rows s' = NO.tags_rows s /\
    NO.note_tags_rows s' = NO.note_tags_rows s /\
    NO.embeddings s' = NO.embeddings s.
Proof.
  intros Hh Hready Hc Hn Hr Ht.
  exists (RS.scripted (trim (RS.result_text result)) noteId s),
         (withRecallScript (trim (RS.result_text result)) n).
  split.
  { unfold RS.processRecallScript, NO.try_catchT, RS.ensureRecallModelReady.
    rewrite Hready. unfold RS.generateRecallScript, NO.bindT at 1.
    rewrite getDatabase_healthy by exact Hh.
    unfold NO.try_catchT, NO.bindT at 1.
    rewrite getNoteById_healthy by exact Hh. rewrite Hn, Hc.
    unfold NO.bindT, RS.complete. rewrite Hr. cbv zeta.
    destruct (trim (RS.result_text result)) as [|c script] eqn:E; [contradiction|].
    unfold RS.updateNoteRecallScript. rewrite executing_healthy by exact Hh.
    reflexivity. }
  split.
  { rewrite getNoteById_healthy by exact Hh. rewrite lookup_scripted, Z.eqb_refl, Hn.
    reflexivity. }
  split; [reflexivity|].
  split.
  { unfold hasRecallScript, withRecallScript. cbn [recallScript].
    destruct (trim (RS.result_text result)); [contradiction|reflexivity]. }
  split.
  { intros other Hother. rewrite lookup_scripted.
    destruct (Z.eqb_spec other noteId); [contradiction|reflexivity]. }
  repeat split.
Qed.

Lemma recall_script_is_stored_witness :
  exists s' stored,
    RS.processRecallScript (RS.answering (str " You walked along the shore. ")) 1
      twoNotesStore = (Return tt, s') /\
    NO.getNoteById NO.sampleHost 1 s' = (Return (Some stored), s') /\
    recallScript stored = Some (str "You walked along the shore.").
Proof.
  destruct (recall_script_is_stored
              (RS.answering (str " You walked along the shore. ")) 1 twoNotesStore
              (detailed twoNotesStore
                 {| NO.note_id := 1; NO.note_title := str "Beach day";
                    NO.note_content := str "We walked along the shore.";
                    NO.note_audioUri := None; NO.note_recallScript := None;
                    NO.note_lastShownInReminisce := None;
                    NO.note_createdAt := 1000; NO.note_updatedAt := 1000 |})
              (fun _ => Return {| RS.result_text := str " You walked along the shore. " |})
              {| RS.result_text := str " You walked along the shore. " |})
    as (s' & stored & H1 & H2 & H3 & _).
  - split; reflexivity.
  - reflexivity.
  - reflexivity.
  - reflexivity.
  - reflexivity.
  - vm_compute. discriminate.
  - exists s', stored. split; [exact H1|]. split; [exact H2|].
    rewrite H3. reflexivity.
Defined.

(* ================================================================== *)
(** * Part XXIII. The embedding of an image description                *)
(* ================================================================== *)

Lemma others_map (imageId : Z) (f : ImageEmbeddingRow -> ImageEmbeddingRow)
    (rows : list ImageEmbeddingRow) :
  (forall r, ie_imageId (f r) = ie_imageId r) ->
  (forall r, ie_imageId r <> imageId -> f r = r) ->
  IE.others imageId (map f rows) = IE.others imageId rows.
Proof.
  intros Hid Hother. unfold IE.others.
  induction rows as [|r rows IH]; [reflexivity|]. cbn [map filter]. rewrite Hid.
  destruct (Z.eqb_spec (ie_imageId r) imageId) as [E|E]; cbn [negb]; [exact IH|].
  rewrite (Hother r E), IH. reflexivity.
Qed.

Lemma others_withStatus (status : Status) (imageId : Z) (rows : list ImageEmbeddingRow) :
  IE.others imageId (map (IE.withStatus status imageId) rows) = IE.others imageId rows.
Proof.
  apply others_map; intros r; unfold IE.withStatus;
    destruct (Z.eqb_spec (ie_imageId r) imageId); try reflexivity; contradiction.
Qed.

Lemma others_refreshed (imageId : Z) (row : ImageEmbeddingRow)
    (rows : list ImageEmbeddingRow) :
  ie_imageId row = imageId ->
  IE.others imageId (IE.refreshed imageId row rows) = IE.others imageId rows.
Proof.
  intros Hrow. unfold IE.refreshed. destruct (IE.rowsOf imageId rows).
  - unfold IE.others. rewrite filter_app. cbn [filter]. rewrite Hrow, Z.eqb_refl.
    cbn [negb]. apply app_nil_r.
  - apply others_map; intros r; destruct (Z.eqb_spec (ie_imageId r) imageId);
      try reflexivity; try contradiction. congruence.
Qed.

Lemma rowsOf_refreshed (imageId : Z) (row : ImageEmbeddingRow)
    (rows : list ImageEmbeddingRow) :
  ie_imageId row = imageId ->
  exists k, IE.rowsOf imageId (IE.refreshed imageId row rows) = repeat row (S k).
Proof.
  intros Hrow. unfold IE.refreshed.
  destruct (IE.rowsOf imageId rows) as [|r rest] eqn:E.
  - exists 0%nat. unfold IE.rowsOf in *. rewrite filter_app, E. cbn [filter app].
    rewrite Hrow, Z.eqb_refl. reflexivity.
  - assert (H : forall l,
              IE.rowsOf imageId
                (map (fun r => if ie_imageId r =? imageId then row else r) l) =
              repeat row (List.length (IE.rowsOf imageId l))).
    { induction l as [|x l IH]; [reflexivity|]. unfold IE.rowsOf in *.
      cbn [map filter].
      destruct (Z.eqb_spec (ie_imageId x) imageId) as [Ex|Ex].
      - rewrite Hrow, Z.eqb_refl. cbn [List.length repeat]. f_equal. exact IH.
      - destruct (Z.eqb_spec (ie_imageId x) imageId); [contradiction|]. exact IH. }
    exists (List.length rest). rewrite H, E. reflexivity.
Qed.

Lemma existsb_rowsOf (imageId : Z) (rows : list ImageEmbeddingRow) :
  IE.rowsOf imageId rows = [] ->
  existsb (fun r => ie_imageId r =? imageId) rows = false.
Proof.
  intros H. apply existsb_false. intros r Hr.
  destruct (ie_imageId r =? imageId) eqn:E; [|reflexivity].
  assert (Hin : In r (IE.rowsOf imageId rows)) by (apply filter_In; split; assumption).
  rewrite H in Hin. destruct Hin.
Qed.

(** The [try] block either throws or returns having changed nothing, or
    it returns having stored a row for the image. *)
Lemma embedDescription_outcome (host : NO.Host) (imageId : Z) (userDescription : jsstring)
    (s : NO.Store) :
  exists o s',
    IE.embedDescription host imageId userDescription s = (o, s') /\
    ((IE.isBlank userDescription = false /\ (exists e, o = Throw e) /\ s' = s) \/
     (o = Return tt /\ s' = s) \/
     (IE.isBlank userDescription = false /\ o = Return tt /\
      exists vector h,
        s' = IE.with_image_embeddings
               (IE.refreshed imageId (IE.stored host imageId userDescription vector h)
                  (image_embeddings (NO.embeddings s))) s)).
Proof.
  assert (Hthrow : forall e, IE.isBlank userDescription = false ->
            exists o s',
              (Throw e : outcome unit, s) = (o, s') /\
              ((IE.isBlank userDescription = false /\ (exists e, o = Throw e) /\ s' = s) \/
               (o = Return tt /\ s' = s) \/
               (IE.isBlank userDescription = false /\ o = Return tt /\
                exists vector h,
                  s' = IE.with_image_embeddings
                         (IE.refreshed imageId
                            (IE.stored host imageId userDescription vector h)
                            (image_embeddings (NO.embeddings s))) s))).
  { intros e Hb. exists (Throw e), s. split; [reflexivity|]. left.
    split; [exact Hb|]. split; [exists e; reflexivity|reflexivity]. }
  assert (Hidle : exists o s',
              (Return tt, s) = (o, s') /\
              ((IE.isBlank userDescription = false /\ (exists e, o = Throw e) /\ s' = s) \/
               (o = Return tt /\ s' = s) \/
               (IE.isBlank userDescription = false /\ o = Return tt /\
                exists vector h,
                  s' = IE.with_image_embeddings
                         (IE.refreshed imageId
                            (IE.stored host imageId userDescription vector h)
                            (image_embeddings (NO.embeddings s))) s))).
  { exists (Return tt), s. split; [reflexivity|]. right. left. split; reflexivity. }
  unfold IE.embedDescription. cbv zeta.
  destruct (IE.isBlank userDescription) eqn:Hb; [exact Hidle|].
  specialize (fun e => Hthrow e eq_refl).
  destruct (getEmbeddingContext (NO.base host)) as [embeddingContext|];
    [|apply Hthrow].
  unfold NO.bindT at 1, IE.await.
  destruct (hashText (NO.base host) (trim userDescription)) as [h|e]; [|apply Hthrow].
  unfold NO.bindT at 1, IE.selectImageEmbeddingHash, NO.executing.
  destruct (NO.rejects host (NO.SelectImageEmbeddingHash imageId)); [apply Hthrow|].
  unfold IE.refreshed in *.
  destruct (IE.rowsOf imageId (image_embeddings (NO.embeddings s))) as [|r rest] eqn:E;
    cbn [map].
  - unfold NO.bindT.
    destruct (embeddingContext (trim userDescription)) as [res|e]; [|apply Hthrow].
    destruct (embedding res) as [[|x v]|]; try apply Hthrow.
    unfold IE.insertImageEmbedding, NO.executing.
    match goal with |- context [NO.rejects host ?st] => destruct (NO.rejects host st) end;
      [apply Hthrow|].
    rewrite (existsb_rowsOf _ _ E).
    match goal with |- context [NO.foreignKeys host && ?b] =>
      destruct (NO.foreignKeys host && b) end; [apply Hthrow|].
    eexists. eexists. split; [reflexivity|]. right; right. split; [reflexivity|].
    split; [reflexivity|]. exists (x :: v), h. reflexivity.
  - destruct (jsstring_eqb (ie_descriptionHash r) h); [exact Hidle|].
    unfold NO.bindT.
    destruct (embeddingContext (trim userDescription)) as [res|e]; [|apply Hthrow].
    destruct (embedding res) as [[|x v]|]; try apply Hthrow.
    unfold IE.updateImageEmbedding, NO.executing.
    match goal with |- context [NO.rejects host ?st] => destruct (NO.rejects host st) end;
      [apply Hthrow|].
    eexists. eexists. split; [reflexivity|]. right; right. split; [reflexivity|].
    split; [reflexivity|]. exists (x :: v), h. reflexivity.
Qed.

(** X24.  With a database, [generateImageEmbedding] never throws and
    touches nothing but the rows of its image in [image_embeddings]:
    the store is left as it was, or only that table differs, and then
    the rows of every other image are as before.  A blank description
    leaves the store as it was, whatever the model and the engine do.
    Without a database the call throws and changes nothing. *)
Theorem generateImageEmbedding_touches_one_image (host : NO.Host) (imageId : Z)
    (userDescription : jsstring) (s : NO.Store) :
  (dbInitialized (NO.base host) = true ->
   exists s',
     IE.generateImageEmbedding host imageId userDescription s = (Return tt, s') /\
     (s' = s \/
      exists rows,
        s' = IE.with_image_embeddings rows s /\
        IE.others imageId rows =
        IE.others imageId (image_embeddings (NO.embeddings s))) /\
     (IE.isBlank userDescription = true -> s' = s)) /\
  (dbInitialized (NO.base host) = false ->
   IE.generateImageEmbedding host imageId userDescription s =
   (Throw (Error "Database not initialized. Call initializeDatabase() first."), s)).
Proof.
  split; intros Hdb; unfold IE.generateImageEmbedding, NO.bindT at 1, NO.getDatabase,
    getDatabaseInstance; rewrite Hdb; [|reflexivity].
  unfold NO.try_catchT at 1.
  destruct (embedDescription_outcome host imageId userDescription s)
    as (o & s1 & -> & [(Hb & (e & ->) & ->)|[(-> & ->)|(Hb & -> & vector & h & ->)]]).
  - unfold NO.try_catchT, IE.updateImageEmbeddingStatus, NO.executing.
    destruct (NO.rejects host _).
    + exists s. split; [reflexivity|]. split; [left; reflexivity|reflexivity].
    + eexists. split; [reflexivity|]. split.
      * right. eexists. split; [reflexivity|]. apply others_withStatus.
      * intros Hb'. rewrite Hb in Hb'. discriminate.
  - exists s. split; [reflexivity|]. split; [left; reflexivity|reflexivity].
  - eexists. split; [reflexivity|]. split.
    + right. eexists. split; [reflexivity|]. apply others_refreshed. reflexivity.
    + intros Hb'. rewrite Hb in Hb'. discriminate.
Qed.

Lemma generateImageEmbedding_touches_one_image_witness :
  exists s',
    IE.generateImageEmbedding NO.sampleHost 1 (str "   ") twoNotesStore = (Return tt, s') /\
    s' = twoNotesStore.
Proof.
  destruct (proj1 (generateImageEmbedding_touches_one_image NO.sampleHost 1 (str "   ")
                     twoNotesStore) eq_refl) as (s' & H1 & _ & H2).
  exists s'. split; [exact H1|]. apply H2. reflexivity.
Defined.

(** X25.  With nothing rejected, for an image that exists, a description
    that is not blank and whose fingerprint is not the stored one, and
    a model that returns a vector, [generateImageEmbedding] stores the
    trimmed description with its fingerprint and the vector: afterwards
    every row of the image is that completed row, its blob decodes to
    as many elements as it records, the rows of other images are as
    before, and the retrieval SELECT finds the vector under the note of
    the image.  A second run with the same description changes
    nothing. *)
Theorem image_embedding_is_stored (host : NO.Host) (imageId : Z)
    (userDescription : jsstring) (s : NO.Store) (img : Image)
    (embeddingContext : jsstring -> outcome EmbeddingResult) (h : jsstring)
    (res : EmbeddingResult) (x : float) (v : list float) :
  NO.healthy host ->
  IE.isBlank userDescription = false ->
  getEmbeddingContext (NO.base host) = Some embeddingContext ->
  hashText (NO.base host) (trim userDescription) = Return h ->
  IE.descriptionChanged imageId h (image_embeddings (NO.embeddings s)) ->
  embeddingContext (trim userDescription) = Return res ->
  embedding res = Some (x :: v) ->
  In img (images_table (NO.embeddings s)) ->
  image_id img = imageId ->
  let row := IE.stored host imageId userDescription (x :: v) h in
  exists s' decoded k,
    IE.generateImageEmbedding host imageId userDescription s = (Return tt, s') /\
    s' = IE.with_image_embeddings
           (IE.refreshed imageId row (image_embeddings (NO.embeddings s))) s /\
    IE.rowsOf imageId (image_embeddings (NO.embeddings s')) = repeat row (S k) /\
    IE.others imageId (image_embeddings (NO.embeddings s')) =
      IE.others imageId (image_embeddings (NO.embeddings s)) /\
    ie_description row = trim userDescription /\
    blobToEmbedding (ie_embedding row) = Return decoded /\
    f32_length decoded = ie_embeddingDimensions row /\
    In {| row_noteId := image_noteId img; row_embedding := ie_embedding row |}
       (completedImageEmbeddings (NO.embeddings s')) /\
    IE.generateImageEmbedding host imageId userDescription s' = (Return tt, s').
Proof.
  intros Hh Hb Hctx Hhash Hdiff Hres Hvec Himg Hid row. pose proof Hh as [Hdb Hrej].
  destruct (rowsOf_refreshed imageId row (image_embeddings (NO.embeddings s)) eq_refl)
    as [k Hk].
  set (s' := IE.with_image_embeddings
               (IE.refreshed imageId row (image_embeddings (NO.embeddings s))) s).
  assert (Hrows' : image_embeddings (NO.embeddings s') =
                   IE.refreshed imageId row (image_embeddings (NO.embeddings s)))
    by reflexivity.
  exists s', (Float32Array_from (nativeOrder (NO.base host)) (x :: v)), k.
  split.
  { unfold IE.generateImageEmbedding, NO.bindT at 1.
    rewrite getDatabase_healthy by exact Hh. unfold NO.try_catchT at 1.
    unfold IE.embedDescription. cbv zeta. rewrite Hb, Hctx.
    unfold NO.bindT at 1, IE.await. rewrite Hhash.
    unfold NO.bindT at 1, IE.selectImageEmbeddingHash.
    rewrite executing_healthy by exact Hh.
    unfold s', IE.refreshed, IE.descriptionChanged in *.
    destruct (IE.rowsOf imageId (image_embeddings (NO.embeddings s))) as [|r rest] eqn:E;
      cbn [map].
    - unfold NO.bindT. rewrite Hres, Hvec.
      unfold IE.insertImageEmbedding. rewrite executing_healthy by exact Hh.
      rewrite (existsb_rowsOf _ _ E).
      assert (Hfk : NO.hasId (map image_id (images_table (NO.embeddings s))) imageId = true).
      { apply hasId_In. rewrite <- Hid. apply in_map, Himg. }
      rewrite Hfk. cbn [negb]. rewrite Bool.andb_false_r. reflexivity.
    - rewrite (jsstring_eqb_neq _ _ (Hdiff r eq_refl)).
      unfold NO.bindT. rewrite Hres, Hvec.
      unfold IE.updateImageEmbedding. rewrite executing_healthy by exact Hh.
      reflexivity. }
  split; [reflexivity|].
  split; [rewrite Hrows'; exact Hk|].
  split; [rewrite Hrows'; apply others_refreshed; reflexivity|].
  split; [reflexivity|].
  split; [exact (freshRow_decodes (NO.base host) 0 (x :: v) [])|].
  split; [reflexivity|].
  assert (Hin : In row (image_embeddings (NO.embeddings s'))).
  { assert (H : In row (IE.rowsOf imageId (image_embeddings (NO.embeddings s'))))
      by (rewrite Hrows', Hk; left; reflexivity).
    apply filter_In in H. apply H. }
  split.
  { unfold completedImageEmbeddings. apply in_flat_map. exists row. split.
    - apply filter_In. split; [exact Hin|reflexivity].
    - apply (in_map (fun i => {| row_noteId := image_noteId i;
                                 row_embedding := ie_embedding row |})).
      apply filter_In. split; [exact Himg|].
      apply Z.eqb_eq. rewrite Hid. reflexivity. }
  unfold IE.generateImageEmbedding, NO.bindT at 1.
  rewrite getDatabase_healthy by exact Hh. unfold NO.try_catchT at 1.
  unfold IE.embedDescription. cbv zeta. rewrite Hb, Hctx.
  unfold NO.bindT at 1, IE.await. rewrite Hhash.
  unfold NO.bindT at 1, IE.selectImageEmbeddingHash.
  rewrite executing_healthy by exact Hh.
  rewrite Hrows', Hk. cbn [repeat map].
  change (ie_descriptionHash row) with h. rewrite jsstring_eqb_refl. reflexivity.
Qed.

Lemma image_embedding_is_stored_witness :
  exists s',
    IE.generateImageEmbedding NO.sampleHost 1 (str " the shore ") twoNotesStore =
      (Return tt, s') /\
    image_embeddings (NO.embeddings s') =
      [IE.stored NO.sampleHost 1 (str " the shore ") [1; 0]%float (str "sha256:the shore")].
Proof.
  destruct (image_embedding_is_stored NO.sampleHost 1 (str " the shore ") twoNotesStore
              {| image_id := 1; image_noteId := 1; image_uri := str "file:a.jpg";
                 image_description := str "the shore" |}
              (fun _ => Return {| embedding := Some [1; 0]%float |})
              (str "sha256:the shore")
              {| embedding := Some [1; 0]%float |} 1%float [0%float])
    as (s' & decoded & k & H1 & H2 & _).
  - split; reflexivity.
  - reflexivity.
  - reflexivity.
  - reflexivity.
  - intros r Hr. discriminate Hr.
  - reflexivity.
  - reflexivity.
  - left. reflexivity.
  - reflexivity.
  - exists s'. split; [exact H1|]. rewrite H2. reflexivity.
Defined.

(** X26.  When the run gets no vector (the embedding context is
    missing, or the description is new and the model throws or returns
    nothing), [generateImageEmbedding] still returns.  The rows of the
    image are marked failed, keeping their description, vector and
    fingerprint, unless that UPDATE is rejected, in which case nothing
    changes; no row is created, and afterwards the retrieval SELECT
    yields no vector of that image.  A missing context marks the rows
    failed even when the description is the stored one. *)
Theorem image_embedding_failure_absorbed (host : NO.Host) (imageId : Z)
    (userDescription : jsstring) (s : NO.Store) :
  dbInitialized (NO.base host) = true ->
  IE.isBlank userDescription = false ->
  IE.noVector host imageId userDescription s ->
  exists s',
    IE.generateImageEmbedding host imageId userDescription s = (Return tt, s') /\
    s' = (if NO.rejects host (NO.UpdateImageEmbeddingStatus failed imageId) then s
          else IE.with_image_embeddings
                 (map (IE.withStatus failed imageId) (image_embeddings (NO.embeddings s)))
                 s) /\
    (NO.rejects host (NO.UpdateImageEmbeddingStatus failed imageId) = false ->
     forall row, In row (completedImageEmbeddings (NO.embeddings s')) ->
       exists ie i,
         In ie (image_embeddings (NO.embeddings s)) /\ ie_imageId ie <> imageId /\
         ie_status ie = completed /\ In i (images_table (NO.embeddings s)) /\
         image_id i = ie_imageId ie /\
         row = {| row_noteId := image_noteId i; row_embedding := ie_embedding ie |}).
Proof.
  intros Hdb Hb Hno.
  assert (Hbody : exists e, IE.embedDescription host imageId userDescription s =
                            (Throw e, s)).
  { unfold IE.embedDescription. cbv zeta. rewrite Hb.
    destruct Hno as [Hctx|(embeddingContext & h & Hctx & Hhash & Hsel & Hdiff & Hfail)];
      rewrite Hctx; [eexists; reflexivity|].
    unfold NO.bindT at 1, IE.await. rewrite Hhash.
    unfold NO.bindT at 1, IE.selectImageEmbeddingHash, NO.executing. rewrite Hsel.
    assert (Hne : match map ie_descriptionHash
                          (IE.rowsOf imageId (image_embeddings (NO.embeddings s))) with
                  | existingHash :: _ => jsstring_eqb existingHash h
                  | [] => false
                  end = false).
    { unfold IE.descriptionChanged in Hdiff.
      destruct (IE.rowsOf imageId (image_embeddings (NO.embeddings s))) as [|r rest];
        [reflexivity|].
      cbn [map]. apply jsstring_eqb_neq, Hdiff. reflexivity. }
    rewrite Hne. unfold NO.bindT, IE.await.
    unfold embedding_failed in Hfail.
    destruct (embeddingContext (trim userDescription)) as [res|e];
      [|eexists; reflexivity].
    destruct (embedding res) as [[|x v]|]; try (eexists; reflexivity). destruct Hfail. }
  destruct Hbody as [e Hbody].
  unfold IE.generateImageEmbedding, NO.bindT at 1, NO.getDatabase, getDatabaseInstance.
  rewrite Hdb. unfold NO.try_catchT at 1. rewrite Hbody.
  unfold NO.try_catchT, IE.updateImageEmbeddingStatus, NO.executing.
  destruct (NO.rejects host (NO.UpdateImageEmbeddingStatus failed imageId)).
  - exists s. split; [reflexivity|]. split; [reflexivity|discriminate].
  - eexists. split; [reflexivity|]. split; [reflexivity|]. intros _ row Hrow.
    unfold completedImageEmbeddings in Hrow.
    cbn [IE.with_image_embeddings NO.embeddings NO.with_embeddings withImageEmbeddings
         image_embeddings images_table] in Hrow.
    apply in_flat_map in Hrow as (ie' & Hie & Hrow).
    apply filter_In in Hie as [Hie Hst]. apply in_map_iff in Hie as (ie & <- & Hie).
    apply in_map_iff in Hrow as (i & <- & Hi). apply filter_In in Hi as [Hi Hii].
    apply Z.eqb_eq in Hii. unfold IE.withStatus in *.
    destruct (Z.eqb_spec (ie_imageId ie) imageId) as [E|E]; [discriminate Hst|].
    exists ie, i. repeat split; try assumption.
    destruct (ie_status ie); [reflexivity|discriminate Hst].
Qed.

Lemma image_embedding_failure_absorbed_witness :
  exists s',
    IE.generateImageEmbedding IE.withoutContext 1 (str "the shore") IE.embeddedStore =
      (Return tt, s') /\
    map ie_status (image_embeddings (NO.embeddings s')) = [failed].
Proof.
  destruct (image_embedding_failure_absorbed IE.withoutContext 1 (str "the shore")
              IE.embeddedStore eq_refl eq_refl (or_introl eq_refl))
    as (s' & H1 & H2 & _).
  exists s'. split; [exact H1|]. rewrite H2. reflexivity.
Defined.

(* ================================================================== *)
(** * Part XXIV. Opening and migrating the database                    *)
(* ================================================================== *)

Lemma execute_accepted (driver : DB.Driver) (statement : DB.MigrationSql) (m : DB.State) :
  DB.executeFails driver statement = false ->
  DB.execute driver statement m =
  (Return tt,
   {| DB.dbInstance := DB.dbInstance m; DB.file := DB.apply statement (DB.file m);
      DB.opened := DB.opened m; DB.closed := DB.closed m;
      DB.executed := DB.executed m ++ [statement] |}).
Proof. intros H. unfold DB.execute. cbv zeta. rewrite H. reflexivity. Qed.

Lemma execute_rejected (driver : DB.Driver) (statement : DB.MigrationSql) (m : DB.State) :
  DB.executeFails driver statement = true ->
  DB.execute driver statement m =
  (Throw (Error "db.execute rejected"),
   {| DB.dbInstance := DB.dbInstance m; DB.file := DB.file m;
      DB.opened := DB.opened m; DB.closed := DB.closed m;
      DB.executed := DB.executed m ++ [statement] |}).
Proof. intros H. unfold DB.execute. cbv zeta. rewrite H. reflexivity. Qed.

Ltac executes driver statement :=
  let E := fresh "E" in
  try unfold DB.bindP at 1;
  destruct (DB.executeFails driver statement) eqn:E;
  [rewrite (execute_rejected driver statement _ E)
  |rewrite (execute_accepted driver statement _ E)];
  cbv beta iota;
  cbn [DB.file DB.apply DB.dbInstance DB.opened DB.closed DB.executed
       DB.user_version DB.journal_wal DB.tables_created].

(** The migration never touches [dbInstance]; it throws exactly when a
    statement it reaches is rejected, and then the version of the file
    is as it was. *)
Lemma migrateDbIfNeeded_keeps (driver : DB.Driver) (m : DB.State) :
  exists o m',
    DB.migrateDbIfNeeded driver m = (o, m') /\
    DB.dbInstance m' = DB.dbInstance m /\
    (DB.migrationFails driver (DB.file m) -> exists e, o = Throw e) /\
    ((exists e, o = Throw e) ->
     DB.user_version (DB.file m') = DB.user_version (DB.file m)).
Proof.
  unfold DB.migrateDbIfNeeded, DB.readUserVersion, DB.migrationFails.
  unfold DB.bindP at 1.
  executes driver DB.PragmaUserVersion.
  { eexists; eexists. split; [reflexivity|]. split; [reflexivity|].
    split; [eexists; reflexivity|reflexivity]. }
  destruct (Z.geb_spec (DB.user_version (DB.file m)) DB.DATABASE_VERSION) as [Hge|Hlt].
  { eexists; eexists. split; [reflexivity|]. split; [reflexivity|].
    split; [|intros [e H]; discriminate H].
    intros [H|(H & _)]; [discriminate H|lia]. }
  unfold DB.bindP at 1.
  destruct (Z.eqb_spec (DB.user_version (DB.file m)) 0) as [Hz|Hnz].
  - executes driver DB.PragmaJournalModeWal.
    { eexists; eexists. split; [reflexivity|]. split; [reflexivity|].
      split; [eexists; reflexivity|reflexivity]. }
    executes driver DB.CreateTables.
    { eexists; eexists. split; [reflexivity|]. split; [reflexivity|].
      split; [eexists; reflexivity|reflexivity]. }
    executes driver (DB.SetUserVersion DB.DATABASE_VERSION).
    { eexists; eexists. split; [reflexivity|]. split; [reflexivity|].
      split; [eexists; reflexivity|reflexivity]. }
    eexists; eexists. split; [reflexivity|]. split; [reflexivity|].
    split; [|intros [e H]; discriminate H].
    intros [H|(_ & [H|(_ & [H|H])])]; congruence.
  - unfold DB.retP. cbv beta iota.
    executes driver (DB.SetUserVersion DB.DATABASE_VERSION).
    { eexists; eexists. split; [reflexivity|]. split; [reflexivity|].
      split; [eexists; reflexivity|reflexivity]. }
    eexists; eexists. split; [reflexivity|]. split; [reflexivity|].
    split; [|intros [e H]; discriminate H].
    intros [H|(_ & [H|(H & _)])]; congruence.
Qed.

(** X27.  A failed first initialisation is not retried.  When the file
    opens but a statement of the migration is rejected,
    [initializeDatabase] throws, yet [dbInstance] stays set and the
    file keeps its version: [getDatabaseInstance] hands out the
    connection, and every later [initializeDatabase] returns it without
    running a statement, whatever the driver does by then. *)
Theorem failed_migration_is_not_retried (driver : DB.Driver) (m : DB.State) :
  DB.dbInstance m = None ->
  DB.openFails driver = false ->
  DB.migrationFails driver (DB.file m) ->
  exists e m',
    DB.initializeDatabase driver m = (Throw e, m') /\
    DB.dbInstance m' = Some (DB.opened m) /\
    DB.user_version (DB.file m') = DB.user_version (DB.file m) /\
    DB.getDatabaseInstance m' = Return (DB.opened m) /\
    forall later, DB.initializeDatabase later m' = (Return (DB.opened m), m').
Proof.
  intros Hnone Hopen Hfail.
  unfold DB.initializeDatabase. rewrite Hnone.
  unfold DB.bindP at 1, DB.openDatabase. rewrite Hopen.
  set (m1 := {| DB.dbInstance := Some (DB.opened m); DB.file := DB.file m;
                DB.opened := S (DB.opened m); DB.closed := DB.closed m;
                DB.executed := DB.executed m |}).
  destruct (migrateDbIfNeeded_keeps driver m1) as (o & m' & Hrun & Hinst & Hthrows & Hver).
  destruct (Hthrows Hfail) as [e ->].
  exists e, m'. unfold DB.bindP. rewrite Hrun.
  split; [reflexivity|]. split; [exact Hinst|].
  split; [apply Hver; exists e; reflexivity|].
  split; [unfold DB.getDatabaseInstance; rewrite Hinst; reflexivity|].
  intros later. rewrite Hinst. reflexivity.
Qed.

Lemma failed_migration_is_not_retried_witness :
  exists e m',
    DB.initializeDatabase DB.rejectingCreate DB.start = (Throw e, m') /\
    DB.tables_created (DB.file m') = false /\
    DB.initializeDatabase DB.reliable m' = (Return 0%nat, m').
Proof.
  destruct (failed_migration_is_not_retried DB.rejectingCreate DB.start)
    as (e & m' & H1 & _ & _ & _ & H2).
  - reflexivity.
  - reflexivity.
  - right. split; [reflexivity|]. right. split; [reflexivity|]. right. reflexivity.
  - exists e, m'. split; [exact H1|]. split; [|apply H2].
    vm_compute in H1. injection H1 as _ <-. reflexivity.
Defined.

(** X28.  With nothing rejected, [initializeDatabase] on a closed module
    opens a connection and migrates: it runs the statements of the
    file's version in order, a file of version 0 has the CREATE script
    run and every file below version 1 is stamped 1, so a file of
    negative version is stamped without the script; a file of version 1
    or more is only read.  After [closeDatabase], [getDatabaseInstance]
    throws, and initialising again opens the next connection and only
    reads the version. *)
Theorem migration_runs_once (driver : DB.Driver) (m : DB.State) :
  DB.dbInstance m = None ->
  DB.openFails driver = false ->
  DB.closeFails driver = false ->
  (forall statement, DB.executeFails driver statement = false) ->
  exists m1 m2 m3,
    DB.initializeDatabase driver m = (Return (DB.opened m), m1) /\
    DB.getDatabaseInstance m1 = Return (DB.opened m) /\
    DB.executed m1 = DB.executed m ++ DB.statementsFor (DB.user_version (DB.file m)) /\
    DB.user_version (DB.file m1) = Z.max 1 (DB.user_version (DB.file m)) /\
    DB.tables_created (DB.file m1) =
      (DB.tables_created (DB.file m) || (DB.user_version (DB.file m) =? 0)) /\
    DB.closeDatabase driver m1 = (Return tt, m2) /\
    DB.getDatabaseInstance m2 =
      Throw (Error "Database not initialized. Call initializeDatabase() first.") /\
    DB.initializeDatabase driver m2 = (Return (S (DB.opened m)), m3) /\
    DB.file m3 = DB.file m1 /\
    DB.executed m3 = DB.executed m1 ++ [DB.PragmaUserVersion].
Proof.
  intros Hnone Hopen Hclose Hexec.
  assert (Hinit : forall m0, DB.dbInstance m0 = None ->
            exists m',
              DB.initializeDatabase driver m0 = (Return (DB.opened m0), m') /\
              DB.dbInstance m' = Some (DB.opened m0) /\
              DB.opened m' = S (DB.opened m0) /\
              DB.closed m' = DB.closed m0 /\
              DB.executed m' =
                DB.executed m0 ++ DB.statementsFor (DB.user_version (DB.file m0)) /\
              DB.file m' =
                (if DB.user_version (DB.file m0) >=? DB.DATABASE_VERSION then DB.file m0
                 else {| DB.user_version := 1;
                         DB.journal_wal :=
                           DB.journal_wal (DB.file m0) ||
                           (DB.user_version (DB.file m0) =? 0);
                         DB.tables_created :=
                           DB.tables_created (DB.file m0) ||
                           (DB.user_version (DB.file m0) =? 0) |})).
  { intros m0 H0. unfold DB.initializeDatabase. rewrite H0.
    unfold DB.bindP at 1, DB.openDatabase. rewrite Hopen.
    unfold DB.bindP at 1, DB.migrateDbIfNeeded, DB.readUserVersion.
    unfold DB.bindP at 1, DB.bindP at 1.
    rewrite execute_accepted by apply Hexec. cbv beta iota.
    cbn [DB.file DB.apply DB.dbInstance DB.opened DB.closed DB.executed].
    unfold DB.statementsFor.
    destruct (DB.user_version (DB.file m0) >=? DB.DATABASE_VERSION).
    - eexists. split; [reflexivity|]. repeat split.
    - unfold DB.bindP at 1.
      destruct (DB.user_version (DB.file m0) =? 0).
      + unfold DB.bindP at 1.
        rewrite execute_accepted by apply Hexec. cbv beta iota.
        rewrite execute_accepted by apply Hexec. cbv beta iota.
        rewrite execute_accepted by apply Hexec. unfold DB.retP.
        eexists. split; [reflexivity|].
        cbn [DB.file DB.apply DB.dbInstance DB.opened DB.closed DB.executed
             DB.user_version DB.journal_wal DB.tables_created].
        rewrite !Bool.orb_true_r, <- !app_assoc. repeat split.
      + unfold DB.retP. cbv beta iota.
        rewrite execute_accepted by apply Hexec.
        eexists. split; [reflexivity|].
        cbn [DB.file DB.apply DB.dbInstance DB.opened DB.closed DB.executed
             DB.user_version DB.journal_wal DB.tables_created].
        rewrite !Bool.orb_false_r, <- !app_assoc. repeat split. }
  destruct (Hinit m Hnone) as (m1 & Hrun1 & Hinst1 & Hop1 & Hcl1 & Hex1 & Hfile1).
  assert (Hver1 : DB.user_version (DB.file m1) = Z.max 1 (DB.user_version (DB.file m))).
  { rewrite Hfile1. unfold DB.DATABASE_VERSION.
    destruct (Z.geb_spec (DB.user_version (DB.file m)) 1); cbn [DB.user_version]; lia. }
  set (m2 := {| DB.dbInstance := None; DB.file := DB.file m1; DB.opened := DB.opened m1;
                DB.closed := DB.closed m1 ++ [DB.opened m];
                DB.executed := DB.executed m1 |}).
  destruct (Hinit m2 eq_refl) as (m3 & Hrun3 & _ & _ & _ & Hex3 & Hfile3).
  assert (Hge : (DB.user_version (DB.file m2) >=? DB.DATABASE_VERSION) = true).
  { change (DB.file m2) with (DB.file m1). rewrite Hver1. unfold DB.DATABASE_VERSION.
    apply Z.geb_le. lia. }
  exists m1, m2, m3.
  split; [exact Hrun1|].
  split; [unfold DB.getDatabaseInstance; rewrite Hinst1; reflexivity|].
  split; [exact Hex1|].
  split; [exact Hver1|].
  split.
  { rewrite Hfile1. unfold DB.DATABASE_VERSION.
    destruct (Z.geb_spec (DB.user_version (DB.file m)) 1) as [H|H];
      cbn [DB.tables_created]; [|reflexivity].
    destruct (Z.eqb_spec (DB.user_version (DB.file m)) 0); [lia|].
    rewrite Bool.orb_false_r. reflexivity. }
  split.
  { unfold DB.closeDatabase. rewrite Hinst1, Hclose. reflexivity. }
  split; [reflexivity|].
  split; [change (DB.opened m2) with (DB.opened m1) in Hrun3; rewrite Hop1 in Hrun3;
          exact Hrun3|].
  split.
  { rewrite Hfile3, Hge. reflexivity. }
  rewrite Hex3. unfold DB.statementsFor. rewrite Hge. reflexivity.
Qed.

Lemma migration_runs_once_witness :
  exists m1,
    DB.initializeDatabase DB.reliable DB.start = (Return 0%nat, m1) /\
    DB.executed m1 = [DB.PragmaUserVersion; DB.PragmaJournalModeWal; DB.CreateTables;
                      DB.SetUserVersion 1] /\
    DB.tables_created (DB.file m1) = true.
Proof.
  destruct (migration_runs_once DB.reliable DB.start eq_refl eq_refl eq_refl
              (fun _ => eq_refl))
    as (m1 & m2 & m3 & H1 & _ & H2 & _ & H3 & _).
  exists m1. split; [exact H1|]. split; [exact H2|exact H3].
Defined.
